(* ===== verification/_CoqProject ===== *)
-Q . S2P
Prelude.v
Bitmap.v
Schedee.v
RunqArray.v
Sched.v
SchedFacts.v
SchedLoop.v
SchedTheorems.v
Waitq.v
Ring.v
MsgBuff.v
DeltaList.v
HeadTimer.v
Pool.v
Time.v
Sync.v
SyncRun.v
SyncFacts.v
SyncObjects.v
SyncTheorems.v
SysTimer.v
HeadTimerSmp.v
Indexator.v
PageAlloc.v
HeapBm.v
HeapList.v
HeapLayout.v
HeapOps.v
HeapFree.v
HeapAlloc.v
HeapSearch.v
HeapTheorems.v
MspacePages.v
Mspace.v
MspaceSegs.v
MspaceFacts.v
MspaceTheorems.v
Smac.v
Skb.v
SkbTheorems.v
Ip.v
IpFrag.v
IpFragFacts.v
IpFragList.v
IpFragTheorems.v
IpFragSend.v
IpFragRoundtrip.v
Route.v
RouteTheorems.v
IpOutput.v
IpOutputTheorems.v
IpSendTheorems.v
Signal.v
SignalTheorems.v
Idesc.v
IdescSpec.v
IdescFacts.v
IdescTheorems.v
Crc.v
B64.v
