(* ===== verification/Prelude.v ===== *)
(** Verification of Embox, a real-time operating system in C.

    The development models parts of the kernel, of its memory management and
    network stack, and of its libraries, as executable definitions over the
    integers, and proves what these parts promise.  Paths are those of the
    repository, [src/...].

    * Conventions

    A [w]-bit integer is a [Z] that is wrapped where the code wraps ([u8],
    [u16], [u32], [u64], [s32], [s64]); [unsigned long], [size_t] and [long]
    have the width of the target ([ul], [sl], with [arch] and [ArchOk]: ILP32
    or LP64).  Pointers are addresses, 0 is NULL.  Intrusive lists
    ([struct dlist_head], [struct slist]) are the lists of the objects linked
    on them, or the links themselves in a memory where the code depends on
    them (the heap).  [None] is a failed [assert], a NULL dereference, an
    access outside of an object or a read of one that has been freed, so that a
    theorem that says [Some] says that none of these happens.  Error codes
    are values.  A function that runs under a spin lock, with interrupts off
    or with the scheduler locked is one step; where threads interleave between
    such steps, the steps are those of a relation and the theorems are about all
    its runs.  Code outside a model (handlers, drivers, clocks, other layers) is
    a parameter, and where something is asked of it a type class says what.

    This file has the notation, the machine integers, the lemmas on lists and
    memory that the others share, the tactics [zbool], [zbool_in] and
    [simplify_option], and the hint database [embox].

    * The parts, their files, and what is shown

    ** Scheduling: [src/kernel/sched], [src/kernel/thread], [src/kernel/lthread]

    [Bitmap.v] ([lib/libds/bit], [lib/libds/bitmap]): bit searches and bitmaps;
    a search returns the least index.  [Schedee.v] ([include/kernel/sched.h],
    [priority/inherit.c], [affinity/smp.h]): schedees, priorities with
    inheritance, and the interface of a run queue, [RunqOps] with the laws
    [RunqSpec].  [RunqArray.v] ([strategy/runq/list_array.c]) implements it: the
    array of lists with its map of occupied levels refines a plain sorted queue
    ([runq_refines]).  [Sched.v] ([sched.c], [sched_signal.c],
    [thread/core.c], [lthread.c]) is the scheduler of one CPU over any
    run queue; [SchedFacts.v] has its invariant [sched_inv], [SchedLoop.v] the
    termination of [__schedule], and [SchedTheorems.v] the theorems: the CPU
    goes to a thread of the greatest ready priority, in turn among equals;
    wakeups, termination and inheritance keep the flags, the queue and the CPU in
    agreement.

    ** Waiting and synchronisation: [src/kernel/thread/sync],
       [src/kernel/sched/waitq.c]

    [Waitq.v] has the wait queues, [Sync.v] mutexes, semaphores, reader-writer
    locks, barriers and condition variables.  [SyncRun.v] runs threads that wait
    on an object step by step, over the real scheduler, with preemption,
    spurious wakeups and interrupted waits; [SyncFacts.v] proves what every object
    that satisfies the interface [SyncOk] guarantees, [SyncObjects.v] gives the
    instances, and [SyncTheorems.v] concludes: mutual exclusion, that a thread
    sleeps only while another holds the object, and that [cond_wait] loses no
    wakeup.  For reader-writer locks this holds when no wait is interrupted;
    [rwlock_interrupted_writers] is a run with an interrupted wait in which two
    writers hold the lock.

    ** Time: [src/kernel/time]

    [Time.v] (time arithmetic), [DeltaList.v] (the list both timer strategies
    edit), [HeadTimer.v] and [HeadTimerSmp.v] (the strategies for one and for
    several CPUs), [SysTimer.v] (the timers over the interface [TimerStrat]): the
    loops end, and a queue is a sorted list of absolute expiries whatever is
    started and stopped.  With handlers that leave the timers alone, a pass of
    the strategy for several CPUs fires exactly the timers that are due, and one
    of the strategy for one CPU can miss some ([timer_strat_sched_misses_due]).

    ** Memory: [src/mem]

    [Pool.v] ([misc/pool.c]), [PageAlloc.v] ([pagealloc/bitmask.c]).
    [HeapBm.v] ([heap/heap_bm.c]) is the boundary-marker heap on a memory of
    words; [HeapList.v], [HeapLayout.v], [HeapOps.v], [HeapFree.v],
    [HeapAlloc.v] and [HeapSearch.v] relate the words to a list of blocks, and
    [HeapTheorems.v] shows that the heap refines an allocator of disjoint aligned
    blocks.  [MspacePages.v], [Mspace.v] ([heap/mspace_malloc.c], [malloc.c],
    [sysmalloc.c]) are the heaps of tasks, made of segments;
    [MspaceSegs.v], [MspaceFacts.v], [MspaceTheorems.v]: a block is fresh and
    aligned, an empty segment is given back, and the cache of failed requests
    changes no result.

    ** Tasks: [src/kernel/task/idesc], [src/kernel/thread/signal],
       [src/security]

    [Idesc.v] (descriptor tables, [close], [dup], [dup2], [fcntl]),
    [IdescSpec.v], [IdescFacts.v], [IdescTheorems.v]: all tasks' tables refine
    maps from file descriptors to descriptors, and a descriptor is closed once,
    when its last reference goes.  [Signal.v], [SignalTheorems.v]: pending
    signals refine a set of numbers with queues of bounded total length.
    [Smac.v]: mandatory access control decides as its policy says.

    ** Network: [src/net]

    [Skb.v] ([skbuff/skb.c], [skb_data.c], [skb_queue.c]) is packet memory, over
    an interface for the heap ([SysHeap], [SysHeapOk]); [SkbTheorems.v]: data that
    buffers share are freed with the last of them, and copying, cloning,
    decloning and freeing a buffer leave the others as they are.  [Ip.v] (the IPv4 header, its checksum, the tests of
    [ip_rcv]): the checksum does not depend on the byte order and shows every
    change of one 16-bit word but that between 0 and 0xFFFF, which one's
    complement cannot show.  [IpFrag.v] ([l3/ipv4/ip_fragment.c]) is fragmentation and
    reassembly; [IpFragFacts.v], [IpFragList.v] and [IpFragTheorems.v] treat the
    receiver, [IpFragSend.v] the sender, and [IpFragRoundtrip.v] joins them: what
    is taken apart is put together again when the last fragment arrives last,
    whatever the order of the others; [defrag_misses_reordered] has the other
    case.  [Route.v] ([inetdev.c],
    [l3/route.c]), [RouteTheorems.v]: among prefixes of at most 31 bits the
    longest is chosen; on 64-bit machines a host route loses to any of them.  [IpOutput.v] ([l3/ipv4/ip_output.c])
    sends and forwards over the interfaces [LinkLayer] and [IcmpLayer];
    [IpOutputTheorems.v] follows the ownership of buffers ([gave]), and
    [IpSendTheorems.v] shows that every path of [ip_snd] and [ip_forward], for a
    well-formed packet whose data are not shared, gives away exactly that packet,
    and that the frames sent for it pass the tests of [ip_rcv].
    [LinkLayer] asks that [net_tx] takes the packet whatever it returns; when
    the table of neighbours is full the code of [l0/net_tx.c] does not.

    ** Libraries: [src/lib]

    [Ring.v] and [MsgBuff.v] ([libds/ring], [ring_buff], [msg_buff]): a ring
    buffer refines a bounded queue ([FifoOps], [FifoSpec]), and messages pass
    whole and in order to a reader that has room for them.  [Indexator.v] ([libds/indexator]).  [Crc.v]
    ([crypt/crc32], [crypt/crc16]): the tables compute the shift register, which
    detects bursts.  [B64.v] ([crypt/b64]): decoding is safe on any input, and
    inverts encoding unless the code has a plus sign, which it refuses.

    * Bounds and fuel

    Loops that are structural in a list or a count are such recursions.  The
    others take fuel, and a theorem says what is enough: [__schedule] needs more
    than the number of lthreads that are ready, since each leaves the queue when
    it runs; a pass over timers more than the length of the queue; the walk over
    the free list of a heap more than its length, which is at most the number of
    words of the memory; the normalisation loops of [Time.v] two more than the
    seconds that the nanoseconds make; [msg_buff_dequeue] one unit for each 16
    bytes that are queued; [ip_frag] one unit for each byte of the packet, since
    a fragment takes at least 8.  Where an integer could overflow, the theorem
    has the bound that excludes it as a hypothesis (IP packets below [2^16]
    bytes, ring buffers below [2^31] elements, timers started for less than
    [2^32] ticks, fewer than [2^31] descriptors in all tables).  The witness
    behind each property with hypotheses applies it to a concrete state.

    * Not modelled

    - The architecture layer, drivers, clock sources and the interrupt
      dispatcher: assembly and registers, seen here as interleavings and
      parameters.
    - The scheduler's paths for several CPUs, other run-queue strategies, the
      creation and joining of threads and tasks: they need the context switch or
      wrap what is modelled.
    - [mspace_deep_store] and [mspace_deep_restore], memory mapping and virtual
      memory: bytes behind page tables that the architecture layer writes.
    - Of the network, devices and address resolution, ICMP, UDP and TCP, sockets,
      the packet filter, IP options, the rest of [ip_rcv], [ip_make] and IPv6.
      The modelled parts meet them at the interfaces above.
    - File systems, the C library and the other compatibility layers, and the
      remaining utility libraries: large parts of their own that have not been
      taken up.  What the modelled code uses of the C library ([memcpy],
      [memset], [strcmp] and the like) is written out where it is used.
    - Smaller omissions beside what is modelled: [cycles32_to_timespec], the
      allocation of interval timers, [skb_extra.c], and the descriptor calls that
      only invoke a driver ([read], [write], [ioctl], [poll], [select]).
    - Commands, services, tests, the build framework, generated tables and the
      profiler: programs that use the system, or descriptions of it. *)
From stdpp Require Export base option list numbers gmap.
From Stdlib Require Export ZArith Lia.

Create HintDb embox.

Declare Scope embox_scope.
Delimit Scope embox_scope with embox.

Local Open Scope Z_scope.

(** * The data model of the target

    Embox is built for ILP32 and for LP64 targets; [unsigned long], [size_t]
    and [uintptr_t] have the same width on both. *)
Class arch := Arch { LONG_BIT : Z }.
Class ArchOk (A : arch) : Prop := long_bit_ok : LONG_BIT = 32 \/ LONG_BIT = 64.

Definition ilp32 : arch := {| LONG_BIT := 32 |}.
Definition lp64 : arch := {| LONG_BIT := 64 |}.
#[export] Instance ilp32_ok : ArchOk ilp32.
Proof. left. reflexivity. Qed.
#[export] Instance lp64_ok : ArchOk lp64.
Proof. right. reflexivity. Qed.

(** * Machine integers: a [w]-bit integer is a [Z], wrapped explicitly. *)
Definition wrap (w x : Z) : Z := x mod 2 ^ w.
Definition swrap (w x : Z) : Z := (x + 2 ^ (w - 1)) mod 2 ^ w - 2 ^ (w - 1).

Abbreviation u8 := (wrap 8).
Abbreviation u16 := (wrap 16).
Abbreviation u32 := (wrap 32).
Abbreviation u64 := (wrap 64).
Abbreviation s32 := (swrap 32).
Abbreviation s64 := (swrap 64).

(** [unsigned long] / [size_t] arithmetic. *)
Definition ul `{A : arch} (x : Z) : Z := wrap LONG_BIT x.

(** [long] arithmetic: the value a signed result wraps to; the theorems have
    the ranges in which nothing wraps, C leaving signed overflow undefined. *)
Definition sl `{A : arch} (x : Z) : Z := swrap LONG_BIT x.

(** The complement [~x] of a [w]-bit word. *)
Definition wnot (w x : Z) : Z := wrap w (Z.lnot x).

(** C truth values. *)
Definition b2z (b : bool) : Z := if b then 1 else 0.

(** * Failure

    A computation that can hit a failed [assert] or undefined behaviour (an
    access outside an array, a shift by too much) returns an [option]; [None]
    stands for the failure.  [assert! b ;; k] is the C [assert(b); k]. *)
Notation "'assert!' b ';;' k" := (if b then k else None)
  (at level 100, b at next level, k at level 200, right associativity) : embox_scope.

(** * Arrays: a C array is a list, indexed by a [Z]. *)
Definition znth {A} (l : list A) (i : Z) : option A :=
  if 0 <=? i then l !! Z.to_nat i else None.
Definition zset {A} (l : list A) (i : Z) (x : A) : option (list A) :=
  if (0 <=? i) && (i <? Z.of_nat (length l))
  then Some (<[Z.to_nat i := x]> l) else None.
Definition zlen {A} (l : list A) : Z := Z.of_nat (length l).

(** [memcpy] of part of an array: the elements [off, off + n) of [l]. *)
Definition zread {A} (l : list A) (off n : Z) : option (list A) :=
  if (0 <=? off) && (0 <=? n) && (off + n <=? zlen l)
  then Some (take (Z.to_nat n) (drop (Z.to_nat off) l)) else None.
(** [memcpy] of [x] over the elements of [l] from [off] on. *)
Definition zwrite {A} (l : list A) (off : Z) (x : list A) : option (list A) :=
  if (0 <=? off) && (off + zlen x <=? zlen l)
  then Some (take (Z.to_nat off) l ++ x ++ drop (Z.to_nat off + length x) l) else None.

(** * The bytes of an integer in memory, least significant first *)
Fixpoint le_bytes (n : nat) (x : Z) : list Z :=
  match n with O => [] | S n => x mod 256 :: le_bytes n (x / 256) end.
Fixpoint le_val (l : list Z) : Z :=
  match l with [] => 0 | b :: l => b + 256 * le_val l end.

(** * Tactics *)

(** Case analysis on the boolean tests of the code, turned into
    propositions that [lia] understands. *)
Ltac zbool :=
  repeat match goal with
  | |- context [?a =? ?b] => destruct (Z.eqb_spec a b)
  | |- context [?a <? ?b] => destruct (Z.ltb_spec a b)
  | |- context [?a <=? ?b] => destruct (Z.leb_spec a b)
  | |- context [?a >? ?b] => rewrite (Z.gtb_ltb a b)
  | |- context [?a >=? ?b] => rewrite (Z.geb_leb a b)
  end.

Ltac zbool_in H :=
  repeat match type of H with
  | context [?a =? ?b] => destruct (Z.eqb_spec a b)
  | context [?a <? ?b] => destruct (Z.ltb_spec a b)
  | context [?a <=? ?b] => destruct (Z.leb_spec a b)
  | context [?a >? ?b] => rewrite (Z.gtb_ltb a b) in H
  | context [?a >=? ?b] => rewrite (Z.geb_leb a b) in H
  end.

(** Takes an [option]-monadic hypothesis apart, naming nothing. *)
Ltac simplify_option :=
  repeat match goal with
  | H : context [mbind _ ?o = Some _] |- _ => destruct o eqn:?; cbn in H
  | H : Some _ = Some _ |- _ => injection H as H; subst
  | H : None = Some _ |- _ => discriminate H
  | H : (if ?b then _ else None) = Some _ |- _ => destruct b eqn:?; [|discriminate H]
  end.

(** * Machine-integer lemmas *)

Lemma wrap_bounds w x : 0 <= w -> 0 <= wrap w x < 2 ^ w.
Proof. intros. apply Z.mod_pos_bound. apply Z.pow_pos_nonneg; lia. Qed.

Lemma wrap_small w x : 0 <= x < 2 ^ w -> wrap w x = x.
Proof. intros. apply Z.mod_small. done. Qed.

Lemma wrap_wrap w x : wrap w (wrap w x) = wrap w x.
Proof. apply Zmod_mod. Qed.

Lemma wrap_testbit w x i :
  0 <= w -> 0 <= i -> Z.testbit (wrap w x) i = (i <? w) && Z.testbit x i.
Proof.
  intros Hw Hi. unfold wrap. zbool; cbn.
  - apply Z.mod_pow2_bits_low. lia.
  - apply Z.mod_pow2_bits_high. lia.
Qed.

Lemma wnot_testbit w x i :
  0 <= w -> 0 <= i -> Z.testbit (wnot w x) i = (i <? w) && negb (Z.testbit x i).
Proof. intros. unfold wnot. by rewrite wrap_testbit, Z.lnot_spec. Qed.

Lemma swrap_small w x :
  0 < w -> - 2 ^ (w - 1) <= x < 2 ^ (w - 1) -> swrap w x = x.
Proof.
  intros Hw H. unfold swrap. rewrite Z.mod_small; [lia|].
  assert (2 ^ w = 2 * 2 ^ (w - 1)) as ->
    by (rewrite <- Z.pow_succ_r by lia; f_equal; lia).
  lia.
Qed.

Lemma land_63 x : Z.land x 63 = x mod 64.
Proof. exact (Z.land_ones x 6 ltac:(lia)). Qed.

Lemma shiftr_6 x : Z.shiftr x 6 = x / 64.
Proof. exact (Z.shiftr_div_pow2 x 6 ltac:(lia)). Qed.

(** A word is bounded exactly when its high bits are clear. *)
Lemma bounded_testbit w x :
  0 <= w -> (0 <= x < 2 ^ w <-> (0 <= x /\ forall i, w <= i -> Z.testbit x i = false)).
Proof.
  intros Hw. split.
  - intros [H0 H]. split; [done|]. intros i Hi.
    destruct (decide (x = 0)) as [->|]; [apply Z.testbit_0_l|].
    apply Z.bits_above_log2; [done|].
    enough (Z.log2 x < w) by lia. apply Z.log2_lt_pow2; lia.
  - intros [H0 H]. split; [done|].
    enough (wrap w x = x) as <- by (apply wrap_bounds; lia).
    apply Z.bits_inj'. intros i Hi. rewrite wrap_testbit by lia.
    zbool; cbn; [done|]. symmetry. by apply H.
Qed.

Lemma bounded_high_bit w x i :
  0 <= w -> 0 <= x < 2 ^ w -> w <= i -> Z.testbit x i = false.
Proof. intros Hw Hx. by apply bounded_testbit in Hx as [_ Hx]; [apply Hx|]. Qed.

Lemma long_bit_pos `{A : arch} `{!ArchOk A} : 0 < LONG_BIT.
Proof. destruct long_bit_ok as [E|E]; rewrite E; lia. Qed.

Lemma long_bit_ge_32 `{A : arch} `{!ArchOk A} : 32 <= LONG_BIT <= 64.
Proof. destruct long_bit_ok as [E|E]; rewrite E; lia. Qed.

Lemma ul_small `{A : arch} x : 0 <= x < 2 ^ LONG_BIT -> ul x = x.
Proof. apply wrap_small. Qed.

Lemma ul_bounds `{A : arch} `{!ArchOk A} x : 0 <= ul x < 2 ^ LONG_BIT.
Proof. apply wrap_bounds. pose proof long_bit_pos. lia. Qed.

Lemma ul_32 `{A : arch} `{!ArchOk A} x : 0 <= x < 2 ^ 32 -> ul x = x.
Proof.
  intros. apply ul_small. pose proof long_bit_ge_32.
  assert (2 ^ 32 <= 2 ^ LONG_BIT) by (apply Z.pow_le_mono_r; lia). lia.
Qed.

Lemma sl_range `{A : arch} `{!ArchOk A} x : - 2 ^ (LONG_BIT - 1) <= sl x < 2 ^ (LONG_BIT - 1).
Proof.
  unfold sl, swrap. pose proof long_bit_pos as HL.
  pose proof (Z.mod_pos_bound (x + 2 ^ (LONG_BIT - 1)) (2 ^ LONG_BIT) ltac:(apply Z.pow_pos_nonneg; lia)) as Hm.
  assert (2 ^ LONG_BIT = 2 * 2 ^ (LONG_BIT - 1)) as HP; [|lia].
  rewrite <- Z.pow_succ_r by lia. f_equal. lia.
Qed.

Lemma sl_small `{A : arch} `{!ArchOk A} x :
  - 2 ^ (LONG_BIT - 1) <= x < 2 ^ (LONG_BIT - 1) -> sl x = x.
Proof. apply swrap_small, long_bit_pos. Qed.

Lemma sl_32 `{A : arch} `{!ArchOk A} x : - 2 ^ 31 <= x < 2 ^ 31 -> sl x = x.
Proof.
  intros Hx. apply sl_small. pose proof long_bit_ge_32.
  assert (2 ^ 31 <= 2 ^ (LONG_BIT - 1)) by (apply Z.pow_le_mono_r; lia). lia.
Qed.

Lemma ul_eq_0 `{A : arch} `{!ArchOk A} x : - 2 ^ 32 < x < 2 ^ 32 -> ul x = 0 -> x = 0.
Proof.
  intros Hx H. pose proof long_bit_ge_32.
  assert (2 ^ 32 <= 2 ^ LONG_BIT) by (apply Z.pow_le_mono_r; lia).
  unfold ul, wrap in H. rewrite Z.mod_divide in H by lia. destruct H as [k Hk].
  assert (k = 0) as -> by nia. lia.
Qed.

Lemma ul_add_l `{A : arch} x y : ul (ul x + y) = ul (x + y).
Proof. apply Zplus_mod_idemp_l. Qed.

Lemma ul_sub_l `{A : arch} x y : ul (ul x - y) = ul (x - y).
Proof. apply Zminus_mod_idemp_l. Qed.

Lemma s32_small x : - 2 ^ 31 <= x < 2 ^ 31 -> s32 x = x.
Proof. intros. apply swrap_small; lia. Qed.

(** * Array lemmas *)

Lemma znth_lookup {A} (l : list A) i : 0 <= i -> znth l i = l !! Z.to_nat i.
Proof. intros. unfold znth. zbool; [done|lia]. Qed.

Lemma znth_Some {A} (l : list A) i x : znth l i = Some x -> 0 <= i < zlen l.
Proof.
  unfold znth, zlen. zbool; [|done]. intros ?%lookup_lt_Some. lia.
Qed.

Lemma znth_lt {A} (l : list A) i : 0 <= i < zlen l -> is_Some (znth l i).
Proof.
  unfold zlen. intros. rewrite znth_lookup by lia. apply lookup_lt_is_Some. lia.
Qed.

Lemma znth_None {A} (l : list A) i : znth l i = None <-> i < 0 \/ zlen l <= i.
Proof.
  unfold znth, zlen. zbool; [|split; [lia|done]].
  rewrite lookup_ge_None. lia.
Qed.

Lemma zset_Some {A} (l l' : list A) i x :
  zset l i x = Some l' <-> 0 <= i < zlen l /\ l' = <[Z.to_nat i := x]> l.
Proof.
  unfold zset, zlen. zbool; cbn; (split; [intros Hs; simplify_eq|intros [? ->]]);
    done || lia.
Qed.

Lemma zset_lt {A} (l : list A) i x :
  0 <= i < zlen l -> zset l i x = Some (<[Z.to_nat i := x]> l).
Proof. intros. by apply zset_Some. Qed.

Lemma zset_len {A} (l l' : list A) i x : zset l i x = Some l' -> zlen l' = zlen l.
Proof. intros [? ->]%zset_Some. unfold zlen. by rewrite length_insert. Qed.

Lemma znth_zset_eq {A} (l l' : list A) i x :
  zset l i x = Some l' -> znth l' i = Some x.
Proof.
  intros [? ->]%zset_Some. unfold zlen in *. rewrite znth_lookup by lia.
  apply list_lookup_insert_eq. lia.
Qed.

Lemma znth_zset_ne {A} (l l' : list A) i j x :
  zset l i x = Some l' -> i <> j -> znth l' j = znth l j.
Proof.
  intros [? ->]%zset_Some Hne. unfold znth. zbool; [|done].
  apply list_lookup_insert_ne. lia.
Qed.

Lemma znth_ext {A} (l l' : list A) :
  zlen l = zlen l' -> (forall i, 0 <= i < zlen l -> znth l i = znth l' i) -> l = l'.
Proof.
  unfold zlen. intros Hl H. apply list_eq. intros i.
  destruct (decide (i < length l)%nat) as [Hi|Hi].
  - specialize (H (Z.of_nat i)). rewrite !znth_lookup, Nat2Z.id in H by lia. apply H. lia.
  - rewrite !lookup_ge_None_2 by lia. done.
Qed.

Lemma zlen_app {A} (l l' : list A) : zlen (l ++ l') = zlen l + zlen l'.
Proof. unfold zlen. rewrite length_app. lia. Qed.

Lemma zlen_nonneg {A} (l : list A) : 0 <= zlen l.
Proof. unfold zlen. lia. Qed.

Lemma znth_app {A} (l l' : list A) i :
  0 <= i -> znth (l ++ l') i = if i <? zlen l then znth l i else znth l' (i - zlen l).
Proof.
  intros Hi. unfold zlen. rewrite znth_lookup by done. zbool.
  - rewrite lookup_app_l, znth_lookup by lia. done.
  - rewrite lookup_app_r, znth_lookup by lia. f_equal. lia.
Qed.

Lemma zread_Some {A} (l : list A) off n :
  0 <= off -> 0 <= n -> off + n <= zlen l ->
  exists x, zread l off n = Some x /\ zlen x = n /\
    forall i, 0 <= i < n -> znth x i = znth l (off + i).
Proof.
  intros H1 H2 H3. unfold zread. zbool; try lia. cbn. eexists. split; [done|].
  unfold zlen in *. rewrite length_take, length_drop. split; [lia|]. intros i Hi.
  rewrite !znth_lookup by lia. rewrite lookup_take_lt, lookup_drop by lia. f_equal. lia.
Qed.

Lemma zwrite_Some {A} (l : list A) off x :
  0 <= off -> off + zlen x <= zlen l ->
  exists l', zwrite l off x = Some l' /\ zlen l' = zlen l /\
    forall i, 0 <= i -> znth l' i =
      if (off <=? i) && (i <? off + zlen x) then znth x (i - off) else znth l i.
Proof.
  intros H1 H2. unfold zwrite. zbool; try lia. cbn. eexists. split; [done|].
  unfold zlen in *. rewrite !length_app, length_take, length_drop. split; [lia|]. intros i Hi.
  rewrite znth_lookup by done. zbool; cbn [andb].
  - rewrite lookup_app_r by (rewrite length_take; lia). rewrite length_take.
    rewrite lookup_app_l by lia. rewrite znth_lookup by lia. f_equal. lia.
  - rewrite lookup_app_l by (rewrite length_take; lia).
    rewrite lookup_take_lt, znth_lookup by lia. done.
  - rewrite !lookup_app_r by (rewrite ?length_app, ?length_take; lia).
    rewrite length_take, lookup_drop, znth_lookup by lia. f_equal. lia.
  - lia.
Qed.

Lemma le_bytes_len n x : zlen (le_bytes n x) = Z.of_nat n.
Proof.
  unfold zlen. f_equal. revert x. induction n as [|n IH]; intros x; cbn; [done|]. by rewrite IH.
Qed.

Lemma le_val_bytes n x : 0 <= x < 256 ^ Z.of_nat n -> le_val (le_bytes n x) = x.
Proof.
  revert x. induction n as [|n IH]; intros x Hx; cbn [le_bytes le_val].
  - change (256 ^ Z.of_nat 0) with 1 in Hx. lia.
  - rewrite Nat2Z.inj_succ, Z.pow_succ_r in Hx by lia. rewrite IH.
    + rewrite (Z.div_mod x 256) at 3 by lia. lia.
    + split; [apply Z.div_pos; lia|]. apply Z.div_lt_upper_bound; lia.
Qed.

(** * List lemmas *)

Lemma filter_all {A} (P : A -> Prop) `{forall x, Decision (P x)} (l : list A) :
  (forall x, x ∈ l -> P x) -> filter P l = l.
Proof.
  induction l as [|x l IH]; intros Hl; [done|].
  rewrite filter_cons_True by (apply Hl; left). f_equal. apply IH.
  intros y Hy. apply Hl. by right.
Qed.

Lemma filter_snd {A B} `{EqDecision B} (t : B) (l : list (A * B)) :
  (filter (fun x => x.2 <> t) l).*2 = filter (fun x => x <> t) l.*2.
Proof.
  induction l as [|[a x] l IH]; [done|]. rewrite fmap_cons. cbn [snd].
  destruct (decide (x = t)) as [->|Hne].
  - by rewrite !filter_cons_False by (cbn; naive_solver).
  - rewrite !filter_cons_True by done. by rewrite fmap_cons, IH.
Qed.

#[export] Hint Resolve wrap_bounds ul_bounds : embox.

(** The first of an interval with a property. *)
Lemma head_filter_seqZ (P : Z -> Prop) `{!forall i, Decision (P i)} lo (n : nat) :
  match head (filter P (seqZ lo (Z.of_nat n))) with
  | Some i => lo <= i < lo + Z.of_nat n /\ P i /\ forall j, lo <= j < lo + Z.of_nat n -> P j -> i <= j
  | None => forall j, lo <= j < lo + Z.of_nat n -> ~ P j
  end.
Proof.
  revert lo. induction n as [|n IH]; intros lo; [change (forall j, lo <= j < lo + Z.of_nat 0 -> ~ P j); intros; lia|].
  rewrite seqZ_cons, filter_cons by lia. case_decide as E.
  - cbn [head]. split_and!; try done; lia.
  - replace (Z.pred (Z.of_nat (S n))) with (Z.of_nat n) by lia. specialize (IH (Z.succ lo)).
    destruct (head _) as [i|].
    + destruct IH as (H1 & H2 & H3). split_and!; try done; try lia. intros j Hj Hn.
      destruct (decide (j = lo)) as [->|]; [done|]. apply H3; [lia|done].
    + intros j Hj. destruct (decide (j = lo)) as [->|]; [done|]. apply IH. lia.
Qed.
