(* ===== verification/Bitmap.v ===== *)
(** Bit operations and bitmaps of libds.

    [src/lib/libds/bit/bit.h], [src/lib/libds/bitmap/bitmap.h] and
    [bitmap_find_bit.c].  A bitmap is the list of its [unsigned long] words;
    an access outside of the list is [None].  [first_bit] is the reference
    definition of the search: the least index of the wanted value. *)
From S2P Require Import Prelude.

Local Open Scope Z_scope.
Local Open Scope embox_scope.

(** * Bits of a word *)

(** The compiler builtins: number of trailing and leading zeroes of a
    non-zero word. *)
Fixpoint pos_ctz (p : positive) : Z :=
  match p with xO p => 1 + pos_ctz p | _ => 0 end.
Definition builtin_ctz (x : Z) : Z :=
  match x with Zpos p => pos_ctz p | _ => 0 end.
Definition builtin_clz (w x : Z) : Z := w - 1 - Z.log2 x.

Section Words.
Context `{A : arch}.

Definition bit_ctz (x : Z) : Z := if x =? 0 then LONG_BIT else builtin_ctz x.
Definition bit_ffs (x : Z) : Z := if x =? 0 then 0 else 1 + builtin_ctz x.
Definition bit_clz (x : Z) : Z := if x =? 0 then LONG_BIT else builtin_clz LONG_BIT x.
Definition bit_fls (x : Z) : Z := LONG_BIT - bit_clz x.

(** * Bitmaps *)

Definition BITMAP_SIZE (nbits : Z) : Z := (nbits + LONG_BIT - 1) / LONG_BIT.
Definition BITMAP_OFFSET (bit : Z) : Z := bit / LONG_BIT.
Definition BITMAP_SHIFT (bit : Z) : Z := bit mod LONG_BIT.
Definition BITMAP_MASK (bit : Z) : Z := ul (Z.shiftl 1 (BITMAP_SHIFT bit)).

Definition bitmap_set_bit (bitmap : list Z) (bit : Z) : option (list Z) :=
  w ← znth bitmap (BITMAP_OFFSET bit);
  zset bitmap (BITMAP_OFFSET bit) (Z.lor w (BITMAP_MASK bit)).

Definition bitmap_clear_bit (bitmap : list Z) (bit : Z) : option (list Z) :=
  w ← znth bitmap (BITMAP_OFFSET bit);
  zset bitmap (BITMAP_OFFSET bit) (Z.land w (wnot LONG_BIT (BITMAP_MASK bit))).

Definition bitmap_toggle_bit (bitmap : list Z) (bit : Z) : option (list Z) :=
  w ← znth bitmap (BITMAP_OFFSET bit);
  zset bitmap (BITMAP_OFFSET bit) (Z.lxor w (BITMAP_MASK bit)).

Definition bitmap_test_bit (bitmap : list Z) (bit : Z) : option Z :=
  w ← znth bitmap (BITMAP_OFFSET bit);
  Some (Z.land 1 (Z.shiftr w (BITMAP_SHIFT bit))).

(** [memset] over the [BITMAP_SIZE(nbits)] words of the map. *)
Definition bitmap_fill (bitmap : list Z) (nbits w : Z) : option (list Z) :=
  assert! BITMAP_SIZE nbits <=? zlen bitmap ;;
  Some (replicate (Z.to_nat (BITMAP_SIZE nbits)) w
        ++ drop (Z.to_nat (BITMAP_SIZE nbits)) bitmap).
Definition bitmap_set_all (bitmap : list Z) (nbits : Z) : option (list Z) :=
  bitmap_fill bitmap nbits (ul (-1)).
Definition bitmap_clear_all (bitmap : list Z) (nbits : Z) : option (list Z) :=
  bitmap_fill bitmap nbits 0.

(** The [for (iter = first; iter <= last; iter++)] loop; [n] is the number of
    words from [iter] to [last]. *)
Fixpoint bitmap_find_loop (bitmap : list Z) (nbits start : Z) (zero_bit : bool)
    (first last iter : Z) (n : nat) : option Z :=
  match n with
  | O => Some nbits
  | S n =>
    bits ← znth bitmap iter;
    let bits := if zero_bit then wnot LONG_BIT bits else bits in
    let bits := if iter =? first
                then Z.land bits (ul (Z.shiftl (ul (-1)) (BITMAP_SHIFT start)))
                else bits in
    let bits := if iter =? last
                then Z.land bits (Z.shiftr (ul (-1))
                       (LONG_BIT - 1 - BITMAP_SHIFT (nbits - 1)))
                else bits in
    if bits =? 0
    then bitmap_find_loop bitmap nbits start zero_bit first last (iter + 1) n
    else Some (u32 (LONG_BIT * iter + bit_ctz bits))
  end.

Definition bitmap_find (bitmap : list Z) (nbits start : Z) (zero_bit : bool)
    : option Z :=
  if start >=? nbits then Some nbits
  else
    let first := BITMAP_OFFSET start in
    let last := BITMAP_OFFSET (nbits - 1) in
    bitmap_find_loop bitmap nbits start zero_bit first last first
      (Z.to_nat (last - first + 1)).

Definition bitmap_find_bit (bitmap : list Z) (nbits start : Z) : option Z :=
  bitmap_find bitmap nbits start false.
Definition bitmap_find_zero_bit (bitmap : list Z) (nbits start : Z) : option Z :=
  bitmap_find bitmap nbits start true.
Definition bitmap_find_first_bit (bitmap : list Z) (nbits : Z) : option Z :=
  bitmap_find_bit bitmap nbits 0.

(** * The abstract view: a map from indices to booleans *)

Definition bm_ok (bitmap : list Z) : Prop :=
  Forall (fun w => 0 <= w < 2 ^ LONG_BIT) bitmap.

Definition bm_bit (bitmap : list Z) (i : Z) : bool :=
  match znth bitmap (i / LONG_BIT) with
  | Some w => Z.testbit w (i mod LONG_BIT)
  | None => false
  end.

(** [r] is the least index of [start, nbits) that holds [v], or [nbits]. *)
Definition first_bit (bitmap : list Z) (v : bool) (start nbits r : Z) : Prop :=
  (r = nbits \/ start <= r < nbits /\ bm_bit bitmap r = v) /\
  forall j, start <= j < r -> j < nbits -> bm_bit bitmap j = negb v.

End Words.

(** * Lemmas *)

Lemma pos_ctz_spec p :
  0 <= pos_ctz p /\ Z.testbit (Zpos p) (pos_ctz p) = true /\
  forall j, 0 <= j < pos_ctz p -> Z.testbit (Zpos p) j = false.
Proof.
  induction p as [p IH|p IH|]; cbn [pos_ctz]; try (repeat split; done || lia).
  destruct IH as (H0 & H1 & H2). split; [lia|].
  change (Zpos (xO p)) with (2 * Zpos p). split.
  - rewrite <- H1. replace (1 + pos_ctz p) with (Z.succ (pos_ctz p)) by lia.
    rewrite Z.testbit_even_succ by lia. done.
  - intros j Hj. destruct (decide (j = 0)) as [->|]; [apply Z.testbit_even_0|].
    replace j with (Z.succ (j - 1)) by lia. rewrite Z.testbit_even_succ by lia.
    apply H2. lia.
Qed.

Section Facts.
Context `{A : arch} `{!ArchOk A}.

Lemma bit_ctz_spec x :
  0 < x < 2 ^ LONG_BIT ->
  0 <= bit_ctz x < LONG_BIT /\ Z.testbit x (bit_ctz x) = true /\
  forall j, 0 <= j < bit_ctz x -> Z.testbit x j = false.
Proof.
  intros Hx. unfold bit_ctz. zbool; [lia|].
  destruct x as [|p|]; try lia. cbn [builtin_ctz].
  destruct (pos_ctz_spec p) as (H0 & H1 & H2). repeat split; try done.
  destruct (Z.ltb_spec (pos_ctz p) LONG_BIT); [done|].
  pose proof long_bit_pos. rewrite (bounded_high_bit LONG_BIT) in H1 by lia. done.
Qed.

Lemma bm_bit_split bitmap iter k :
  0 <= k < LONG_BIT ->
  bm_bit bitmap (LONG_BIT * iter + k) =
  match znth bitmap iter with Some w => Z.testbit w k | None => false end.
Proof.
  intros Hk. unfold bm_bit.
  replace ((LONG_BIT * iter + k) / LONG_BIT) with iter by (apply Z.div_unique with k; lia).
  replace ((LONG_BIT * iter + k) mod LONG_BIT) with k by (apply Z.mod_unique with iter; lia).
  done.
Qed.

(** Every index is a word number and a bit number. *)
Lemma index_split i :
  exists iter k, i = LONG_BIT * iter + k /\ 0 <= k < LONG_BIT /\
    iter = i / LONG_BIT /\ k = i mod LONG_BIT.
Proof.
  pose proof long_bit_pos. exists (i / LONG_BIT), (i mod LONG_BIT).
  pose proof (Z.div_mod i LONG_BIT). pose proof (Z.mod_pos_bound i LONG_BIT). lia.
Qed.

Lemma bm_ok_word bitmap i w :
  bm_ok bitmap -> znth bitmap i = Some w -> 0 <= w < 2 ^ LONG_BIT.
Proof.
  intros Hok Hn. pose proof (znth_Some _ _ _ Hn) as Hi.
  rewrite znth_lookup in Hn by lia. eapply (Forall_lookup_1 _ _ _ _ Hok Hn).
Qed.

(** The word the loop looks at: the wanted bits, between the bounds. *)
Definition scan_word (w : Z) (zero_bit : bool) (nbits start first last iter : Z) : Z :=
  let bits := if zero_bit then wnot LONG_BIT w else w in
  let bits := if iter =? first
              then Z.land bits (ul (Z.shiftl (ul (-1)) (BITMAP_SHIFT start)))
              else bits in
  if iter =? last
  then Z.land bits (Z.shiftr (ul (-1)) (LONG_BIT - 1 - BITMAP_SHIFT (nbits - 1)))
  else bits.

Lemma scan_word_testbit w zero_bit nbits start first last iter k :
  0 <= w < 2 ^ LONG_BIT -> 0 <= k ->
  Z.testbit (scan_word w zero_bit nbits start first last iter) k =
  (k <? LONG_BIT) && xorb zero_bit (Z.testbit w k)
  && (if iter =? first then BITMAP_SHIFT start <=? k else true)
  && (if iter =? last then k <=? BITMAP_SHIFT (nbits - 1) else true).
Proof.
  intros Hw Hk. pose proof long_bit_pos as HL. unfold scan_word.
  assert (Z.testbit (if zero_bit then wnot LONG_BIT w else w) k
          = (k <? LONG_BIT) && xorb zero_bit (Z.testbit w k)) as Hb.
  { destruct zero_bit; [rewrite wnot_testbit by lia; done|].
    zbool; [done|]. by rewrite (bounded_high_bit LONG_BIT) by lia. }
  assert (forall s, 0 <= s < LONG_BIT ->
    Z.testbit (ul (Z.shiftl (ul (-1)) s)) k = (k <? LONG_BIT) && (s <=? k)) as Hl.
  { intros s Hs. unfold ul. rewrite wrap_testbit by lia.
    rewrite Z.shiftl_spec by lia. zbool; cbn; try done.
    - rewrite wrap_testbit by lia. rewrite Z.bits_m1 by lia. zbool; [done|lia].
    - apply Z.testbit_neg_r. lia. }
  assert (forall s, 0 <= s < LONG_BIT ->
    Z.testbit (Z.shiftr (ul (-1)) (LONG_BIT - 1 - s)) k = (k <=? s)) as Hr.
  { intros s Hs. unfold ul. rewrite Z.shiftr_spec by lia.
    rewrite wrap_testbit by lia. rewrite Z.bits_m1 by lia.
    zbool; done || lia. }
  pose proof (Z.mod_pos_bound start LONG_BIT HL) as Hs.
  pose proof (Z.mod_pos_bound (nbits - 1) LONG_BIT HL) as Hn.
  fold (BITMAP_SHIFT start) in Hs. fold (BITMAP_SHIFT (nbits - 1)) in Hn.
  destruct (iter =? first), (iter =? last); rewrite ?Z.land_spec, ?Hl, ?Hr, Hb by done;
    destruct (k <? LONG_BIT), (xorb zero_bit (Z.testbit w k)); cbn;
    rewrite ?andb_true_r; done.
Qed.

Lemma scan_word_bounded w zero_bit nbits start first last iter :
  0 <= w < 2 ^ LONG_BIT ->
  0 <= scan_word w zero_bit nbits start first last iter < 2 ^ LONG_BIT.
Proof.
  intros Hw. pose proof long_bit_pos.
  assert (0 <= scan_word w zero_bit nbits start first last iter).
  { unfold scan_word.
    assert (0 <= if zero_bit then wnot LONG_BIT w else w)
      by (destruct zero_bit; [apply wrap_bounds; lia|lia]).
    destruct (iter =? first), (iter =? last); rewrite ?Z.land_nonneg; auto. }
  apply bounded_testbit; [lia|]. split; [done|]. intros i Hi.
  rewrite scan_word_testbit by lia. destruct (Z.ltb_spec i LONG_BIT); [lia|done].
Qed.

Lemma bitmap_find_loop_spec bitmap nbits start zero_bit n :
  forall iter,
  let first := BITMAP_OFFSET start in
  let last := BITMAP_OFFSET (nbits - 1) in
  bm_ok bitmap -> 0 <= start < nbits -> nbits <= 2 ^ 32 ->
  nbits <= LONG_BIT * zlen bitmap ->
  Z.of_nat n = last - iter + 1 -> first <= iter ->
  (forall j, start <= j < nbits -> j < LONG_BIT * iter -> bm_bit bitmap j = zero_bit) ->
  exists r, bitmap_find_loop bitmap nbits start zero_bit first last iter n = Some r /\
    first_bit bitmap (negb zero_bit) start nbits r.
Proof.
  pose proof long_bit_pos as HL.
  destruct (index_split start) as (fi & fk & Es & Hfk & Efi & Efk).
  destruct (index_split (nbits - 1)) as (li & lk & En & Hlk & Eli & Elk).
  unfold BITMAP_OFFSET. rewrite <- Efi, <- Eli.
  induction n as [|n IH]; intros iter Hok Hst H32 Hlen Hn Hfirst Hseen.
  - exists nbits. split; [done|]. split; [by left|].
    rewrite negb_involutive. intros j Hj _. apply Hseen; [lia|]. nia.
  - cbn [bitmap_find_loop].
    destruct (znth_lt bitmap iter) as [w Hw]; [nia|]. rewrite Hw. cbn.
    fold (scan_word w zero_bit nbits start fi li iter).
    pose proof (bm_ok_word _ _ _ Hok Hw) as Hwb.
    pose proof (scan_word_bounded w zero_bit nbits start fi li iter Hwb) as Hsb.
    pose proof (scan_word_testbit w zero_bit nbits start fi li iter) as Hbit.
    unfold BITMAP_SHIFT in Hbit. rewrite <- Efk, <- Elk in Hbit.
    set (s := scan_word w zero_bit nbits start fi li iter) in *.
    (* bits of this word that are not selected hold [zero_bit] *)
    assert (forall k, 0 <= k < LONG_BIT -> start <= LONG_BIT * iter + k < nbits ->
              Z.testbit s k = false -> bm_bit bitmap (LONG_BIT * iter + k) = zero_bit) as Hno.
    { intros k Hk Hr. rewrite Hbit by lia. rewrite bm_bit_split, Hw by lia.
      destruct (Z.eqb_spec iter fi), (Z.eqb_spec iter li); zbool; cbn;
        try (exfalso; nia); rewrite ?andb_true_r;
        destruct zero_bit, (Z.testbit w k); done. }
    destruct (Z.eqb_spec s 0) as [E0|Hne].
    + apply IH; try done; try lia. intros j Hj Hlt.
      destruct (Z.ltb_spec j (LONG_BIT * iter)); [by apply Hseen|].
      replace j with (LONG_BIT * iter + (j - LONG_BIT * iter)) by lia.
      apply Hno; [lia|lia|]. rewrite E0. apply Z.testbit_0_l.
    + destruct (bit_ctz_spec s) as (Hc & Hc1 & Hc0); [lia|].
      set (c := bit_ctz s) in *. rewrite Hbit in Hc1 by lia.
      assert (start <= LONG_BIT * iter + c < nbits /\ xorb zero_bit (Z.testbit w c) = true)
        as [Hr Hv].
      { rewrite !andb_true_iff in Hc1. destruct Hc1 as [[[_ Hx] Hf] Hl].
        split; [|done].
        destruct (Z.eqb_spec iter fi), (Z.eqb_spec iter li); zbool_in Hf; zbool_in Hl;
          done || nia. }
      eexists. split; [rewrite wrap_small by (split; [nia|lia]); done|].
      split.
      * right. split; [lia|]. rewrite bm_bit_split, Hw by lia.
        destruct zero_bit, (Z.testbit w c); done.
      * rewrite negb_involutive. intros j Hj Hlt.
        destruct (Z.ltb_spec j (LONG_BIT * iter)); [apply Hseen; lia|].
        replace j with (LONG_BIT * iter + (j - LONG_BIT * iter)) by lia.
        apply Hno; [lia|lia|]. apply Hc0. lia.
Qed.

(** The search is total on a bitmap that covers [nbits] bits, and returns the
    least index of the wanted value. *)
Lemma bitmap_find_first bitmap nbits start zero_bit :
  bm_ok bitmap -> 0 <= start -> nbits <= 2 ^ 32 -> nbits <= LONG_BIT * zlen bitmap ->
  exists r, bitmap_find bitmap nbits start zero_bit = Some r /\
    first_bit bitmap (negb zero_bit) start nbits r.
Proof.
  intros Hok Hs H32 Hlen. unfold bitmap_find. zbool.
  - exists nbits. split; [done|]. split; [by left|]. lia.
  - pose proof long_bit_pos.
    assert (start / LONG_BIT <= (nbits - 1) / LONG_BIT) by (apply Z.div_le_mono; lia).
    apply bitmap_find_loop_spec; try done; unfold BITMAP_OFFSET; try lia.
    intros j Hj Hlt. pose proof (Z.mul_div_le start LONG_BIT). lia.
Qed.

Lemma first_bit_unique bitmap v start nbits r r' :
  start <= nbits ->
  first_bit bitmap v start nbits r -> first_bit bitmap v start nbits r' -> r = r'.
Proof.
  intros Hs [H1 H2] [H1' H2']. destruct (Z.lt_trichotomy r r') as [Hlt|[->|Hlt]]; [|done|].
  - destruct H1 as [->|[? E]]; [lia|]. rewrite H2' in E by lia. by destruct v.
  - destruct H1' as [->|[? E]]; [lia|]. rewrite H2 in E by lia. by destruct v.
Qed.

Lemma mask_testbit bit k :
  0 <= k -> Z.testbit (BITMAP_MASK bit) k = (k =? BITMAP_SHIFT bit).
Proof.
  intros Hk. pose proof long_bit_pos as HL.
  pose proof (Z.mod_pos_bound bit LONG_BIT HL). unfold BITMAP_MASK, ul, BITMAP_SHIFT.
  rewrite wrap_testbit, Z.shiftl_1_l, Z.pow2_bits_eqb by lia. zbool; done || lia.
Qed.

Lemma mask_bounded bit : 0 <= BITMAP_MASK bit < 2 ^ LONG_BIT.
Proof. apply ul_bounds. Qed.

(** All the updates have this shape: one word is replaced, and its bits are
    computed from the old bit and the mask bit. *)
Lemma bitmap_update_spec (f : Z -> Z -> Z) (g : bool -> bool -> bool) bitmap bit :
  (forall x m k, 0 <= x < 2 ^ LONG_BIT -> 0 <= k < LONG_BIT ->
     Z.testbit (f x m) k = g (Z.testbit x k) (Z.testbit m k)) ->
  (forall x, 0 <= x < 2 ^ LONG_BIT -> 0 <= f x (BITMAP_MASK bit) < 2 ^ LONG_BIT) ->
  (forall b, g b false = b) ->
  bm_ok bitmap -> 0 <= bit < LONG_BIT * zlen bitmap ->
  exists bitmap',
    (w ← znth bitmap (BITMAP_OFFSET bit);
     zset bitmap (BITMAP_OFFSET bit) (f w (BITMAP_MASK bit))) = Some bitmap' /\
    bm_ok bitmap' /\ zlen bitmap' = zlen bitmap /\
    forall j, 0 <= j -> bm_bit bitmap' j =
      if j =? bit then g (bm_bit bitmap bit) true else bm_bit bitmap j.
Proof.
  intros Hf Hfb Hg Hok Hb. pose proof long_bit_pos as HL.
  destruct (index_split bit) as (bi & bk & Eb & Hbk & Ebi & Ebk).
  unfold BITMAP_OFFSET. rewrite <- Ebi.
  destruct (znth_lt bitmap bi) as [w Hw]; [nia|]. rewrite Hw. cbn.
  pose proof (bm_ok_word _ _ _ Hok Hw) as Hwb.
  destruct (zset bitmap bi (f w (BITMAP_MASK bit))) as [bm'|] eqn:Es.
  2: { rewrite zset_lt in Es by nia. done. }
  exists bm'. split; [done|]. split; [|split].
  - apply zset_Some in Es as [_ ->]. apply Forall_insert; [done|]. by apply Hfb.
  - by apply zset_len in Es.
  - intros j Hj. destruct (index_split j) as (ji & jk & Ej & Hjk & _ & _).
    rewrite Ej at 1 3. rewrite !bm_bit_split by done.
    destruct (decide (ji = bi)) as [->|Hne].
    + erewrite znth_zset_eq by done. rewrite Hw, Hf, mask_testbit by (done || lia).
      unfold BITMAP_SHIFT. rewrite <- Ebk. destruct (Z.eqb_spec jk bk) as [->|Hne].
      * rewrite Eb at 2. rewrite bm_bit_split, Hw by done. zbool; [done|lia].
      * rewrite Hg. zbool; [lia|done].
    + erewrite znth_zset_ne by done. zbool; [nia|done].
Qed.

Lemma bitmap_set_bit_spec bitmap bit :
  bm_ok bitmap -> 0 <= bit < LONG_BIT * zlen bitmap ->
  exists bitmap', bitmap_set_bit bitmap bit = Some bitmap' /\
    bm_ok bitmap' /\ zlen bitmap' = zlen bitmap /\
    forall j, 0 <= j -> bm_bit bitmap' j = if j =? bit then true else bm_bit bitmap j.
Proof.
  intros Hok Hb. pose proof long_bit_pos. pose proof (mask_bounded bit) as Hm.
  destruct (bitmap_update_spec Z.lor orb bitmap bit) as (bm & E & ? & ? & Hj); try done.
  - intros. apply Z.lor_spec.
  - intros x Hx. apply bounded_testbit; [lia|]. split; [apply Z.lor_nonneg; lia|].
    intros i Hi. rewrite Z.lor_spec, !(bounded_high_bit LONG_BIT) by lia. done.
  - intros b. apply orb_false_r.
  - exists bm. repeat split; try done. intros j ?. rewrite Hj by done.
    by rewrite orb_true_r.
Qed.

Lemma bitmap_clear_bit_spec bitmap bit :
  bm_ok bitmap -> 0 <= bit < LONG_BIT * zlen bitmap ->
  exists bitmap', bitmap_clear_bit bitmap bit = Some bitmap' /\
    bm_ok bitmap' /\ zlen bitmap' = zlen bitmap /\
    forall j, 0 <= j -> bm_bit bitmap' j = if j =? bit then false else bm_bit bitmap j.
Proof.
  intros Hok Hb. pose proof long_bit_pos.
  destruct (bitmap_update_spec (fun w m => Z.land w (wnot LONG_BIT m))
              (fun x m => x && negb m) bitmap bit) as (bm & E & ? & ? & Hj); try done.
  - intros x m k ? ?. rewrite Z.land_spec, wnot_testbit by lia. zbool; [done|lia].
  - intros x Hx. apply bounded_testbit; [lia|]. split; [apply Z.land_nonneg; lia|].
    intros i Hi. rewrite Z.land_spec, (bounded_high_bit LONG_BIT x) by lia. done.
  - intros b. apply andb_true_r.
  - exists bm. repeat split; try done. intros j ?. rewrite Hj by done.
    by rewrite andb_false_r.
Qed.

Lemma bitmap_toggle_bit_spec bitmap bit :
  bm_ok bitmap -> 0 <= bit < LONG_BIT * zlen bitmap ->
  exists bitmap', bitmap_toggle_bit bitmap bit = Some bitmap' /\
    bm_ok bitmap' /\ zlen bitmap' = zlen bitmap /\
    forall j, 0 <= j ->
      bm_bit bitmap' j = if j =? bit then negb (bm_bit bitmap bit) else bm_bit bitmap j.
Proof.
  intros Hok Hb. pose proof long_bit_pos. pose proof (mask_bounded bit) as Hm.
  destruct (bitmap_update_spec Z.lxor xorb bitmap bit) as (bm & E & ? & ? & Hj); try done.
  - intros. apply Z.lxor_spec.
  - intros x Hx. apply bounded_testbit; [lia|]. split; [apply Z.lxor_nonneg; lia|].
    intros i Hi. rewrite Z.lxor_spec, !(bounded_high_bit LONG_BIT) by lia. done.
  - intros b. by destruct b.
  - exists bm. repeat split; try done; intros j ?; rewrite Hj by done; by destruct (bm_bit bitmap bit).
Qed.

Lemma bitmap_test_bit_spec bitmap bit :
  0 <= bit < LONG_BIT * zlen bitmap ->
  bitmap_test_bit bitmap bit = Some (b2z (bm_bit bitmap bit)).
Proof.
  intros Hb. pose proof long_bit_pos as HL. unfold bitmap_test_bit, bm_bit, BITMAP_OFFSET.
  pose proof (Z.mod_pos_bound bit LONG_BIT HL).
  destruct (index_split bit) as (bi & bk & Eb & Hbk & Ebi & Ebk).
  destruct (znth_lt bitmap (bit / LONG_BIT)) as [w Hw]; [nia|]. rewrite Hw. cbn. f_equal.
  unfold BITMAP_SHIFT. rewrite Z.land_comm.
  change 1 with (Z.ones 1) at 1. rewrite Z.land_ones by lia.
  rewrite Z.pow_1_r, <- Z.bit0_mod, Z.shiftr_spec by lia. by rewrite Z.add_0_l.
Qed.

End Facts.

(** The two searches are total on a bitmap of enough words, return the
    least index of the wanted value at or after [start] ([nbits] if there is
    none), and agree with the single-bit operations: a bit that is set or
    cleared is found as such, and no other bit changes. *)
Theorem bitmap_search_and_update `{A : arch} `{!ArchOk A} bitmap nbits start bit :
  bm_ok bitmap -> 0 <= start -> 0 <= bit < nbits -> nbits <= 2 ^ 32 ->
  nbits <= LONG_BIT * zlen bitmap ->
  (exists r, bitmap_find_bit bitmap nbits start = Some r /\ first_bit bitmap true start nbits r) /\
  (exists r, bitmap_find_zero_bit bitmap nbits start = Some r /\ first_bit bitmap false start nbits r) /\
  (exists bm, bitmap_set_bit bitmap bit = Some bm /\ bm_ok bm /\
     bitmap_find_bit bm nbits bit = Some bit /\ bitmap_test_bit bm bit = Some 1 /\
     forall j, 0 <= j -> j <> bit -> bm_bit bm j = bm_bit bitmap j) /\
  (exists bm, bitmap_clear_bit bitmap bit = Some bm /\ bm_ok bm /\
     bitmap_find_zero_bit bm nbits bit = Some bit /\ bitmap_test_bit bm bit = Some 0 /\
     forall j, 0 <= j -> j <> bit -> bm_bit bm j = bm_bit bitmap j).
Proof.
  intros Hok Hs Hb H32 Hlen. split_and!.
  - by apply (bitmap_find_first bitmap nbits start false).
  - by apply (bitmap_find_first bitmap nbits start true).
  - destruct (bitmap_set_bit_spec bitmap bit Hok) as (bm & Hset & Hok' & Hl & Hbit); [lia|].
    exists bm. split_and!; try done.
    + destruct (bitmap_find_first bm nbits bit false) as (r & Hr & Hf); [done|lia..|].
      unfold bitmap_find_bit. rewrite Hr. f_equal. eapply first_bit_unique; [|done|]; [lia|].
      split; [|intros; lia]. right. split; [lia|]. rewrite Hbit by lia. by rewrite Z.eqb_refl.
    + rewrite bitmap_test_bit_spec, Hbit, Z.eqb_refl by lia. done.
    + intros j Hj Hne. rewrite Hbit by done. zbool; [lia|done].
  - destruct (bitmap_clear_bit_spec bitmap bit Hok) as (bm & Hset & Hok' & Hl & Hbit); [lia|].
    exists bm. split_and!; try done.
    + destruct (bitmap_find_first bm nbits bit true) as (r & Hr & Hf); [done|lia..|].
      unfold bitmap_find_zero_bit. rewrite Hr. f_equal. eapply first_bit_unique; [|done|]; [lia|].
      split; [|intros; lia]. right. split; [lia|]. rewrite Hbit by lia. by rewrite Z.eqb_refl.
    + rewrite bitmap_test_bit_spec, Hbit, Z.eqb_refl by lia. done.
    + intros j Hj Hne. rewrite Hbit by done. zbool; [lia|done].
Qed.

Lemma bitmap_search_and_update_witness :
  exists r, bitmap_find_zero_bit (A := ilp32) [2 ^ 32 - 1; 7] 50 3 = Some r /\
    first_bit (A := ilp32) [2 ^ 32 - 1; 7] false 3 50 r.
Proof.
  apply (bitmap_search_and_update (A := ilp32) [2 ^ 32 - 1; 7] 50 3 4).
  - repeat constructor; done.
  - done.
  - done.
  - done.
  - done.
Defined.
