(* ===== verification/Schedee.v ===== *)
(** Schedees and the run-queue interface.

    [struct schedee] of [src/include/kernel/sched.h] (the fields the scheduler
    and the run queues read), the priority callbacks of
    [src/kernel/sched/priority/inherit.c], the affinity masks of
    [src/kernel/sched/affinity/smp.h], and the interface of
    [src/include/kernel/sched/runq.h] as a type class: the operations of a
    run-queue strategy and what the scheduler relies on.  A schedee is named by
    a [nat], the table of all schedees is a [gmap]. *)
From S2P Require Import Prelude.

Local Open Scope Z_scope.
Local Open Scope embox_scope.

Definition SCHED_PRIORITY_MIN : Z := 0.
Definition SCHED_PRIORITY_MAX : Z := 255.
Definition SCHED_PRIORITY_TOTAL : Z := SCHED_PRIORITY_MAX - SCHED_PRIORITY_MIN + 1.

(** SMP builds use [~0], a single-CPU build [0], for [TW_SMP_WAKING]. *)
Definition TW_SMP_WAKING (smp : bool) : Z := if smp then 2 ^ 32 - 1 else 0.

Inductive schedee_type := SCHEDEE_THREAD | SCHEDEE_LTHREAD.
#[export] Instance schedee_type_eq_dec : EqDecision schedee_type.
Proof. solve_decision. Defined.

Record schedee_priority := SchedPrio { base_priority : Z; current_priority : Z }.

Record schedee := Schedee {
  runq_prio : Z;
  type : schedee_type;
  active : bool;
  ready : bool;
  waiting : Z;
  released : bool;
  finished : bool;
  affinity : Z;
  priority : schedee_priority
}.

Abbreviation heap := (gmap nat schedee).

(** Field updates. *)
Definition set_runq_prio (p : Z) (e : schedee) : schedee :=
  Schedee p (type e) (active e) (ready e) (waiting e) (released e) (finished e)
    (affinity e) (priority e).
Definition set_active (b : bool) (e : schedee) : schedee :=
  Schedee (runq_prio e) (type e) b (ready e) (waiting e) (released e) (finished e)
    (affinity e) (priority e).
Definition set_ready (b : bool) (e : schedee) : schedee :=
  Schedee (runq_prio e) (type e) (active e) b (waiting e) (released e) (finished e)
    (affinity e) (priority e).
Definition set_waiting (w : Z) (e : schedee) : schedee :=
  Schedee (runq_prio e) (type e) (active e) (ready e) w (released e) (finished e)
    (affinity e) (priority e).
Definition set_released (b : bool) (e : schedee) : schedee :=
  Schedee (runq_prio e) (type e) (active e) (ready e) (waiting e) b (finished e)
    (affinity e) (priority e).
Definition set_finished (b : bool) (e : schedee) : schedee :=
  Schedee (runq_prio e) (type e) (active e) (ready e) (waiting e) (released e) b
    (affinity e) (priority e).
Definition set_priority (p : schedee_priority) (e : schedee) : schedee :=
  Schedee (runq_prio e) (type e) (active e) (ready e) (waiting e) (released e)
    (finished e) (affinity e) p.

Definition schedee_is_thread (e : schedee) : bool :=
  match type e with SCHEDEE_THREAD => true | SCHEDEE_LTHREAD => false end.

(** * Priorities, [inherit.c] *)

Definition schedee_priority_init (new_priority : Z) : schedee_priority :=
  SchedPrio new_priority new_priority.

Definition schedee_priority_get (e : schedee) : Z := current_priority (priority e).

(** The three callbacks of [sched_change_priority]. *)
Definition priority_set_cb (p : schedee_priority) (new_priority : Z) : schedee_priority :=
  if base_priority p =? new_priority then p
  else if base_priority p =? current_priority p
  then SchedPrio new_priority new_priority
  else SchedPrio new_priority
         (if current_priority p <=? new_priority then new_priority else current_priority p).

Definition priority_inherit_cb (p : schedee_priority) (prior : Z) : schedee_priority :=
  if prior >? current_priority p then SchedPrio (base_priority p) prior else p.

Definition priority_reverse_cb (p : schedee_priority) (prior : Z) : schedee_priority :=
  SchedPrio (base_priority p) (base_priority p).

(** * Affinity, [affinity/smp.h] *)

Definition SCHEDEE_AFFINITY_NONE : Z := s32 (-1).
Definition sched_affinity_check (mask_of : Z) (mask : Z) : bool :=
  negb (Z.land mask_of mask =? 0).

(** [schedee_init] of [sched.c]: the state a schedee starts in. *)
Definition schedee_init (prio : Z) (ty : schedee_type) (default_mask : Z) : schedee :=
  {| runq_prio := prio; type := ty; active := false; ready := false; waiting := 1;
     released := true; finished := false;
     affinity := if default_mask =? 0 then SCHEDEE_AFFINITY_NONE else default_mask;
     priority := schedee_priority_init prio |}.

(** * Well-formed priorities *)

Definition prio_range (p : Z) : Prop := SCHED_PRIORITY_MIN <= p <= SCHED_PRIORITY_MAX.

(** A boost never lowers: the current priority is at least the base one. *)
Definition prio_ok (p : schedee_priority) : Prop :=
  prio_range (base_priority p) /\ prio_range (current_priority p) /\
  base_priority p <= current_priority p.

(** * The service order of a run queue

    What a strategy stores is seen as the list of its schedees with the level
    each was filed at, in the order they would be served: levels descending,
    first come first served inside a level. *)

Abbreviation items := (list (Z * nat)).

(** Where a schedee of level [p] goes: behind everything of level [>= p]. *)
Fixpoint rq_place (p : Z) (s : nat) (l : items) : items :=
  match l with
  | [] => [(p, s)]
  | (p', s') :: l' => if p <=? p' then (p', s') :: rq_place p s l' else (p, s) :: l
  end.

Definition rq_remove (s : nat) (l : items) : items :=
  filter (fun x => x.2 <> s) l.

(** The first schedee of a list that may run. *)
Fixpoint first_elig (P : nat -> bool) (l : list nat) : option nat :=
  match l with
  | [] => None
  | s :: l => if P s then Some s else first_elig P l
  end.

Definition rq_first (P : nat -> bool) (l : items) : option nat := first_elig P l.*2.

(** The order is sorted: no level precedes a greater one. *)
Fixpoint rq_sorted (l : items) : Prop :=
  match l with
  | [] => True
  | x :: l => Forall (fun y => y.1 <= x.1) l /\ rq_sorted l
  end.

(** The fields of a schedee that a run queue reads. *)
Definition rq_view (e : schedee) : Z * schedee_priority * Z :=
  (runq_prio e, priority e, affinity e).

(** * The interface of a strategy *)

Class RunqOps (Q : Type) := {
  runq_init : Q;
  runq_insert : Q -> heap -> nat -> option (Q * heap);
  runq_remove : Q -> heap -> nat -> option Q;
  runq_get_next : Q -> heap -> Z -> option (option nat);
  runq_extract : Q -> heap -> Z -> option (option nat * Q)
}.

(** What the scheduler relies on.  [runq_elig] is the strategy's own test (an
    affinity mask, or nothing at all). *)
Class RunqSpec (Q : Type) `{RunqOps Q} := {
  runq_inv : Q -> heap -> Prop;
  runq_items : Q -> heap -> items;
  runq_elig : heap -> Z -> nat -> bool;
  runq_elig_ok : forall h m s e, h !! s = Some e ->
    sched_affinity_check (affinity e) m = true -> runq_elig h m s = true;
  runq_init_ok : forall h, runq_inv runq_init h /\ runq_items runq_init h = [];
  runq_items_ok : forall q h, runq_inv q h ->
    NoDup (runq_items q h).*2 /\ rq_sorted (runq_items q h) /\
    forall p s, (p, s) ∈ runq_items q h ->
      exists e, h !! s = Some e /\ prio_range p /\ schedee_priority_get e = p;
  runq_frame : forall q h h', runq_inv q h ->
    (forall s, s ∈ (runq_items q h).*2 -> rq_view <$> h' !! s = rq_view <$> h !! s) ->
    runq_inv q h' /\ runq_items q h' = runq_items q h;
  runq_insert_ok : forall q h s e, runq_inv q h ->
    h !! s = Some e -> prio_range (schedee_priority_get e) ->
    s ∉ (runq_items q h).*2 ->
    exists q' x, runq_insert q h s = Some (q', <[s := set_runq_prio x e]> h) /\
      runq_inv q' (<[s := set_runq_prio x e]> h) /\
      runq_items q' (<[s := set_runq_prio x e]> h) =
        rq_place (schedee_priority_get e) s (runq_items q h);
  runq_remove_ok : forall q h s, runq_inv q h -> s ∈ (runq_items q h).*2 ->
    exists q', runq_remove q h s = Some q' /\ runq_inv q' h /\
      runq_items q' h = rq_remove s (runq_items q h);
  runq_get_next_ok : forall q h m s, runq_inv q h ->
    rq_first (runq_elig h m) (runq_items q h) = Some s ->
    runq_get_next q h m = Some (Some s);
  runq_extract_ok : forall q h m s, runq_inv q h ->
    rq_first (runq_elig h m) (runq_items q h) = Some s ->
    exists q', runq_extract q h m = Some (Some s, q') /\ runq_inv q' h /\
      runq_items q' h = rq_remove s (runq_items q h)
}.

(** * Lemmas *)

Lemma priority_set_cb_ok p n : prio_ok p -> prio_range n -> prio_ok (priority_set_cb p n).
Proof.
  unfold prio_ok, priority_set_cb. intros (Hb & Hc & Hle) Hn. zbool; cbn; repeat split;
    unfold prio_range in *; lia.
Qed.

Lemma priority_inherit_cb_ok p n :
  prio_ok p -> prio_range n -> prio_ok (priority_inherit_cb p n).
Proof.
  unfold prio_ok, priority_inherit_cb. intros (Hb & Hc & Hle) Hn. zbool; cbn; repeat split;
    unfold prio_range in *; lia.
Qed.

Lemma priority_reverse_cb_ok p n : prio_ok p -> prio_ok (priority_reverse_cb p n).
Proof. unfold prio_ok, priority_reverse_cb. intros (Hb & Hc & Hle). cbn. repeat split; lia || apply Hb. Qed.

#[export] Hint Resolve priority_set_cb_ok priority_inherit_cb_ok priority_reverse_cb_ok : embox.

Lemma rq_place_perm p s l : rq_place p s l ≡ₚ (p, s) :: l.
Proof.
  induction l as [|[p' s'] l IH]; cbn; [done|]. zbool; [|done].
  rewrite IH. apply perm_swap.
Qed.

Lemma rq_place_elem p s l x : x ∈ rq_place p s l <-> x = (p, s) \/ x ∈ l.
Proof. rewrite rq_place_perm. apply elem_of_cons. Qed.

Lemma rq_place_sorted p s l : rq_sorted l -> rq_sorted (rq_place p s l).
Proof.
  induction l as [|[p' s'] l IH]; cbn; [done|]. intros [Hf Hs]. zbool; cbn.
  - split; [|by apply IH]. apply Forall_forall. intros x [->|Hx]%rq_place_elem; cbn; [lia|].
    by apply (proj1 (Forall_forall _ _) Hf).
  - split; [|done]. constructor; [cbn; lia|]. eapply Forall_impl; [done|].
    intros x Hx. cbn in *. lia.
Qed.

Lemma rq_place_app_l p s l1 l2 :
  Forall (fun x => p <= x.1) l1 -> rq_place p s (l1 ++ l2) = l1 ++ rq_place p s l2.
Proof.
  induction 1 as [|[p' s'] l1 Hx H IH]; cbn in *; [done|]. zbool; [|lia]. by rewrite IH.
Qed.

Lemma rq_place_app_r p s l1 l2 :
  Forall (fun x => x.1 < p) l2 -> rq_place p s (l1 ++ l2) = rq_place p s l1 ++ l2.
Proof.
  intros H. induction l1 as [|[p' s'] l1 IH]; cbn.
  - destruct H as [|[p' s'] l2]; cbn in *; [done|]. zbool; [lia|done].
  - zbool; [|done]. by rewrite IH.
Qed.

Lemma rq_remove_elem s l x : x ∈ rq_remove s l <-> x ∈ l /\ x.2 <> s.
Proof. unfold rq_remove. rewrite list_elem_of_filter. naive_solver. Qed.

Lemma rq_remove_snd s (l : items) : (rq_remove s l).*2 = filter (fun x => x <> s) l.*2.
Proof. apply filter_snd. Qed.

Lemma rq_remove_app s l1 l2 : rq_remove s (l1 ++ l2) = rq_remove s l1 ++ rq_remove s l2.
Proof. apply filter_app. Qed.

Lemma first_elig_app P l1 l2 :
  first_elig P (l1 ++ l2) = match first_elig P l1 with Some s => Some s | None => first_elig P l2 end.
Proof. induction l1 as [|s l1 IH]; cbn; [done|]. by destruct (P s). Qed.

Lemma first_elig_Some P l s : first_elig P l = Some s -> s ∈ l /\ P s = true.
Proof.
  induction l as [|x l IH]; cbn; [done|]. destruct (P x) eqn:E; intros H.
  - simplify_eq. split; [left|done].
  - destruct (IH H). split; [by right|done].
Qed.

Lemma first_elig_None P l : first_elig P l = None <-> forall s, s ∈ l -> P s = false.
Proof.
  induction l as [|x l IH]; cbn; [set_solver|]. destruct (P x) eqn:E.
  - split; [done|]. intros H. rewrite H in E by left. done.
  - rewrite IH. set_solver.
Qed.

Lemma first_elig_ext P P' l : (forall s, s ∈ l -> P s = P' s) -> first_elig P l = first_elig P' l.
Proof.
  induction l as [|x l IH]; intros H; cbn; [done|]. rewrite (H x) by left.
  destruct (P' x); [done|]. apply IH. intros s Hs. apply H. by right.
Qed.

(** The first eligible schedee of a sorted order has the greatest level. *)
Lemma rq_first_max P l s :
  rq_sorted l -> rq_first P l = Some s ->
  exists p, (p, s) ∈ l /\ P s = true /\
    forall p' s', (p', s') ∈ l -> P s' = true -> p' <= p.
Proof.
  unfold rq_first. induction l as [|[p0 s0] l IH]; cbn; [done|]. intros [Hf Hs].
  rewrite Forall_forall in Hf. destruct (P s0) eqn:E; intros Hs0.
  - simplify_eq. exists p0. repeat split; [left|done|].
    intros p' s' [?|Hin]%elem_of_cons _; simplify_eq; [lia|]. by apply Hf in Hin.
  - destruct (IH Hs Hs0) as (p & Hin & HP & Hmax). exists p. repeat split; [by right|done|].
    intros p' s' [?|Hin']%elem_of_cons HP'; simplify_eq; [congruence|]. eauto.
Qed.

(** Removal undoes insertion. *)
Lemma rq_remove_place p s l : s ∉ l.*2 -> rq_remove s (rq_place p s l) = l.
Proof.
  intros H.
  assert (rq_remove s l = l) as Hl.
  { unfold rq_remove. apply filter_all. intros [p0 x] Hx Heq. apply H.
    cbn in Heq. subst x. by apply (list_elem_of_fmap_2 snd _ (p0, s)). }
  unfold rq_remove in *. induction l as [|[p' s'] l IH]; cbn [rq_place].
  - by rewrite filter_cons_False by (cbn; naive_solver).
  - rewrite fmap_cons, not_elem_of_cons in H. destruct H as [Hne H].
    rewrite filter_cons_True in Hl by (cbn; naive_solver). simplify_eq. zbool.
    + rewrite filter_cons_True by (cbn; naive_solver). by rewrite IH.
    + rewrite filter_cons_False by (cbn; naive_solver).
      rewrite filter_cons_True by (cbn; naive_solver). by rewrite Hl.
Qed.
