(* ===== verification/RunqArray.v ===== *)
(** The SMP run queue, [src/kernel/sched/strategy/runq/list_array.c].

    One list per priority level and a 256-bit map of the occupied levels.  A
    level's [dlist] is the list of its schedees from first to last, so
    [dlist_add_prev] on the head appends and [dlist_del] removes the schedee
    from the list it is in, whichever that is.  The reference for the searches
    is a plain scan of all the levels ([lv_items]); the map-driven searches are
    proved equal to it. *)
From S2P Require Import Prelude Bitmap Schedee.

Local Open Scope Z_scope.
Local Open Scope embox_scope.

Module ListArray.

Definition RUNQ_MAP_WORDS : Z := (SCHED_PRIORITY_TOTAL + 63) / 64.

(** [runq_t], with the two global counters of the file. *)
Record runq_t := Runq {
  list_ : list (list nat);
  occupied : list Z;
  runq_map_stale : Z;
  runq_prio_moved : Z
}.

Definition init : runq_t := {|
  list_ := replicate (Z.to_nat SCHED_PRIORITY_TOTAL) [];
  occupied := replicate (Z.to_nat RUNQ_MAP_WORDS) 0;
  runq_map_stale := 0;
  runq_prio_moved := 0 |}.

(** The [while (1)] of [runq_occupied_below], at word [w]. *)
Fixpoint occupied_scan (occupied : list Z) (word : Z) (w : nat) : option Z :=
  if negb (word =? 0)
  then Some (Z.shiftl (Z.of_nat w) 6 + 63 - builtin_clz 64 word)
  else match w with
       | O => Some (-1)
       | S w => word ← znth occupied (Z.of_nat w); occupied_scan occupied word w
       end.

Definition runq_occupied_below (q : runq_t) (prio : Z) : option Z :=
  if prio <? SCHED_PRIORITY_MIN then Some (-1)
  else
    let prio := if prio >? SCHED_PRIORITY_MAX then SCHED_PRIORITY_MAX else prio in
    let w := Z.shiftr prio 6 in
    word ← znth (occupied q) w;
    let word := if negb (Z.land prio 63 =? 63)
                then Z.land word (u64 (Z.shiftl 1 (Z.land prio 63 + 1)) - 1)
                else word in
    occupied_scan (occupied q) word (Z.to_nat w).

Definition insert (q : runq_t) (h : heap) (s : nat) : option (runq_t * heap) :=
  e ← h !! s;
  let prio := schedee_priority_get e in
  let h := <[s := set_runq_prio prio e]> h in
  level ← znth (list_ q) prio;
  list' ← zset (list_ q) prio (level ++ [s]);
  word ← znth (occupied q) (Z.shiftr prio 6);
  occ' ← zset (occupied q) (Z.shiftr prio 6)
           (Z.lor word (u64 (Z.shiftl 1 (Z.land prio 63))));
  Some ({| list_ := list'; occupied := occ'; runq_map_stale := runq_map_stale q;
           runq_prio_moved := runq_prio_moved q |}, h).

(** [dlist_del] on the run-queue link of [s]. *)
Definition unlink (s : nat) (lists : list (list nat)) : list (list nat) :=
  (fun l : list nat => filter (fun x => x <> s) l) <$> lists.

Definition remove (q : runq_t) (h : heap) (s : nat) : option runq_t :=
  e ← h !! s;
  let prio := runq_prio e in
  let moved := if negb (prio =? schedee_priority_get e)
               then u64 (runq_prio_moved q + 1) else runq_prio_moved q in
  let lists := unlink s (list_ q) in
  level ← znth lists prio;
  occ' ← match level with
         | [] => word ← znth (occupied q) (Z.shiftr prio 6);
                 zset (occupied q) (Z.shiftr prio 6)
                   (Z.land word (wnot 64 (u64 (Z.shiftl 1 (Z.land prio 63)))))
         | _ => Some (occupied q)
         end;
  Some {| list_ := lists; occupied := occ'; runq_map_stale := runq_map_stale q;
          runq_prio_moved := moved |}.

Definition elig (h : heap) (mask : Z) (s : nat) : bool :=
  match h !! s with Some e => sched_affinity_check (affinity e) mask | None => false end.

(** The [for] loop of [runq_get_next] and [runq_extract], at level [i]; an
    occupied level is walked, the affinity of its members decides. *)
Fixpoint search (fuel : nat) (q : runq_t) (h : heap) (mask i : Z) : option (option nat) :=
  match fuel with
  | O => None
  | S fuel =>
    if negb (i >=? 0) then Some None
    else
      level ← znth (list_ q) i;
      match first_elig (elig h mask) level with
      | Some s => Some (Some s)
      | None => i ← runq_occupied_below q (i - 1); search fuel q h mask i
      end
  end.

(** One turn per level at most, and one to leave. *)
Definition search_fuel : nat := 257.

Definition get_next (q : runq_t) (h : heap) (mask : Z) : option (option nat) :=
  i ← runq_occupied_below q SCHED_PRIORITY_MAX; search search_fuel q h mask i.

Definition extract (q : runq_t) (h : heap) (mask : Z) : option (option nat * runq_t) :=
  i ← runq_occupied_below q SCHED_PRIORITY_MAX;
  r ← search search_fuel q h mask i;
  match r with
  | Some s => q' ← remove q h s; Some (Some s, q')
  | None => Some (None, q)
  end.

Definition get_next_ignore_affinity (q : runq_t) : option (option nat * runq_t) :=
  i ← runq_occupied_below q SCHED_PRIORITY_MAX;
  if i <? 0 then Some (None, q)
  else
    level ← znth (list_ q) i;
    match level with
    | [] => Some (None, {| list_ := list_ q; occupied := occupied q;
                           runq_map_stale := u64 (runq_map_stale q + 1);
                           runq_prio_moved := runq_prio_moved q |})
    | s :: _ => Some (Some s, q)
    end.

#[export] Instance ops : RunqOps runq_t := {|
  runq_init := init;
  runq_insert := insert;
  runq_remove := remove;
  runq_get_next := get_next;
  runq_extract := extract |}.

(** * The service order: levels descending, each in its own order *)

Fixpoint lv_items (k : Z) (lists : list (list nat)) : items :=
  match lists with
  | [] => []
  | l :: lists => lv_items (k + 1) lists ++ ((fun s => (k, s)) <$> l)
  end.

Definition all_items (q : runq_t) : items := lv_items 0 (list_ q).

(** The occupied bit of a level. *)
Definition occ_bit (q : runq_t) (p : Z) : bool :=
  match znth (occupied q) (p / 64) with
  | Some w => Z.testbit w (p mod 64)
  | None => false
  end.

(** The invariant: the map describes the lists, every schedee is filed at the
    level it remembers, and that is its priority. *)
Record inv (q : runq_t) (h : heap) : Prop := {
  inv_levels : zlen (list_ q) = SCHED_PRIORITY_TOTAL;
  inv_words : zlen (occupied q) = RUNQ_MAP_WORDS;
  inv_bound : Forall (fun w => 0 <= w < 2 ^ 64) (occupied q);
  inv_map : forall p l, znth (list_ q) p = Some l -> occ_bit q p = negb (bool_decide (l = []));
  inv_filed : forall p s, (p, s) ∈ all_items q ->
    exists e, h !! s = Some e /\ runq_prio e = p /\ schedee_priority_get e = p;
  inv_nodup : NoDup (all_items q).*2
}.

(** * Lemmas on levels *)

Lemma lv_items_elem k lists p s :
  (p, s) ∈ lv_items k lists <->
  exists l, k <= p /\ znth lists (p - k) = Some l /\ s ∈ l.
Proof.
  revert k. induction lists as [|l lists IH]; intros k; cbn.
  - split; [by intros ?%not_elem_of_nil|]. intros (l & ? & Hn & ?).
    apply znth_Some in Hn. unfold zlen in Hn. cbn in Hn. lia.
  - rewrite elem_of_app, IH, list_elem_of_fmap. split.
    + intros [(l' & ? & Hn & ?)|(x & Hx & ?)].
      * exists l'. split; [lia|]. split; [|done].
        rewrite znth_lookup in * by lia.
        replace (Z.to_nat (p - k)) with (S (Z.to_nat (p - (k + 1)))) by lia. done.
      * simplify_eq. exists l. rewrite Z.sub_diag. split; [lia|]. done.
    + intros (l' & Hk & Hn & ?). destruct (decide (p = k)) as [->|].
      * right. rewrite Z.sub_diag in Hn. injection Hn as <-. by exists s.
      * left. exists l'. split; [lia|]. split; [|done].
        rewrite znth_lookup in * by lia.
        replace (Z.to_nat (p - k)) with (S (Z.to_nat (p - (k + 1)))) in Hn by lia. done.
Qed.

Lemma lv_items_ge k lists : Forall (fun x => k <= x.1) (lv_items k lists).
Proof. apply Forall_forall. intros [p s] (l & ? & _)%lv_items_elem. done. Qed.

Lemma lv_items_sorted k lists : rq_sorted (lv_items k lists).
Proof.
  assert (forall l1 l2, rq_sorted l1 -> rq_sorted l2 ->
    (forall x y, x ∈ l1 -> y ∈ l2 -> y.1 <= x.1) -> rq_sorted (l1 ++ l2)) as Happ.
  { induction l1 as [|x l1 IH]; intros l2 H1 H2 Hxy; cbn in *; [done|].
    destruct H1 as [Hf H1]. split.
    - apply Forall_app. split; [done|]. apply Forall_forall. intros y Hy.
      apply Hxy; [left|done].
    - apply IH; try done. intros. apply Hxy; [by right|done]. }
  revert k. induction lists as [|l lists IH]; intros k; cbn; [done|].
  apply Happ; [apply IH| |].
  - induction l as [|s l IHl]; cbn; [done|]. split; [|apply IHl].
    apply Forall_forall. intros y (x & -> & _)%list_elem_of_fmap. cbn. lia.
  - intros [p x] y (l' & Hp & _)%lv_items_elem (s & -> & _)%list_elem_of_fmap. cbn. lia.
Qed.

Lemma lv_items_insert k lists p s l :
  k <= p -> znth lists (p - k) = Some l ->
  lv_items k (<[Z.to_nat (p - k) := l ++ [s]]> lists) = rq_place p s (lv_items k lists).
Proof.
  revert k. induction lists as [|l0 lists IH]; intros k Hk Hn.
  - apply znth_Some in Hn. unfold zlen in Hn. cbn in Hn. lia.
  - rewrite znth_lookup in Hn by lia. destruct (decide (p = k)) as [->|].
    + rewrite Z.sub_diag in *. change (Z.to_nat 0) with 0%nat in *. cbn in *. simplify_eq.
      rewrite rq_place_app_l.
      2: { eapply Forall_impl; [apply lv_items_ge|]. cbn. lia. }
      f_equal. clear. induction l as [|x l IH]; cbn; [done|]. zbool; [|lia]. by rewrite IH.
    + replace (Z.to_nat (p - k)) with (S (Z.to_nat (p - (k + 1)))) in * by lia. cbn in *.
      rewrite IH by (rewrite ?znth_lookup; lia || done).
      rewrite rq_place_app_r; [done|]. apply Forall_forall.
      intros x (y & -> & _)%list_elem_of_fmap. cbn. lia.
Qed.

Lemma lv_items_unlink k lists s : lv_items k (unlink s lists) = rq_remove s (lv_items k lists).
Proof.
  unfold unlink. revert k. induction lists as [|l lists IH]; intros k; [done|].
  rewrite fmap_cons. cbn [lv_items].
  rewrite rq_remove_app, IH. f_equal. unfold rq_remove.
  clear. induction l as [|x l IH]; [done|]. rewrite fmap_cons.
  destruct (decide (x = s)) as [->|].
  - by rewrite !filter_cons_False by (cbn; naive_solver).
  - rewrite !filter_cons_True by done. by rewrite fmap_cons, IH.
Qed.

(** The levels up to [i], as the searches see them. *)
Lemma lv_items_take k lists i l :
  znth lists i = Some l ->
  lv_items k (take (Z.to_nat (i + 1)) lists) =
  ((fun s => (k + i, s)) <$> l) ++ lv_items k (take (Z.to_nat i) lists).
Proof.
  revert k i. induction lists as [|l0 lists IH]; intros k i Hn.
  - apply znth_Some in Hn. unfold zlen in Hn. cbn in Hn. lia.
  - pose proof (znth_Some _ _ _ Hn). destruct (decide (i = 0)) as [->|].
    + injection Hn as ->. change (Z.to_nat 0) with 0%nat. change (Z.to_nat (0 + 1)) with 1%nat.
      cbn. by rewrite Z.add_0_r, app_nil_r.
    + replace (Z.to_nat (i + 1)) with (S (Z.to_nat (i - 1 + 1))) by lia.
      replace (Z.to_nat i) with (S (Z.to_nat (i - 1))) by lia. cbn.
      rewrite (IH (k + 1) (i - 1)).
      * rewrite <- app_assoc. by replace (k + 1 + (i - 1)) with (k + i) by lia.
      * rewrite znth_lookup in * by lia.
        by replace (Z.to_nat i) with (S (Z.to_nat (i - 1))) in Hn by lia.
Qed.

(** * The map *)

(** [r] is the highest index of [0, hi] where [B] holds, or [-1]. *)
Definition highest (B : Z -> bool) (hi r : Z) : Prop :=
  (r = -1 /\ forall p, 0 <= p <= hi -> B p = false) \/
  (0 <= r <= hi /\ B r = true /\ forall p, r < p <= hi -> B p = false).

Definition word_bit (occ : list Z) (p : Z) : bool :=
  match znth occ (p / 64) with Some w => Z.testbit w (p mod 64) | None => false end.

Lemma word_bit_split occ w k word :
  0 <= k < 64 -> znth occ w = Some word -> word_bit occ (64 * w + k) = Z.testbit word k.
Proof.
  intros Hk Hw. unfold word_bit.
  replace ((64 * w + k) / 64) with w by (apply Z.div_unique with k; lia).
  replace ((64 * w + k) mod 64) with k by (apply Z.mod_unique with w; lia).
  by rewrite Hw.
Qed.

Lemma occupied_scan_spec occ w : forall word B,
  Forall (fun x => 0 <= x < 2 ^ 64) occ -> Z.of_nat w <= zlen occ -> 0 <= word < 2 ^ 64 ->
  (forall k, 0 <= k < 64 -> B (64 * Z.of_nat w + k) = Z.testbit word k) ->
  (forall p, 0 <= p < 64 * Z.of_nat w -> B p = word_bit occ p) ->
  exists r, occupied_scan occ word w = Some r /\
    highest B (64 * Z.of_nat w + 63) r.
Proof.
  assert (forall (w : nat) word B, 0 <= word < 2 ^ 64 -> word <> 0 ->
    (forall k, 0 <= k < 64 -> B (64 * Z.of_nat w + k) = Z.testbit word k) ->
    highest B (64 * Z.of_nat w + 63) (Z.shiftl (Z.of_nat w) 6 + 63 - builtin_clz 64 word)) as Hit.
  { intros w0 word B Hword Hne HB. unfold builtin_clz. rewrite Z.shiftl_mul_pow2 by lia.
    assert (0 <= Z.log2 word < 64) as Hl.
    { split; [apply Z.log2_nonneg|]. apply Z.log2_lt_pow2; lia. }
    replace (Z.of_nat w0 * 2 ^ 6 + 63 - (64 - 1 - Z.log2 word))
      with (64 * Z.of_nat w0 + Z.log2 word) by lia.
    right. split; [lia|]. split; [rewrite HB by lia; apply Z.bit_log2; lia|].
    intros p Hp. replace p with (64 * Z.of_nat w0 + (p - 64 * Z.of_nat w0)) by lia.
    rewrite HB by lia. apply Z.bits_above_log2; lia. }
  induction w as [|w IH]; intros word B Hocc Hlen Hword HB Hlow; cbn [occupied_scan];
    destruct (Z.eqb_spec word 0) as [->|Hne]; cbn [negb]; try (eexists; split; [done|by apply Hit]).
  - exists (-1). split; [done|]. left. split; [done|]. intros p Hp.
    replace p with (64 * Z.of_nat 0 + p) by lia. rewrite HB by lia. apply Z.testbit_0_l.
  - destruct (znth_lt occ (Z.of_nat w)) as [word' Hw]; [lia|]. rewrite Hw. cbn [mbind option_bind].
    destruct (IH word' B) as (r & Hr & Hh); try done; try lia.
    + rewrite znth_lookup in Hw by lia. by eapply (Forall_lookup_1 _ _ _ _ Hocc) in Hw.
    + intros k Hk. rewrite Hlow by lia. by apply word_bit_split.
    + intros p Hp. apply Hlow. lia.
    + exists r. split; [done|].
      assert (forall p, 64 * Z.of_nat w + 63 < p <= 64 * Z.of_nat (S w) + 63 -> B p = false) as Hz.
      { intros p Hp. replace p with (64 * Z.of_nat (S w) + (p - 64 * Z.of_nat (S w))) by lia.
        rewrite HB by lia. apply Z.testbit_0_l. }
      destruct Hh as [[-> Hh]|(Hr0 & HBr & Hh)].
      * left. split; [done|]. intros p Hp. destruct (Z.leb_spec p (64 * Z.of_nat w + 63));
          [apply Hh; lia|apply Hz; lia].
      * right. split; [lia|]. split; [done|]. intros p Hp.
        destruct (Z.leb_spec p (64 * Z.of_nat w + 63)); [apply Hh; lia|apply Hz; lia].
Qed.

(** The map search is the highest occupied level at or below [prio]. *)
Lemma occupied_below_spec q prio :
  zlen (occupied q) = RUNQ_MAP_WORDS ->
  Forall (fun w => 0 <= w < 2 ^ 64) (occupied q) -> prio <= SCHED_PRIORITY_MAX ->
  exists r, runq_occupied_below q prio = Some r /\ highest (occ_bit q) prio r.
Proof.
  intros Hlen Hb Hp. unfold runq_occupied_below, SCHED_PRIORITY_MIN, SCHED_PRIORITY_MAX in *.
  destruct (Z.ltb_spec prio 0).
  { exists (-1). split; [done|]. left. split; [done|]. lia. }
  rewrite Z.gtb_ltb. destruct (Z.ltb_spec 255 prio); [lia|].
  rewrite shiftr_6, land_63. change RUNQ_MAP_WORDS with 4 in Hlen.
  pose proof (Z.div_mod prio 64). pose proof (Z.mod_pos_bound prio 64).
  set (w := prio / 64) in *. set (k := prio mod 64) in *.
  destruct (znth_lt (occupied q) w) as [word Hw]; [lia|]. rewrite Hw. cbn [mbind option_bind].
  assert (0 <= word < 2 ^ 64) as Hword.
  { rewrite znth_lookup in Hw by lia. by eapply (Forall_lookup_1 _ _ _ _ Hb) in Hw. }
  set (word' := if negb (k =? 63) then _ else word).
  assert (forall i, 0 <= i < 64 -> Z.testbit word' i = Z.testbit word i && (i <=? k)) as Hbit.
  { intros i Hi. unfold word'. destruct (Z.eqb_spec k 63) as [E|E]; cbn [negb].
    - destruct (Z.leb_spec i k); [by rewrite andb_true_r|lia].
    - rewrite Z.land_spec. f_equal. rewrite wrap_small.
      2: { rewrite Z.shiftl_1_l. split; [apply Z.pow_nonneg; lia|apply Z.pow_lt_mono_r; lia]. }
      rewrite Z.shiftl_1_l, Z.sub_1_r, <- Z.ones_equiv. zbool;
        [apply Z.ones_spec_low|apply Z.ones_spec_high]; lia. }
  assert (0 <= word' < 2 ^ 64) as Hword'.
  { assert (0 <= word') by (unfold word'; destruct (negb _); [apply Z.land_nonneg|]; lia).
    apply bounded_testbit; [lia|]. split; [done|]. intros i Hi. unfold word'.
    destruct (negb _); rewrite ?Z.land_spec, (bounded_high_bit 64 word) by lia; done. }
  destruct (occupied_scan_spec (occupied q) (Z.to_nat w) word'
              (fun p => occ_bit q p && (p <=? prio))) as (r & Hr & Hh); try done; try lia.
  - intros i Hi. rewrite Z2Nat.id by lia. rewrite Hbit by lia.
    change (occ_bit q) with (word_bit (occupied q)). erewrite word_bit_split by done.
    f_equal. zbool; lia || done.
  - intros p Hpw. change (occ_bit q) with (word_bit (occupied q)).
    destruct (Z.leb_spec p prio); [apply andb_true_r|lia].
  - exists r. split; [done|]. rewrite Z2Nat.id in Hh by lia.
    destruct Hh as [[-> Hh]|(Hr0 & HBr & Hh)].
    + left. split; [done|]. intros p Hp'. specialize (Hh p). cbn in Hh.
      destruct (Z.leb_spec p prio); [|lia]. rewrite andb_true_r in Hh. apply Hh. lia.
    + apply andb_true_iff in HBr as [HBr Hle]. apply Z.leb_le in Hle.
      right. split; [lia|]. split; [done|]. intros p Hp'. specialize (Hh p). cbn in Hh.
      destruct (Z.leb_spec p prio); [|lia]. rewrite andb_true_r in Hh. apply Hh. lia.
Qed.

(** * The operations meet the interface *)

Lemma inv_level q h p :
  inv q h -> prio_range p -> exists l, znth (list_ q) p = Some l.
Proof.
  intros Hi Hp. apply znth_lt. rewrite (inv_levels _ _ Hi).
  unfold prio_range, SCHED_PRIORITY_MIN, SCHED_PRIORITY_MAX, SCHED_PRIORITY_TOTAL in *.
  unfold SCHED_PRIORITY_MAX, SCHED_PRIORITY_MIN. lia.
Qed.

Lemma inv_level_range q h p l : inv q h -> znth (list_ q) p = Some l -> prio_range p.
Proof.
  intros Hi Hn%znth_Some. rewrite (inv_levels _ _ Hi) in Hn.
  unfold prio_range, SCHED_PRIORITY_MIN, SCHED_PRIORITY_MAX. 
  change SCHED_PRIORITY_TOTAL with 256 in Hn. lia.
Qed.

(** Unoccupied levels contribute nothing. *)
Lemma items_highest q h hi r :
  inv q h -> -1 <= hi <= SCHED_PRIORITY_MAX -> highest (occ_bit q) hi r ->
  lv_items 0 (take (Z.to_nat (hi + 1)) (list_ q)) =
  lv_items 0 (take (Z.to_nat (r + 1)) (list_ q)).
Proof.
  intros Hi Hhi Hh.
  assert (-1 <= r <= hi /\ forall p, r < p <= hi -> occ_bit q p = false) as [Hr Hno].
  { destruct Hh as [[-> Hh]|(? & _ & Hh)]; (split; [lia|]); intros; apply Hh; lia. }
  clear Hh. remember (Z.to_nat (hi - r)) as n eqn:En.
  revert hi Hhi Hr Hno En. induction n as [|n IH]; intros hi Hhi Hr Hno En.
  { by replace hi with r by lia. }
  destruct (inv_level q h hi) as [l Hl]; [done| |].
  { unfold prio_range, SCHED_PRIORITY_MIN. lia. }
  rewrite (lv_items_take _ _ _ _ Hl).
  pose proof (inv_map _ _ Hi _ _ Hl) as Hm. rewrite Hno in Hm by lia.
  destruct (decide (l = [])) as [->|Hne]; [|by rewrite bool_decide_false in Hm].
  cbn. replace (Z.to_nat hi) with (Z.to_nat (hi - 1 + 1)) by lia.
  apply IH; try lia. intros. apply Hno. lia.
Qed.

(** The map-driven search is the plain scan of all the levels. *)
Lemma search_spec q h mask : inv q h -> forall fuel hi i,
  -1 <= hi <= SCHED_PRIORITY_MAX -> highest (occ_bit q) hi i -> i + 1 < Z.of_nat fuel ->
  search fuel q h mask i =
  Some (rq_first (elig h mask) (lv_items 0 (take (Z.to_nat (hi + 1)) (list_ q)))).
Proof.
  intros Hi. induction fuel as [|fuel IH]; intros hi i Hhi Hh Hf.
  { destruct Hh as [[-> _]|(? & _)]; lia. }
  rewrite (items_highest _ _ _ _ Hi Hhi Hh). cbn [search]. rewrite Z.geb_leb.
  destruct (Z.leb_spec 0 i) as [Hi0|Hi0]; cbn [negb].
  2: { destruct Hh as [[-> _]|(? & _)]; [done|lia]. }
  assert (i <= hi) as Hle by (destruct Hh as [[-> _]|(? & _)]; lia).
  destruct (inv_level q h i) as [l Hl]; [done| |].
  { unfold prio_range, SCHED_PRIORITY_MIN. lia. }
  rewrite Hl. cbn [mbind option_bind]. rewrite (lv_items_take _ _ _ _ Hl).
  unfold rq_first. rewrite fmap_app, first_elig_app.
  rewrite <- list_fmap_compose. replace (snd ∘ _ <$> l) with l
    by (symmetry; apply list_fmap_id).
  destruct (first_elig (elig h mask) l) as [s|]; [done|].
  destruct (occupied_below_spec q (i - 1)) as (j & Hj & Hjh);
    [apply Hi|apply Hi|lia|]. rewrite Hj. cbn [mbind option_bind].
  rewrite (IH (i - 1) j); [|lia|done|].
  - by replace (i - 1 + 1) with i by lia.
  - destruct Hjh as [[-> _]|(? & _)]; lia.
Qed.

Lemma search_all q h mask :
  inv q h ->
  (i ← runq_occupied_below q SCHED_PRIORITY_MAX; search search_fuel q h mask i) =
  Some (rq_first (elig h mask) (all_items q)).
Proof.
  intros Hi. destruct (occupied_below_spec q SCHED_PRIORITY_MAX) as (i & -> & Hh);
    [apply Hi|apply Hi|lia|]. cbn [mbind option_bind].
  rewrite (search_spec q h mask Hi search_fuel SCHED_PRIORITY_MAX i).
  - unfold all_items. rewrite take_ge; [done|]. pose proof (inv_levels _ _ Hi) as Hl.
    unfold zlen in Hl. change SCHED_PRIORITY_TOTAL with 256 in Hl.
    unfold SCHED_PRIORITY_MAX. lia.
  - unfold SCHED_PRIORITY_MAX. lia.
  - done.
  - unfold search_fuel. unfold SCHED_PRIORITY_MAX in Hh.
    destruct Hh as [[-> _]|(? & _)]; lia.
Qed.

Lemma bm_lp64 occ p : bm_bit (A := lp64) occ p = word_bit occ p.
Proof. done. Qed.

Lemma insert_ok q h s e :
  inv q h -> h !! s = Some e -> prio_range (schedee_priority_get e) ->
  s ∉ (all_items q).*2 ->
  let h' := <[s := set_runq_prio (schedee_priority_get e) e]> h in
  exists q', insert q h s = Some (q', h') /\ inv q' h' /\
    all_items q' = rq_place (schedee_priority_get e) s (all_items q).
Proof.
  intros Hi He Hp Hs h'. set (p := schedee_priority_get e) in *.
  destruct (inv_level q h p Hi Hp) as [l Hl]. pose proof (znth_Some _ _ _ Hl) as Hpr.
  destruct (bitmap_set_bit_spec (A := lp64) (occupied q) p) as (occ & Hocc & Hb & Hlen & Hbit).
  { apply Hi. }
  { rewrite (inv_words _ _ Hi). change (LONG_BIT * RUNQ_MAP_WORDS) with 256.
    unfold prio_range, SCHED_PRIORITY_MIN, SCHED_PRIORITY_MAX in Hp. lia. }
  unfold insert. rewrite He. cbn [mbind option_bind]. fold p. rewrite Hl. cbn [mbind option_bind].
  rewrite zset_lt by done. cbn [mbind option_bind]. rewrite shiftr_6, land_63.
  unfold bitmap_set_bit in Hocc.
  change (@BITMAP_OFFSET lp64 p) with (p / 64) in Hocc.
  change (@BITMAP_MASK lp64 p) with (u64 (Z.shiftl 1 (p mod 64))) in Hocc.
  destruct (znth (occupied q) (p / 64)) as [word|]; [|done]. cbn [mbind option_bind] in *.
  rewrite Hocc. cbn [mbind option_bind]. eexists. split; [done|].
  assert (all_items (Runq (<[Z.to_nat p := l ++ [s]]> (list_ q)) occ
            (runq_map_stale q) (runq_prio_moved q)) = rq_place p s (all_items q)) as Hit.
  { unfold all_items. cbn [list_]. rewrite <- (Z.sub_0_r p) at 1.
    apply lv_items_insert; [lia|]. by rewrite Z.sub_0_r. }
  split; [|done]. split; cbn [list_ occupied].
  - unfold zlen. rewrite length_insert. apply Hi.
  - rewrite Hlen. apply Hi.
  - apply Hb.
  - intros p' l' Hl'. change (occ_bit _ p') with (bm_bit (A := lp64) occ p').
    pose proof (znth_Some _ _ _ Hl') as Hp'. rewrite Hbit by lia.
    assert (zset (list_ q) p (l ++ [s]) = Some (<[Z.to_nat p := l ++ [s]]> (list_ q))) as Hz
      by (by apply zset_lt).
    destruct (Z.eqb_spec p' p) as [->|Hne].
    + rewrite (znth_zset_eq _ _ _ _ Hz) in Hl'. simplify_eq.
      by rewrite bool_decide_false by (by destruct l).
    + rewrite (znth_zset_ne _ _ _ _ _ Hz) in Hl' by done. by apply (inv_map _ _ Hi).
  - intros p' s'. rewrite Hit, rq_place_elem. unfold h'. intros [?|Hin].
    + simplify_eq. rewrite lookup_insert_eq. eexists. split; [done|]. cbn. done.
    + destruct (inv_filed _ _ Hi _ _ Hin) as (e' & He' & ?).
      rewrite lookup_insert_ne; [eauto|]. intros ->. apply Hs.
      by apply (list_elem_of_fmap_2 snd _ (p', s')).
  - rewrite Hit, rq_place_perm. cbn. constructor; [done|]. apply Hi.
Qed.

Lemma znth_unlink s (lists : list (list nat)) p :
  znth (unlink s lists) p = (fun l : list nat => filter (fun x => x <> s) l) <$> znth lists p.
Proof.
  unfold znth, unlink. destruct (0 <=? p); [|done]. apply list_lookup_fmap.
Qed.

(** A schedee is on the list of one level only. *)
Lemma unlink_other q h s p p' l' :
  inv q h -> (p, s) ∈ all_items q -> p' <> p -> znth (list_ q) p' = Some l' -> filter (fun x => x <> s) l' = l'.
Proof.
  intros Hi Hin Hne Hl'. apply filter_all. intros x Hx ->.
  assert ((p', s) ∈ all_items q) as Hin'.
  { apply lv_items_elem. exists l'. rewrite Z.sub_0_r. apply znth_Some in Hl' as ?. split; [lia|done]. }
  destruct (inv_filed _ _ Hi _ _ Hin) as (e & He & ? & ?).
  destruct (inv_filed _ _ Hi _ _ Hin') as (e' & He' & ? & ?). congruence.
Qed.

(** The map of occupied levels after an element has left level [p]. *)
Lemma unlink_map q h s p l :
  inv q h -> (p, s) ∈ all_items q -> znth (list_ q) p = Some l ->
  exists occ',
    match filter (fun x => x <> s) l with
    | [] => word ← znth (occupied q) (Z.shiftr p 6);
            zset (occupied q) (Z.shiftr p 6)
              (Z.land word (wnot 64 (u64 (Z.shiftl 1 (Z.land p 63)))))
    | _ => Some (occupied q)
    end = Some occ' /\ zlen occ' = RUNQ_MAP_WORDS /\
    Forall (fun w => 0 <= w < 2 ^ 64) occ' /\
    forall p' l', znth (unlink s (list_ q)) p' = Some l' ->
      word_bit occ' p' = negb (bool_decide (l' = [])).
Proof.
  intros Hi Hin Hl. pose proof (inv_level_range _ _ _ _ Hi Hl) as Hpr.
  destruct (filter (fun x => x <> s) l) as [|x0 l0] eqn:Ef.
  - destruct (bitmap_clear_bit_spec (A := lp64) (occupied q) p) as (occ & Hocc & Hb & Hlen & Hbit).
    { apply Hi. }
    { rewrite (inv_words _ _ Hi). change (LONG_BIT * RUNQ_MAP_WORDS) with 256.
      unfold prio_range, SCHED_PRIORITY_MIN, SCHED_PRIORITY_MAX in Hpr. lia. }
    exists occ. rewrite shiftr_6, land_63. split; [done|].
    split; [rewrite Hlen; apply Hi|]. split; [done|]. intros p' l' Hl'.
    rewrite znth_unlink in Hl'. apply fmap_Some in Hl' as (l1 & Hl1 & ->).
    rewrite <- bm_lp64, Hbit by (apply znth_Some in Hl1; lia).
    destruct (Z.eqb_spec p' p) as [->|Hne]; [simplify_eq; by rewrite Ef|].
    rewrite (unlink_other _ _ _ _ _ _ Hi Hin Hne Hl1). by apply (inv_map _ _ Hi).
  - exists (occupied q). split; [done|]. split; [apply Hi|]. split; [apply Hi|].
    intros p' l' Hl'. rewrite znth_unlink in Hl'. apply fmap_Some in Hl' as (l1 & Hl1 & ->).
    rewrite (inv_map _ _ Hi _ _ Hl1 : word_bit _ _ = _).
    destruct (decide (p' = p)) as [->|Hne]; [|by rewrite (unlink_other _ _ _ _ _ _ Hi Hin Hne Hl1)].
    simplify_eq. rewrite Ef. rewrite !bool_decide_false; [done|done|]. by intros ->.
Qed.

Lemma remove_ok q h s :
  inv q h -> s ∈ (all_items q).*2 ->
  exists q', remove q h s = Some q' /\ inv q' h /\
    all_items q' = rq_remove s (all_items q) /\
    runq_prio_moved q' = runq_prio_moved q.
Proof.
  intros Hi ([p s0] & Heq & Hin)%list_elem_of_fmap. cbn in Heq. subst s0.
  destruct (inv_filed _ _ Hi _ _ Hin) as (e & He & Hrp & Hcp).
  destruct (proj1 (lv_items_elem _ _ _ _) Hin) as (l & Hp0 & Hl & Hsl). rewrite Z.sub_0_r in Hl.
  unfold remove. rewrite He. cbn [mbind option_bind]. rewrite Hrp, Hcp, Z.eqb_refl. cbn [negb].
  rewrite znth_unlink, Hl. cbn [fmap option_fmap option_map mbind option_bind].
  destruct (unlink_map q h s p l Hi Hin Hl) as (occ' & -> & Hlen & Hb & Hm).
  cbn [mbind option_bind]. eexists. split; [done|].
  assert (all_items (Runq (unlink s (list_ q)) occ' (runq_map_stale q) (runq_prio_moved q))
    = rq_remove s (all_items q)) as Hit by apply lv_items_unlink.
  split; [|by split]. split; cbn [list_ occupied].
  - unfold zlen, unlink. rewrite length_fmap. apply Hi.
  - done.
  - done.
  - apply Hm.
  - intros p' s'. rewrite Hit, rq_remove_elem. intros [Hin' _]. by apply (inv_filed _ _ Hi).
  - rewrite Hit, rq_remove_snd. apply NoDup_filter, Hi.
Qed.

Lemma frame_ok q h h' :
  inv q h ->
  (forall s, s ∈ (all_items q).*2 -> rq_view <$> h' !! s = rq_view <$> h !! s) -> inv q h'.
Proof.
  intros Hi Hv. split; try apply Hi. intros p s Hin.
  destruct (inv_filed _ _ Hi _ _ Hin) as (e & He & Hrp & Hcp).
  specialize (Hv s). rewrite He in Hv. unfold rq_view in Hv.
  destruct (h' !! s) as [e'|]; cbn in Hv.
  - exists e'. split; [done|]. unfold schedee_priority_get in *.
    assert (Some (runq_prio e', priority e', affinity e') = Some (runq_prio e, priority e, affinity e))
      as Hs. { apply Hv. by apply (list_elem_of_fmap_2 snd _ (p, s)). }
    injection Hs as E1 E2 _. by rewrite E1, E2.
  - assert (None = Some (runq_prio e, priority e, affinity e)) by
      (apply Hv; by apply (list_elem_of_fmap_2 snd _ (p, s))). done.
Qed.

Lemma init_ok h : inv init h.
Proof.
  assert (forall n k, lv_items k (replicate n []) = []) as Hnil.
  { induction n as [|n IH]; intros k; cbn; [done|]. by rewrite IH. }
  split.
  - done.
  - done.
  - apply Forall_replicate. lia.
  - intros p l Hl. pose proof (znth_Some _ _ _ Hl).
    rewrite znth_lookup in Hl by lia. apply lookup_replicate in Hl as [-> _].
    unfold occ_bit. destruct (znth (occupied init) (p / 64)) as [w|] eqn:Hw; [|done].
    pose proof (znth_Some _ _ _ Hw). rewrite znth_lookup in Hw by lia.
    apply lookup_replicate in Hw as [-> _]. by rewrite Z.testbit_0_l.
  - intros p s. unfold all_items. cbn [list_ init]. rewrite Hnil. by intros ?%not_elem_of_nil.
  - unfold all_items. cbn [list_ init]. rewrite Hnil. constructor.
Qed.

(** [list_array.c] is a run-queue strategy. *)
#[export] Instance spec : RunqSpec runq_t.
Proof.
  refine {| runq_inv := inv; runq_items := fun q _ => all_items q; runq_elig := elig |}.
  - intros h m s e He Ha. unfold elig. by rewrite He.
  - intros h. split; [apply init_ok|].
    unfold all_items. cbn. done.
  - intros q h Hi. split; [apply Hi|]. split; [apply lv_items_sorted|]. intros p s Hin.
    destruct (inv_filed _ _ Hi _ _ Hin) as (e & He & _ & Hcp).
    exists e. split; [done|]. split; [|done].
    apply lv_items_elem in Hin as (l & _ & Hl & _). rewrite Z.sub_0_r in Hl.
    by eapply inv_level_range.
  - intros q h h' Hi Hv. split; [by eapply frame_ok|done].
  - intros q h s e Hi He Hp Hs. destruct (insert_ok q h s e Hi He Hp Hs) as (q' & Hq & Hi' & Hit).
    by exists q', (schedee_priority_get e).
  - intros q h s Hi Hs. destruct (remove_ok q h s Hi Hs) as (q' & Hq & Hi' & Hit & _).
    by exists q'.
  - intros q h m s Hi Hs. change (get_next q h m = Some (Some s)).
    unfold get_next. by rewrite search_all, Hs.
  - intros q h m s Hi Hs.
    change (exists q', extract q h m = Some (Some s, q') /\ inv q' h /\
      all_items q' = rq_remove s (all_items q)). unfold extract.
    pose proof (search_all q h m Hi) as Hsa. unfold mbind, option_bind in Hsa |- *.
    destruct (runq_occupied_below q SCHED_PRIORITY_MAX) as [i|]; [|done].
    rewrite Hsa, Hs.
    destruct (remove_ok q h s Hi) as (q' & Hq & Hi' & Hit & _).
    { unfold rq_first in Hs. by apply first_elig_Some in Hs as [? _]. }
    rewrite Hq. by exists q'.
Defined.

(** * Refinement: any sequence of operations *)

Inductive rq_op := OpInsert (s : nat) | OpRemove (s : nat) | OpNext (mask : Z) | OpExtract (mask : Z).

Definition step (q : runq_t) (h : heap) (o : rq_op) : option (runq_t * heap * option nat) :=
  match o with
  | OpInsert s => '(q, h) ← insert q h s; Some (q, h, None)
  | OpRemove s => q ← remove q h s; Some (q, h, None)
  | OpNext m => r ← get_next q h m; Some (q, h, r)
  | OpExtract m => '(r, q) ← extract q h m; Some (q, h, r)
  end.

Fixpoint run (q : runq_t) (h : heap) (os : list rq_op) : option (runq_t * heap * list (option nat)) :=
  match os with
  | [] => Some (q, h, [])
  | o :: os => '(q, h, r) ← step q h o; '(q, h, rs) ← run q h os; Some (q, h, r :: rs)
  end.

(** The reference: the queue is the service order itself.  Only a schedee that
    is not queued may be inserted, only a queued one removed. *)
Definition spec_step (h : heap) (l : items) (o : rq_op) : option (items * option nat) :=
  match o with
  | OpInsert s =>
    e ← h !! s;
    if decide (s ∈ l.*2) then None
    else Some (rq_place (schedee_priority_get e) s l, None)
  | OpRemove s => if decide (s ∈ l.*2) then Some (rq_remove s l, None) else None
  | OpNext m => Some (l, rq_first (elig h m) l)
  | OpExtract m =>
    match rq_first (elig h m) l with
    | Some s => Some (rq_remove s l, Some s)
    | None => Some (l, None)
    end
  end.

Fixpoint spec_run (h : heap) (l : items) (os : list rq_op) : option (items * list (option nat)) :=
  match os with
  | [] => Some (l, [])
  | o :: os => '(l, r) ← spec_step h l o; '(l, rs) ← spec_run h l os; Some (l, r :: rs)
  end.

(** The table as the reference sees it: everything but [runq_prio]. *)
Definition same_table (h h' : heap) : Prop :=
  forall s, (fun e => (priority e, affinity e)) <$> h' !! s =
            (fun e => (priority e, affinity e)) <$> h !! s.

Lemma same_table_elig h h' m s : same_table h h' -> elig h' m s = elig h m s.
Proof.
  intros Hs. specialize (Hs s). unfold elig.
  destruct (h !! s), (h' !! s); cbn in Hs; congruence.
Qed.

Lemma get_next_spec q h m :
  inv q h -> get_next q h m = Some (rq_first (elig h m) (all_items q)).
Proof. intros Hi. unfold get_next. by rewrite search_all. Qed.

Lemma extract_spec q h m :
  inv q h ->
  exists q', extract q h m = Some (rq_first (elig h m) (all_items q), q') /\ inv q' h /\
    all_items q' = match rq_first (elig h m) (all_items q) with
                   | Some s => rq_remove s (all_items q) | None => all_items q end.
Proof.
  intros Hi. unfold extract.
  pose proof (search_all q h m Hi) as Hsa. unfold mbind, option_bind in Hsa |- *.
  destruct (runq_occupied_below q SCHED_PRIORITY_MAX) as [i|]; [|done]. rewrite Hsa.
  destruct (rq_first (elig h m) (all_items q)) as [s|] eqn:Hs; [|by exists q].
  destruct (remove_ok q h s Hi) as (q' & Hq & Hi' & Hit & _).
  { unfold rq_first in Hs. by apply first_elig_Some in Hs as [? _]. }
  rewrite Hq. by exists q'.
Qed.

Lemma step_refines h0 q h o l' r :
  inv q h -> same_table h0 h ->
  (forall s e, h0 !! s = Some e -> prio_range (schedee_priority_get e)) ->
  spec_step h0 (all_items q) o = Some (l', r) ->
  exists q' h', step q h o = Some (q', h', r) /\ inv q' h' /\ same_table h0 h' /\ all_items q' = l'.
Proof.
  intros Hi Hsame Hpr Hs.
  assert (forall m, rq_first (elig h m) (all_items q) = rq_first (elig h0 m) (all_items q)) as Hrf.
  { intros m. apply first_elig_ext. intros s _. by apply same_table_elig. }
  destruct o as [s|s|m|m]; cbn [spec_step step] in *.
  - destruct (h0 !! s) as [e|] eqn:He; [|done]. cbn [mbind option_bind] in Hs.
    case_decide as Hin; simplify_eq. pose proof (Hsame s) as Hse. rewrite He in Hse.
    destruct (h !! s) as [e'|] eqn:He'; cbn in Hse; [|done]. injection Hse as Hp Ha.
    assert (schedee_priority_get e' = schedee_priority_get e) as Hg
      by (unfold schedee_priority_get; by rewrite Hp).
    destruct (insert_ok q h s e' Hi He') as (q' & -> & Hi' & Hit);
      [rewrite Hg; by eapply Hpr|done|].
    cbn [mbind option_bind]. eexists q', _. split; [done|]. split; [done|]. split; [|by rewrite Hit, Hg].
    intros x. destruct (decide (s = x)) as [<-|].
    + rewrite lookup_insert_eq, He. cbn. by rewrite Hp, Ha.
    + rewrite lookup_insert_ne by done. apply Hsame.
  - case_decide as Hin; simplify_eq.
    destruct (remove_ok q h s Hi Hin) as (q' & -> & Hi' & Hit & _). cbn [mbind option_bind].
    by exists q', h.
  - simplify_eq. rewrite (get_next_spec q h m Hi), Hrf. cbn [mbind option_bind].
    by exists q, h.
  - destruct (extract_spec q h m Hi) as (q' & -> & Hi' & Hit). cbn [mbind option_bind].
    rewrite Hrf in *. exists q', h. destruct (rq_first _ _); by simplify_eq.
Qed.

Lemma run_refines_from h : (forall s e, h !! s = Some e -> prio_range (schedee_priority_get e)) ->
  forall os l rs q h0, inv q h0 -> same_table h h0 -> spec_run h (all_items q) os = Some (l, rs) ->
  exists q' h', run q h0 os = Some (q', h', rs) /\ inv q' h' /\ all_items q' = l.
Proof.
  intros Hpr os. induction os as [|o os IH]; intros l rs q h0 Hi Hsame Hs; cbn in *.
  - simplify_eq. by exists q, h0.
  - destruct (spec_step h (all_items q) o) as [[l1 r]|] eqn:E1; cbn [mbind option_bind] in Hs; [|done].
    destruct (step_refines h q h0 o l1 r Hi Hsame Hpr E1) as (q1 & h1 & -> & Hi1 & Hs1 & <-).
    cbn [mbind option_bind].
    destruct (spec_run h (all_items q1) os) as [[l2 rs2]|] eqn:E2; cbn [mbind option_bind] in Hs; [|done].
    simplify_eq. destruct (IH _ _ _ _ Hi1 Hs1 E2) as (q2 & h2 & -> & Hi2 & Hit2).
    cbn [mbind option_bind]. by exists q2, h2.
Qed.

(** C8: the array of lists with its bit map refines the plain priority queue.
    From the initial state, every sequence of operations the reference accepts
    runs without failure and returns the same schedees: a search finds the
    first eligible schedee of the highest level, and a level is served first
    come first served. *)
Theorem runq_refines h os l rs :
  (forall s e, h !! s = Some e -> prio_range (schedee_priority_get e)) ->
  spec_run h [] os = Some (l, rs) ->
  exists q h', run init h os = Some (q, h', rs) /\ inv q h' /\ all_items q = l.
Proof.
  intros Hpr Hs. eapply (run_refines_from h Hpr); [apply init_ok|done|]. exact Hs.
Qed.

Lemma runq_refines_witness :
  let h := list_to_map [(1%nat, schedee_init 10 SCHEDEE_THREAD 1); (2%nat, schedee_init 200 SCHEDEE_THREAD 2);
                        (3%nat, schedee_init 10 SCHEDEE_THREAD 0)] : heap in
  exists q h', run init h [OpInsert 1; OpInsert 2; OpInsert 3; OpNext 1; OpExtract 1; OpExtract 1; OpExtract 1]
    = Some (q, h', [None; None; None; Some 1%nat; Some 1%nat; Some 3%nat; None]) /\
    inv q h' /\ all_items q = [(200, 2%nat)].
Proof.
  intros h. apply (runq_refines h).
  - intros s e He. apply elem_of_map_to_list in He. vm_compute in He. unfold prio_range.
    repeat (apply elem_of_cons in He as [He|He]; [injection He as -> ->; by vm_compute|]).
    by apply elem_of_nil in He.
  - by vm_compute.
Defined.

(** Without the affinity test the answer is the first of the highest
    level, and the stale-map branch is never taken. *)
Theorem get_next_ignore_affinity_first q h :
  inv q h ->
  get_next_ignore_affinity q = Some (rq_first (fun _ => true) (all_items q), q).
Proof.
  intros Hi. unfold get_next_ignore_affinity.
  destruct (occupied_below_spec q SCHED_PRIORITY_MAX) as (i & -> & Hh);
    [apply Hi|apply Hi|lia|]. cbn [mbind option_bind].
  assert (all_items q = lv_items 0 (take (Z.to_nat (i + 1)) (list_ q))) as ->.
  { rewrite <- (items_highest q h SCHED_PRIORITY_MAX i Hi); [|unfold SCHED_PRIORITY_MAX; lia|done].
    unfold all_items. rewrite take_ge; [done|]. pose proof (inv_levels _ _ Hi) as Hl.
    unfold zlen in Hl. change SCHED_PRIORITY_TOTAL with 256 in Hl. unfold SCHED_PRIORITY_MAX. lia. }
  destruct Hh as [[-> _]|(Hr & Hb & _)]; [done|].
  destruct (Z.ltb_spec i 0); [lia|].
  destruct (inv_level q h i Hi) as [l Hl]; [done|]. rewrite Hl. cbn [mbind option_bind].
  rewrite (lv_items_take _ _ _ _ Hl). pose proof (inv_map _ _ Hi _ _ Hl) as Hm. rewrite Hb in Hm.
  destruct l as [|s l]; [by rewrite bool_decide_true in Hm|done].
Qed.

Lemma get_next_ignore_affinity_first_witness :
  get_next_ignore_affinity init = Some (rq_first (fun _ => true) (all_items init), init).
Proof. apply (get_next_ignore_affinity_first init ∅). apply init_ok. Defined.

End ListArray.
