(* ===== verification/Sched.v ===== *)
(** The scheduler, [src/kernel/sched/sched.c], as built for one CPU.

    The state is the run queue (any strategy: [RunqOps]), the table of all
    schedees, the current schedee, and the flags the scheduler raises.
    [spin_lock_ipl(&rq.lock)] makes each function one atomic step, so the
    locks do not appear.  [critical_request_dispatch] is made with the run
    queue locked and only records the request ([pending]); the dispatch itself
    is [sched_preempt].  [None] is a failed [assert] or a NULL dereference.

    A thread's [process] is [thread_process] of [src/kernel/thread/core.c] with
    [thread_context_switch] of [thread_switch.c]; an lthread's is
    [lthread_do_process] of [src/kernel/lthread/lthread.c], whose [lt->run] is
    user code and a parameter of the model. *)
From S2P Require Import Prelude Schedee.

Local Open Scope Z_scope.
Local Open Scope embox_scope.

Definition EINVAL : Z := 22.

(** The lthread fields [lthread_do_process] reads. *)
Record lthread := Lthread { joining : option nat; info_status : Z }.

Record sched (Q : Type) := Sched {
  rq : Q;
  tbl : heap;
  lthreads : gmap nat lthread;
  current : option nat;
  yield_req : bool;
  pending : bool;
  ticker : bool
}.
Arguments Sched {Q} _ _ _ _ _ _ _.
Arguments rq {Q} _.
Arguments tbl {Q} _.
Arguments lthreads {Q} _.
Arguments current {Q} _.
Arguments yield_req {Q} _.
Arguments pending {Q} _.
Arguments ticker {Q} _.

Section Ops.
Context {Q : Type} `{RQ : !RunqOps Q}.
Abbreviation st_t := (sched Q).

Definition with_rq (q : Q) (st : st_t) : st_t :=
  Sched q (tbl st) (lthreads st) (current st) (yield_req st) (pending st) (ticker st).
Definition with_tbl (h : heap) (st : st_t) : st_t :=
  Sched (rq st) h (lthreads st) (current st) (yield_req st) (pending st) (ticker st).
Definition with_current (c : nat) (st : st_t) : st_t :=
  Sched (rq st) (tbl st) (lthreads st) (Some c) (yield_req st) (pending st) (ticker st).
Definition with_ticker (b : bool) (st : st_t) : st_t :=
  Sched (rq st) (tbl st) (lthreads st) (current st) (yield_req st) (pending st) b.

(** [s->field = v]. *)
Definition upd (s : nat) (f : schedee -> schedee) (st : st_t) : st_t :=
  with_tbl (alter f s (tbl st)) st.

Definition sched_yield_ack (st : st_t) : st_t :=
  Sched (rq st) (tbl st) (lthreads st) (current st) false (pending st) (ticker st).

Definition sched_post_switch (st : st_t) : st_t :=
  Sched (rq st) (tbl st) (lthreads st) (current st) true true (ticker st).

Definition sched_init (c : nat) (h : heap) (lts : gmap nat lthread) : option st_t :=
  e ← h !! c;
  let e := set_released false (set_waiting 0 (set_active true (set_ready true e))) in
  Some (Sched runq_init (<[c := e]> h) lts (Some c) false false false).

Definition sched_check_preempt (s : nat) (st : st_t) : option st_t :=
  c ← current st;
  ec ← tbl st !! c;
  e ← tbl st !! s;
  if schedee_priority_get ec <=? schedee_priority_get e
  then Some (sched_post_switch st) else Some st.

Definition sched_enqueue (s : nat) (st : st_t) : option st_t :=
  '(q, h) ← runq_insert (rq st) (tbl st) s;
  Some (with_rq q (with_tbl h st)).

Definition sched_dequeue (s : nat) (st : st_t) : option st_t :=
  q ← runq_remove (rq st) (tbl st) s;
  Some (with_rq q st).

Definition sched_enqueue_set_ready (s : nat) (st : st_t) : option st_t :=
  st ← sched_enqueue s st;
  Some (upd s (set_ready true) st).

Definition sched_wokenup_clear_waiting (s : nat) (st : st_t) : option st_t :=
  st ← sched_check_preempt s st;
  Some (upd s (set_waiting 0) st).

Definition sched_active (s : nat) (st : st_t) : option bool :=
  e ← tbl st !! s; Some (active e).

Definition sched_change_priority (s : nat) (prior : Z)
    (set_prio : schedee_priority -> Z -> schedee_priority) (st : st_t) : option st_t :=
  e ← tbl st !! s;
  let in_rq := ready e && negb (active e) in
  st ← (if in_rq then sched_dequeue s st else Some st);
  let st := upd s (fun e => set_priority (set_prio (priority e) prior) e) st in
  st ← (if in_rq then sched_enqueue s st else Some st);
  sched_check_preempt s st.

Definition schedee_priority_set (s : nat) (new_priority : Z) (st : st_t) : option (Z * st_t) :=
  if (new_priority <? SCHED_PRIORITY_MIN) || (new_priority >? SCHED_PRIORITY_MAX)
  then Some (- EINVAL, st)
  else st ← sched_change_priority s new_priority priority_set_cb st; Some (0, st).

Definition schedee_priority_inherit (s : nat) (prio : Z) (st : st_t) : option (Z * st_t) :=
  st ← sched_change_priority s prio priority_inherit_cb st;
  e ← tbl st !! s; Some (schedee_priority_get e, st).

Definition schedee_priority_reverse (s : nat) (st : st_t) : option (Z * st_t) :=
  e ← tbl st !! s;
  st ← sched_change_priority s (base_priority (priority e)) priority_reverse_cb st;
  e ← tbl st !! s; Some (schedee_priority_get e, st).

Definition sched_freeze (s : nat) (st : st_t) : option st_t :=
  e ← tbl st !! s;
  let in_rq := ready e && negb (active e) in
  st ← (if in_rq then sched_dequeue s st else Some st);
  Some (upd s (fun e => set_waiting 0 (set_active false (set_ready false e))) st).

(** [__sched_wakeup_ready]: also whether the fast path applied. *)
Definition sched_wakeup_ready (s : nat) (st : st_t) : option (bool * st_t) :=
  e ← tbl st !! s;
  Some (ready e, if ready e then upd s (set_waiting 0) st else st).

Definition sched_wakeup_waiting (s : nat) (st : st_t) : option st_t :=
  e ← tbl st !! s;
  assert! negb (waiting e =? 0) ;;
  st ← sched_enqueue_set_ready s st;
  sched_wokenup_clear_waiting s st.

Definition sched_wakeup (s : nat) (st : st_t) : option (bool * st_t) :=
  e ← tbl st !! s;
  if finished e then Some (false, st)
  else
    let was_waiting := negb (waiting e =? 0) && negb (waiting e =? TW_SMP_WAKING false) in
    if was_waiting
    then
      '(rdy, st) ← sched_wakeup_ready s st;
      if rdy : bool then Some (true, st)
      else st ← sched_wakeup_waiting s st; Some (true, st)
    else Some (false, st).

Definition sched_finished (s : nat) (st : st_t) : st_t := upd s (set_finished true) st.

Definition sched_activate (s : nat) (st : st_t) : st_t :=
  upd s (fun e => set_active true (set_released false e)) st.
Definition sched_deactivate (s : nat) (st : st_t) : st_t :=
  upd s (fun e => set_released true (set_active false e)) st.

Definition sched_wait_prepare (st : st_t) : option st_t :=
  c ← current st; Some (upd c (set_waiting 1) st).
Definition sched_wait_cleanup (st : st_t) : option st_t :=
  c ← current st; Some (upd c (set_waiting 0) st).

Definition sched_signal (s : nat) (st : st_t) : option st_t :=
  e ← tbl st !! s;
  if ready e then Some (sched_post_switch st)
  else '(_, st) ← sched_wakeup s st; Some st.

(** [thread_terminate] of [core.c] for a thread other than the caller. *)
Definition thread_terminate_sched (s : nat) (st : st_t) : option st_t :=
  sched_freeze s (sched_finished s st).

(** [1 << cpu_get_id()] on the only CPU. *)
Definition this_cpu : Z := 1.

Definition thread_process (prev next : nat) (st : st_t) : st_t :=
  if bool_decide (prev = next) then st
  else sched_deactivate prev (sched_activate next st).

Definition lthread_is_disabled (lt : nat) (st : st_t) : option bool :=
  e ← tbl st !! lt;
  l ← lthreads st !! lt;
  Some (negb (waiting e =? 0) && (info_status l =? 0)).

Section Schedule.
Variable lthread_run : nat -> st_t -> option st_t.

Definition lthread_do_process (next : nat) (st : st_t) : option st_t :=
  let st := upd next (fun e => set_waiting 1 (set_ready false e)) st in
  st ← lthread_run next st;
  l ← lthreads st !! next;
  match joining l with
  | None => Some st
  | Some j =>
    d ← lthread_is_disabled next st;
    if d : bool then '(_, st) ← sched_wakeup j st; Some st else Some st
  end.

(** The [while (1)] of [__schedule]: the thread it ends with. *)
Fixpoint schedule_loop (fuel : nat) (preempt yield_requested : bool) (prev : nat)
    (st : st_t) : option (nat * st_t) :=
  match fuel with
  | O => None
  | S fuel =>
    n ← runq_get_next (rq st) (tbl st) this_cpu;
    next ← n;
    ep ← tbl st !! prev;
    en ← tbl st !! next;
    let same := schedee_is_thread ep && schedee_is_thread en &&
                (schedee_priority_get ep =? schedee_priority_get en) in
    if same && negb yield_requested && (preempt || (waiting ep =? 0)) then
      q ← runq_remove (rq st) (tbl st) prev;
      Some (prev, with_rq q (with_current prev st))
    else
      let st := if same && yield_requested then sched_yield_ack st else st in
      '(n, q) ← runq_extract (rq st) (tbl st) this_cpu;
      next ← n;
      let st := with_current next (with_rq q st) in
      en ← tbl st !! next;
      match type en with
      | SCHEDEE_THREAD => Some (next, thread_process prev next st)
      | SCHEDEE_LTHREAD =>
        st ← lthread_do_process next st;
        schedule_loop fuel preempt yield_requested prev st
      end
  end.

Definition sched_ticker_update (st : st_t) : option st_t :=
  cur ← current st;
  n ← runq_get_next (rq st) (tbl st) this_cpu;
  next ← n;
  ec ← tbl st !! cur;
  en ← tbl st !! next;
  if negb (bool_decide (cur = next)) && (schedee_priority_get ec =? schedee_priority_get en)
  then Some (with_ticker true st) else Some st.

Definition schedule_enter (preempt : bool) (prev : nat) (st : st_t) : option st_t :=
  ep ← tbl st !! prev;
  if negb preempt && negb (waiting ep =? 0)
  then Some (upd prev (set_ready false) st)
  else sched_enqueue prev st.

(** [__schedule]. *)
Definition schedule_ (fuel : nat) (preempt : bool) (st : st_t) : option st_t :=
  prev ← current st;
  let yield_requested := yield_req st in
  st ← schedule_enter preempt prev st;
  '(_, st) ← schedule_loop fuel preempt yield_requested prev st;
  sched_ticker_update st.

Definition schedule (fuel : nat) (st : st_t) : option st_t := schedule_ fuel false st.

(** The dispatcher leaves the queue before it is called. *)
Definition sched_preempt (fuel : nat) (st : st_t) : option st_t :=
  schedule_ fuel true
    (Sched (rq st) (tbl st) (lthreads st) (current st) (yield_req st) false (ticker st)).

End Schedule.
End Ops.
