(* ===== verification/SchedFacts.v ===== *)
(** Correctness of the scheduler of [Sched.v], over any run-queue strategy.

    [sched_inv] ties the three views of a schedee's state together: the flags,
    the run queue and the CPU.  Every operation preserves it; [__schedule]
    leaves the CPU with a thread of the greatest ready priority. *)
From S2P Require Import Prelude Schedee Sched.

Local Open Scope Z_scope.

Section Facts.
Context {Q : Type} `{RS : RunqSpec Q}.
Abbreviation st_t := (sched Q).

Definition qitems (st : st_t) : items := runq_items (rq st) (tbl st).

(** [p] owns the CPU.  While [__schedule] runs ([mid]) it may sit in the queue
    as any other ready schedee; outside it is ready and not queued. *)
Record sched_inv (mid : bool) (p : nat) (st : st_t) : Prop := {
  si_rq : runq_inv (rq st) (tbl st);
  si_cur : exists c ec, current st = Some c /\ tbl st !! c = Some ec;
  si_elem : forall s e, tbl st !! s = Some e ->
    prio_ok (priority e) /\ active e = bool_decide (s = p) /\
    (s ∈ (qitems st).*2 <-> ready e = true /\ (mid = true \/ s <> p)) /\
    (finished e = false -> ready e = true \/ waiting e <> 0);
  si_p : exists ep, tbl st !! p = Some ep /\ schedee_is_thread ep = true /\
    (ready ep = true \/ mid = true /\ waiting ep <> 0)
}.

(** The state between two scheduler calls. *)
Definition sched_ok (p : nat) (st : st_t) : Prop :=
  sched_inv false p st /\ current st = Some p.

(** * Frame lemmas *)

Lemma alter_frame (q : Q) h s f :
  runq_inv q h -> (forall e, rq_view (f e) = rq_view e) ->
  runq_inv q (alter f s h) /\ runq_items q (alter f s h) = runq_items q h.
Proof.
  intros Hi Hf. apply runq_frame; [done|]. intros s' _.
  rewrite lookup_alter. case_decide; [subst|done].
  destruct (h !! s'); cbn; [by rewrite Hf|done].
Qed.

Lemma elem_snd (l : items) s : s ∈ l.*2 <-> exists p, (p, s) ∈ l.
Proof.
  rewrite list_elem_of_fmap. split.
  - intros ([p x] & -> & ?). by exists p.
  - intros [p ?]. by exists (p, s).
Qed.

Lemma place_snd p s l x : x ∈ (rq_place p s l).*2 <-> x = s \/ x ∈ l.*2.
Proof. rewrite rq_place_perm. cbn. apply elem_of_cons. Qed.

Lemma remove_snd s l x : x ∈ (rq_remove s l).*2 <-> x ∈ l.*2 /\ x <> s.
Proof. rewrite rq_remove_snd, list_elem_of_filter. tauto. Qed.

Lemma rq_view_set_ready b e : rq_view (set_ready b e) = rq_view e.
Proof. done. Qed.

Lemma enqueue_spec s (st : st_t) e :
  runq_inv (rq st) (tbl st) -> tbl st !! s = Some e -> prio_ok (priority e) ->
  s ∉ (qitems st).*2 ->
  exists st' x, sched_enqueue s st = Some st' /\
    runq_inv (rq st') (tbl st') /\
    qitems st' = rq_place (schedee_priority_get e) s (qitems st) /\
    tbl st' = <[s := set_runq_prio x e]> (tbl st) /\
    lthreads st' = lthreads st /\ current st' = current st /\
    yield_req st' = yield_req st /\ pending st' = pending st /\ ticker st' = ticker st.
Proof.
  intros Hi He (_ & Hr & _) Hs. unfold sched_enqueue.
  destruct (runq_insert_ok (rq st) (tbl st) s e Hi He Hr Hs) as (q' & x & -> & Hi' & Hit).
  cbn. eexists _, x. split; [done|]. cbn. split_and!; done.
Qed.

Lemma dequeue_spec s (st : st_t) :
  runq_inv (rq st) (tbl st) -> s ∈ (qitems st).*2 ->
  exists q', sched_dequeue s st = Some (with_rq q' st) /\
    runq_inv q' (tbl st) /\ runq_items q' (tbl st) = rq_remove s (qitems st).
Proof.
  intros Hi Hs. unfold sched_dequeue.
  destruct (runq_remove_ok (rq st) (tbl st) s Hi Hs) as (q' & -> & Hi' & Hit).
  by exists q'.
Qed.

(** * Wakeup *)

(** The schedee [e] becomes when it is woken up. *)
Definition awake (e e' : schedee) : Prop :=
  ready e' = true /\ waiting e' = 0 /\ type e' = type e /\ active e' = active e /\
  finished e' = finished e /\ released e' = released e /\
  affinity e' = affinity e /\ priority e' = priority e.

(** One update of one schedee keeps the invariant. *)
Lemma inv_step mid p (st st' : st_t) s e e' :
  sched_inv mid p st ->
  runq_inv (rq st') (tbl st') -> current st' = current st ->
  tbl st !! s = Some e ->
  tbl st' = <[s := e']> (tbl st) ->
  type e' = type e -> prio_ok (priority e') -> active e' = active e ->
  (forall x, x <> s -> x ∈ (qitems st').*2 <-> x ∈ (qitems st).*2) ->
  (s ∈ (qitems st').*2 <-> ready e' = true /\ (mid = true \/ s <> p)) ->
  (finished e' = false -> ready e' = true \/ waiting e' <> 0) ->
  (s = p -> ready e' = true \/ mid = true /\ waiting e' <> 0) ->
  sched_inv mid p st'.
Proof.
  intros Hi Hrq Hc He Ht Hty Hp Hact Hq Hqs Hfin Hsp. split; [done| | |].
  - destruct (si_cur _ _ _ Hi) as (c & ec & Hcur & Hec). exists c.
    rewrite Hc, Ht. destruct (decide (s = c)) as [->|].
    + exists e'. by rewrite lookup_insert_eq.
    + exists ec. by rewrite lookup_insert_ne.
  - intros x ex Hx. rewrite Ht in Hx. destruct (decide (s = x)) as [->|].
    + rewrite lookup_insert_eq in Hx. simplify_eq.
      destruct (si_elem _ _ _ Hi _ _ He) as (_ & Ha & _). rewrite Hact. done.
    + rewrite lookup_insert_ne in Hx by done.
      destruct (si_elem _ _ _ Hi _ _ Hx) as (? & ? & ? & ?). rewrite Hq by done. done.
  - destruct (si_p _ _ _ Hi) as (ep & Hep & Hth & Hr). rewrite Ht.
    destruct (decide (s = p)) as [->|].
    + exists e'. rewrite lookup_insert_eq. simplify_eq. split; [done|].
      unfold schedee_is_thread in *. rewrite Hty. split; [done|]. by apply Hsp.
    + exists ep. by rewrite lookup_insert_ne.
Qed.

(** Flags that are not schedee state may change freely. *)
Lemma inv_flags mid p (st st' : st_t) :
  sched_inv mid p st -> rq st' = rq st -> tbl st' = tbl st ->
  (exists c ec, current st' = Some c /\ tbl st' !! c = Some ec) -> sched_inv mid p st'.
Proof.
  intros Hi Hr Ht Hc. split.
  - rewrite Hr, Ht. apply Hi.
  - done.
  - unfold qitems. rewrite Hr, Ht. apply Hi.
  - rewrite Ht. apply Hi.
Qed.

Lemma alter_insert_id (h : heap) s f e :
  h !! s = Some e -> alter f s h = <[s := f e]> h.
Proof.
  intros He. apply map_eq. intros i. rewrite lookup_alter, lookup_insert.
  case_decide; [subst; by rewrite He|done].
Qed.

Lemma check_preempt_spec s (st : st_t) c ec e :
  current st = Some c -> tbl st !! c = Some ec -> tbl st !! s = Some e ->
  sched_check_preempt s st =
  Some (if schedee_priority_get ec <=? schedee_priority_get e
        then sched_post_switch st else st).
Proof. intros Hc Hec He. unfold sched_check_preempt. rewrite Hc. cbn. rewrite Hec. cbn.
  rewrite He. cbn. by destruct (_ <=? _). Qed.

(** What [sched_wakeup_waiting] does to a schedee that is not queued: it joins
    the queue behind its equals, ready and not waiting, and a switch is requested
    unless the current schedee is above it. *)
Lemma wakeup_waiting_spec mid p (st : st_t) s e :
  sched_inv mid p st -> tbl st !! s = Some e -> prio_ok (priority e) -> s ∉ (qitems st).*2 -> waiting e <> 0 ->
  exists st' x, sched_wakeup_waiting s st = Some st' /\ runq_inv (rq st') (tbl st') /\
    qitems st' = rq_place (schedee_priority_get e) s (qitems st) /\
    tbl st' = <[s := set_waiting 0 (set_ready true (set_runq_prio x e))]> (tbl st) /\
    current st' = current st /\ lthreads st' = lthreads st /\
    (forall c ec, current st = Some c -> tbl st !! c = Some ec ->
       schedee_priority_get ec <= schedee_priority_get e -> pending st' = true).
Proof.
  intros Hi He Hpok Hns Hw. unfold sched_wakeup_waiting. rewrite He. cbn [mbind option_bind].
  destruct (Z.eqb_spec (waiting e) 0); [done|]. cbn [negb].
  destruct (enqueue_spec s st e (si_rq _ _ _ Hi) He Hpok Hns)
    as (st1 & x & Hen & Hrq1 & Hit1 & Ht1 & Hl1 & Hc1 & Hy1 & Hp1 & Hk1).
  unfold sched_enqueue_set_ready. rewrite Hen. cbn [mbind option_bind].
  set (e1 := set_runq_prio x e) in *.
  assert (tbl st1 !! s = Some e1) as He1 by (rewrite Ht1; apply lookup_insert_eq).
  destruct (alter_frame (rq st1) (tbl st1) s (set_ready true) Hrq1) as [Hf1 Hf2]; [done|].
  unfold sched_wokenup_clear_waiting. destruct (si_cur _ _ _ Hi) as (c & ec & Hcur & Hec).
  assert (exists ec', tbl (upd s (set_ready true) st1) !! c = Some ec' /\
            schedee_priority_get ec' = schedee_priority_get ec) as (ec' & Hec' & Hpec).
  { cbn. rewrite Ht1. destruct (decide (s = c)) as [->|].
    - rewrite lookup_alter_eq, lookup_insert_eq. assert (e = ec) as -> by congruence. by eexists.
    - rewrite lookup_alter_ne, lookup_insert_ne by done. by exists ec. }
  rewrite (check_preempt_spec s (upd s (set_ready true) st1) c ec' (set_ready true e1));
    [|cbn; by rewrite Hc1|done|cbn; by rewrite lookup_alter_eq, He1].
  cbn [mbind option_bind]. set (st2 := if _ <=? _ then _ else _).
  assert (rq st2 = rq st1 /\ tbl st2 = alter (set_ready true) s (tbl st1) /\
          current st2 = current st /\ lthreads st2 = lthreads st) as (Hr2 & Ht2 & Hc2 & Hl2)
    by (unfold st2; destruct (_ <=? _); cbn; by rewrite Hc1).
  destruct (alter_frame (rq st2) (tbl st2) s (set_waiting 0)) as [Hg1 Hg2]; [by rewrite Hr2, Ht2|done|].
  eexists _, x. split; [done|]. split; [done|]. split_and!; try done.
  - unfold qitems. cbn. by rewrite Hg2, Hr2, Ht2, Hf2.
  - cbn. rewrite Ht2, (alter_insert_id _ _ _ e1 He1).
    rewrite (alter_insert_id _ _ _ (set_ready true e1)) by apply lookup_insert_eq.
    by rewrite insert_insert_eq, Ht1, insert_insert_eq.
  - intros c' ec'' Hc' Hec'' Hle. assert (ec'' = ec) as -> by congruence. unfold st2. rewrite Hpec.
    replace (schedee_priority_get (set_ready true e1)) with (schedee_priority_get e) by done.
    apply Z.leb_le in Hle. by rewrite Hle.
Qed.

(** A wakeup is total, keeps the invariant, touches nobody else, and makes a
    waiting schedee ready; when it joins the queue at a priority that is not
    below the current one, a switch is requested. *)
Lemma wakeup_spec mid p (st : st_t) s e :
  sched_inv mid p st -> tbl st !! s = Some e ->
  exists b st', sched_wakeup s st = Some (b, st') /\ sched_inv mid p st' /\
    b = (negb (finished e) && negb (waiting e =? 0)) /\
    current st' = current st /\ lthreads st' = lthreads st /\
    (forall x, x <> s -> tbl st' !! x = tbl st !! x) /\
    (b = false -> st' = st) /\
    (b = true -> exists e', tbl st' !! s = Some e' /\ awake e e' /\
       (ready e = false -> forall c ec, current st = Some c -> tbl st !! c = Some ec -> s <> c ->
          schedee_priority_get ec <= schedee_priority_get e -> pending st' = true)).
Proof.
  intros Hi He. destruct (si_elem _ _ _ Hi _ _ He) as (Hpok & Hact & Hq & Hfin).
  unfold sched_wakeup. rewrite He. cbn [mbind option_bind].
  destruct (finished e) eqn:Ef; cbn [negb andb].
  { exists false, st. split_and!; done. }
  change (TW_SMP_WAKING false) with 0.
  destruct (Z.eqb_spec (waiting e) 0) as [Hw|Hw]; cbn [negb andb].
  { exists false, st. split_and!; done. }
  unfold sched_wakeup_ready. rewrite He. cbn [mbind option_bind].
  destruct (ready e) eqn:Er.
  - (* fast path *)
    exists true, (upd s (set_waiting 0) st). split; [done|].
    destruct (alter_frame (rq st) (tbl st) s (set_waiting 0) (si_rq _ _ _ Hi)) as [Hf1 Hf2]; [done|].
    split; [|split; [done|]].
    + eapply (inv_step mid p st _ s e (set_waiting 0 e)); try done.
      * by apply alter_insert_id.
      * intros x Hx. unfold qitems. cbn. by rewrite Hf2.
      * unfold qitems. cbn. rewrite Hf2. by rewrite Hq, Er.
      * left. done.
      * by left.
    + split_and!; try done.
      * intros x Hx. cbn. by rewrite lookup_alter_ne.
      * intros _. exists (set_waiting 0 e). cbn. rewrite lookup_alter_eq, He. split_and!; done.
  - (* enqueue *)
    assert (s ∉ (qitems st).*2) as Hns by (rewrite Hq; naive_solver).
    destruct (wakeup_waiting_spec mid p st s e Hi He Hpok Hns Hw)
      as (st' & x & -> & Hrq' & Hit & Ht & Hc & Hl & Hpend). cbn [mbind option_bind].
    exists true, st'. split; [done|]. split; [|split_and!; try done].
    + eapply (inv_step mid p st _ s e); try done; [| |by left|by left].
      * intros y Hy. rewrite Hit, place_snd. naive_solver.
      * rewrite Hit, place_snd. split; [|naive_solver]. intros _. split; [done|].
        destruct (decide (s = p)) as [->|]; [|by right].
        destruct (si_p _ _ _ Hi) as (ep & Hep & _ & [Hr|[Hm _]]); [|by left]. congruence.
    + intros y Hy. by rewrite Ht, lookup_insert_ne.
    + intros _. eexists. rewrite Ht, lookup_insert_eq. split; [done|]. split; [split_and!; done|].
      intros _ c ec Hcur Hec _. by apply (Hpend c ec).
Qed.

(** * Priority changes *)

Lemma alter_frame_out (q : Q) h s f :
  runq_inv q h -> s ∉ (runq_items q h).*2 ->
  runq_inv q (alter f s h) /\ runq_items q (alter f s h) = runq_items q h.
Proof.
  intros Hi Hs. apply runq_frame; [done|]. intros x Hx.
  rewrite lookup_alter_ne; [done|]. by intros ->.
Qed.

(** The test [s->ready && !sched_active(s)] finds out whether [s] is queued,
    except for the owner of the CPU while [__schedule] runs. *)
Lemma in_rq_exact mid p (st : st_t) s e :
  sched_inv mid p st -> tbl st !! s = Some e -> mid = false \/ s <> p ->
  (ready e && negb (active e) = true <-> s ∈ (qitems st).*2).
Proof.
  intros Hi He Hm. destruct (si_elem _ _ _ Hi _ _ He) as (_ & Hact & Hq & _).
  rewrite Hq, Hact, andb_true_iff, negb_true_iff, bool_decide_eq_false. naive_solver.
Qed.

Lemma check_preempt_ok mid p (st : st_t) s e :
  sched_inv mid p st -> tbl st !! s = Some e ->
  exists st', sched_check_preempt s st = Some st' /\ sched_inv mid p st' /\
    tbl st' = tbl st /\ rq st' = rq st /\ current st' = current st /\
    lthreads st' = lthreads st.
Proof.
  intros Hi He. destruct (si_cur _ _ _ Hi) as (c & ec & Hcur & Hec).
  rewrite (check_preempt_spec s st c ec e) by done.
  eexists. split; [done|]. destruct (_ <=? _); split_and!; try done.
  eapply inv_flags; try done. by exists c, ec.
Qed.

Definition new_prio (cb : schedee_priority -> Z -> schedee_priority) (prior : Z) (e : schedee)
  : schedee := set_priority (cb (priority e) prior) e.

Lemma change_priority_spec mid p (st : st_t) s e prior cb :
  sched_inv mid p st -> tbl st !! s = Some e -> mid = false \/ s <> p ->
  prio_ok (cb (priority e) prior) ->
  exists st' x, sched_change_priority s prior cb st = Some st' /\ sched_inv mid p st' /\
    tbl st' = <[s := set_runq_prio x (new_prio cb prior e)]> (tbl st) /\
    qitems st' = (if ready e && negb (active e)
                  then rq_place (current_priority (cb (priority e) prior)) s
                         (rq_remove s (qitems st))
                  else qitems st) /\
    current st' = current st /\ lthreads st' = lthreads st.
Proof.
  intros Hi He Hm Hok. pose proof (in_rq_exact _ _ _ _ _ Hi He Hm) as Hin.
  destruct (si_elem _ _ _ Hi _ _ He) as (_ & Hact & Hq & Hfin).
  unfold sched_change_priority. rewrite He. cbn [mbind option_bind].
  fold (new_prio cb prior).
  change (fun e0 : schedee => set_priority (cb (priority e0) prior) e0) with (new_prio cb prior).
  destruct (ready e && negb (active e)) eqn:Einq.
  - assert (s ∈ (qitems st).*2) as Hsq by (by apply Hin).
    destruct (dequeue_spec s st (si_rq _ _ _ Hi) Hsq) as (q1 & -> & Hq1 & Hit1).
    cbn [mbind option_bind].
    assert (s ∉ (runq_items q1 (tbl st)).*2) as Hns by (rewrite Hit1, remove_snd; naive_solver).
    destruct (alter_frame_out q1 (tbl st) s (new_prio cb prior) Hq1 Hns) as [Hq2 Hit2].
    set (st2 := upd s (new_prio cb prior) (with_rq q1 st)).
    assert (tbl st2 !! s = Some (new_prio cb prior e)) as He2
      by (unfold st2; cbn; by rewrite lookup_alter_eq, He).
    destruct (enqueue_spec s st2 (new_prio cb prior e)) as
      (st3 & x & Hen & Hrq3 & Hit3 & Ht3 & Hl3 & Hc3 & _); try done.
    { unfold qitems, st2. cbn. by rewrite Hit2. }
    rewrite Hen. cbn [mbind option_bind].
    assert (qitems st3 = rq_place (current_priority (cb (priority e) prior)) s
                           (rq_remove s (qitems st))) as Hit.
    { rewrite Hit3. unfold qitems at 1, st2. cbn. by rewrite Hit2, Hit1. }
    assert (tbl st3 = <[s := set_runq_prio x (new_prio cb prior e)]> (tbl st)) as Ht3'.
    { rewrite Ht3. unfold st2. cbn. rewrite (alter_insert_id _ _ _ e He).
      by rewrite insert_insert_eq. }
    assert (sched_inv mid p st3) as Hi3.
    { eapply (inv_step mid p st st3 s e); try done.
      - intros y Hy. rewrite Hit, place_snd, remove_snd. naive_solver.
      - cbn. rewrite Hit, place_snd. rewrite Hq in Hsq. naive_solver.
      - intros ->. destruct (si_p _ _ _ Hi) as (ep & Hep & _ & ?). cbn. congruence. }
    destruct (check_preempt_ok mid p st3 s (set_runq_prio x (new_prio cb prior e)))
      as (st' & Hcp & Hi' & Ht' & Hr' & Hc' & Hl'); [done|by rewrite Ht3', lookup_insert_eq|].
    exists st', x. split_and!; try done; [by rewrite Ht'|..|by rewrite Hc', Hc3|by rewrite Hl', Hl3].
    unfold qitems. rewrite Ht', Hr'. apply Hit.
  - assert (s ∉ (qitems st).*2) as Hns by (intros ?%Hin; congruence).
    cbn [mbind option_bind].
    destruct (alter_frame_out (rq st) (tbl st) s (new_prio cb prior) (si_rq _ _ _ Hi) Hns)
      as [Hq2 Hit2].
    assert (alter (new_prio cb prior) s (tbl st) =
            <[s := set_runq_prio (runq_prio e) (new_prio cb prior e)]> (tbl st)) as Ht1.
    { rewrite (alter_insert_id _ _ _ e He). done. }
    assert (sched_inv mid p (upd s (new_prio cb prior) st)) as Hi1.
    { eapply (inv_step mid p st _ s e); try done.
      - intros y Hy. unfold qitems. cbn. by rewrite Hit2.
      - unfold qitems. cbn. by rewrite Hit2.
      - intros ->. destruct (si_p _ _ _ Hi) as (ep & Hep & _ & ?). cbn. congruence. }
    destruct (check_preempt_ok mid p _ s (new_prio cb prior e) Hi1)
      as (st' & Hcp & Hi' & Ht' & Hr' & Hc' & Hl'); [cbn; by rewrite lookup_alter_eq, He|].
    exists st', (runq_prio e). rewrite Hcp. split_and!; try done; [by rewrite Ht'|].
    unfold qitems. rewrite Ht', Hr'. apply Hit2.
Qed.

(** * Waiting and termination *)

Lemma wait_prepare_spec p (st : st_t) :
  sched_ok p st ->
  exists st' e, sched_wait_prepare st = Some st' /\ sched_ok p st' /\
    tbl st !! p = Some e /\ tbl st' = <[p := set_waiting 1 e]> (tbl st) /\
    qitems st' = qitems st.
Proof.
  intros [Hi Hc]. unfold sched_wait_prepare. rewrite Hc. cbn [mbind option_bind].
  destruct (si_p _ _ _ Hi) as (e & He & Hth & [Hr|[]]); [|done].
  destruct (alter_frame (rq st) (tbl st) p (set_waiting 1) (si_rq _ _ _ Hi)) as [Hf1 Hf2]; [done|].
  destruct (si_elem _ _ _ Hi _ _ He) as (Hpok & Hact & Hq & Hfin).
  eexists _, e. split; [done|]. split_and!; try done; [|by apply alter_insert_id].
  split; [|done]. eapply (inv_step false p st _ p e (set_waiting 1 e)); try done.
  - by apply alter_insert_id.
  - intros y Hy. unfold qitems. cbn. by rewrite Hf2.
  - unfold qitems. cbn. by rewrite Hf2.
  - by left.
  - by left.
Qed.

(** * The start *)

(** Booting with [c], every other schedee just initialised. *)
Lemma init_spec c e (h : heap) lts :
  h !! c = Some e -> schedee_is_thread e = true ->
  (forall s es, h !! s = Some es -> prio_ok (priority es) /\ active es = false /\
     ready es = false /\ waiting es <> 0) ->
  exists st, sched_init c h lts = Some st /\ sched_ok c st.
Proof.
  intros Hc Hth Hall. unfold sched_init. rewrite Hc. cbn [mbind option_bind].
  eexists. split; [done|]. split; [|done].
  set (e' := set_released _ _). destruct (runq_init_ok (<[c := e']> h)) as [Hi Hit].
  destruct (Hall _ _ Hc) as (Hpc & _). split; cbn.
  - done.
  - exists c, e'. by rewrite lookup_insert_eq.
  - intros s es Hs. unfold qitems. cbn. rewrite Hit. cbn.
    destruct (decide (c = s)) as [<-|].
    + rewrite lookup_insert_eq in Hs. simplify_eq. rewrite bool_decide_true by done. cbn.
      split_and!; try done; [set_solver|by left].
    + rewrite lookup_insert_ne in Hs by done. destruct (Hall _ _ Hs) as (? & -> & Hr & ?).
      rewrite bool_decide_false, Hr by done. split_and!; try done; [set_solver|by right].
  - exists e'. rewrite lookup_insert_eq. split_and!; try done. by left.
Qed.

End Facts.
