(* ===== verification/SchedLoop.v ===== *)
(** [__schedule] of [src/kernel/sched/sched.c] ends, and ends with the CPU
    given to a thread of the greatest ready priority.

    The loop runs lthreads until it finds a thread.  Its progress argument is
    the one the system is built on: the idle lthread has a priority below every
    thread's, so while some thread is ready at level [P] or above only lthreads
    of level [>= P] are run, and each of them leaves the queue. *)
From S2P Require Import Prelude Schedee Sched SchedFacts.

Local Open Scope Z_scope.

Section Loop.
Context {Q : Type} `{RS : RunqSpec Q}.
Abbreviation st_t := (sched Q).

(** The threshold priority, the idle lthread, the schedee that called. *)
Context (P : Z) (idle prev : nat).

(** A ready lthread of level [>= P]: what the loop may have to run. *)
Definition is_busy (e : schedee) : bool :=
  ready e && negb (schedee_is_thread e) && (P <=? schedee_priority_get e).

Definition busy (h : heap) : nat := size (filter (fun x => is_busy x.2 = true) h).

(** Every schedee may run on the CPU. *)
Definition all_cpus (h : heap) : Prop :=
  forall s e, h !! s = Some e -> sched_affinity_check (affinity e) this_cpu = true.

(** Every lthread is known, and is joined by a thread if it is joined. *)
Definition joins_ok (h : heap) (lts : gmap nat lthread) : Prop :=
  forall s e, h !! s = Some e -> schedee_is_thread e = false ->
  exists l, lts !! s = Some l /\ forall j, joining l = Some j ->
    exists ej, h !! j = Some ej /\ schedee_is_thread ej = true.

Definition idle_ready (h : heap) : Prop :=
  exists e, h !! idle = Some e /\ ready e = true /\ schedee_is_thread e = false /\
    schedee_priority_get e < P.

Definition work_ready (h : heap) : Prop :=
  exists s e, h !! s = Some e /\ ready e = true /\ schedee_is_thread e = true /\
    P <= schedee_priority_get e.

(** The state at the head of the loop. *)
Record loop_inv (preempt : bool) (st : st_t) : Prop := {
  li_inv : sched_inv true prev st;
  li_cpus : all_cpus (tbl st);
  li_joins : joins_ok (tbl st) (lthreads st);
  li_idle : idle_ready (tbl st);
  li_work : work_ready (tbl st);
  li_prev : forall e, preempt = true -> tbl st !! prev = Some e -> ready e = true
}.

(** What is asked of the code of an lthread: it keeps the scheduler's
    invariants and launches no further lthread of level [>= P]. *)
Definition run_ok (preempt : bool) (run : nat -> st_t -> option st_t) : Prop :=
  forall l el st, loop_inv preempt st -> tbl st !! l = Some el ->
  schedee_is_thread el = false -> P <= schedee_priority_get el -> ready el = false ->
  exists st' el', run l st = Some st' /\ loop_inv preempt st' /\
    (busy (tbl st') <= busy (tbl st))%nat /\
    tbl st' !! l = Some el' /\ schedee_is_thread el' = false.

(** What [__schedule] promises: [next] owns the CPU, and no queued schedee has
    a greater priority. *)
Definition serves_best (next : nat) (st : st_t) : Prop :=
  sched_ok next st /\
  exists en, tbl st !! next = Some en /\ schedee_is_thread en = true /\
    P <= schedee_priority_get en /\
    forall s e, tbl st !! s = Some e -> ready e = true ->
      schedee_priority_get e <= schedee_priority_get en.

(** * The size of the work left *)

Lemma busy_insert_out h s e e' :
  h !! s = Some e -> is_busy e = is_busy e' -> busy (<[s := e']> h) = busy h.
Proof.
  intros He Hb. unfold busy. rewrite <- (insert_id h s e He) at 2.
  rewrite <- (insert_delete_eq h s e), <- (insert_delete_eq h s e').
  destruct (is_busy e') eqn:E.
  - rewrite !map_filter_insert_True by done.
    by rewrite !map_size_insert_None by (apply map_lookup_filter_None; left; apply lookup_delete_eq).
  - by rewrite !map_filter_insert_False by (cbn; by rewrite ?E, ?Hb).
Qed.

Lemma busy_insert_less h s e e' :
  h !! s = Some e -> is_busy e = true -> is_busy e' = false ->
  (busy (<[s := e']> h) < busy h)%nat.
Proof.
  intros He Hb Hb'. unfold busy. rewrite <- (insert_id h s e He) at 2.
  rewrite <- (insert_delete_eq h s e), <- (insert_delete_eq h s e').
  rewrite (map_filter_insert_True _ (delete s h) s e) by done.
  rewrite map_filter_insert_False by (cbn; by rewrite Hb').
  rewrite map_size_insert_None by (apply map_lookup_filter_None; left; apply lookup_delete_eq).
  rewrite delete_id by apply lookup_delete_eq. lia.
Qed.
(** * The head of the queue *)

Lemma queued_item (st : st_t) x :
  runq_inv (rq st) (tbl st) -> x ∈ (qitems st).*2 ->
  exists e, tbl st !! x = Some e /\ (schedee_priority_get e, x) ∈ qitems st.
Proof.
  intros Hi [p Hp]%elem_snd. destruct (runq_items_ok _ _ Hi) as (_ & _ & Hit).
  destruct (Hit _ _ Hp) as (e & He & _ & <-). by exists e.
Qed.

Lemma best_queued (st : st_t) x :
  runq_inv (rq st) (tbl st) -> all_cpus (tbl st) -> x ∈ (qitems st).*2 ->
  exists s e, rq_first (runq_elig (tbl st) this_cpu) (qitems st) = Some s /\
    tbl st !! s = Some e /\ s ∈ (qitems st).*2 /\
    forall y ey, y ∈ (qitems st).*2 -> tbl st !! y = Some ey ->
      schedee_priority_get ey <= schedee_priority_get e.
Proof.
  intros Hi Hc Hx.
  assert (forall y, y ∈ (qitems st).*2 -> runq_elig (tbl st) this_cpu y = true) as Hel.
  { intros y Hy. destruct (queued_item _ _ Hi Hy) as (e & He & _). eapply runq_elig_ok; eauto. }
  destruct (rq_first (runq_elig (tbl st) this_cpu) (qitems st)) as [s|] eqn:Ef.
  2: { unfold rq_first in Ef. rewrite first_elig_None in Ef.
       specialize (Hel _ Hx). by rewrite Ef in Hel. }
  destruct (runq_items_ok _ _ Hi) as (_ & Hs & Hit).
  destruct (rq_first_max _ _ _ Hs Ef) as (p & Hp & _ & Hmax).
  destruct (Hit _ _ Hp) as (e & He & _ & Hpe). exists s, e.
  split_and!; try done; [apply elem_snd; eauto|]. intros y ey Hy Hey.
  destruct (queued_item _ _ Hi Hy) as (ey' & Hey' & Hin). assert (ey' = ey) as -> by congruence.
  rewrite Hpe. eauto.
Qed.

Lemma best_ready preempt (st : st_t) :
  loop_inv preempt st ->
  exists s e, rq_first (runq_elig (tbl st) this_cpu) (qitems st) = Some s /\
    tbl st !! s = Some e /\ ready e = true /\ P <= schedee_priority_get e /\
    forall y ey, tbl st !! y = Some ey -> ready ey = true ->
      schedee_priority_get ey <= schedee_priority_get e.
Proof.
  intros Hl. pose proof (li_inv _ _ Hl) as Hi.
  destruct (li_work _ _ Hl) as (w & ew & Hw & Hrw & _ & Hpw).
  assert (forall y ey, tbl st !! y = Some ey -> (y ∈ (qitems st).*2 <-> ready ey = true)) as Hqr.
  { intros y ey Hy. destruct (si_elem _ _ _ Hi _ _ Hy) as (_ & _ & -> & _). naive_solver. }
  destruct (best_queued st w) as (s & e & Hf & He & Hs & Hmax); [apply Hi|apply Hl|by apply (Hqr _ _ Hw)|].
  assert (forall y ey, tbl st !! y = Some ey -> ready ey = true ->
    schedee_priority_get ey <= schedee_priority_get e) as Hm.
  { intros y ey Hy Hr. eapply Hmax; [|done]. by apply (Hqr _ _ Hy). }
  exists s, e. split_and!; try done; [by apply (Hqr _ _ He)|]. specialize (Hm _ _ Hw Hrw). lia.
Qed.

(** * The three ways an iteration goes *)

(** The queue loses its owner-to-be: the state between two scheduler calls. *)
Lemma inv_owner n (st st' : st_t) en :
  sched_inv true prev st -> tbl st !! n = Some en -> ready en = true ->
  schedee_is_thread en = true ->
  runq_inv (rq st') (tbl st') -> (forall x, x ∈ (qitems st').*2 <-> x ∈ (qitems st).*2 /\ x <> n) ->
  current st' = Some n ->
  (forall x, tbl st' !! x =
     (fun e => set_released (if decide (x = n) then (if decide (x = prev) then released e else false)
                             else if decide (x = prev) then true else released e)
                 (set_active (bool_decide (x = n)) e)) <$> tbl st !! x) ->
  sched_ok n st'.
Proof.
  intros Hi Hn Hr Hth Hq Hit Hc Ht. split; [|done]. split; [done| | |].
  - exists n. rewrite Ht, Hn. cbn. eauto.
  - intros x e' Hx. rewrite Ht in Hx. apply fmap_Some in Hx as (e & Hx & ->).
    destruct (si_elem _ _ _ Hi _ _ Hx) as (Hp & _ & Hqx & Hf). cbn.
    split_and!; try done. rewrite Hit, Hqx. naive_solver.
  - eexists. rewrite Ht, Hn. cbn. split; [done|]. split; [done|]. by left.
Qed.

Lemma keep_prev (st : st_t) ep q :
  sched_inv true prev st -> tbl st !! prev = Some ep -> ready ep = true ->
  runq_inv q (tbl st) -> runq_items q (tbl st) = rq_remove prev (qitems st) ->
  sched_ok prev (with_rq q (with_current prev st)).
Proof.
  intros Hl Hep Hr Hq Hit. destruct (si_p _ _ _ Hl) as (ep' & Hep' & Hth & _).
  simplify_eq. eapply (inv_owner prev st _ ep); try done.
  - intros x. unfold qitems at 1. cbn. rewrite Hit. apply remove_snd.
  - intros x. cbn. destruct (tbl st !! x) as [e|] eqn:Hx; cbn; [|done]. f_equal.
    destruct (si_elem _ _ _ Hl _ _ Hx) as (_ & Hact & _).
    rewrite <- Hact. destruct (decide (x = prev)); by destruct e.
Qed.

Lemma switch_thread (st : st_t) n en q :
  sched_inv true prev st -> tbl st !! n = Some en -> ready en = true -> schedee_is_thread en = true ->
  runq_inv q (tbl st) -> runq_items q (tbl st) = rq_remove n (qitems st) ->
  sched_ok n (thread_process prev n (with_current n (with_rq q st))).
Proof.
  intros Hl Hn Hr Hth Hq Hit. unfold thread_process. case_bool_decide as Hne.
  - subst n. by eapply keep_prev.
  - set (st1 := with_current n (with_rq q st)).
    destruct (alter_frame q (tbl st) n (fun e => set_active true (set_released false e)) Hq)
      as [Ha1 Ha2]; [done|].
    destruct (alter_frame q _ prev (fun e => set_released true (set_active false e)) Ha1)
      as [Hb1 Hb2]; [done|].
    eapply (inv_owner n st _ en); try done.
    + intros x. unfold qitems at 1. cbn. rewrite Hb2, Ha2, Hit. apply remove_snd.
    + intros x. cbn. clear Hn Hr Hth. rewrite !lookup_alter.
      destruct (tbl st !! x) as [e|] eqn:Hx; cbn;
        [|repeat case_decide; simplify_eq; by rewrite ?Hx].
      destruct (si_elem _ _ _ Hl _ _ Hx) as (_ & Hact & _).
      repeat case_decide; simplify_eq; rewrite ?Hx; cbn; repeat case_bool_decide;
        simplify_eq; destruct e; cbn in *; by subst.
Qed.

(** One schedee changes its flags; only an lthread of level [>= P] may stop
    being ready. *)
Lemma loop_upd preempt (st st' : st_t) s e e' :
  loop_inv preempt st -> sched_inv true prev st' ->
  tbl st !! s = Some e -> tbl st' = <[s := e']> (tbl st) -> lthreads st' = lthreads st ->
  type e' = type e -> affinity e' = affinity e -> priority e' = priority e ->
  (ready e = true -> ready e' = true \/ schedee_is_thread e = false /\ P <= schedee_priority_get e) ->
  loop_inv preempt st'.
Proof.
  intros Hl Hi He Ht Hlt Hty Haff Hpr Hrdy.
  assert (schedee_is_thread e' = schedee_is_thread e) as Hth
    by (unfold schedee_is_thread; by rewrite Hty).
  assert (schedee_priority_get e' = schedee_priority_get e) as Hgp
    by (unfold schedee_priority_get; by rewrite Hpr).
  assert (forall x ex, tbl st !! x = Some ex -> exists ex', tbl st' !! x = Some ex' /\
    schedee_is_thread ex' = schedee_is_thread ex /\
    schedee_priority_get ex' = schedee_priority_get ex /\ affinity ex' = affinity ex /\
    (ready ex = true -> ready ex' = true \/ schedee_is_thread ex = false /\ P <= schedee_priority_get ex))
    as Hfwd.
  { intros x ex Hx. rewrite Ht. destruct (decide (s = x)) as [->|].
    - simplify_eq. exists e'. by rewrite lookup_insert_eq.
    - exists ex. rewrite lookup_insert_ne by done. naive_solver. }
  assert (forall x ex', tbl st' !! x = Some ex' -> exists ex, tbl st !! x = Some ex) as Hbwd.
  { intros x ex'. rewrite Ht. destruct (decide (s = x)) as [->|]; [eauto|].
    rewrite lookup_insert_ne by done. eauto. }
  split; [done|..].
  - intros x ex' Hx. destruct (Hbwd _ _ Hx) as [ex Hex].
    destruct (Hfwd _ _ Hex) as (? & ? & _ & _ & Ha & _). simplify_eq. rewrite Ha. by eapply (li_cpus _ _ Hl).
  - rewrite Hlt. intros x ex' Hx Htx. destruct (Hbwd _ _ Hx) as [ex Hex].
    destruct (Hfwd _ _ Hex) as (? & ? & Ht1 & _). simplify_eq. rewrite Ht1 in Htx.
    destruct (li_joins _ _ Hl _ _ Hex Htx) as (l & Hll & Hj). exists l. split; [done|].
    intros j Hjl. destruct (Hj _ Hjl) as (ej & Hej & Htj).
    destruct (Hfwd _ _ Hej) as (ej' & ? & Htj' & _). exists ej'. by rewrite Htj'.
  - destruct (li_idle _ _ Hl) as (ei & Hei & Hri & Hti & Hpi).
    destruct (Hfwd _ _ Hei) as (ei' & ? & Ht1 & Hp1 & _ & Hr1). exists ei'.
    destruct (Hr1 Hri) as [?|[_ ?]]; [|lia]. rewrite Ht1, Hp1. done.
  - destruct (li_work _ _ Hl) as (w & ew & Hew & Hrw & Htw & Hpw).
    destruct (Hfwd _ _ Hew) as (ew' & ? & Ht1 & Hp1 & _ & Hr1). exists w, ew'.
    destruct (Hr1 Hrw) as [?|[? _]]; [|congruence]. rewrite Ht1, Hp1. done.
  - intros ep' Hpre Hep'. destruct (Hbwd _ _ Hep') as [ep Hep].
    destruct (Hfwd _ _ Hep) as (? & ? & Ht1 & _ & _ & Hr1). simplify_eq.
    destruct (Hr1 (li_prev _ _ Hl _ eq_refl Hep)) as [?|[Hf _]]; [done|].
    destruct (si_p _ _ _ (li_inv _ _ Hl)) as (? & ? & ? & _). congruence.
Qed.

Lemma loop_wakeup preempt (st : st_t) j ej :
  loop_inv preempt st -> tbl st !! j = Some ej -> schedee_is_thread ej = true ->
  exists b st', sched_wakeup j st = Some (b, st') /\ loop_inv preempt st' /\
    busy (tbl st') = busy (tbl st) /\
    (tbl st' = tbl st \/ exists ej', tbl st' = <[j := ej']> (tbl st) /\ awake ej ej').
Proof.
  intros Hl Hj Hth.
  destruct (wakeup_spec _ _ _ _ _ (li_inv _ _ Hl) Hj)
    as (b & st' & Hw & Hi' & _ & Hc & Hlt & Hfr & Hb0 & Hb1).
  exists b, st'. split; [done|]. destruct b; [|rewrite Hb0 by done; split_and!; [done..|by left]].
  destruct (Hb1 eq_refl) as (ej' & Hej' & Haw & _).
  pose proof Haw as (Hr & _ & Hty & _ & _ & _ & Haff & Hpr).
  assert (tbl st' = <[j := ej']> (tbl st)) as Ht.
  { apply map_eq. intros x. destruct (decide (j = x)) as [->|].
    - by rewrite lookup_insert_eq.
    - rewrite lookup_insert_ne by done. by apply Hfr. }
  split; [eapply (loop_upd preempt st st' j ej ej'); eauto|]. split; [|right; by exists ej'].
  rewrite Ht. eapply busy_insert_out; [done|]. unfold is_busy.
  replace (schedee_is_thread ej') with true; [by rewrite Hth, !andb_false_r|].
  unfold schedee_is_thread in *. by rewrite Hty.
Qed.

Definition lthread_taken (n : nat) (q : Q) (st : st_t) : st_t :=
  upd n (fun e => set_waiting 1 (set_ready false e)) (with_current n (with_rq q st)).

Lemma loop_take preempt (st : st_t) n en q :
  loop_inv preempt st -> tbl st !! n = Some en -> ready en = true ->
  schedee_is_thread en = false -> P <= schedee_priority_get en ->
  runq_inv q (tbl st) -> runq_items q (tbl st) = rq_remove n (qitems st) ->
  loop_inv preempt (lthread_taken n q st) /\
  (busy (tbl (lthread_taken n q st)) < busy (tbl st))%nat.
Proof.
  intros Hl Hn Hr Hth Hp Hq Hit. unfold lthread_taken.
  set (f := fun e => set_waiting 1 (set_ready false e)).
  destruct (alter_frame q (tbl st) n f Hq) as [Hf1 Hf2]; [done|].
  assert (alter f n (tbl st) = <[n := f en]> (tbl st)) as Ht by by apply alter_insert_id.
  pose proof (li_inv _ _ Hl) as Hi. destruct (si_elem _ _ _ Hi _ _ Hn) as (Hpok & Hact & Hqn & Hfin).
  split.
  - eapply (loop_upd preempt st _ n en (f en)); try done; [|by right].
    assert (sched_inv true prev (with_current n st)) as Hi1
      by (eapply inv_flags; try done; by exists n, en).
    eapply (inv_step true prev (with_current n st) _ n en (f en)); try done.
    + intros x Hx. unfold qitems. cbn. rewrite Hf2, Hit, remove_snd. unfold qitems. naive_solver.
    + unfold qitems. cbn. rewrite Hf2, Hit, remove_snd. naive_solver.
    + by right.
    + intros _. by right.
  - cbn. rewrite Ht. eapply busy_insert_less; [done|..].
    + unfold is_busy. rewrite Hr, Hth. cbn. by apply Z.leb_le.
    + done.
Qed.

Lemma loop_yield_ack preempt (st : st_t) :
  loop_inv preempt st -> loop_inv preempt (sched_yield_ack st).
Proof.
  intros Hl. split; try apply Hl. eapply inv_flags; [apply Hl|done..|]. apply (li_inv _ _ Hl).
Qed.

(** * The loop *)

(** What the loop itself does to a schedee: it wakes threads, and takes
    lthreads off the queue. *)
Definition loop_effect (e e' : schedee) : Prop :=
  type e' = type e /\
  (schedee_is_thread e = true ->
     priority e' = priority e /\ affinity e' = affinity e /\ finished e' = finished e /\
     (waiting e' = waiting e \/ waiting e' = 0) /\ (ready e = true -> ready e' = true)).

(** [R] holds between the tables before and after, if it allows these effects
    and those of the lthreads that run. *)
Section Run.
Context (preempt : bool) (run : nat -> st_t -> option st_t).
Context (Hrun : run_ok preempt run).
Context (R : heap -> heap -> Prop)
        (R_step : forall h h' s e e', R h h' -> h' !! s = Some e -> loop_effect e e' -> R h (<[s := e']> h'))
        (R_run : forall h l st st', R h (tbl st) -> run l st = Some st' -> R h (tbl st')).

Lemma R_alter h h' s f : R h h' -> (forall e, h' !! s = Some e -> loop_effect e (f e)) ->
  R h (alter f s h').
Proof.
  intros HR Hf. destruct (h' !! s) as [e|] eqn:E.
  - erewrite alter_insert_id by done. eauto.
  - by rewrite alter_id by congruence.
Qed.

Lemma do_process_ok (st : st_t) n en q :
  loop_inv preempt st -> tbl st !! n = Some en -> ready en = true ->
  schedee_is_thread en = false -> P <= schedee_priority_get en ->
  runq_inv q (tbl st) -> runq_items q (tbl st) = rq_remove n (qitems st) ->
  exists st', lthread_do_process run n (with_current n (with_rq q st)) = Some st' /\
    loop_inv preempt st' /\ (busy (tbl st') < busy (tbl st))%nat /\
    forall h, R h (tbl st) -> R h (tbl st').
Proof.
  intros Hl Hn Hr Hth Hp Hq Hit.
  destruct (loop_take preempt st n en q Hl Hn Hr Hth Hp Hq Hit) as [Hl1 Hb1].
  set (en1 := set_waiting 1 (set_ready false en)).
  assert (tbl (lthread_taken n q st) !! n = Some en1) as Hn1
    by (cbn; by rewrite lookup_alter_eq, Hn).
  destruct (Hrun n en1 _ Hl1 Hn1) as (st2 & en2 & Hr2 & Hl2 & Hb2 & Hn2 & Ht2); [done..|].
  assert (forall h, R h (tbl st) -> R h (tbl st2)) as HR2.
  { intros h HR. eapply R_run; [|exact Hr2]. apply R_alter; [done|]. cbn. intros e He.
    simplify_eq. split; [done|]. by rewrite Hth. }
  unfold lthread_do_process. fold (lthread_taken n q st). rewrite Hr2. cbn [mbind option_bind].
  destruct (li_joins _ _ Hl2 _ _ Hn2 Ht2) as (l & Hll & Hj). rewrite Hll. cbn [mbind option_bind].
  destruct (joining l) as [j|] eqn:Ej; [|exists st2; split_and!; [done..|lia|done]].
  unfold lthread_is_disabled. rewrite Hn2. cbn [mbind option_bind]. rewrite Hll.
  cbn [mbind option_bind]. destruct (negb _ && _); [|exists st2; split_and!; [done..|lia|done]].
  destruct (Hj j eq_refl) as (ej & Hej & Htj).
  destruct (loop_wakeup preempt st2 j ej Hl2 Hej Htj) as (b & st3 & -> & Hl3 & Hb3 & Hw3).
  exists st3. split_and!; [done..|lia|]. intros h HR. specialize (HR2 h HR).
  destruct Hw3 as [->|(ej' & -> & Haw)]; [done|]. apply (R_step _ _ _ ej); [done..|].
  destruct Haw as (? & ? & ? & _ & ? & _ & ? & ?). split; [done|]. intros _. split_and!; auto.
Qed.

Lemma with_rq_current (st : st_t) q n :
  with_rq q (with_current n st) = with_current n (with_rq q st).
Proof. done. Qed.

Lemma serves_best_intro n (st st' : st_t) en :
  sched_ok n st' -> tbl st !! n = Some en -> schedee_is_thread en = true ->
  P <= schedee_priority_get en ->
  (forall y ey, tbl st !! y = Some ey -> ready ey = true ->
     schedee_priority_get ey <= schedee_priority_get en) ->
  (forall y, (fun e => (ready e, priority e, type e, affinity e)) <$> tbl st' !! y =
             (fun e => (ready e, priority e, type e, affinity e)) <$> tbl st !! y) ->
  serves_best n st'.
Proof.
  intros Hok Hn Hth Hp Hmax Hsame. split; [done|].
  assert (forall y ey', tbl st' !! y = Some ey' -> exists ey, tbl st !! y = Some ey /\
    ready ey' = ready ey /\ priority ey' = priority ey) as Hb.
  { intros y ey' Hy. specialize (Hsame y). rewrite Hy in Hsame. cbn in Hsame.
    destruct (tbl st !! y) as [ey|]; cbn in Hsame; simplify_eq. by exists ey. }
  pose proof (Hsame n) as Hsn. rewrite Hn in Hsn. cbn in Hsn.
  destruct (tbl st' !! n) as [en'|] eqn:Hn'; cbn in Hsn; [|done]. injection Hsn as Hr1 Hp1 Ht1 _.
  exists en'. unfold schedee_priority_get, schedee_is_thread in *. rewrite Hp1, Ht1.
  split_and!; try done. intros y ey' Hy Hr. destruct (Hb _ _ Hy) as (ey & Hey & Hre & Hpe).
  rewrite Hpe. eapply Hmax; [done|congruence].
Qed.

Lemma thread_process_same n (st : st_t) y :
  (fun e => (ready e, priority e, type e, affinity e)) <$> tbl (thread_process prev n st) !! y =
  (fun e => (ready e, priority e, type e, affinity e)) <$> tbl st !! y.
Proof.
  unfold thread_process. case_bool_decide; [done|]. cbn. rewrite !lookup_alter.
  repeat case_decide; simplify_eq; cbn; [|by destruct (tbl st !! _)..|done].
  by destruct (tbl st !! _).
Qed.

Lemma thread_process_R n (st : st_t) h : R h (tbl st) -> R h (tbl (thread_process prev n st)).
Proof.
  intros HR. unfold thread_process. case_bool_decide; [done|].
  repeat (apply R_alter; [|intros; split; [done|]; intros _; split_and!; auto]). done.
Qed.

Definition same_view (h h' : heap) : Prop :=
  forall y, (fun e => (ready e, priority e, type e, affinity e)) <$> h' !! y =
            (fun e => (ready e, priority e, type e, affinity e)) <$> h !! y.

Lemma same_env h h' lts : same_view h h' -> idle_ready h -> all_cpus h -> joins_ok h lts ->
  idle_ready h' /\ all_cpus h' /\ joins_ok h' lts.
Proof.
  intros Hs (ei & Hei & Hr & Ht & Hp) Hc Hj. split_and!.
  - specialize (Hs idle). rewrite Hei in Hs. cbn in Hs.
    destruct (h' !! idle) as [e'|] eqn:E; cbn in Hs; [|done]. injection Hs as Hr1 Hp1 Ht1 _.
    exists e'. unfold schedee_priority_get, schedee_is_thread in *. rewrite Hp1, Ht1, Hr1. done.
  - intros y e' Hy. specialize (Hs y). rewrite Hy in Hs. cbn in Hs.
    destruct (h !! y) as [e|] eqn:E; cbn in Hs; [|done]. injection Hs as _ _ _ ->. by eapply Hc.
  - intros y e' Hy Hty. pose proof (Hs y) as Hsy. rewrite Hy in Hsy. cbn in Hsy.
    destruct (h !! y) as [e|] eqn:E; cbn in Hsy; [|done]. injection Hsy as _ _ Ht1 _.
    destruct (Hj y e E) as (l & Hll & Hjl); [unfold schedee_is_thread in *; by rewrite <- Ht1|].
    exists l. split; [done|]. intros j Hjj. destruct (Hjl j Hjj) as (ej & Hej & Htj).
    specialize (Hs j). rewrite Hej in Hs. cbn in Hs.
    destruct (h' !! j) as [ej'|]; cbn in Hs; [|done]. injection Hs as _ _ Ht2 _.
    exists ej'. split; [done|]. unfold schedee_is_thread in *. by rewrite Ht2.
Qed.

Lemma schedule_loop_ok fuel y (st : st_t) :
  loop_inv preempt st -> (busy (tbl st) < fuel)%nat ->
  exists n st', schedule_loop run fuel preempt y prev st = Some (n, st') /\
    serves_best n st' /\ idle_ready (tbl st') /\ all_cpus (tbl st') /\
    joins_ok (tbl st') (lthreads st') /\ forall h, R h (tbl st) -> R h (tbl st').
Proof.
  revert st. induction fuel as [|fuel IH]; intros st Hl Hfuel; [lia|]. cbn [schedule_loop].
  destruct (best_ready preempt st Hl) as (n & en & Hf & Hn & Hr & Hp & Hmax).
  rewrite (runq_get_next_ok _ _ _ _ (si_rq _ _ _ (li_inv _ _ Hl)) Hf). cbn [mbind option_bind].
  destruct (si_p _ _ _ (li_inv _ _ Hl)) as (ep & Hep & Htp & Hrp).
  rewrite Hep, Hn. cbn [mbind option_bind]. rewrite Htp. cbn [andb].
  set (same := schedee_is_thread en && _).
  destruct (same && negb y && (preempt || (waiting ep =? 0))) eqn:Ekeep.
  - rewrite !andb_true_iff in Ekeep. destruct Ekeep as ((Hsame & _) & Hk).
    unfold same in Hsame. apply andb_true_iff in Hsame as [Hth Heq%Z.eqb_eq].
    assert (ready ep = true) as Hrdy.
    { destruct Hrp as [?|[_ Hw]]; [done|]. apply orb_true_iff in Hk as [->|Hk%Z.eqb_eq]; [|done].
      by apply (li_prev _ _ Hl). }
    assert (prev ∈ (qitems st).*2) as Hin
      by (apply (si_elem _ _ _ (li_inv _ _ Hl) _ _ Hep); naive_solver).
    destruct (runq_remove_ok _ _ _ (si_rq _ _ _ (li_inv _ _ Hl)) Hin) as (q & -> & Hq & Hit).
    cbn [mbind option_bind]. eexists _, _. split; [done|]. split; [|split_and!; [apply Hl..|done]].
    eapply (serves_best_intro prev st _ ep); try done; [by eapply keep_prev; [apply Hl|..]|lia|].
    intros z ez Hz Hrz. rewrite Heq. eauto.
  - clear Ekeep. set (st1 := if same && y then sched_yield_ack st else st).
    assert (loop_inv preempt st1) as Hl1
      by (unfold st1; destruct (same && y); [by apply loop_yield_ack|done]).
    assert (rq st1 = rq st /\ tbl st1 = tbl st /\ lthreads st1 = lthreads st) as (Hr1 & Ht1 & Hlt1)
      by (unfold st1; by destruct (same && y)).
    rewrite Hr1, Ht1.
    destruct (runq_extract_ok _ _ _ _ (si_rq _ _ _ (li_inv _ _ Hl)) Hf) as (q & -> & Hq & Hit).
    cbn [mbind option_bind].
    assert (runq_inv q (tbl st1) /\ runq_items q (tbl st1) = rq_remove n (qitems st1)) as [Hq1 Hit1]
      by (unfold qitems; rewrite Hr1, Ht1; done).
    cbn [tbl with_current with_rq]. rewrite Ht1, Hn. cbn [mbind option_bind].
    destruct (type en) eqn:Ety.
    + assert (schedee_is_thread en = true) as Hth by (unfold schedee_is_thread; by rewrite Ety).
      eexists n, _. split; [done|]. split.
      * eapply (serves_best_intro n st _ en); try done.
        { eapply switch_thread; try done; [apply Hl1|by rewrite Ht1]. }
        intros z. rewrite thread_process_same. cbn. by rewrite Ht1.
      * assert (lthreads (thread_process prev n (with_current n (with_rq q st1))) = lthreads st) as ->.
        { transitivity (lthreads st1); [|done]. unfold thread_process. by case_bool_decide. }
        destruct (same_env (tbl st) (tbl (thread_process prev n (with_current n (with_rq q st1))))
          (lthreads st)) as (? & ? & ?); [|apply Hl..|split_and!; try done].
        { intros z. rewrite thread_process_same. cbn. by rewrite Ht1. }
        intros h HR. apply thread_process_R. cbn. by rewrite Ht1.
    + assert (schedee_is_thread en = false) as Hth by (unfold schedee_is_thread; by rewrite Ety).
      destruct (do_process_ok st1 n en q Hl1) as (st2 & -> & Hl2 & Hb2 & HR2); try done;
        [by rewrite Ht1|]. cbn [mbind option_bind]. rewrite Ht1 in Hb2, HR2.
      destruct (IH st2 Hl2) as (m & st3 & Hs3 & ? & ? & ? & ? & HR3); [lia|].
      exists m, st3. split_and!; try done. auto.
Qed.

Lemma ticker_update_ok n (st : st_t) :
  serves_best n st -> idle_ready (tbl st) -> all_cpus (tbl st) ->
  exists b, sched_ticker_update st = Some (if b : bool then with_ticker true st else st).
Proof.
  intros [[Hi Hc] (en & Hn & Hth & Hp & _)] (ei & Hei & Hri & Hti & Hpi) Hcpu.
  unfold sched_ticker_update. rewrite Hc. cbn [mbind option_bind].
  assert (idle ∈ (qitems st).*2) as Hq.
  { apply (si_elem _ _ _ Hi _ _ Hei). split; [done|]. right. intros ->. congruence. }
  destruct (best_queued st idle (si_rq _ _ _ Hi) Hcpu Hq) as (s & e & Hf & He & _).
  rewrite (runq_get_next_ok _ _ _ _ (si_rq _ _ _ Hi) Hf). cbn [mbind option_bind].
  rewrite Hn, He. cbn [mbind option_bind].
  exists (negb (bool_decide (n = s)) && (schedee_priority_get en =? schedee_priority_get e)).
  by destruct (negb _ && _).
Qed.

End Run.

(** * The entry *)

Definition entered (preempt : bool) (ep ep' : schedee) : Prop :=
  type ep' = type ep /\ affinity ep' = affinity ep /\ priority ep' = priority ep /\
  ready ep' = preempt || (waiting ep =? 0) /\ waiting ep' = waiting ep /\ finished ep' = finished ep.

Lemma enter_ok preempt (st : st_t) ep :
  sched_ok prev st -> tbl st !! prev = Some ep ->
  exists st', schedule_enter preempt prev st = Some st' /\ sched_inv true prev st' /\
    lthreads st' = lthreads st /\
    exists ep', tbl st' = <[prev := ep']> (tbl st) /\ entered preempt ep ep'.
Proof.
  intros [Hi Hc] Hep. destruct (si_p _ _ _ Hi) as (? & ? & Hth & [Hr|[]]); [|done]. simplify_eq.
  destruct (si_elem _ _ _ Hi _ _ Hep) as (Hpok & Hact & Hq & Hfin).
  unfold schedule_enter. rewrite Hep. cbn [mbind option_bind].
  assert (prev ∉ (qitems st).*2) as Hns by (rewrite Hq; naive_solver).
  assert (forall st' ep', runq_inv (rq st') (tbl st') -> current st' = current st ->
    tbl st' = <[prev := ep']> (tbl st) -> type ep' = type ep -> priority ep' = priority ep ->
    active ep' = active ep -> (ready ep' = true \/ waiting ep' <> 0) ->
    (forall x, x ∈ (qitems st').*2 <-> x ∈ (qitems st).*2 \/ x = prev /\ ready ep' = true) ->
    sched_inv true prev st') as Hmk.
  { intros st' ep' Hrq Hc' Ht Hty Hpr Ha Hrw Hits. split; [done|..].
    - exists prev, ep'. by rewrite Hc', Ht, lookup_insert_eq.
    - intros x ex Hx. rewrite Ht in Hx. rewrite Hits. destruct (decide (prev = x)) as [<-|Hne].
      + rewrite lookup_insert_eq in Hx. simplify_eq. rewrite Hpr, Ha. naive_solver.
      + rewrite lookup_insert_ne in Hx by done.
        destruct (si_elem _ _ _ Hi _ _ Hx) as (? & ? & Hqx & ?). rewrite Hqx. naive_solver.
    - exists ep'. rewrite Ht, lookup_insert_eq. unfold schedee_is_thread in *. rewrite Hty.
      split_and!; try done. naive_solver. }
  destruct (negb preempt && negb (waiting ep =? 0)) eqn:Eb.
  - apply andb_true_iff in Eb as [Hpre%negb_true_iff Hw%negb_true_iff].
    destruct (alter_frame (rq st) (tbl st) prev (set_ready false) (si_rq _ _ _ Hi)) as [Hf1 Hf2]; [done|].
    assert (alter (set_ready false) prev (tbl st) = <[prev := set_ready false ep]> (tbl st)) as Ht
      by by apply alter_insert_id.
    eexists. split; [done|]. split.
    + eapply (Hmk _ (set_ready false ep)); try done; [right; by apply Z.eqb_neq|].
      intros x. unfold qitems. cbn. rewrite Hf2. naive_solver.
    + split; [done|]. exists (set_ready false ep). split; [done|]. split_and!; try done. by rewrite Hpre, Hw.
  - destruct (enqueue_spec prev st ep (si_rq _ _ _ Hi) Hep Hpok Hns)
      as (st1 & x & Hen & Hrq1 & Hit1 & Ht1 & Hl1 & Hc1 & _).
    exists st1. split; [done|]. split.
    + eapply (Hmk _ (set_runq_prio x ep)); try done; [by left|].
      intros y. rewrite Hit1, place_snd. cbn. naive_solver.
    + split; [done|]. exists (set_runq_prio x ep). split; [done|]. split_and!; try done. cbn. rewrite Hr.
      by destruct preempt, (waiting ep =? 0).
Qed.

(** [__schedule] as a whole. *)
Lemma schedule_total preempt run (R : heap -> heap -> Prop) fuel (st : st_t) :
  sched_ok prev st -> all_cpus (tbl st) -> joins_ok (tbl st) (lthreads st) ->
  idle_ready (tbl st) -> run_ok preempt run ->
  (forall h h' s e e', R h h' -> h' !! s = Some e -> loop_effect e e' -> R h (<[s := e']> h')) ->
  (forall h l st st', R h (tbl st) -> run l st = Some st' -> R h (tbl st')) ->
  (exists s e, tbl st !! s = Some e /\ ready e = true /\ schedee_is_thread e = true /\
     P <= schedee_priority_get e /\ (s <> prev \/ preempt = true \/ waiting e = 0)) ->
  (busy (tbl st) < fuel)%nat ->
  exists next st', schedule_ run fuel preempt st = Some st' /\ serves_best next st' /\
    idle_ready (tbl st') /\ all_cpus (tbl st') /\ joins_ok (tbl st') (lthreads st') /\
    exists ep ep', tbl st !! prev = Some ep /\ entered preempt ep ep' /\
      forall h, R h (<[prev := ep']> (tbl st)) -> R h (tbl st').
Proof.
  intros Hok Hcpu Hj (ei & Hei & Hri & Hti & Hpi) Hrun HR1 HR2 (s & e & Hs & Hrs & Hts & Hps & Hgo) Hfuel.
  destruct Hok as [Hi Hc]. destruct (si_p _ _ _ Hi) as (ep & Hep & Htp & _).
  destruct (enter_ok preempt st ep) as
    (st1 & Hen & Hi1 & Hl1 & ep' & Ht1 & Hent); [done..|].
  pose proof Hent as (Hty & Haff & Hpr & Hrdy & _).
  assert (schedee_is_thread ep' = true) as Htp' by (unfold schedee_is_thread in *; by rewrite Hty).
  assert (idle <> prev) as Hne by congruence.
  assert (loop_inv preempt st1) as Hl.
  { split; try done.
    - intros x ex. rewrite Ht1. destruct (decide (prev = x)) as [<-|]; intros Hx.
      + rewrite lookup_insert_eq in Hx. simplify_eq. rewrite Haff. by eapply Hcpu.
      + rewrite lookup_insert_ne in Hx by done. by eapply Hcpu.
    - intros x ex. rewrite Ht1, Hl1. destruct (decide (prev = x)) as [<-|]; intros Hx Htx.
      { rewrite lookup_insert_eq in Hx. congruence. }
      rewrite lookup_insert_ne in Hx by done. destruct (Hj _ _ Hx Htx) as (l & Hll & Hjl).
      exists l. split; [done|]. intros j Hjj. destruct (Hjl j Hjj) as (ej & Hej & Htj).
      destruct (decide (prev = j)) as [<-|]; [exists ep'; by rewrite lookup_insert_eq|].
      exists ej. by rewrite lookup_insert_ne.
    - exists ei. by rewrite Ht1, lookup_insert_ne.
    - destruct (decide (prev = s)) as [<-|]; [|exists s, e; by rewrite Ht1, lookup_insert_ne].
      simplify_eq. exists prev, ep'. rewrite Ht1, lookup_insert_eq, Hrdy.
      unfold schedee_priority_get in *. rewrite Hpr. split_and!; try done.
      destruct Hgo as [?|[-> | Hw]]; [done|done|]. rewrite Hw. by destruct preempt.
    - intros e' -> He'. rewrite Ht1, lookup_insert_eq in He'. by simplify_eq. }
  assert (busy (tbl st1) = busy (tbl st)) as Hb.
  { rewrite Ht1. eapply busy_insert_out; [done|]. unfold is_busy.
    by rewrite Htp, Htp', !andb_false_r. }
  unfold schedule_. rewrite Hc. cbn [mbind option_bind]. rewrite Hen. cbn [mbind option_bind].
  destruct (schedule_loop_ok preempt run Hrun R HR1 HR2 fuel (yield_req st) st1 Hl) as
    (n & st2 & -> & Hbest & Hidle & Hcpu2 & Hj2 & HR); [lia|]. rewrite Ht1 in HR. cbn [mbind option_bind].
  destruct (ticker_update_ok n st2 Hbest Hidle Hcpu2) as (b & ->).
  exists n. eexists. split; [done|]. destruct b; [|split_and!; try done; by exists ep, ep'].
  destruct Hbest as [[Hi2 Hc2] Hbest]. split; [|split_and!; try done; by exists ep, ep'].
  split; [|done]. split; [|done].
  eapply inv_flags; [done..|]. apply Hi2.
Qed.

End Loop.
