(* ===== verification/SchedTheorems.v ===== *)
(** The theorems about the scheduler, with concrete instances over the
    [list_array] strategy. *)
From S2P Require Import Prelude Bitmap Schedee RunqArray Sched SchedFacts SchedLoop.

Local Open Scope Z_scope.

(** * A small system: the boot thread 1, the idle lthread 0, the threads 2
      and 3 and the lthread 4 *)

Definition demo_table : heap :=
  list_to_map [(0%nat, schedee_init 0 SCHEDEE_LTHREAD 1);
               (1%nat, schedee_init 128 SCHEDEE_THREAD 1);
               (2%nat, schedee_init 128 SCHEDEE_THREAD 0);
               (3%nat, schedee_init 90 SCHEDEE_THREAD 1);
               (4%nat, schedee_init 200 SCHEDEE_LTHREAD 0)].
Definition demo_lthreads : gmap nat lthread :=
  list_to_map [(0%nat, Lthread None 0); (4%nat, Lthread (Some 3%nat) 0)].

Abbreviation demo_st := (sched ListArray.runq_t).
#[local] Existing Instances ListArray.ops ListArray.spec.

(** The boot thread runs, [l] have been woken up in turn. *)
Fixpoint demo_wake (l : list nat) (st : demo_st) : option demo_st :=
  match l with
  | [] => Some st
  | s :: l => '(_, st) ← sched_wakeup s st; demo_wake l st
  end.
Definition demo (l : list nat) : option demo_st :=
  st ← sched_init 1 demo_table demo_lthreads; demo_wake l st.

Lemma heap_cases (h : heap) s e :
  h !! s = Some e -> (s, e) ∈ map_to_list h.
Proof. by rewrite elem_of_map_to_list. Qed.

Ltac heap_cases H :=
  apply heap_cases in H; vm_compute in H;
  repeat (apply elem_of_cons in H as [H|H]; [injection H as -> ->|]);
  [..|by apply elem_of_nil in H].

Lemma demo_boot : exists st, sched_init 1 demo_table demo_lthreads = Some st /\ sched_ok 1 st.
Proof.
  eapply init_spec; [done|done|]. intros s es Hs. unfold prio_ok, prio_range.
  heap_cases Hs; cbn; repeat split; done.
Qed.

Lemma demo_wake_ok l (st : demo_st) :
  sched_ok 1 st -> (forall s, s ∈ l -> is_Some (tbl st !! s)) ->
  exists st', demo_wake l st = Some st' /\ sched_ok 1 st'.
Proof.
  revert st. induction l as [|s l IH]; intros st [Hi Hc] Hl; [by exists st|].
  destruct (Hl s) as [e He]; [left|].
  destruct (wakeup_spec _ _ _ _ _ Hi He) as (b & st1 & Hw & Hi1 & _ & Hc1 & _ & Hfr & Hb0 & Hb1).
  cbn. rewrite Hw. cbn. apply IH; [split; [done|congruence]|].
  intros x Hx. destruct (decide (x = s)) as [->|]; [|rewrite Hfr by done; apply Hl; by right].
  destruct b; [destruct (Hb1 eq_refl) as (e' & -> & _); eauto|].
  rewrite (Hb0 eq_refl). eauto.
Qed.

Lemma demo_ok l st :
  demo l = Some st -> (forall s, s ∈ l -> (s < 5)%nat) -> sched_ok 1 st.
Proof.
  intros Hd Hl. destruct demo_boot as (st0 & H0 & Hok). unfold demo in Hd. rewrite H0 in Hd.
  cbn [mbind option_bind] in Hd.
  destruct (demo_wake_ok l st0 Hok) as (st' & Hw & Hok').
  { intros s Hs%Hl. unfold sched_init in H0. vm_compute in H0. injection H0 as <-.
    do 5 (destruct s as [|s]; [eexists; reflexivity|]). lia. }
  congruence.
Qed.


Section Theorems.
Context {Q : Type} `{RS : RunqSpec Q}.

(** C1: [__schedule] always ends and gives the CPU to a thread of the greatest
    priority among all ready schedees, the scheduler's invariant holding again.
    Some thread must be ready at level [P] or above, the idle lthread lies below
    [P], and the code of the lthreads it runs on the way launches no new lthread
    of level [>= P]; then one iteration per such ready lthread, plus one, is
    enough. *)
Theorem schedule_serves_best P idle prev preempt run fuel (st : sched Q) :
  sched_ok prev st -> all_cpus (tbl st) -> joins_ok (tbl st) (lthreads st) ->
  idle_ready P idle (tbl st) -> run_ok P idle prev preempt run ->
  (exists s e, tbl st !! s = Some e /\ ready e = true /\ schedee_is_thread e = true /\
     P <= schedee_priority_get e /\ (s <> prev \/ preempt = true \/ waiting e = 0)) ->
  (busy P (tbl st) < fuel)%nat ->
  exists next st', schedule_ run fuel preempt st = Some st' /\ serves_best P next st'.
Proof.
  intros Hok Hcpu Hj Hidle Hrun Hgo Hfuel.
  destruct (schedule_total P idle prev preempt run (fun _ _ => True) fuel st) as (n & st' & Hs & Hb & _); [done..|].
  by exists n, st'.
Qed.

Lemma head_first (st : sched Q) p n l :
  runq_inv (rq st) (tbl st) -> all_cpus (tbl st) -> qitems st = (p, n) :: l ->
  rq_first (runq_elig (tbl st) this_cpu) (qitems st) = Some n.
Proof.
  intros Hi Hc Hit. destruct (queued_item st n Hi) as (e & He & _); [rewrite Hit; left|].
  rewrite Hit. unfold rq_first. cbn. by erewrite runq_elig_ok by eauto.
Qed.

Lemma ticker_total (st : sched Q) n en p s l :
  sched_ok n st -> all_cpus (tbl st) -> tbl st !! n = Some en -> qitems st = (p, s) :: l ->
  exists b, sched_ticker_update st = Some (if b : bool then with_ticker true st else st).
Proof.
  intros [Hi Hc] Hcpu Hn Hit. unfold sched_ticker_update. rewrite Hc. cbn [mbind option_bind].
  rewrite (runq_get_next_ok _ _ _ s (si_rq _ _ _ Hi)) by (by eapply head_first; [apply Hi|..]).
  cbn [mbind option_bind]. destruct (queued_item st s (si_rq _ _ _ Hi)) as (e & He & _);
    [rewrite Hit; left|]. rewrite Hn, He. cbn [mbind option_bind].
  exists (negb (bool_decide (n = s)) && (schedee_priority_get en =? schedee_priority_get e)).
  by destruct (negb _ && _).
Qed.

Lemma sched_ok_ticker n (st : sched Q) (b : bool) :
  sched_ok n st -> sched_ok n (if b then with_ticker true st else st).
Proof.
  destruct b; [|done]. intros [Hi Hc]. split; [|done].
  eapply inv_flags; [done..|]. apply Hi.
Qed.

Lemma rq_remove_notin s (l : items) : s ∉ l.*2 -> rq_remove s l = l.
Proof.
  intros Hs. apply filter_all. intros [p x] Hx Heq. cbn in Heq. subst x. apply Hs. apply elem_snd. eauto.
Qed.

Lemma all_cpus_view h h' : same_view h h' -> all_cpus h -> all_cpus h'.
Proof.
  intros Hs Hc y e' Hy. specialize (Hs y). rewrite Hy in Hs. cbn in Hs.
  destruct (h !! y) as [e|] eqn:E; cbn in Hs; [|done]. injection Hs as _ _ _ ->. by eapply Hc.
Qed.

(** One iteration with a thread of the same priority first in the queue. *)
Lemma loop_same_prio prev ep n en l y run fuel (st : sched Q) :
  sched_inv true prev st -> all_cpus (tbl st) -> tbl st !! prev = Some ep -> ready ep = true ->
  tbl st !! n = Some en -> schedee_is_thread en = true -> n <> prev ->
  qitems st = (schedee_priority_get ep, n) :: l ->
  exists m st', schedule_loop run (S fuel) true y prev st = Some (m, st') /\
    sched_ok m st' /\ all_cpus (tbl st') /\ is_Some (tbl st' !! m) /\
    (if y : bool then m = n /\ qitems st' = l /\ yield_req st' = false
     else m = prev /\ qitems st' = rq_remove prev (qitems st)).
Proof.
  intros Hi Hcpu Hep Hrp Hn Hth Hne Hit. pose proof (si_rq _ _ _ Hi) as Hrq.
  pose proof (head_first st _ _ _ Hrq Hcpu Hit) as Hf.
  destruct (runq_items_ok _ _ Hrq) as (Hnd & _ & Hlev). fold (qitems st) in Hnd, Hlev.
  destruct (Hlev (schedee_priority_get ep) n) as (en' & Hn' & _ & Heq); [rewrite Hit; left|].
  simplify_eq. assert (ready en = true) as Hrn.
  { apply (si_elem _ _ _ Hi _ _ Hn). rewrite Hit. left. }
  destruct (si_p _ _ _ Hi) as (? & ? & Htp & _). simplify_eq.
  cbn [schedule_loop]. rewrite (runq_get_next_ok _ _ _ _ Hrq Hf). cbn [mbind option_bind].
  rewrite Hep, Hn. cbn [mbind option_bind]. rewrite Htp, Hth, Heq, Z.eqb_refl. cbn [andb orb].
  destruct y; cbn [negb andb].
  - cbn [rq tbl sched_yield_ack].
    destruct (runq_extract_ok _ _ _ _ Hrq Hf) as (q & -> & Hq & Hqi). cbn [mbind option_bind].
    cbn [tbl with_current with_rq sched_yield_ack]. rewrite Hn. cbn [mbind option_bind].
    unfold schedee_is_thread in Hth. destruct (type en) eqn:Ety; [|done].
    set (st1 := sched_yield_ack st).
    assert (sched_inv true prev st1) as Hi1 by (eapply inv_flags; [done..|]; apply Hi).
    eexists n, _. split; [done|].
    assert (sched_ok n (thread_process prev n (with_current n (with_rq q st1)))) as Hok.
    { eapply (switch_thread prev st1 n en q); try done. unfold schedee_is_thread. by rewrite Ety. }
    split; [done|]. split_and!.
    + eapply (all_cpus_view (tbl st)); [|done]. intros z. by rewrite thread_process_same.
    + destruct (si_p _ _ _ (proj1 Hok)) as (? & ? & _). eauto.
    + done.
    + transitivity (runq_items q (tbl st)).
      * unfold thread_process. rewrite bool_decide_false by congruence. unfold qitems. cbn.
        destruct (alter_frame q (tbl st) n (fun e => set_active true (set_released false e)) Hq)
          as [Ha1 Ha2]; [done|].
        destruct (alter_frame q _ prev (fun e => set_released true (set_active false e)) Ha1)
          as [Hb1 Hb2]; [done|]. by rewrite Hb2, Ha2.
      * rewrite Hqi. fold (qitems st). rewrite Hit. unfold rq_remove.
        rewrite filter_cons_False by (cbn; naive_solver). apply rq_remove_notin.
        rewrite Hit in Hnd. by apply NoDup_cons in Hnd as [? _].
    + unfold thread_process. by rewrite bool_decide_false by congruence.
  - assert (prev ∈ (qitems st).*2) as Hin
      by (apply (si_elem _ _ _ Hi _ _ Hep); naive_solver).
    destruct (runq_remove_ok _ _ _ Hrq Hin) as (q & -> & Hq & Hqi). cbn [mbind option_bind].
    eexists prev, _. split; [done|]. split_and!; try done. by eapply keep_prev.
Qed.

(** C31: the time slice.  When a switch is dispatched while a thread of the
    running thread's priority is first in the queue: if the ticker has asked
    for it ([yield_req]) that thread gets the CPU, the request is cleared and
    the preempted thread is filed behind all the others of its priority;
    otherwise the running thread keeps the CPU and the queue is as before. *)
Theorem preempt_round_robin prev ep n en l run fuel (st : sched Q) :
  sched_ok prev st -> all_cpus (tbl st) -> tbl st !! prev = Some ep ->
  tbl st !! n = Some en -> schedee_is_thread en = true ->
  qitems st = (schedee_priority_get ep, n) :: l ->
  exists st', sched_preempt run (S fuel) st = Some st' /\
    (if yield_req st
     then sched_ok n st' /\ qitems st' = rq_place (schedee_priority_get ep) prev l /\
          yield_req st' = false
     else sched_ok prev st' /\ qitems st' = qitems st).
Proof.
  intros [Hi Hc] Hcpu Hep Hn Hth Hit. unfold sched_preempt.
  set (st0 := Sched _ _ _ _ _ _ _).
  assert (sched_ok prev st0) as Hok0 by (split; [|done]; eapply inv_flags; [done..|]; apply Hi).
  destruct (si_p _ _ _ Hi) as (? & ? & Htp & [Hrp|[]]); [|done]. simplify_eq.
  destruct (si_elem _ _ _ Hi _ _ Hep) as (Hpok & _ & Hqp & _).
  assert (prev ∉ (qitems st).*2) as Hns by (rewrite Hqp; naive_solver).
  assert (n <> prev) as Hne by (intros ->; apply Hns; rewrite Hit; left).
  destruct (enqueue_spec prev st0 ep (si_rq _ _ _ (proj1 Hok0)) Hep Hpok Hns)
    as (st1 & x & Hen & _ & Hit1 & Ht1 & _ & Hc1 & Hy1 & _).
  destruct (enter_ok prev true st0 ep Hok0 Hep) as (st1' & Hen' & Hi1 & _).
  assert (schedule_enter true prev st0 = sched_enqueue prev st0) as Hsame
    by (unfold schedule_enter; change (tbl st0) with (tbl st); by rewrite Hep).
  rewrite Hsame, Hen in Hen'. injection Hen' as <-.
  change (qitems st0) with (qitems st) in Hit1. rewrite Hit in Hit1. cbn in Hit1.
  rewrite Z.leb_refl in Hit1. change (tbl st0) with (tbl st) in Ht1.
  set (ep1 := set_runq_prio x ep) in *.
  destruct (loop_same_prio prev ep1 n en (rq_place (schedee_priority_get ep) prev l)
              (yield_req st) run fuel st1) as (m & st2 & Hloop & Hok2 & Hcpu2 & [em Hem] & Hres);
    try done.
  { rewrite Ht1. intros z ez Hz. destruct (decide (prev = z)) as [<-|].
    - rewrite lookup_insert_eq in Hz. simplify_eq. by apply (Hcpu _ _ Hep).
    - rewrite lookup_insert_ne in Hz by done. by apply (Hcpu _ _ Hz). }
  { by rewrite Ht1, lookup_insert_eq. }
  { by rewrite Ht1, lookup_insert_ne. }
  unfold schedule_. change (current st0) with (current st). rewrite Hc. cbn [mbind option_bind].
  rewrite Hsame, Hen. cbn [mbind option_bind]. change (yield_req st0) with (yield_req st).
  rewrite Hloop. cbn [mbind option_bind].
  assert (exists p s l', qitems st2 = (p, s) :: l') as (p2 & s2 & l2 & Hit2).
  { destruct (yield_req st).
    - destruct Hres as (_ & -> & _). destruct l as [|[p' s'] l]; cbn; [eauto|].
      destruct (_ <=? _); eauto.
    - destruct Hres as (_ & ->). rewrite Hit1. unfold rq_remove.
      rewrite filter_cons_True by done. eauto. }
  destruct (ticker_total st2 m em p2 s2 l2 Hok2 Hcpu2 Hem Hit2) as (b & ->).
  eexists. split; [done|]. apply (sched_ok_ticker _ _ b) in Hok2. destruct (yield_req st).
  - destruct Hres as (-> & Hq & Hy). split; [done|]. by destruct b.
  - destruct Hres as (-> & Hq). split; [done|].
    transitivity (qitems st2); [by destruct b|]. rewrite Hq, Hit1, Hit.
    unfold rq_remove. rewrite filter_cons_True by done. f_equal.
    apply rq_remove_place. intros Hin. apply Hns. rewrite Hit. by right.
Qed.

(** C12: a wakeup of any known schedee succeeds and keeps the invariant.  It
    does something exactly when the schedee waits and is not finished; then the
    schedee is ready, waits no more, is queued unless it owns the CPU, and a
    switch is requested if it was not ready and its priority is not below the
    running thread's.  No other schedee changes. *)
Theorem wakeup_correct p ep (st : sched Q) s e :
  sched_ok p st -> tbl st !! p = Some ep -> tbl st !! s = Some e ->
  exists b st', sched_wakeup s st = Some (b, st') /\ sched_ok p st' /\
    b = (negb (finished e) && negb (waiting e =? 0)) /\
    (forall x, x <> s -> tbl st' !! x = tbl st !! x /\
       (x ∈ (qitems st').*2 <-> x ∈ (qitems st).*2)) /\
    (b = false -> st' = st) /\
    (b = true -> exists e', tbl st' !! s = Some e' /\ awake e e' /\
       (s <> p -> s ∈ (qitems st').*2) /\
       (ready e = false -> schedee_priority_get ep <= schedee_priority_get e ->
        pending st' = true)).
Proof.
  intros [Hi Hc] Hp He.
  destruct (wakeup_spec _ _ _ _ _ Hi He) as (b & st' & Hw & Hi' & Hb & Hc' & _ & Hfr & Hb0 & Hb1).
  exists b, st'. split; [done|]. split; [split; [done|congruence]|]. split; [done|].
  split; [|split; [done|]].
  - intros x Hx. rewrite Hfr by done. split; [done|].
    destruct (tbl st !! x) as [ex|] eqn:Ex.
    + rewrite (proj1 (proj2 (proj2 (si_elem _ _ _ Hi _ _ Ex)))).
      assert (tbl st' !! x = Some ex) as Ex' by (by rewrite Hfr).
      by rewrite (proj1 (proj2 (proj2 (si_elem _ _ _ Hi' _ _ Ex')))).
    + split; intros Hq; exfalso.
      * destruct (queued_item _ _ (si_rq _ _ _ Hi') Hq) as (? & Hx' & _).
        rewrite Hfr in Hx' by done. congruence.
      * destruct (queued_item _ _ (si_rq _ _ _ Hi) Hq) as (? & ? & _). congruence.
  - intros Hbt. destruct (Hb1 Hbt) as (e' & He' & Haw & Hpend). exists e'. split_and!; try done.
    + intros Hne. apply (si_elem _ _ _ Hi' _ _ He'). split; [apply Haw|by right].
    + intros Hr Hle. eapply Hpend; try done. intros ->. simplify_eq.
      destruct (si_p _ _ _ Hi) as (? & ? & _ & [?|[? _]]); congruence.
Qed.



(** C21: priority inheritance.  Raising a schedee's priority and restoring it
    keeps the scheduler's invariant throughout; a queued schedee is refiled at
    the raised level, behind its peers there, and then back at its base level;
    its priorities end as they began. *)
Theorem inherit_reverse p (st : sched Q) s e prio :
  sched_ok p st -> tbl st !! s = Some e -> prio_range prio ->
  base_priority (priority e) = schedee_priority_get e ->
  exists st1 st2 e2, schedee_priority_inherit s prio st =
      Some (Z.max prio (schedee_priority_get e), st1) /\ sched_ok p st1 /\
    schedee_priority_reverse s st1 = Some (schedee_priority_get e, st2) /\ sched_ok p st2 /\
    tbl st2 !! s = Some e2 /\ priority e2 = priority e /\
    (s ∈ (qitems st).*2 ->
      qitems st1 = rq_place (Z.max prio (schedee_priority_get e)) s (rq_remove s (qitems st)) /\
      qitems st2 = rq_place (schedee_priority_get e) s (rq_remove s (qitems st))).
Proof.
  intros [Hi Hc] He Hr Hbase.
  destruct (si_elem _ _ _ Hi _ _ He) as (Hpok & _).
  set (pr1 := priority_inherit_cb (priority e) prio).
  assert (pr1 = SchedPrio (schedee_priority_get e) (Z.max prio (schedee_priority_get e))) as Hpr1.
  { unfold pr1, priority_inherit_cb, schedee_priority_get in *. rewrite Z.gtb_ltb.
    destruct (Z.ltb_spec (current_priority (priority e)) prio).
    - rewrite Hbase. f_equal. lia.
    - destruct (priority e); cbn in *. f_equal; lia. }
  destruct (change_priority_spec false p st s e prio priority_inherit_cb)
    as (st1 & x1 & Hcp1 & Hi1 & Ht1 & Hq1 & Hc1 & _); [done|done|by left|..].
  { by apply priority_inherit_cb_ok. }
  set (e1 := set_runq_prio x1 (new_prio priority_inherit_cb prio e)) in Ht1.
  assert (tbl st1 !! s = Some e1) as He1 by (by rewrite Ht1, lookup_insert_eq).
  change (priority e1) with pr1 in *.
  destruct (change_priority_spec false p st1 s e1 (base_priority (priority e1)) priority_reverse_cb)
    as (st2 & x2 & Hcp2 & Hi2 & Ht2 & Hq2 & Hc2 & _); [done|done|by left|..].
  { apply priority_reverse_cb_ok. by destruct (si_elem _ _ _ Hi1 _ _ He1) as (? & _). }
  set (e2 := set_runq_prio x2 _) in Ht2.
  assert (tbl st2 !! s = Some e2) as He2 by (by rewrite Ht2, lookup_insert_eq).
  assert (schedee_priority_get e1 = Z.max prio (schedee_priority_get e)) as Hg1
    by (unfold schedee_priority_get at 1; change (priority e1) with pr1; by rewrite Hpr1).
  assert (priority e2 = priority e) as Hp2.
  { change (priority e2) with (priority_reverse_cb pr1 (base_priority pr1)). rewrite Hpr1.
    unfold priority_reverse_cb, schedee_priority_get in *. cbn. rewrite <- Hbase at 1.
    by destruct (priority e); cbn in *; subst. }
  exists st1, st2, e2. split_and!.
  - unfold schedee_priority_inherit. rewrite Hcp1. cbn [mbind option_bind]. rewrite He1.
    cbn [mbind option_bind]. by rewrite Hg1.
  - split; [done|congruence].
  - unfold schedee_priority_reverse. rewrite He1. cbn [mbind option_bind]. rewrite Hcp2.
    cbn [mbind option_bind]. rewrite He2. cbn [mbind option_bind].
    unfold schedee_priority_get at 1. by rewrite Hp2.
  - split; [done|congruence].
  - done.
  - done.
  - intros Hin. apply (in_rq_exact _ _ _ _ _ Hi He (or_introl eq_refl)) in Hin as Hf.
    assert (schedee_priority_get e1 = current_priority (priority_inherit_cb (priority e) prio)) as Hx
      by done.
    rewrite Hf, <- Hx, Hg1 in Hq1. split; [done|].
    change (ready e1 && negb (active e1)) with (ready e && negb (active e)) in Hq2.
    rewrite Hf, Hq1, rq_remove_place in Hq2 by (rewrite remove_snd; naive_solver).
    rewrite Hq2. do 2 f_equal. change (priority e1) with pr1. by rewrite Hpr1.
Qed.

End Theorems.

(** A boost of the preempted thread is not seen by the queue.  While
    [__schedule] runs an lthread, the thread that owned the CPU is queued but
    still [active], so [sched_change_priority] takes it for one that is not
    queued: its priority rises, and it stays filed at the old level. *)
Theorem boost_misses_preempted p (st : sched ListArray.runq_t) e prio :
  sched_inv true p st -> tbl st !! p = Some e -> ready e = true ->
  schedee_priority_get e < prio ->
  exists st' e', schedee_priority_inherit p prio st = Some (prio, st') /\
    tbl st' !! p = Some e' /\ schedee_priority_get e' = prio /\
    (schedee_priority_get e, p) ∈ qitems st' /\ (prio, p) ∉ qitems st'.
Proof.
  intros Hi He Hr Hlt. destruct (si_elem _ _ _ Hi _ _ He) as (_ & Hact & Hq & _).
  rewrite bool_decide_true in Hact by done.
  destruct (queued_item st p (si_rq _ _ _ Hi)) as (? & ? & Hin); [apply Hq; naive_solver|].
  simplify_eq.
  assert (priority_inherit_cb (priority e) prio = SchedPrio (base_priority (priority e)) prio) as Hcb.
  { unfold priority_inherit_cb, schedee_priority_get in *. rewrite Z.gtb_ltb.
    destruct (Z.ltb_spec (current_priority (priority e)) prio); [done|lia]. }
  destruct (si_cur _ _ _ Hi) as (c & ec & Hc & Hec).
  unfold schedee_priority_inherit, sched_change_priority. rewrite He. cbn [mbind option_bind].
  rewrite Hr, Hact. cbn [andb negb mbind option_bind].
  set (st1 := upd p _ st). set (e1 := set_priority (SchedPrio (base_priority (priority e)) prio) e).
  assert (tbl st1 !! p = Some e1) as He1
    by (unfold st1; cbn; by rewrite lookup_alter_eq, He; cbn; rewrite Hcb).
  assert (exists ec1, tbl st1 !! c = Some ec1) as (ec1 & Hec1).
  { destruct (decide (p = c)) as [->|]; [eauto|]. exists ec. unfold st1. cbn.
    by rewrite lookup_alter_ne. }
  rewrite (check_preempt_spec p st1 c ec1 e1) by done. cbn [mbind option_bind].
  set (st2 := if _ <=? _ then _ else _).
  assert (tbl st2 = tbl st1 /\ rq st2 = rq st) as [Ht2 Hr2] by (unfold st2; by destruct (_ <=? _)).
  assert (qitems st2 = qitems st) as Hq2 by (unfold qitems; cbn; by rewrite Hr2).
  exists st2, e1. rewrite Ht2, He1, Hq2. cbn [mbind option_bind]. split_and!; try done.
  intros Hin'. destruct (runq_items_ok _ _ (si_rq _ _ _ Hi)) as (_ & _ & Hlev).
  destruct (Hlev _ _ Hin') as (? & ? & _ & ?). simplify_eq. lia.
Qed.

(** * Instances *)

(** An lthread whose code wakes up a thread is admissible. *)
Lemma run_wakeup_ok {Q : Type} `{RS : RunqSpec Q} P idle prev preempt j :
  run_ok P idle prev preempt (fun _ (st : sched Q) =>
    match tbl st !! j with
    | Some e => if schedee_is_thread e then '(_, st) ← sched_wakeup j st; Some st else Some st
    | None => Some st
    end).
Proof.
  intros l el st Hl Hel Hth Hp Hr.
  destruct (tbl st !! j) as [ej|] eqn:Ej; [|by exists st, el].
  destruct (schedee_is_thread ej) eqn:Etj; [|by exists st, el].
  destruct (loop_wakeup P idle prev preempt st j ej Hl Ej Etj) as (b & st' & Hw & Hl' & Hb & _).
  rewrite Hw. cbn [mbind option_bind]. exists st', el. split_and!; try done; [by rewrite Hb|].
  destruct (wakeup_spec _ _ _ _ _ (li_inv _ _ _ _ _ Hl) Ej) as
    (b' & st'' & Hw' & _ & _ & _ & _ & Hfr & _). simplify_eq.
  rewrite Hfr; [done|]. intros ->. congruence.
Qed.

Definition wake_run (j : nat) (l : nat) (st : demo_st) : option demo_st :=
  match tbl st !! j with
  | Some e => if schedee_is_thread e then '(_, st) ← sched_wakeup j st; Some st else Some st
  | None => Some st
  end.

(** The state [demo l] computes. *)
Definition demo_state (l : list nat) : demo_st :=
  match demo l with Some st => st | None => Sched ListArray.init ∅ ∅ None false false false end.

Lemma demo_state_ok l :
  (if demo l then true else false) = true -> Forall (fun s => (s < 5)%nat) l ->
  sched_ok 1 (demo_state l).
Proof.
  intros Hd Hl. unfold demo_state. destruct (demo l) as [st|] eqn:E; [|done].
  eapply demo_ok; [done|]. by apply Forall_forall.
Qed.

Lemma schedule_serves_best_witness :
  exists next st', schedule_ (wake_run 3) 2 true (demo_state [0; 2; 4]%nat) = Some st' /\
    serves_best 1 next st'.
Proof.
  apply (schedule_serves_best 1 0 1 true (wake_run 3) 2 (demo_state [0; 2; 4]%nat)).
  - apply demo_state_ok; [by vm_compute|repeat constructor].
  - intros s e He. heap_cases He; reflexivity.
  - intros s e He Ht. heap_cases He; try discriminate Ht.
    + exists (Lthread (Some 3%nat) 0). split; [reflexivity|]. intros j [= <-].
      eexists. split; [vm_compute; reflexivity|reflexivity].
    + exists (Lthread None 0). split; [reflexivity|discriminate].
  - eexists. split; [vm_compute; reflexivity|]. repeat split.
  - apply run_wakeup_ok.
  - eexists 2%nat, _. split; [vm_compute; reflexivity|]. repeat split; [done|by left].
  - vm_compute. lia.
Defined.

Lemma preempt_round_robin_witness :
  exists st', sched_preempt (wake_run 3) 1 (sched_post_switch (demo_state [0; 2]%nat)) = Some st' /\
    sched_ok 2 st' /\ qitems st' = [(128, 1%nat); (0, 0%nat)] /\ yield_req st' = false.
Proof.
  apply (preempt_round_robin 1 (set_released false (set_waiting 0 (set_active true
           (set_ready true (schedee_init 128 SCHEDEE_THREAD 1)))))
           2 (set_waiting 0 (set_ready true (schedee_init 128 SCHEDEE_THREAD 0)))
           [(0, 0%nat)] (wake_run 3) 0 (sched_post_switch (demo_state [0; 2]%nat))).
  - assert (sched_ok 1 (demo_state [0; 2]%nat)) as [Hi Hc]
      by (apply demo_state_ok; [by vm_compute|repeat constructor]).
    split; [|exact Hc]. eapply inv_flags; [exact Hi|reflexivity..|]. apply (si_cur _ _ _ Hi).
  - intros s e He. heap_cases He; reflexivity.
  - by vm_compute.
  - by vm_compute.
  - reflexivity.
  - by vm_compute.
Defined.

Lemma wakeup_correct_witness :
  exists b st', sched_wakeup 2 (demo_state [0]%nat) = Some (b, st') /\ sched_ok 1 st' /\
    b = true /\ pending st' = true.
Proof.
  destruct (wakeup_correct 1 (set_released false (set_waiting 0 (set_active true
           (set_ready true (schedee_init 128 SCHEDEE_THREAD 1)))))
           (demo_state [0]%nat) 2 (schedee_init 128 SCHEDEE_THREAD 0))
    as (b & st' & Hw & Hok & Hb & _ & _ & Ht).
  - apply demo_state_ok; [by vm_compute|repeat constructor].
  - by vm_compute.
  - by vm_compute.
  - exists b, st'. cbn in Hb. subst b. destruct (Ht eq_refl) as (e' & _ & _ & _ & Hp).
    split_and!; try done. apply Hp; [reflexivity|by vm_compute].
Defined.


Lemma inherit_reverse_witness :
  exists st1 st2, schedee_priority_inherit 3 150 (demo_state [0; 2; 3]%nat) = Some (150, st1) /\
    qitems st1 = [(150, 3%nat); (128, 2%nat); (0, 0%nat)] /\
    schedee_priority_reverse 3 st1 = Some (90, st2) /\
    qitems st2 = [(128, 2%nat); (90, 3%nat); (0, 0%nat)].
Proof.
  destruct (inherit_reverse 1 (demo_state [0; 2; 3]%nat) 3
              (set_waiting 0 (set_ready true (schedee_init 90 SCHEDEE_THREAD 1))) 150)
    as (st1 & st2 & e2 & H1 & _ & H2 & _ & _ & _ & Hq).
  - apply demo_state_ok; [by vm_compute|repeat constructor].
  - by vm_compute.
  - done.
  - reflexivity.
  - exists st1, st2. destruct Hq as [Hq1 Hq2].
    { apply elem_snd. exists 90. vm_compute. right. left. }
    rewrite Hq1, Hq2. split_and!; [exact H1|by vm_compute|exact H2|by vm_compute].
Defined.

Definition demo_entered (st : demo_st) : demo_st :=
  match schedule_enter true 1 st with Some st => st | None => st end.

Lemma boost_misses_preempted_witness :
  exists st', schedee_priority_inherit 1 250 (demo_entered (demo_state [0; 2]%nat)) = Some (250, st') /\
    (128, 1%nat) ∈ qitems st' /\ (250, 1%nat) ∉ qitems st'.
Proof.
  destruct (boost_misses_preempted 1 (demo_entered (demo_state [0; 2]%nat))
              (set_released false (set_waiting 0 (set_active true
                 (set_ready true (schedee_init 128 SCHEDEE_THREAD 1))))) 250)
    as (st' & e' & H1 & _ & _ & H2 & H3).
  - assert (sched_ok 1 (demo_state [0; 2]%nat)) as Hok
      by (apply demo_state_ok; [by vm_compute|repeat constructor]).
    destruct (enter_ok 1 true _ (set_released false (set_waiting 0 (set_active true
                 (set_ready true (schedee_init 128 SCHEDEE_THREAD 1))))) Hok)
      as (st1 & He & Hi & _); [by vm_compute|]. unfold demo_entered. rewrite He. exact Hi.
  - by vm_compute.
  - reflexivity.
  - reflexivity.
  - by exists st'.
Defined.
