(* ===== verification/Waitq.v ===== *)
(** Wait queues: [src/kernel/sched/waitq.c].

    A wait queue is the list of the schedees whose link is on it, in order;
    the link is the schedee's own ([schedee->waitq_link]), so a schedee is on a
    queue at most once.  [wq->lock] makes each operation one step.  The links
    are not stored elsewhere ([waitq_protect_link_stub.c]).

    [waitq_wakeup_ok] is what everything built on wait queues relies on: after
    [waitq_wakeup_all] no live schedee of the queue waits, and nothing else has
    changed.  [effect] says how such calls may change the scheduler's state. *)
From S2P Require Import Prelude Schedee Sched SchedFacts SchedLoop.

Local Open Scope Z_scope.
Local Open Scope embox_scope.

Abbreviation waitq := (list nat).

Definition waitq_init : waitq := [].

(** A link that is initialised anew while it is queued destroys the list. *)
Definition waitq_link_init (wql : nat) (wq : waitq) : option waitq :=
  assert! negb (bool_decide (wql ∈ wq)) ;; Some wq.

Definition waitq_add (wq : waitq) (wql : nat) : waitq :=
  if bool_decide (wql ∈ wq) then wq else wq ++ [wql].

Definition waitq_del (wq : waitq) (wql : nat) : waitq := filter (fun x => x <> wql) wq.

Section Ops.
Context {Q : Type} `{RQ : !RunqOps Q}.

Definition waitq_wait_prepare (wq : waitq) (wql : nat) (st : sched Q) : option (waitq * sched Q) :=
  let wq := waitq_add wq wql in
  st ← sched_wait_prepare st; Some (wq, st).

Definition waitq_wait_cleanup (wq : waitq) (wql : nat) (st : sched Q) : option (waitq * sched Q) :=
  st ← sched_wait_cleanup st;
  Some (waitq_del wq wql, st).

(** [__waitq_wakeup] from a link on. *)
Fixpoint waitq_wakeup (wq : waitq) (nr : Z) (st : sched Q) : option (sched Q) :=
  match wq with
  | [] => Some st
  | wql :: wq =>
    '(woken, st) ← sched_wakeup wql st;
    if negb woken then waitq_wakeup wq nr st
    else
      let nr := s32 (nr - 1) in
      if nr =? 0 then Some st else waitq_wakeup wq nr st
  end.

Definition waitq_wakeup_all (wq : waitq) (st : sched Q) : option (sched Q) := waitq_wakeup wq 0 st.

End Ops.

(** * Lists of links *)

Lemma elem_waitq_add wq s x : x ∈ waitq_add wq s <-> x ∈ wq \/ x = s.
Proof.
  unfold waitq_add. case_bool_decide as H; [naive_solver|].
  by rewrite elem_of_app, list_elem_of_singleton.
Qed.

Lemma elem_waitq_del wq s x : x ∈ waitq_del wq s <-> x ∈ wq /\ x <> s.
Proof. unfold waitq_del. rewrite list_elem_of_filter. tauto. Qed.

Lemma waitq_add_NoDup wq s : NoDup wq -> NoDup (waitq_add wq s).
Proof.
  intros Hn. unfold waitq_add. case_bool_decide as H; [done|].
  apply NoDup_app. split_and!; [done| |apply NoDup_singleton].
  intros x Hx ->%list_elem_of_singleton. done.
Qed.

Lemma waitq_del_NoDup wq s : NoDup wq -> NoDup (waitq_del wq s).
Proof. apply NoDup_filter. Qed.

(** * Effects on the scheduler's state *)

(** A thread may be woken and may change its priority; nothing else changes. *)
Definition mild (e e' : schedee) : Prop :=
  type e' = type e /\ affinity e' = affinity e /\ finished e' = finished e /\
  (waiting e' = waiting e \/ waiting e' = 0) /\ (ready e = true -> ready e' = true) /\
  (schedee_is_thread e = false -> e' = e).

Section Effects.
Context {Q : Type} `{RS : RunqSpec Q}.

Record effect (st st' : sched Q) : Prop := {
  ef_lthreads : lthreads st' = lthreads st;
  ef_current : current st' = current st;
  ef_tbl : forall x, option_Forall2 mild (tbl st !! x) (tbl st' !! x)
}.

Lemma mild_refl e : mild e e.
Proof. split_and!; auto. Qed.

Lemma mild_trans e1 e2 e3 : mild e1 e2 -> mild e2 e3 -> mild e1 e3.
Proof.
  intros (T1 & A1 & F1 & W1 & R1 & L1) (T2 & A2 & F2 & W2 & R2 & L2).
  split_and!; try congruence; auto.
  - destruct W2 as [-> | ->]; auto.
  - intros Hl. rewrite L2; [by apply L1|]. unfold schedee_is_thread in *. by rewrite T1.
Qed.

#[export] Instance effect_preorder : PreOrder effect.
Proof.
  split.
  - intros st. split; [done..|]. intros x. destruct (tbl st !! x); constructor. apply mild_refl.
  - intros a b c [L1 C1 T1] [L2 C2 T2]. split; [congruence..|]. intros x.
    specialize (T1 x). specialize (T2 x). destruct T1 as [e1 e2 H1|]; inversion T2; constructor.
    by eapply mild_trans.
Qed.

Lemma effect_insert (st st' : sched Q) s e e' :
  lthreads st' = lthreads st -> current st' = current st ->
  tbl st !! s = Some e -> tbl st' = <[s := e']> (tbl st) -> mild e e' -> effect st st'.
Proof.
  intros HL HC Hs Ht Hm. split; [done..|]. intros x. rewrite Ht.
  destruct (decide (s = x)) as [->|].
  - rewrite Hs, lookup_insert_eq. by constructor.
  - rewrite lookup_insert_ne by done. destruct (tbl st !! x); constructor. apply mild_refl.
Qed.

Lemma effect_at (st st' : sched Q) s e :
  effect st st' -> tbl st !! s = Some e -> exists e', tbl st' !! s = Some e' /\ mild e e'.
Proof. intros Hf Hs. pose proof (ef_tbl _ _ Hf s) as Hx. rewrite Hs in Hx. inversion Hx; subst. eauto. Qed.

Lemma effect_back (st st' : sched Q) s e' :
  effect st st' -> tbl st' !! s = Some e' -> exists e, tbl st !! s = Some e /\ mild e e'.
Proof. intros Hf Hs. pose proof (ef_tbl _ _ Hf s) as Hx. rewrite Hs in Hx. inversion Hx; subst. eauto. Qed.

(** What [__schedule] needs of the rest of the system. *)
Record env (P : Z) (idle : nat) (st : sched Q) : Prop := {
  env_cpus : all_cpus (tbl st);
  env_joins : joins_ok (tbl st) (lthreads st);
  env_idle : idle_ready P idle (tbl st)
}.

Lemma mild_thread e e' : mild e e' -> schedee_is_thread e' = schedee_is_thread e.
Proof. intros (T & _). unfold schedee_is_thread. by rewrite T. Qed.

(** It depends on what threads never change. *)
Definition same_kind (e e' : schedee) : Prop :=
  type e' = type e /\ affinity e' = affinity e /\ (schedee_is_thread e = false -> e' = e).

Lemma env_kind P idle (st st' : sched Q) : env P idle st -> lthreads st' = lthreads st ->
  (forall x, option_Forall2 same_kind (tbl st !! x) (tbl st' !! x)) -> env P idle st'.
Proof.
  intros [Hc Hj (ei & Hi & Hr & Hti & Hp)] Hl Hk.
  assert (forall s e, tbl st !! s = Some e -> exists e', tbl st' !! s = Some e' /\ same_kind e e') as Hat.
  { intros s e Hs. specialize (Hk s). rewrite Hs in Hk. inversion Hk; subst. eauto. }
  assert (forall s e', tbl st' !! s = Some e' -> exists e, tbl st !! s = Some e /\ same_kind e e') as Hback.
  { intros s e' Hs. specialize (Hk s). rewrite Hs in Hk. inversion Hk; subst. eauto. }
  split.
  - intros s e' Hs. destruct (Hback _ _ Hs) as (e & He & _ & -> & _). by eapply Hc.
  - intros s e' Hs Ht. destruct (Hback _ _ Hs) as (e & He & Hty & _).
    destruct (Hj s e He) as (l & Hls & Hjl); [unfold schedee_is_thread in *; by rewrite <- Hty|].
    exists l. rewrite Hl. split; [done|]. intros j Hjj.
    destruct (Hjl j Hjj) as (ej & Hej & Htj). destruct (Hat _ _ Hej) as (ej' & ? & Htj' & _).
    exists ej'. split; [done|]. unfold schedee_is_thread in *. by rewrite Htj'.
  - destruct (Hat _ _ Hi) as (ei' & Hi' & _ & _ & Heq). rewrite Heq in Hi' by done. by exists ei.
Qed.

Lemma env_effect P idle (st st' : sched Q) : env P idle st -> effect st st' -> env P idle st'.
Proof.
  intros He [Hl _ Hf]. eapply env_kind; [done..|]. intros x. destruct (Hf x) as [e e' Hm|]; constructor.
  destruct Hm as (? & ? & _ & _ & _ & ?). by split_and!.
Qed.

(** * Wakeups *)

Lemma wakeup_effect mid p (st : sched Q) s e :
  sched_inv mid p st -> tbl st !! s = Some e -> schedee_is_thread e = true ->
  exists b st', sched_wakeup s st = Some (b, st') /\ sched_inv mid p st' /\ effect st st' /\
    (finished e = false -> exists e', tbl st' !! s = Some e' /\ waiting e' = 0).
Proof.
  intros Hi Hs Ht.
  destruct (wakeup_spec mid p st s e Hi Hs) as (b & st' & Hw & Hi' & Hb & Hc & Hl & Hfr & H0 & H1).
  exists b, st'. split; [done|]. split; [done|]. destruct b.
  - destruct (H1 eq_refl) as (e' & He' & (Hr & Hwt & Hty & _ & Hfin & _ & Haff & _) & _).
    split; [|eauto]. apply (effect_insert st st' s e e'); try done.
    + apply map_eq. intros x. destruct (decide (s = x)) as [->|].
      * by rewrite lookup_insert_eq.
      * rewrite lookup_insert_ne by done. by apply Hfr.
    + split_and!; auto. congruence.
  - rewrite H0 by done. split; [done|]. intros Hf. exists e. split; [done|].
    rewrite Hf in Hb. cbn in Hb. symmetry in Hb. by apply negb_false_iff, Z.eqb_eq in Hb.
Qed.

(** With no limit ([nr = 0]) every schedee of the queue is woken. *)
Lemma waitq_wakeup_ok mid p wq nr (st : sched Q) :
  sched_inv mid p st ->
  (forall s, s ∈ wq -> exists e, tbl st !! s = Some e /\ schedee_is_thread e = true) ->
  nr <= 0 -> - 2 ^ 31 <= nr - zlen wq ->
  exists st', waitq_wakeup wq nr st = Some st' /\ sched_inv mid p st' /\ effect st st' /\
    forall s e, s ∈ wq -> tbl st' !! s = Some e -> finished e = false -> waiting e = 0.
Proof.
  revert nr st. induction wq as [|s wq IH]; intros nr st Hi Hwq Hnr Hlen.
  { exists st. split_and!; try done. intros s e []%not_elem_of_nil. }
  unfold zlen in *. cbn [length] in Hlen.
  destruct (Hwq s) as (e & Hs & Ht); [left|].
  destruct (wakeup_effect mid p st s e Hi Hs Ht) as (b & st1 & Hw & Hi1 & Hf1 & Hwoke).
  cbn [waitq_wakeup]. rewrite Hw. cbn [mbind option_bind].
  assert (forall nr', nr' <= 0 -> - 2 ^ 31 <= nr' - zlen wq ->
    exists st', waitq_wakeup wq nr' st1 = Some st' /\ sched_inv mid p st' /\ effect st st' /\
    forall x ex, x ∈ s :: wq -> tbl st' !! x = Some ex -> finished ex = false -> waiting ex = 0) as Hrest.
  { intros nr' Hn1 Hn2. destruct (IH nr' st1 Hi1) as (st' & Hrun & Hi' & Hf' & Hall); [|done..|].
    { intros x Hx. destruct (Hwq x) as (ex & Hex & Htx); [by right|].
      destruct (effect_at _ _ _ _ Hf1 Hex) as (ex' & ? & Hm). exists ex'. by rewrite (mild_thread _ _ Hm). }
    exists st'. split_and!; try done; [by etrans|]. intros x ex [->|Hx]%elem_of_cons Hex Hfin; [|eauto].
    destruct (effect_back _ _ _ _ Hf' Hex) as (e1 & He1 & _ & _ & Hfe & Hwe & _).
    destruct (effect_back _ _ _ _ Hf1 He1) as (e0 & He0 & _ & _ & Hfe0 & _). simplify_eq.
    destruct Hwoke as (e1' & He1' & Hw0); [congruence|]. simplify_eq. destruct Hwe; congruence. }
  unfold zlen in Hrest. destruct b; cbn [negb]; [|apply Hrest; lia].
  rewrite s32_small by lia. destruct (Z.eqb_spec (nr - 1) 0); [lia|]. apply Hrest; lia.
Qed.

(** * The running thread's own flag *)

Lemma set_waiting_sched c w (st : sched Q) :
  sched_ok c st -> sched_ok c (upd c (set_waiting w) st) /\
  exists e, tbl st !! c = Some e /\ schedee_is_thread e = true /\ ready e = true /\
    tbl (upd c (set_waiting w) st) = <[c := set_waiting w e]> (tbl st).
Proof.
  intros [Hi Hc]. destruct (si_p _ _ _ Hi) as (e & Hs & Ht & [Hr|[]]); [|done].
  destruct (si_elem _ _ _ Hi _ _ Hs) as (Hp & Ha & Hq & _).
  assert (tbl (upd c (set_waiting w) st) = <[c := set_waiting w e]> (tbl st)) as Htbl
    by (by apply alter_insert_id).
  destruct (alter_frame (rq st) (tbl st) c (set_waiting w) (si_rq _ _ _ Hi)) as [Hf1 Hf2]; [done|].
  split; [split; [|done]|by exists e].
  eapply (inv_step false c st _ c e (set_waiting w e)); try done.
  - intros x _. unfold qitems. cbn. by rewrite Hf2.
  - unfold qitems. cbn. rewrite Hf2. exact Hq.
  - by left.
  - by left.
Qed.

Lemma set_waiting_ok P idle c w (st : sched Q) :
  sched_ok c st -> env P idle st ->
  sched_ok c (upd c (set_waiting w) st) /\ env P idle (upd c (set_waiting w) st) /\
  exists e, tbl st !! c = Some e /\ ready e = true /\
    tbl (upd c (set_waiting w) st) = <[c := set_waiting w e]> (tbl st).
Proof.
  intros Hok He. destruct (set_waiting_sched c w st Hok) as (Hok' & e & Hs & Ht & Hr & Htbl).
  split_and!; [done| |by exists e]. eapply env_kind; [done..|]. intros x. rewrite Htbl.
  destruct (decide (c = x)) as [<-|].
  - rewrite Hs, lookup_insert_eq. constructor. split_and!; try done. congruence.
  - rewrite lookup_insert_ne by done. destruct (tbl st !! x); constructor. by split_and!.
Qed.

End Effects.
