(* ===== verification/Ring.v ===== *)
(** Ring buffers: the control block [struct ring] of [src/lib/libds/ring], the
    buffer of elements [struct ring_buff] of [src/lib/libds/ring_buff], and the
    bounded queue they implement, as an interface ([FifoOps], [FifoSpec]).

    Sizes are [size_t], counts of elements are [int]; the conversions between
    them are written out.  The storage of a [ring_buff] is the list of its
    elements, [memcpy] of [elem_size * n] bytes copies [n] of them, and a copy
    outside an array fails. *)
From S2P Require Import Prelude.

Local Open Scope Z_scope.
Local Open Scope embox_scope.

(** * The interface of a bounded queue *)

Class FifoOps (T Q : Type) := {
  fq_get_cnt : Q -> option Z;
  fq_get_space : Q -> option Z;
  fq_enqueue : Q -> list T -> Z -> option (Z * Q);
  fq_dequeue : Q -> Z -> option (list T * Q)
}.

(** [fq_rep q c]: [q] holds the elements [c], first in first.  [fq_cap] is the
    most it can hold. *)
Class FifoSpec (T Q : Type) `{FifoOps T Q} := {
  fq_rep : Q -> list T -> Prop;
  fq_cap : Q -> Z;
  fq_bound : forall q c, fq_rep q c -> 0 <= zlen c <= fq_cap q /\ fq_cap q < 2 ^ 31 - 1;
  fq_get_cnt_ok : forall q c, fq_rep q c -> fq_get_cnt q = Some (zlen c);
  fq_get_space_ok : forall q c, fq_rep q c -> fq_get_space q = Some (fq_cap q - zlen c);
  fq_enqueue_ok : forall q c from cnt, fq_rep q c -> 0 <= cnt <= zlen from -> cnt < 2 ^ 31 ->
    let k := Z.min cnt (fq_cap q - zlen c) in
    exists q', fq_enqueue q from cnt = Some (k, q') /\
      fq_rep q' (c ++ take (Z.to_nat k) from) /\ fq_cap q' = fq_cap q;
  fq_dequeue_ok : forall q c cnt, fq_rep q c -> 0 <= cnt < 2 ^ 31 ->
    let k := Z.to_nat (Z.min cnt (zlen c)) in
    exists q', fq_dequeue q cnt = Some (take k c, q') /\
      fq_rep q' (drop k c) /\ fq_cap q' = fq_cap q
}.

(** * The control block, [ring.h] and [ring.c] *)

Section Ring.
Context `{A : arch}.

Record ring := Ring { head : Z; tail : Z }.

Definition ring_init : ring := Ring 0 0.

Definition ring_assert_invariants (r : ring) (r_size : Z) : bool :=
  (head r <? r_size) && (tail r <? r_size).

Definition ring_empty (r : ring) : bool := head r =? tail r.

Definition ring_full (r : ring) (r_size : Z) : option bool :=
  assert! ring_assert_invariants r r_size ;;
  Some (head r =? ul ((if negb (tail r =? 0) then tail r else r_size) - 1)).

Definition ring_wraps (r : ring) (r_size : Z) : option bool :=
  assert! ring_assert_invariants r r_size ;;
  Some (head r <? tail r).

Definition ring_data_size (r : ring) (r_size : Z) : option Z :=
  let data_size := ul (head r - tail r) in
  w ← ring_wraps r r_size;
  Some (if w : bool then ul (data_size + r_size) else data_size).

Definition ring_room_size (r : ring) (r_size : Z) : option Z :=
  let room_size := ul (tail r - head r - 1) in
  w ← ring_wraps r r_size;
  Some (if negb w then ul (room_size + r_size) else room_size).

Definition ring_can_read (r : ring) (r_size read_size : Z) : option Z :=
  w ← ring_wraps r r_size;
  let nwrap_data_end := if w : bool then r_size else head r in
  Some (Z.min read_size (ul (nwrap_data_end - tail r))).

Definition ring_can_write (r : ring) (r_size write_size : Z) : option Z :=
  w ← ring_wraps r r_size;
  let nwrap_room_end := if negb w then ul (r_size - b2z (tail r =? 0)) else ul (tail r - 1) in
  Some (Z.min write_size (ul (nwrap_room_end - head r))).

Definition ring_fixup_tail (r : ring) (r_size : Z) : ring :=
  if tail r >=? r_size then Ring (head r) (ul (tail r - r_size)) else r.

Definition ring_fixup_head (r : ring) (r_size : Z) : ring :=
  if head r >=? r_size then Ring (ul (head r - r_size)) (tail r) else r.

Definition ring_just_read (r : ring) (r_size read_size : Z) : option (Z * ring) :=
  can ← ring_can_read r r_size read_size;
  assert! read_size <=? can ;;
  Some (read_size, ring_fixup_tail (Ring (head r) (ul (tail r + read_size))) r_size).

Definition ring_just_write (r : ring) (r_size write_size : Z) : option (Z * ring) :=
  can ← ring_can_write r r_size write_size;
  assert! write_size <=? can ;;
  Some (write_size, ring_fixup_head (Ring (ul (head r + write_size)) (tail r)) r_size).

Definition ring_read (r : ring) (r_size read_size : Z) : option (Z * ring) :=
  can ← ring_can_read r r_size read_size; ring_just_read r r_size can.

Definition ring_write (r : ring) (r_size write_size : Z) : option (Z * ring) :=
  can ← ring_can_write r r_size write_size; ring_just_write r r_size can.

(** The [while] loops of [ring_read_all_into] and [ring_write_all_from]; each
    turn moves a block, and two turns always suffice (one more to leave). *)
Fixpoint ring_read_all_loop {T} (fuel : nat) (r : ring) (r_buff : list T) (r_size : Z)
    (into : list T) (read_size count : Z) : option (Z * ring * list T) :=
  match fuel with
  | O => None
  | S fuel =>
    block_size ← ring_can_read r r_size read_size;
    if block_size =? 0 then Some (count, r, into)
    else
      block ← zread r_buff (tail r) block_size;
      into ← zwrite into count block;
      '(_, r) ← ring_just_read r r_size block_size;
      ring_read_all_loop fuel r r_buff r_size into (ul (read_size - block_size))
        (ul (count + block_size))
  end.

Fixpoint ring_write_all_loop {T} (fuel : nat) (r : ring) (r_buff : list T) (r_size : Z)
    (from : list T) (write_size count : Z) : option (Z * ring * list T) :=
  match fuel with
  | O => None
  | S fuel =>
    block_size ← ring_can_write r r_size write_size;
    if block_size =? 0 then Some (count, r, r_buff)
    else
      block ← zread from count block_size;
      r_buff ← zwrite r_buff (head r) block;
      '(_, r) ← ring_just_write r r_size block_size;
      ring_write_all_loop fuel r r_buff r_size from (ul (write_size - block_size))
        (ul (count + block_size))
  end.

Definition ring_read_all_into {T} (r : ring) (r_buff : list T) (r_size : Z)
    (into_buff : list T) (read_size : Z) : option (Z * ring * list T) :=
  ring_read_all_loop 3 r r_buff r_size into_buff read_size 0.

Definition ring_write_all_from {T} (r : ring) (r_buff : list T) (r_size : Z)
    (from_buff : list T) (write_size : Z) : option (Z * ring * list T) :=
  ring_write_all_loop 3 r r_buff r_size from_buff write_size 0.

(** * The buffer of elements, [ring_buff.c] *)

Record ring_buff (T : Type) := RingBuff { rb_ring : ring; capacity : Z; storage : list T }.
Arguments RingBuff {T} _ _ _.
Arguments rb_ring {T} _.
Arguments capacity {T} _.
Arguments storage {T} _.

Section Buff.
Context {T : Type}.
Abbreviation rbuf := (ring_buff T).

Definition ring_buff_init (count : Z) (store : list T) : rbuf :=
  RingBuff ring_init (ul count) store.

Definition ring_buff_get_cnt (buf : rbuf) : option Z :=
  n ← ring_data_size (rb_ring buf) (capacity buf); Some (s32 n).

Definition ring_buff_get_space (buf : rbuf) : option Z :=
  n ← ring_room_size (rb_ring buf) (capacity buf); Some (s32 n).

(** [__ring_buff_enqueue], [into] being an index into the storage. *)
Definition ring_buff_enqueue_at (buf : rbuf) (into : Z) (from : list T) (cnt : Z)
  : option (Z * rbuf) :=
  can_write ← ring_can_write (rb_ring buf) (capacity buf) (ul cnt);
  let can_write := s32 can_write in
  data ← zread from 0 can_write;
  store ← zwrite (storage buf) into data;
  '(_, r) ← ring_just_write (rb_ring buf) (capacity buf) (ul can_write);
  Some (can_write, RingBuff r (capacity buf) store).

Definition ring_buff_enqueue (buf : rbuf) (from : list T) (cnt : Z) : option (Z * rbuf) :=
  let write_to := head (rb_ring buf) in
  full ← ring_full (rb_ring buf) (capacity buf);
  if full : bool then Some (0, buf)
  else
    '(written, buf) ← ring_buff_enqueue_at buf write_to from cnt;
    full ← ring_full (rb_ring buf) (capacity buf);
    if full : bool then Some (written, buf)
    else
      let rest := s32 (cnt - written) in
      if rest =? 0 then Some (written, buf)
      else
        '(w, buf) ← ring_buff_enqueue_at buf 0 (drop (Z.to_nat written) from) rest;
        Some (s32 (written + w), buf).

(** [__ring_buff_dequeue]: the elements copied out. *)
Definition ring_buff_dequeue_at (buf : rbuf) (from : Z) (cnt : Z) : option (list T * Z * rbuf) :=
  can_read ← ring_can_read (rb_ring buf) (capacity buf) (ul cnt);
  let can_read := s32 can_read in
  data ← zread (storage buf) from can_read;
  '(_, r) ← ring_just_read (rb_ring buf) (capacity buf) (ul can_read);
  Some (data, can_read, RingBuff r (capacity buf) (storage buf)).

Definition ring_buff_dequeue (buf : rbuf) (cnt : Z) : option (list T * rbuf) :=
  let read_from := tail (rb_ring buf) in
  if ring_empty (rb_ring buf) then Some ([], buf)
  else
    '(data, read, buf) ← ring_buff_dequeue_at buf read_from cnt;
    if ring_empty (rb_ring buf) then Some (data, buf)
    else
      let rest := s32 (cnt - read) in
      if rest =? 0 then Some (data, buf)
      else
        '(data', _, buf) ← ring_buff_dequeue_at buf 0 rest;
        Some (data ++ data', buf).

(** [ring_buff_alloc]: the index of the first element, their number; [zero] is
    an element of zero bytes. *)
Definition ring_buff_alloc (zero : T) (buf : rbuf) (cnt : Z) : option (option Z * Z * rbuf) :=
  let write_to := head (rb_ring buf) in
  full ← ring_full (rb_ring buf) (capacity buf);
  if full : bool then Some (None, 0, buf)
  else
    can_write ← ring_can_write (rb_ring buf) (capacity buf) (ul cnt);
    let can_write := s32 can_write in
    store ← zwrite (storage buf) write_to (replicate (Z.to_nat can_write) zero);
    '(n, r) ← ring_just_write (rb_ring buf) (capacity buf) (ul can_write);
    Some (Some write_to, s32 n, RingBuff r (capacity buf) store).

#[export] Instance ring_buff_fifo : FifoOps T rbuf := {|
  fq_get_cnt := ring_buff_get_cnt;
  fq_get_space := ring_buff_get_space;
  fq_enqueue := ring_buff_enqueue;
  fq_dequeue := ring_buff_dequeue |}.

End Buff.
End Ring.
Arguments RingBuff {T} _ _ _.
Arguments rb_ring {T} _.
Arguments capacity {T} _.
Arguments storage {T} _.

(** * The view: the elements from tail to head, around the end *)

Definition around (n x : Z) : Z := if x <? n then x else x - n.

Definition used (r : ring) (n : Z) : Z :=
  if head r <? tail r then head r - tail r + n else head r - tail r.

(** Element [i] of the queue is at [around n (tail + i)]. *)
Record ring_rep {T} (r : ring) (store : list T) (c : list T) : Prop := {
  rr_size : 0 < zlen store < 2 ^ 31;
  rr_head : 0 <= head r < zlen store;
  rr_tail : 0 <= tail r < zlen store;
  rr_len : zlen c = used r (zlen store);
  rr_at : forall i, 0 <= i < zlen c -> znth c i = znth store (around (zlen store) (tail r + i))
}.

Section Facts.
Context `{A : arch} `{!ArchOk A} {T : Type}.
Implicit Types (r : ring) (S c : list T).

(** The contiguous room from the head, the contiguous data from the tail. *)
Definition room_block r (n : Z) : Z :=
  if tail r <=? head r then n - b2z (tail r =? 0) - head r else tail r - 1 - head r.
Definition data_block r (n : Z) : Z :=
  if head r <? tail r then n - tail r else head r - tail r.

Ltac ring_start H :=
  destruct (rr_size _ _ _ H) as [Hn0 Hn1]; destruct (rr_head _ _ _ H) as [Hh0 Hh1];
  destruct (rr_tail _ _ _ H) as [Ht0 Ht1]; pose proof (rr_len _ _ _ H) as Hlen.

Lemma invariants_ok r S c : ring_rep r S c -> ring_assert_invariants r (zlen S) = true.
Proof. intros H. ring_start H. unfold ring_assert_invariants. zbool; done || lia. Qed.

Lemma wraps_ok r S c : ring_rep r S c -> ring_wraps r (zlen S) = Some (head r <? tail r).
Proof. intros H. unfold ring_wraps. by rewrite (invariants_ok _ _ _ H). Qed.

Lemma full_ok r S c :
  ring_rep r S c -> ring_full r (zlen S) = Some (zlen c =? zlen S - 1).
Proof.
  intros H. ring_start H. unfold ring_full. rewrite (invariants_ok _ _ _ H). f_equal.
  unfold used in *. destruct (Z.eqb_spec (tail r) 0) as [E|E]; cbn [negb];
    rewrite ul_32 by lia; zbool_in Hlen; zbool; lia || done.
Qed.

Lemma empty_ok r S c : ring_rep r S c -> ring_empty r = (zlen c =? 0).
Proof. intros H. ring_start H. unfold ring_empty, used in *. zbool_in Hlen; zbool; lia || done. Qed.

Lemma can_write_ok r S c w :
  ring_rep r S c -> ring_can_write r (zlen S) w = Some (Z.min w (room_block r (zlen S))).
Proof.
  intros H. ring_start H. unfold ring_can_write. rewrite (wraps_ok _ _ _ H). cbn [mbind option_bind].
  unfold room_block. destruct (Z.ltb_spec (head r) (tail r)); cbn [negb];
    destruct (Z.leb_spec (tail r) (head r)); try lia.
  - rewrite (ul_32 (tail r - 1)), ul_32 by lia. done.
  - unfold b2z. destruct (Z.eqb_spec (tail r) 0); rewrite (ul_32 (zlen S - _)), ul_32 by lia; done.
Qed.

Lemma can_read_ok r S c w :
  ring_rep r S c -> ring_can_read r (zlen S) w = Some (Z.min w (data_block r (zlen S))).
Proof.
  intros H. ring_start H. unfold ring_can_read. rewrite (wraps_ok _ _ _ H). cbn [mbind option_bind].
  unfold data_block. destruct (Z.ltb_spec (head r) (tail r)); rewrite ul_32 by lia; done.
Qed.

Lemma data_size_ok r S c : ring_rep r S c -> ring_data_size r (zlen S) = Some (zlen c).
Proof.
  intros H. ring_start H. unfold ring_data_size. rewrite (wraps_ok _ _ _ H). cbn [mbind option_bind].
  rewrite ul_add_l. unfold used in *.
  destruct (Z.ltb_spec (head r) (tail r)); rewrite ul_32 by lia; f_equal; lia.
Qed.

Lemma room_size_ok r S c : ring_rep r S c -> ring_room_size r (zlen S) = Some (zlen S - 1 - zlen c).
Proof.
  intros H. ring_start H. unfold ring_room_size. rewrite (wraps_ok _ _ _ H). cbn [mbind option_bind].
  rewrite ul_add_l. unfold used in *.
  destruct (Z.ltb_spec (head r) (tail r)); cbn [negb]; rewrite ul_32 by lia; f_equal; lia.
Qed.

(** Writing a block that fits at the head appends it. *)
Lemma write_block r S c b :
  ring_rep r S c -> zlen b <= room_block r (zlen S) ->
  exists S' r', zwrite S (head r) b = Some S' /\ zlen S' = zlen S /\
    ring_just_write r (zlen S) (zlen b) = Some (zlen b, r') /\
    ring_rep r' S' (c ++ b) /\ head r' = around (zlen S) (head r + zlen b) /\ tail r' = tail r.
Proof.
  intros H Hb. ring_start H. pose proof (zlen_nonneg b).
  assert (head r + zlen b <= zlen S) as Hfit
    by (unfold room_block, b2z in Hb; zbool_in Hb; lia).
  destruct (zwrite_Some S (head r) b) as (S' & HS & HlS & Hat); [lia..|].
  exists S'. unfold ring_just_write. rewrite (can_write_ok _ _ _ _ H). cbn [mbind option_bind].
  rewrite (Z.min_l (zlen b)) by lia. rewrite Z.leb_refl.
  unfold ring_fixup_head. cbn [head tail]. rewrite ul_32 by lia.
  assert (around (zlen S) (head r + zlen b) =
    (if head r + zlen b >=? zlen S then ul (head r + zlen b - zlen S) else head r + zlen b)) as Har.
  { unfold around. rewrite Z.geb_leb. zbool; try lia. by rewrite ul_32 by lia. }
  exists (Ring (around (zlen S) (head r + zlen b)) (tail r)).
  split; [done|]. split; [done|]. split.
  { rewrite Har. by destruct (_ >=? _). }
  split; [|done].
  assert (used (Ring (around (zlen S) (head r + zlen b)) (tail r)) (zlen S) = zlen c + zlen b) as Hu.
  { rewrite Hlen. unfold used, around, room_block, b2z in *. cbn [head tail].
    zbool_in Hb; zbool; lia. }
  split; cbn [head tail]; rewrite ?HlS.
  - lia.
  - unfold around. zbool; lia.
  - lia.
  - rewrite Hu. apply zlen_app.
  - intros i. rewrite zlen_app. intros Hi. rewrite znth_app, Hat by (unfold around; zbool; lia).
    destruct (Z.ltb_spec i (zlen c)).
    + rewrite (rr_at _ _ _ H) by lia. unfold used, around, room_block, b2z in *.
      destruct (Z.ltb_spec (head r) (tail r)), (Z.leb_spec (tail r) (head r)); try lia;
      destruct (Z.ltb_spec (tail r + i) (zlen S));
      zbool; cbn [andb]; done || lia.
    + replace (around (zlen S) (tail r + i)) with (head r + (i - zlen c)).
      * zbool; cbn [andb]; try lia. f_equal. lia.
      * unfold used, around, room_block, b2z in *.
        destruct (Z.ltb_spec (head r) (tail r)), (Z.leb_spec (tail r) (head r)); try lia; zbool; lia.
Qed.

(** Reading a block of data from the tail takes it off the front. *)
Lemma read_block r S c k :
  ring_rep r S c -> 0 <= k <= data_block r (zlen S) ->
  exists b r', zread S (tail r) k = Some b /\ b = take (Z.to_nat k) c /\
    ring_just_read r (zlen S) k = Some (k, r') /\
    ring_rep r' S (drop (Z.to_nat k) c) /\ tail r' = around (zlen S) (tail r + k) /\ head r' = head r.
Proof.
  intros H Hk. ring_start H.
  assert (tail r + k <= zlen S /\ k <= zlen c) as [Hfit Hkc]
    by (rewrite Hlen; unfold data_block, used in *; zbool_in Hk; zbool; lia).
  destruct (zread_Some S (tail r) k) as (b & Hb & Hlb & Hat); [lia..|].
  assert (b = take (Z.to_nat k) c) as Hbc.
  { unfold zlen in *. apply znth_ext; unfold zlen in *; rewrite ?length_take; [lia|].
    intros i Hi. rewrite Hat by lia. rewrite (znth_lookup (take _ _)), lookup_take_lt by lia.
    rewrite <- znth_lookup by lia. rewrite (rr_at _ _ _ H) by (unfold zlen; lia).
    f_equal. unfold around, zlen. zbool; lia. }
  exists b, (Ring (head r) (around (zlen S) (tail r + k))).
  split; [done|]. split; [done|]. unfold ring_just_read. rewrite (can_read_ok _ _ _ _ H).
  cbn [mbind option_bind]. rewrite Z.min_l, Z.leb_refl by lia. split.
  { unfold ring_fixup_tail. cbn [head tail]. rewrite ul_32 by lia. unfold around.
    rewrite Z.geb_leb. zbool; try lia; [done|]. by rewrite ul_32 by lia. }
  split; [|done].
  assert (zlen (drop (Z.to_nat k) c) = zlen c - k) as Hld by (unfold zlen in *; rewrite length_drop; lia).
  split; cbn [head tail].
  - lia.
  - lia.
  - unfold around. zbool; lia.
  - rewrite Hld, Hlen. unfold used, data_block, around in *. cbn [head tail]. zbool_in Hk; zbool; lia.
  - intros i. rewrite Hld. intros Hi. rewrite znth_lookup, lookup_drop by lia.
    replace (Z.to_nat k + Z.to_nat i)%nat with (Z.to_nat (k + i)) by lia.
    rewrite <- znth_lookup by lia. rewrite (rr_at _ _ _ H) by lia. f_equal.
    unfold used, data_block, around in *. zbool_in Hk; zbool; lia.
Qed.

(** * [ring_buff] is a bounded queue *)

Definition rb_rep (buf : ring_buff T) (c : list T) : Prop :=
  ring_rep (rb_ring buf) (storage buf) c /\ capacity buf = zlen (storage buf).

Lemma rb_space (buf : ring_buff T) c : rb_rep buf c -> 0 <= zlen c <= capacity buf - 1.
Proof.
  intros [H Hc]. ring_start H. rewrite Hc. pose proof (zlen_nonneg c). unfold used in Hlen.
  zbool_in Hlen; lia.
Qed.

Lemma rb_full (buf : ring_buff T) c :
  rb_rep buf c -> ring_full (rb_ring buf) (capacity buf) = Some (zlen c =? capacity buf - 1).
Proof. intros [H ->]. by apply full_ok. Qed.

Lemma enqueue_at_ok (buf : ring_buff T) c from cnt :
  rb_rep buf c -> 0 <= cnt <= zlen from -> cnt < 2 ^ 31 ->
  let k := Z.min cnt (room_block (rb_ring buf) (capacity buf)) in
  exists buf', ring_buff_enqueue_at buf (head (rb_ring buf)) from cnt = Some (k, buf') /\
    rb_rep buf' (c ++ take (Z.to_nat k) from) /\ capacity buf' = capacity buf /\
    head (rb_ring buf') = around (capacity buf) (head (rb_ring buf) + k) /\
    tail (rb_ring buf') = tail (rb_ring buf).
Proof.
  intros [H Hc] Hcnt H31. unfold ring_buff_enqueue_at. cbn zeta. rewrite Hc.
  set (k := Z.min cnt _). ring_start H.
  rewrite (can_write_ok _ _ _ _ H), (ul_32 cnt) by lia. cbn [mbind option_bind]. fold k.
  assert (0 <= k < 2 ^ 31) as Hk
    by (unfold k, room_block, b2z; zbool; lia).
  rewrite s32_small by lia.
  destruct (zread_Some from 0 k) as (b & Hb & Hlb & _); [lia..|].
  assert (b = take (Z.to_nat k) from) as ->.
  { unfold zread in Hb. destruct (_ && _); [|done]. injection Hb as <-. done. }
  rewrite Hb. cbn [mbind option_bind].
  destruct (write_block _ _ _ (take (Z.to_nat k) from) H) as (S' & r' & HS & HlS & Hjw & Hrep & Hh & Ht);
    [lia|]. rewrite Hlb in *.
  rewrite HS. cbn [mbind option_bind]. rewrite ul_32, Hjw by lia. cbn [mbind option_bind].
  eexists. split; [done|]. cbn. split_and!; done.
Qed.

Lemma enqueue_ok (buf : ring_buff T) c from cnt :
  rb_rep buf c -> 0 <= cnt <= zlen from -> cnt < 2 ^ 31 ->
  let k := Z.min cnt (capacity buf - 1 - zlen c) in
  exists buf', ring_buff_enqueue buf from cnt = Some (k, buf') /\
    rb_rep buf' (c ++ take (Z.to_nat k) from) /\ capacity buf' = capacity buf.
Proof.
  intros Hrep Hcnt H31 k. pose proof (rb_space _ _ Hrep) as Hsp.
  pose proof Hrep as [H Hc]. ring_start H. unfold ring_buff_enqueue.
  rewrite (rb_full _ _ Hrep). cbn [mbind option_bind].
  destruct (Z.eqb_spec (zlen c) (capacity buf - 1)) as [Hf|Hf].
  { assert (k = 0) as -> by lia. exists buf. split; [done|]. by rewrite app_nil_r. }
  destruct (enqueue_at_ok buf c from cnt Hrep Hcnt H31) as (b1 & -> & Hrep1 & Hc1 & Hh1' & Ht1').
  set (k1 := Z.min cnt (room_block _ _)) in *. cbn [mbind option_bind].
  assert (0 <= k1 <= cnt) as Hk1
    by (unfold k1; rewrite Hc; unfold room_block, b2z; zbool; lia).
  assert (zlen (take (Z.to_nat k1) from) = k1) as Hlt
    by (unfold zlen in *; rewrite length_take; lia).
  pose proof Hrep1 as [Hr1 Hcs1]. pose proof (rr_len _ _ _ Hr1) as Hlen1.
  rewrite zlen_app, Hlt, <- Hcs1, Hc1 in Hlen1.
  pose proof (rb_space _ _ Hrep1) as Hsp1. rewrite zlen_app, Hlt, Hc1 in Hsp1.
  rewrite (rb_full _ _ Hrep1). cbn [mbind option_bind]. rewrite zlen_app, Hlt, Hc1.
  destruct (Z.eqb_spec (zlen c + k1) (capacity buf - 1)) as [Hf1|Hf1].
  { exists b1. replace k with k1 by lia. done. }
  rewrite s32_small by lia. destruct (Z.eqb_spec (cnt - k1) 0) as [Hz|Hz].
  { exists b1. replace k with k1 by lia. done. }
  assert (head (rb_ring b1) = 0) as Hh0'.
  { rewrite Hh1', Hc. unfold k1, around, room_block, b2z, used in *. rewrite Hc in *.
    clear Hh1'. zbool_in Hlen; zbool; lia. }
  destruct (enqueue_at_ok b1 _ (drop (Z.to_nat k1) from) (cnt - k1) Hrep1) as
    (b2 & He2 & Hrep2 & Hc2 & _); [unfold zlen in *; rewrite length_drop; lia|lia|].
  rewrite Hh0' in He2. rewrite He2. cbn [mbind option_bind].
  set (k2 := Z.min (cnt - k1) _) in *.
  assert (k2 = Z.min (cnt - k1) (capacity buf - 1 - zlen c - k1)) as Hk2.
  { unfold k2. f_equal. rewrite Hc1. unfold room_block, b2z, used in *. rewrite Hh0' in *.
    zbool_in Hlen1; zbool; lia. }
  exists b2. rewrite s32_small by lia. replace k with (k1 + k2) by lia. split; [done|].
  split; [|congruence]. rewrite <- app_assoc in Hrep2.
  replace (take (Z.to_nat (k1 + k2)) from)
    with (take (Z.to_nat k1) from ++ take (Z.to_nat k2) (drop (Z.to_nat k1) from)); [done|].
  rewrite Z2Nat.inj_add, take_take_drop by lia. done.
Qed.

Lemma dequeue_at_ok (buf : ring_buff T) c cnt :
  rb_rep buf c -> 0 <= cnt < 2 ^ 31 ->
  let k := Z.min cnt (data_block (rb_ring buf) (capacity buf)) in
  exists buf', ring_buff_dequeue_at buf (tail (rb_ring buf)) cnt =
      Some (take (Z.to_nat k) c, k, buf') /\
    rb_rep buf' (drop (Z.to_nat k) c) /\ capacity buf' = capacity buf /\
    tail (rb_ring buf') = around (capacity buf) (tail (rb_ring buf) + k) /\
    head (rb_ring buf') = head (rb_ring buf).
Proof.
  intros [H Hc] Hcnt. unfold ring_buff_dequeue_at. cbn zeta. rewrite Hc.
  set (k := Z.min cnt _). ring_start H.
  rewrite (can_read_ok _ _ _ _ H), (ul_32 cnt) by lia. cbn [mbind option_bind]. fold k.
  assert (0 <= k <= data_block (rb_ring buf) (zlen (storage buf)) /\ k < 2 ^ 31) as [Hk Hk31]
    by (unfold k, data_block; zbool; lia).
  rewrite s32_small by lia.
  destruct (read_block _ _ _ k H Hk) as (b & r' & Hb & -> & Hjr & Hrep & Ht & Hh).
  rewrite Hb. cbn [mbind option_bind]. rewrite ul_32, Hjr by lia. cbn [mbind option_bind].
  eexists. split; [done|]. cbn. split_and!; try done.
Qed.

Lemma dequeue_ok (buf : ring_buff T) c cnt :
  rb_rep buf c -> 0 <= cnt < 2 ^ 31 ->
  let k := Z.to_nat (Z.min cnt (zlen c)) in
  exists buf', ring_buff_dequeue buf cnt = Some (take k c, buf') /\
    rb_rep buf' (drop k c) /\ capacity buf' = capacity buf.
Proof.
  intros Hrep Hcnt k. pose proof (rb_space _ _ Hrep) as Hsp.
  pose proof Hrep as [H Hc]. ring_start H. unfold ring_buff_dequeue.
  rewrite (empty_ok _ _ _ H). destruct (Z.eqb_spec (zlen c) 0) as [Hz|Hz].
  { exists buf. assert (c = []) as -> by (destruct c; [done|unfold zlen in Hz; cbn in Hz; lia]).
    by rewrite take_nil, drop_nil. }
  destruct (dequeue_at_ok buf c cnt Hrep Hcnt) as (b1 & -> & Hrep1 & Hc1 & Ht1' & Hh1').
  set (k1 := Z.min cnt (data_block _ _)) in *. cbn [mbind option_bind].
  assert (0 <= k1 <= cnt /\ k1 <= zlen c) as [Hk1 Hk1c]
    by (unfold k1; rewrite Hlen, Hc; unfold data_block, used; zbool; lia).
  assert (zlen (drop (Z.to_nat k1) c) = zlen c - k1) as Hld
    by (unfold zlen in *; rewrite length_drop; lia).
  pose proof Hrep1 as [Hr1 Hcs1]. rewrite (empty_ok _ _ _ Hr1), Hld.
  pose proof (rr_len _ _ _ Hr1) as Hlen1. rewrite Hld, <- Hcs1, Hc1 in Hlen1.
  destruct (Z.eqb_spec (zlen c - k1) 0) as [Hz1|Hz1].
  { exists b1. replace k with (Z.to_nat k1) by lia. done. }
  rewrite s32_small by lia. destruct (Z.eqb_spec (cnt - k1) 0) as [Hz2|Hz2].
  { exists b1. replace k with (Z.to_nat k1) by lia. done. }
  assert (tail (rb_ring b1) = 0) as Ht0'.
  { rewrite Ht1', Hc. unfold k1, around, data_block, used in *. rewrite Hc in *.
    clear Ht1'. zbool_in Hlen; zbool; lia. }
  destruct (dequeue_at_ok b1 _ (cnt - k1) Hrep1) as (b2 & He2 & Hrep2 & Hc2 & _); [lia|].
  rewrite Ht0' in He2. rewrite He2. cbn [mbind option_bind].
  set (k2 := Z.min (cnt - k1) _) in *.
  assert (k2 = Z.min (cnt - k1) (zlen c - k1)) as Hk2.
  { unfold k2. f_equal. rewrite Hc1. unfold data_block, used in *. rewrite Ht0', Hh1' in *.
    zbool_in Hlen1; zbool; lia. }
  exists b2. rewrite drop_drop in Hrep2. replace k with (Z.to_nat k1 + Z.to_nat k2)%nat by lia.
  split; [|split; [done|congruence]]. by rewrite take_take_drop.
Qed.

#[export] Instance ring_buff_fifo_spec : FifoSpec T (ring_buff T).
Proof.
  refine {| fq_rep := rb_rep; fq_cap := fun buf => capacity buf - 1 |}.
  - intros buf c Hrep. pose proof (rb_space _ _ Hrep) as Hsp. destruct Hrep as [H Hc].
    ring_start H. lia.
  - intros buf c Hrep. pose proof (rb_space _ _ Hrep) as Hsp. destruct Hrep as [H Hc]. ring_start H.
    cbn. unfold ring_buff_get_cnt. rewrite Hc, (data_size_ok _ _ _ H). cbn [mbind option_bind].
    by rewrite s32_small by lia.
  - intros buf c Hrep. pose proof (rb_space _ _ Hrep) as Hsp. destruct Hrep as [H Hc]. ring_start H.
    cbn. unfold ring_buff_get_space. rewrite Hc, (room_size_ok _ _ _ H). cbn [mbind option_bind].
    by rewrite s32_small by lia.
  - intros buf c from cnt Hrep Hcnt H31 k. cbn.
    destruct (enqueue_ok buf c from cnt Hrep Hcnt H31) as (b' & He & Hr' & Hc'). fold k in He, Hr'.
    exists b'. split_and!; try done. lia.
  - intros buf c cnt Hrep Hcnt k. cbn.
    destruct (dequeue_ok buf c cnt Hrep Hcnt) as (b' & He & Hr' & Hc'). fold k in He, Hr'.
    exists b'. split_and!; try done. lia.
Defined.

Lemma rb_init_ok count (store : list T) :
  zlen store = count -> 0 < count < 2 ^ 31 -> rb_rep (ring_buff_init count store) [].
Proof.
  intros Hl Hc. unfold ring_buff_init. rewrite ul_32 by lia. split; [|done]. cbn.
  split; cbn; try lia; [by unfold used|]. unfold zlen. cbn. lia.
Qed.

(** * The loops of [ring.c] *)

(** The room is one block, or runs to the end of the buffer and goes on at its
    start; the same for the data. *)
Lemma room_two r S c :
  ring_rep r S c -> let rb := room_block r (zlen S) in
  0 <= rb /\ (zlen S - 1 - zlen c = rb \/
  (head r + rb = zlen S /\ 0 < rb /\ 0 < tail r <= head r /\ zlen S - 1 - zlen c = rb + tail r - 1)).
Proof.
  intros H rb. ring_start H. unfold rb, room_block, b2z, used in *. zbool_in Hlen; zbool; lia.
Qed.

Lemma data_two r S c :
  ring_rep r S c -> let db := data_block r (zlen S) in
  0 <= db /\ (zlen c = db \/
  (tail r + db = zlen S /\ 0 < db /\ head r < tail r /\ zlen c = db + head r)).
Proof.
  intros H db. ring_start H. unfold db, data_block, used in *. zbool_in Hlen; zbool; lia.
Qed.

Lemma write_all_step fuel n r S c from w cnt :
  zlen S = n -> ring_rep r S c -> 0 <= cnt -> 0 <= w -> cnt + w <= zlen from -> zlen from < 2 ^ 32 ->
  let k := Z.min w (room_block r n) in
  exists r' S', ring_rep r' S' (c ++ take (Z.to_nat k) (drop (Z.to_nat cnt) from)) /\
    zlen S' = n /\ head r' = around n (head r + k) /\ tail r' = tail r /\
    ring_write_all_loop (Datatypes.S fuel) r S n from w cnt =
    if k =? 0 then Some (cnt, r, S)
    else ring_write_all_loop fuel r' S' n from (w - k) (cnt + k).
Proof.
  intros <- H Hc Hw Hcw Hf k. destruct (room_two _ _ _ H) as [Hrb _]. cbn [ring_write_all_loop].
  rewrite (can_write_ok _ _ _ _ H). cbn [mbind option_bind]. fold k.
  destruct (zread_Some from cnt k) as (b & Hb & Hlb & _); [lia..|].
  assert (b = take (Z.to_nat k) (drop (Z.to_nat cnt) from)) as <-.
  { unfold zread in Hb. destruct (_ && _); [|done]. by injection Hb as <-. }
  destruct (write_block _ _ _ b H) as (S' & r' & HS & HlS & Hjw & Hrep & Hh & Ht); [lia|].
  rewrite Hlb in *. exists r', S'. split_and!; try done. destruct (k =? 0); [done|].
  rewrite Hb. cbn [mbind option_bind]. rewrite HS. cbn [mbind option_bind]. rewrite Hjw.
  cbn [mbind option_bind]. by rewrite !ul_32 by lia.
Qed.

Lemma read_all_step fuel n r S c into w cnt :
  zlen S = n -> ring_rep r S c -> 0 <= cnt -> 0 <= w -> cnt + w <= zlen into -> zlen into < 2 ^ 32 ->
  let k := Z.min w (data_block r n) in
  exists r' into', ring_rep r' S (drop (Z.to_nat k) c) /\
    tail r' = around n (tail r + k) /\ head r' = head r /\
    zwrite into cnt (take (Z.to_nat k) c) = Some into' /\ zlen into' = zlen into /\
    ring_read_all_loop (Datatypes.S fuel) r S n into w cnt =
    if k =? 0 then Some (cnt, r, into)
    else ring_read_all_loop fuel r' S n into' (w - k) (cnt + k).
Proof.
  intros <- H Hc Hw Hcw Hf k. ring_start H. destruct (data_two _ _ _ H) as [Hdb Hd2]. cbn [ring_read_all_loop].
  rewrite (can_read_ok _ _ _ _ H). cbn [mbind option_bind]. fold k.
  destruct (read_block _ _ _ k H) as (b & r' & Hb & -> & Hjr & Hrep & Ht & Hh); [lia|].
  assert (k <= zlen c) as Hkc by lia.
  assert (zlen (take (Z.to_nat k) c) = k) as Hlk by (unfold zlen in *; rewrite length_take; lia).
  destruct (zwrite_Some into cnt (take (Z.to_nat k) c)) as (into' & Hi & Hli & _); [lia..|].
  exists r', into'. split_and!; try done. destruct (k =? 0); [done|].
  rewrite Hb. cbn [mbind option_bind]. rewrite Hi. cbn [mbind option_bind]. rewrite Hjr.
  cbn [mbind option_bind]. by rewrite !ul_32 by lia.
Qed.

Lemma take_chunks {X} (l : list X) a b : take a l ++ take b (drop a l) = take (a + b) l.
Proof. apply take_take_drop. Qed.

Lemma write_all_ok r S c from w :
  ring_rep r S c -> 0 <= w <= zlen from -> zlen from < 2 ^ 32 ->
  let k := Z.min w (zlen S - 1 - zlen c) in
  exists r' S', ring_write_all_from r S (zlen S) from w = Some (k, r', S') /\
    zlen S' = zlen S /\ ring_rep r' S' (c ++ take (Z.to_nat k) from).
Proof.
  intros H Hw Hf k. unfold ring_write_all_from. destruct (room_two _ _ _ H) as [Hrb Hr2].
  ring_start H.
  destruct (write_all_step 2 (zlen S) r S c from w 0 eq_refl H) as (r1 & S1 & H1 & Hl1 & Hh1' & Ht1' & ->); [lia..|].
  set (k1 := Z.min w (room_block r (zlen S))) in *. rewrite drop_0 in H1.
  destruct (Z.eqb_spec k1 0) as [Hz|Hz].
  { exists r, S. replace k with 0 by lia. by rewrite app_nil_r. }
  assert (zlen (take (Z.to_nat k1) from) = k1) as Hlk by (unfold zlen in *; rewrite length_take; lia).
  destruct (room_two _ _ _ H1) as [Hrb1 Hr21]. rewrite zlen_app, Hlk, Hl1 in Hr21.
  destruct (write_all_step 1 (zlen S) r1 S1 _ from (w - k1) (0 + k1) Hl1 H1) as (r2 & S2 & H2 & Hl2 & Hh2 & _ & ->);
    [lia..|].
  set (k2 := Z.min (w - k1) _) in *. rewrite Z.add_0_l in *. rewrite <- app_assoc, take_chunks in H2.
  assert (k1 = w /\ k2 = 0 /\ k = w \/
          k1 < w /\ k1 = room_block r (zlen S) /\ k = k1 + k2 /\
          room_block r1 (zlen S) = zlen S - 1 - (zlen c + k1)) as Hcase.
  { rewrite Hl1 in Hrb1. destruct (Z.leb_spec w (room_block r (zlen S))); [left; lia|right].
    split; [lia|]. split; [lia|].
    assert (room_block r1 (zlen S) = zlen S - 1 - (zlen c + k1)); [|lia].
    destruct Hr21 as [?|(He1 & ? & Ht & ?)]; [lia|]. exfalso.
    unfold around in Hh1'. destruct (Z.ltb_spec (head r + k1) (zlen S)); lia. }
  destruct (Z.eqb_spec k2 0) as [Hz2|Hz2].
  { exists r1, S1. replace k with k1 by lia. done. }
  assert (zlen (take (Z.to_nat k1 + Z.to_nat k2) from) = k1 + k2) as Hlk2
    by (unfold zlen in *; rewrite length_take; lia).
  destruct (room_two _ _ _ H2) as [Hrb2 Hr22]. rewrite zlen_app, Hlk2, Hl2 in Hr22.
  destruct (write_all_step 0 (zlen S) r2 S2 _ from (w - k1 - k2) (k1 + k2) Hl2 H2) as (r3 & S3 & H3 & Hl3 & _ & _ & ->);
    [lia..|].
  assert (Z.min (w - k1 - k2) (room_block r2 (zlen S)) = 0) as ->.
  { lia. }
  exists r2, S2. replace k with (k1 + k2) by lia. rewrite Z2Nat.inj_add by lia. by split_and!.
Qed.

Lemma zwrite_app_chunk {X} (l l1 l2 : list X) a b :
  zwrite l 0 a = Some l1 -> zwrite l1 (zlen a) b = Some l2 -> zwrite l 0 (a ++ b) = Some l2.
Proof.
  unfold zwrite. change (Z.to_nat 0) with 0%nat. cbn [take app andb Z.leb Z.compare].
  destruct (Z.leb_spec (0 + zlen a) (zlen l)) as [Ha|]; [|done]. intros [= <-].
  destruct (Z.leb_spec 0 (zlen a)) as [Ha0|]; [|done]. cbn [andb].
  destruct (Z.leb_spec (zlen a + zlen b) (zlen (a ++ drop (length a) l))) as [Hb|]; [|done].
  intros [= <-]. rewrite zlen_app in *. unfold zlen in *. rewrite length_drop in Hb.
  destruct (Z.leb_spec (0 + (Z.of_nat (length a) + Z.of_nat (length b))) (Z.of_nat (length l))); [|lia].
  cbn [andb]. f_equal. rewrite Nat2Z.id, length_app, <- app_assoc.
  rewrite (take_app_le a), (take_ge a) by lia. cbn [take app].
  rewrite (drop_app_ge a), drop_drop, take_0 by lia. cbn [app]. do 3 f_equal. lia.
Qed.

Lemma read_all_ok r S c into w :
  ring_rep r S c -> 0 <= w <= zlen into -> zlen into < 2 ^ 32 ->
  let k := Z.min w (zlen c) in
  exists r' into', ring_read_all_into r S (zlen S) into w = Some (k, r', into') /\
    zwrite into 0 (take (Z.to_nat k) c) = Some into' /\ ring_rep r' S (drop (Z.to_nat k) c).
Proof.
  intros H Hw Hf k. unfold ring_read_all_into. destruct (data_two _ _ _ H) as [Hdb Hd2].
  ring_start H.
  destruct (read_all_step 2 (zlen S) r S c into w 0 eq_refl H) as
    (r1 & in1 & H1 & Ht1' & Hh1' & Hw1 & Hli1 & ->); [lia..|].
  set (k1 := Z.min w (data_block r (zlen S))) in *.
  destruct (Z.eqb_spec k1 0) as [Hz|Hz].
  { exists r, into. replace k with 0 by lia. rewrite Hz in Hw1.
    split_and!; try done. unfold zwrite in *. by destruct (_ && _). }
  assert (zlen (drop (Z.to_nat k1) c) = zlen c - k1 /\ zlen (take (Z.to_nat k1) c) = k1) as [Hld Hlt]
    by (unfold zlen in *; rewrite length_drop, length_take; lia).
  destruct (data_two _ _ _ H1) as [Hdb1 Hd21]. rewrite Hld in Hd21.
  destruct (read_all_step 1 (zlen S) r1 S _ in1 (w - k1) (0 + k1) eq_refl H1) as
    (r2 & in2 & H2 & Ht2 & Hh2 & Hw2 & Hli2 & ->); [lia..|].
  set (k2 := Z.min (w - k1) _) in *. rewrite Z.add_0_l in *. rewrite drop_drop in H2.
  assert (k1 = w /\ k2 = 0 /\ k = w \/
          k1 < w /\ k1 = data_block r (zlen S) /\ k = k1 + k2 /\
          data_block r1 (zlen S) = zlen c - k1) as Hcase.
  { destruct (Z.leb_spec w (data_block r (zlen S))); [left; lia|right].
    split; [lia|]. split; [lia|].
    assert (data_block r1 (zlen S) = zlen c - k1); [|lia].
    destruct Hd21 as [?|(He1 & ? & Ht & ?)]; [lia|]. exfalso.
    unfold around in Ht1'. destruct (Z.ltb_spec (tail r + k1) (zlen S)); lia. }
  destruct (Z.eqb_spec k2 0) as [Hz2|Hz2].
  { exists r1, in1. replace k with k1 by lia. done. }
  rewrite <- Hlt in Hw2 at 1. pose proof (zwrite_app_chunk _ _ _ _ _ Hw1 Hw2) as Hw12.
  rewrite take_chunks in Hw12.
  assert (zlen (drop (Z.to_nat k1 + Z.to_nat k2) c) = zlen c - k1 - k2) as Hld2
    by (unfold zlen in *; rewrite length_drop; lia).
  destruct (data_two _ _ _ H2) as [Hdb2 Hd22]. rewrite Hld2 in Hd22.
  destruct (read_all_step 0 (zlen S) r2 S _ in2 (w - k1 - k2) (k1 + k2) eq_refl H2) as
    (r3 & in3 & H3 & _ & _ & _ & _ & ->); [lia..|].
  assert (Z.min (w - k1 - k2) (data_block r2 (zlen S)) = 0) as -> by lia.
  exists r2, in2. replace k with (k1 + k2) by lia. rewrite Z2Nat.inj_add by lia. by split_and!.
Qed.

End Facts.

(** * Sequences of operations *)

Inductive fifo_op (T : Type) := Enq (from : list T) | Deq (cnt : Z).
Arguments Enq {T} _.
Arguments Deq {T} _.

Section Trace.
Context {T Q : Type} `{FS : FifoSpec T Q}.

Definition fifo_step (q : Q) (o : fifo_op T) : option (Z * list T * Q) :=
  match o with
  | Enq from => '(k, q) ← fq_enqueue q from (zlen from); Some (k, [], q)
  | Deq cnt => '(data, q) ← fq_dequeue q cnt; Some (zlen data, data, q)
  end.

Fixpoint fifo_run (q : Q) (os : list (fifo_op T)) : option (list (Z * list T) * Q) :=
  match os with
  | [] => Some ([], q)
  | o :: os => '(k, data, q) ← fifo_step q o; '(rs, q) ← fifo_run q os; Some ((k, data) :: rs, q)
  end.

(** The reference: a list of at most [cap] elements. *)
Definition spec_fifo_step (cap : Z) (c : list T) (o : fifo_op T) : Z * list T * list T :=
  match o with
  | Enq from => let k := Z.min (zlen from) (cap - zlen c) in (k, [], c ++ take (Z.to_nat k) from)
  | Deq cnt => let k := Z.to_nat (Z.min cnt (zlen c)) in (zlen (take k c), take k c, drop k c)
  end.

Fixpoint spec_fifo_run (cap : Z) (c : list T) (os : list (fifo_op T)) : list (Z * list T) * list T :=
  match os with
  | [] => ([], c)
  | o :: os =>
    let '(k, data, c) := spec_fifo_step cap c o in
    let '(rs, c) := spec_fifo_run cap c os in ((k, data) :: rs, c)
  end.

Definition op_ok (o : fifo_op T) : Prop :=
  match o with Enq from => zlen from < 2 ^ 31 | Deq cnt => 0 <= cnt < 2 ^ 31 end.

Lemma fifo_run_ok os : forall q c, fq_rep q c -> Forall op_ok os ->
  let '(rs, c') := spec_fifo_run (fq_cap q) c os in
  exists q', fifo_run q os = Some (rs, q') /\ fq_rep q' c'.
Proof.
  induction os as [|o os IH]; intros q c Hrep Hos; cbn [spec_fifo_run fifo_run]; [by exists q|].
  apply Forall_cons in Hos as [Ho Hos]. destruct o as [from|cnt]; cbn [fifo_step spec_fifo_step op_ok] in *.
  - destruct (fq_enqueue_ok q c from (zlen from) Hrep) as (q1 & -> & Hrep1 & Hcap);
      [pose proof (zlen_nonneg from); lia|done|]. cbn [mbind option_bind].
    specialize (IH q1 _ Hrep1 Hos). rewrite Hcap in IH.
    destruct (spec_fifo_run _ _ os) as [rs c']. destruct IH as (q2 & -> & H2). by exists q2.
  - destruct (fq_dequeue_ok q c cnt Hrep Ho) as (q1 & -> & Hrep1 & Hcap). cbn [mbind option_bind].
    specialize (IH q1 _ Hrep1 Hos). rewrite Hcap in IH.
    destruct (spec_fifo_run _ _ os) as [rs c']. destruct IH as (q2 & -> & H2). by exists q2.
Qed.

End Trace.

(** C10: [ring_buff] is a bounded queue.  From [ring_buff_init] with room for
    [count] elements, any sequence of enqueues and dequeues runs without
    failure and gives the counts and the data of a list of at most
    [count - 1] elements, first in first out, nothing lost or repeated. *)
Theorem ring_buff_refines_fifo `{A : arch} `{!ArchOk A} {T : Type} count (store : list T) os :
  zlen store = count -> 0 < count < 2 ^ 31 -> Forall op_ok os ->
  exists buf, fifo_run (ring_buff_init count store) os =
      Some ((spec_fifo_run (count - 1) [] os).1, buf) /\
    rb_rep buf (spec_fifo_run (count - 1) [] os).2.
Proof.
  intros Hl Hc Hos. pose proof (rb_init_ok count store Hl Hc) as Hrep.
  pose proof (fifo_run_ok (Q := ring_buff T) os _ _ Hrep Hos) as Hrun. cbn [fq_cap ring_buff_fifo_spec] in Hrun.
  unfold ring_buff_init in Hrun at 1. cbn [capacity] in Hrun. rewrite ul_32 in Hrun by lia.
  destruct (spec_fifo_run (count - 1) [] os) as [rs c']. exact Hrun.
Qed.

Lemma ring_buff_refines_fifo_witness :
  exists buf, fifo_run (H := ring_buff_fifo (A := lp64)) (ring_buff_init (A := lp64) 4 [0; 0; 0; 0])
      [Enq [1; 2]; Deq 1; Enq [3; 4; 5]; Deq 9] =
    Some ([(2, []); (1, [1]); (2, []); (3, [2; 3; 4])], buf) /\ rb_rep buf [].
Proof.
  apply (ring_buff_refines_fifo (A := lp64) 4 [0; 0; 0; 0] [Enq [1; 2]; Deq 1; Enq [3; 4; 5]; Deq 9]).
  - reflexivity.
  - lia.
  - repeat constructor; cbn; lia.
Defined.

(** [ring_write_all_from] appends as many elements as there is room for and
    [ring_read_all_into] takes as many as there are off the front, around the
    end of the buffer, in at most two blocks. *)
Theorem ring_all_loops `{A : arch} `{!ArchOk A} {T : Type} r (buf c from into : list T) w n :
  ring_rep r buf c -> 0 <= w <= zlen from -> zlen from < 2 ^ 32 ->
  0 <= n <= zlen into -> zlen into < 2 ^ 32 ->
  (exists r' buf', let k := Z.min w (zlen buf - 1 - zlen c) in
     ring_write_all_from r buf (zlen buf) from w = Some (k, r', buf') /\
     ring_rep r' buf' (c ++ take (Z.to_nat k) from)) /\
  (exists r' into', let k := Z.min n (zlen c) in
     ring_read_all_into r buf (zlen buf) into n = Some (k, r', into') /\
     zwrite into 0 (take (Z.to_nat k) c) = Some into' /\
     ring_rep r' buf (drop (Z.to_nat k) c)).
Proof.
  intros H Hw Hf Hn Hi. split.
  - destruct (write_all_ok r buf c from w H Hw Hf) as (r' & buf' & He & _ & Hr). by exists r', buf'.
  - destruct (read_all_ok r buf c into n H Hn Hi) as (r' & into' & He & Hz & Hr). by exists r', into'.
Qed.

Lemma ring_all_loops_witness :
  exists r' buf', ring_write_all_from (A := ilp32) (Ring 3 2) [10; 11; 12; 13] 4 [20; 21; 22] 3 =
    Some (2, r', buf') /\ ring_rep r' buf' [12; 20; 21].
Proof.
  apply (ring_all_loops (A := ilp32) (Ring 3 2) [10; 11; 12; 13] [12] [20; 21; 22] [0] 3 1).
  - split; unfold used, zlen; cbn; try lia. intros i Hi. assert (i = 0) as -> by lia. done.
  - unfold zlen; cbn; lia.
  - unfold zlen; cbn; lia.
  - unfold zlen; cbn; lia.
  - unfold zlen; cbn; lia.
Defined.
