(* ===== verification/MsgBuff.v ===== *)
(** Message buffers, [src/lib/libds/msg_buff]: whole messages kept in a byte
    queue, each behind its size.

    The operations and the proofs are over any byte queue ([FifoOps],
    [FifoSpec] of [Ring.v]); [struct msg_buff] instantiates it with a
    [ring_buff] of one-byte elements.  A [size_t] is stored by its bytes, least
    significant first (the code only needs that writing and reading agree). *)
From S2P Require Import Prelude Ring.

Local Open Scope Z_scope.
Local Open Scope embox_scope.

Section Ops.
Context `{A : arch} {Q : Type} `{FO : !FifoOps Z Q}.

(** [sizeof(size_t)]. *)
Definition sizeof_size_t : nat := Z.to_nat (LONG_BIT / 8).
Abbreviation W := (Z.of_nat sizeof_size_t).

Definition msg_buff_empty (buf : Q) : option bool :=
  n ← fq_get_cnt buf; Some (0 =? n).

Definition msg_buff_space (buf : Q) : option Z :=
  n ← fq_get_space buf;
  let space := ul n in
  Some (if space <? W then 0 else ul (space - W)).

Definition msg_buff_enqueue (buf : Q) (src : list Z) (nbyte : Z) : option (Z * Q) :=
  space ← fq_get_space buf;
  if (nbyte =? 0) || (ul space <? ul (nbyte + W)) then Some (0, buf)
  else
    '(_, buf) ← fq_enqueue buf (le_bytes sizeof_size_t nbyte) W;
    '(n, buf) ← fq_enqueue buf src (s32 nbyte);
    Some (ul n, buf).

(** One turn of [while (msg_size)]: [char tmp[16]] is read into. *)
Definition drain_step (st : Z * Q) : option (Z * Q) :=
  let '(msg_size, buf) := st in
  '(tmp, buf) ← fq_dequeue buf 16;
  Some (ul (msg_size - zlen tmp), buf).

Fixpoint drain (fuel : nat) (st : Z * Q) : option Q :=
  match fuel with
  | O => None
  | S fuel => if st.1 =? 0 then Some st.2 else st ← drain_step st; drain fuel st
  end.

(** [msg_buff_dequeue] up to the drain loop: either done ([inl]: [nread], the
    bytes stored to [dst], the buffer), or with the state the loop starts in
    ([inr], with the bytes stored). *)
Definition msg_buff_dequeue_start (buf : Q) (nbyte : Z)
  : option (Z * list Z * Q + list Z * (Z * Q)) :=
  empty ← msg_buff_empty buf;
  if empty : bool then Some (inl (0, [], buf))
  else
    '(hdr, buf) ← fq_dequeue buf W;
    assert! zlen hdr =? W ;;
    let msg_size := le_val hdr in
    if nbyte <? msg_size then
      '(data, buf) ← fq_dequeue buf (s32 nbyte);
      Some (inr (data, (ul (msg_size - zlen data), buf)))
    else
      '(data, buf) ← fq_dequeue buf (s32 msg_size);
      Some (inl (ul (zlen data), data, buf)).

Definition msg_buff_dequeue (fuel : nat) (buf : Q) (nbyte : Z) : option (Z * list Z * Q) :=
  r ← msg_buff_dequeue_start buf nbyte;
  match r with
  | inl res => Some res
  | inr (data, st) => buf ← drain fuel st; Some (0, data, buf)
  end.

(** The state after [k] turns of the drain loop. *)
Fixpoint drain_state (k : nat) (st : Z * Q) : option (Z * Q) :=
  match k with O => Some st | S k => st ← drain_step st; drain_state k st end.

End Ops.

Definition msg_buff_init `{A : arch} (store : list Z) (size : Z) : ring_buff Z :=
  ring_buff_init size store.

(** * The view: a queue of messages *)

Section Facts.
Context `{A : arch} `{!ArchOk A} {Q : Type} `{FS : FifoSpec Z Q}.
Abbreviation W := (Z.of_nat sizeof_size_t).

Definition frame (m : list Z) : list Z := le_bytes sizeof_size_t (zlen m) ++ m.
Definition stream (msgs : list (list Z)) : list Z := concat (frame <$> msgs).

Definition mb_rep (buf : Q) (msgs : list (list Z)) : Prop :=
  fq_rep buf (stream msgs) /\ Forall (fun m => 0 < zlen m) msgs.

Lemma W_range : W = 4 \/ W = 8.
Proof. unfold sizeof_size_t. destruct (long_bit_ok) as [E|E]; rewrite E; [left|right]; done. Qed.

Lemma frame_len m : zlen (frame m) = W + zlen m.
Proof. unfold frame. by rewrite zlen_app, le_bytes_len. Qed.

Lemma stream_app msgs m : stream (msgs ++ [m]) = stream msgs ++ frame m.
Proof. unfold stream. rewrite fmap_app, concat_app. cbn. by rewrite app_nil_r. Qed.

Lemma take_zlen_app {X} (a b : list X) : take (Z.to_nat (zlen a)) (a ++ b) = a.
Proof. unfold zlen. rewrite Nat2Z.id. apply take_app_length. Qed.
Lemma drop_zlen_app {X} (a b : list X) : drop (Z.to_nat (zlen a)) (a ++ b) = b.
Proof. unfold zlen. rewrite Nat2Z.id. apply drop_app_length. Qed.

Lemma size_val (m : list Z) : zlen m < 2 ^ 31 -> le_val (le_bytes sizeof_size_t (zlen m)) = zlen m.
Proof.
  intros Hm. pose proof (zlen_nonneg m). apply le_val_bytes. split; [done|].
  assert (256 ^ 4 <= 256 ^ W) by (apply Z.pow_le_mono_r; pose proof W_range; lia). lia.
Qed.

(** Taking the header off the front. *)
Lemma dequeue_prefix (q : Q) a b :
  fq_rep q (a ++ b) -> zlen a < 2 ^ 31 ->
  exists q', fq_dequeue q (zlen a) = Some (a, q') /\ fq_rep q' b /\ fq_cap q' = fq_cap q.
Proof.
  intros Hrep Ha. pose proof (zlen_nonneg a). pose proof (zlen_nonneg b).
  destruct (fq_dequeue_ok q (a ++ b) (zlen a) Hrep) as (q' & He & Hr & Hc); [lia|].
  rewrite zlen_app, Z.min_l in * by lia. rewrite take_zlen_app, drop_zlen_app in *. eauto.
Qed.

Lemma enqueue_all (q : Q) c from :
  fq_rep q c -> zlen from <= fq_cap q - zlen c ->
  exists q', fq_enqueue q from (zlen from) = Some (zlen from, q') /\
    fq_rep q' (c ++ from) /\ fq_cap q' = fq_cap q.
Proof.
  intros Hrep Hf. pose proof (fq_bound _ _ Hrep). pose proof (zlen_nonneg from).
  destruct (fq_enqueue_ok q c from (zlen from) Hrep) as (q' & He & Hr & Hc); [lia..|].
  rewrite Z.min_l in * by lia. exists q'. split_and!; try done.
  unfold zlen in Hr. rewrite Nat2Z.id, take_ge in Hr by lia. done.
Qed.

Lemma msg_enqueue_ok (buf : Q) msgs src :
  mb_rep buf msgs -> zlen src < 2 ^ 31 ->
  if (0 <? zlen src) && (zlen src + W <=? fq_cap buf - zlen (stream msgs))
  then exists buf', msg_buff_enqueue buf src (zlen src) = Some (zlen src, buf') /\
         mb_rep buf' (msgs ++ [src]) /\ fq_cap buf' = fq_cap buf
  else msg_buff_enqueue buf src (zlen src) = Some (0, buf).
Proof.
  intros [Hrep Hpos] Hs. pose proof (fq_bound _ _ Hrep) as Hb. pose proof (zlen_nonneg src).
  pose proof W_range as HW. unfold msg_buff_enqueue. rewrite (fq_get_space_ok _ _ Hrep).
  cbn [mbind option_bind]. rewrite !ul_32 by lia.
  destruct (Z.ltb_spec 0 (zlen src)), (Z.leb_spec (zlen src + W) (fq_cap buf - zlen (stream msgs)));
    destruct (Z.eqb_spec (zlen src) 0), (Z.ltb_spec (fq_cap buf - zlen (stream msgs)) (zlen src + W));
    try lia; cbn [andb orb]; try done.
  destruct (enqueue_all buf _ (le_bytes sizeof_size_t (zlen src)) Hrep) as (b1 & He1 & Hr1 & Hc1);
    [rewrite le_bytes_len; lia|]. rewrite le_bytes_len in He1. rewrite He1. cbn [mbind option_bind].
  rewrite s32_small by lia.
  destruct (enqueue_all b1 _ src Hr1) as (b2 & -> & Hr2 & Hc2);
    [rewrite zlen_app, le_bytes_len; lia|]. cbn [mbind option_bind].
  exists b2. rewrite ul_32 by lia. split; [done|]. split; [|congruence]. split.
  - rewrite stream_app. unfold frame. by rewrite app_assoc.
  - apply Forall_app. split; [done|]. by constructor.
Qed.

(** What the start of a dequeue does on a non-empty buffer. *)
Lemma dequeue_start_ok (buf : Q) m msgs nbyte :
  mb_rep buf (m :: msgs) -> 0 <= nbyte ->
  if nbyte <? zlen m
  then exists buf', msg_buff_dequeue_start buf nbyte =
         Some (inr (take (Z.to_nat nbyte) m, (zlen m - nbyte, buf'))) /\
         fq_rep buf' (drop (Z.to_nat nbyte) m ++ stream msgs)
  else exists buf', msg_buff_dequeue_start buf nbyte = Some (inl (zlen m, m, buf')) /\
         mb_rep buf' msgs /\ fq_cap buf' = fq_cap buf.
Proof.
  intros [Hrep Hpos] Hn. apply Forall_cons in Hpos as [Hm Hpos].
  pose proof (fq_bound _ _ Hrep) as Hb. pose proof W_range as HW.
  change (stream (m :: msgs)) with (frame m ++ stream msgs) in *.
  rewrite zlen_app, frame_len in Hb. pose proof (zlen_nonneg (stream msgs)).
  unfold msg_buff_dequeue_start, msg_buff_empty. rewrite (fq_get_cnt_ok _ _ Hrep).
  cbn [mbind option_bind]. rewrite zlen_app, frame_len.
  destruct (Z.eqb_spec 0 (W + zlen m + zlen (stream msgs))); [lia|].
  unfold frame in Hrep. rewrite <- app_assoc in Hrep.
  destruct (dequeue_prefix buf _ _ Hrep) as (b1 & He1 & Hr1 & Hc1); [rewrite le_bytes_len; lia|].
  rewrite le_bytes_len in He1. rewrite He1. cbn [mbind option_bind].
  rewrite le_bytes_len, Z.eqb_refl, size_val by lia.
  destruct (Z.ltb_spec nbyte (zlen m)) as [Hlt|Hge].
  - rewrite s32_small by lia.
    assert (zlen (take (Z.to_nat nbyte) m) = nbyte) as Hlt'
      by (unfold zlen in *; rewrite length_take; lia).
    rewrite <- (take_drop (Z.to_nat nbyte) m), <- app_assoc in Hr1.
    destruct (dequeue_prefix b1 _ _ Hr1) as (b2 & He2 & Hr2 & _); [lia|].
    rewrite Hlt' in He2. rewrite He2. cbn [mbind option_bind]. rewrite Hlt', ul_32 by lia. eauto.
  - rewrite s32_small by lia. destruct (dequeue_prefix b1 _ _ Hr1) as (b2 & -> & Hr2 & Hc2); [lia|].
    cbn [mbind option_bind]. rewrite ul_32 by lia. exists b2. split; [done|]. split; [done|congruence].
Qed.

(** * The drain loop *)

(** [r] bytes of the message were left when the loop began, [L] bytes in the
    queue; [c] are still there. *)
Definition draining (r L : Z) (c : list Z) (st : Z * Q) : Prop :=
  fq_rep st.2 c /\ zlen c <= L /\ st.1 = ul (r - (L - zlen c)) /\
  ((L - zlen c) mod 16 = 0 \/ zlen c = 0).

Lemma drain_step_ok r L c st :
  draining r L c st -> exists st', drain_step st = Some st' /\
    draining r L (drop (Z.to_nat (Z.min 16 (zlen c))) c) st'.
Proof.
  destruct st as [ms q]. intros (Hrep & HL & Hms & Hmod). cbn in Hms. unfold drain_step.
  destruct (fq_dequeue_ok q c 16 Hrep) as (q' & -> & Hrep' & _); [lia|]. cbn [mbind option_bind].
  eexists. split; [done|]. set (k := Z.min 16 (zlen c)) in *. pose proof (zlen_nonneg c).
  assert (zlen (take (Z.to_nat k) c) = k /\ zlen (drop (Z.to_nat k) c) = zlen c - k) as [Ht Hd]
    by (unfold zlen in *; rewrite length_take, length_drop; lia).
  split_and!; cbn; [done|lia| |].
  - rewrite Ht, Hd, Hms, ul_sub_l. f_equal. lia.
  - rewrite Hd. destruct (Z.leb_spec 16 (zlen c)); [|right; lia].
    destruct Hmod as [Hmod|]; [left|lia]. replace k with 16 by lia.
    replace (L - (zlen c - 16)) with (L - zlen c + 1 * 16) by lia. by rewrite Z_mod_plus_full.
Qed.

Lemma drain_state_ok r L k : forall c st,
  draining r L c st -> exists c' st', drain_state k st = Some st' /\ draining r L c' st'.
Proof.
  induction k as [|k IH]; intros c st Hd; cbn [drain_state]; [eauto|].
  destruct (drain_step_ok _ _ _ _ Hd) as (st' & -> & Hd'). cbn [mbind option_bind]. eauto.
Qed.

(** Alone in the buffer, the message is drained in [(r + 15) / 16] turns. *)
Lemma drain_single fuel : forall c st,
  draining (zlen c) (zlen c) c st -> zlen c < 2 ^ 31 -> zlen c + 15 < 16 * Z.of_nat fuel ->
  exists q, drain fuel st = Some q /\ fq_rep q [].
Proof.
  induction fuel as [|fuel IH]; intros c st Hd H31 Hf; [pose proof (zlen_nonneg c); lia|].
  pose proof Hd as (Hrep & _ & Hms & _). pose proof (zlen_nonneg c). cbn [drain].
  rewrite Hms, ul_32 by lia.
  destruct (Z.eqb_spec (zlen c - (zlen c - zlen c)) 0) as [Hz|Hz].
  { exists st.2. split; [done|]. assert (c = []) as -> by (destruct c; [done|unfold zlen in *; cbn in *; lia]).
    done. }
  destruct (drain_step_ok _ _ _ _ Hd) as (st' & -> & Hd'). cbn [mbind option_bind].
  set (c' := drop _ c) in *. set (k := Z.min 16 (zlen c)) in *.
  assert (zlen c' = zlen c - k) as Hc' by (unfold c', zlen in *; rewrite length_drop; lia).
  apply (IH c'); [|lia|lia].
  destruct Hd' as (Hrep' & _ & Hms' & _). split_and!; try done; [|left; by rewrite Z.sub_diag].
  rewrite Hms', Hc'. f_equal. lia.
Qed.

End Facts.

(** C32: the buffer carries whole messages, in order.  A message is accepted
    exactly when it is not empty and fits with its size; a dequeue with room
    for the first message returns that message alone; an empty buffer gives
    nothing; a message that is too long for the reader and alone in the buffer
    is thrown away after its beginning was stored. *)
Theorem msg_buff_messages `{A : arch} `{!ArchOk A} {Q : Type} `{FS : FifoSpec Z Q}
    (buf : Q) msgs src nbyte fuel :
  mb_rep buf msgs -> zlen src < 2 ^ 31 -> 0 <= nbyte ->
  zlen (stream msgs) + 15 < 16 * Z.of_nat fuel ->
  (if (0 <? zlen src) && (zlen src + Z.of_nat sizeof_size_t <=? fq_cap buf - zlen (stream msgs))
   then exists buf', msg_buff_enqueue buf src (zlen src) = Some (zlen src, buf') /\
          mb_rep buf' (msgs ++ [src])
   else msg_buff_enqueue buf src (zlen src) = Some (0, buf)) /\
  (match msgs with
   | [] => msg_buff_dequeue fuel buf nbyte = Some (0, [], buf)
   | m :: msgs' =>
     (zlen m <= nbyte -> exists buf',
        msg_buff_dequeue fuel buf nbyte = Some (zlen m, m, buf') /\ mb_rep buf' msgs') /\
     (nbyte < zlen m -> msgs' = [] -> exists buf',
        msg_buff_dequeue fuel buf nbyte = Some (0, take (Z.to_nat nbyte) m, buf') /\ mb_rep buf' [])
   end).
Proof.
  intros Hrep Hs Hn Hfuel. split.
  { pose proof (msg_enqueue_ok buf msgs src Hrep Hs) as He.
    destruct ((0 <? zlen src) && _); [|done]. destruct He as (b & ? & ? & _). eauto. }
  destruct msgs as [|m msgs].
  { destruct Hrep as [Hrep _]. unfold msg_buff_dequeue, msg_buff_dequeue_start, msg_buff_empty.
    by rewrite (fq_get_cnt_ok _ _ Hrep). }
  pose proof (dequeue_start_ok buf m msgs nbyte Hrep Hn) as Hd. unfold msg_buff_dequeue. split.
  - intros Hm. destruct (Z.ltb_spec nbyte (zlen m)); [lia|]. destruct Hd as (b & -> & Hr & _). eauto.
  - intros Hm ->. destruct (Z.ltb_spec nbyte (zlen m)); [|lia]. destruct Hd as (b & -> & Hr).
    cbn [mbind option_bind]. cbn in Hr. rewrite app_nil_r in Hr. destruct Hrep as [Hrep _].
    pose proof (fq_bound _ _ Hrep) as Hb. pose proof W_range as HW.
    cbn in Hb, Hfuel. rewrite app_nil_r, frame_len in Hb, Hfuel.
    assert (zlen (drop (Z.to_nat nbyte) m) = zlen m - nbyte) as Hl
      by (unfold zlen in *; rewrite length_drop; lia).
    destruct (drain_single fuel (drop (Z.to_nat nbyte) m) (zlen m - nbyte, b)) as (q & -> & Hq);
      [|lia|lia|].
    + split_and!; cbn; [done|lia| |left; by rewrite Z.sub_diag]. rewrite Hl, ul_32 by lia. lia.
    + cbn [mbind option_bind]. exists q. done.
Qed.

(** A truncated read can hang.  When the part of the message that does not
    fit is not a multiple of 16 bytes and another message follows, the drain
    loop reads into that message, [msg_size] passes below zero and wraps, and
    its [while (msg_size)] never ends: every turn succeeds and leaves
    [msg_size] non-zero. *)
Theorem msg_buff_truncated_read_hangs `{A : arch} `{!ArchOk A} {Q : Type} `{FS : FifoSpec Z Q}
    (buf : Q) m m' msgs nbyte :
  mb_rep buf (m :: m' :: msgs) -> 0 <= nbyte < zlen m -> (zlen m - nbyte) mod 16 <> 0 ->
  exists data st, msg_buff_dequeue_start buf nbyte = Some (inr (data, st)) /\
    forall k, exists st', drain_state k st = Some st' /\ st'.1 <> 0.
Proof.
  intros Hrep Hn Hmod. pose proof (dequeue_start_ok buf m _ nbyte Hrep ltac:(lia)) as Hd.
  destruct (Z.ltb_spec nbyte (zlen m)); [|lia]. destruct Hd as (b & Hstart & Hr).
  eexists _, _. split; [done|]. intros k.
  set (r := zlen m - nbyte) in *. set (c := drop (Z.to_nat nbyte) m ++ stream (m' :: msgs)) in *.
  assert (zlen (drop (Z.to_nat nbyte) m) = r) as Hl by (unfold r, zlen in *; rewrite length_drop; lia).
  pose proof (fq_bound _ _ Hr) as Hb. pose proof W_range as HW.
  assert (r + 4 <= zlen c) as HL.
  { unfold c. rewrite zlen_app, Hl. change (stream (m' :: msgs)) with (frame m' ++ stream msgs).
    rewrite zlen_app, frame_len. pose proof (zlen_nonneg m'). pose proof (zlen_nonneg (stream msgs)). lia. }
  destruct (drain_state_ok r (zlen c) k c (r, b)) as (c' & st' & -> & Hd').
  { split_and!; cbn; [done|lia| |left; by rewrite Z.sub_diag]. rewrite Z.sub_diag, Z.sub_0_r, ul_32; lia. }
  exists st'. split; [done|]. destruct Hd' as (Hrep' & HL' & -> & Hm'). pose proof (zlen_nonneg c').
  intros Hz%ul_eq_0; [|lia]. destruct Hm' as [Hm'|Hm']; [|lia].
  apply Hmod. by replace r with (zlen c - zlen c') by lia.
Qed.

(** * Instances over a [ring_buff] of bytes *)

(** The buffer after enqueueing the given messages, on a 64-bit target. *)
Fixpoint demo_msgs (msgs : list (list Z)) (buf : ring_buff Z) : ring_buff Z :=
  match msgs with
  | [] => buf
  | m :: msgs =>
    match msg_buff_enqueue (A := lp64) (FO := ring_buff_fifo (A := lp64)) buf m (zlen m) with
    | Some (_, buf) => demo_msgs msgs buf
    | None => buf
    end
  end.

Definition demo_buff : ring_buff Z :=
  demo_msgs [[1; 2; 3]; [4]] (msg_buff_init (A := lp64) (replicate 40 0) 40).

Lemma demo_buff_rep :
  mb_rep (A := lp64) (FS := ring_buff_fifo_spec (A := lp64)) demo_buff [[1; 2; 3]; [4]].
Proof.
  split; [|repeat constructor; unfold zlen; cbn; lia]. split; [|by vm_compute].
  split; try (by vm_compute). intros i Hi.
  assert (In i (Z.of_nat <$> seq 0 20)) as Hin.
  { apply list_elem_of_In, list_elem_of_fmap. exists (Z.to_nat i).
    change (zlen _) with 20 in Hi. split; [lia|]. apply elem_of_seq. lia. }
  cbn in Hin. repeat (destruct Hin as [<-|Hin]; [by vm_compute|]). done.
Qed.

Lemma msg_buff_messages_witness :
  exists buf', msg_buff_dequeue (A := lp64) (FO := ring_buff_fifo (A := lp64)) 3 demo_buff 5 =
    Some (3, [1; 2; 3], buf') /\
    mb_rep (A := lp64) (FS := ring_buff_fifo_spec (A := lp64)) buf' [[4]].
Proof.
  apply (msg_buff_messages (A := lp64) (FS := ring_buff_fifo_spec (A := lp64))
           demo_buff [[1; 2; 3]; [4]] [9] 5 3).
  - exact demo_buff_rep.
  - unfold zlen; cbn; lia.
  - lia.
  - vm_compute. done.
  - unfold zlen; cbn; lia.
Defined.

Lemma msg_buff_truncated_read_hangs_witness :
  exists data st,
    msg_buff_dequeue_start (A := lp64) (FO := ring_buff_fifo (A := lp64)) demo_buff 1 =
      Some (inr (data, st)) /\
    forall k, exists st', drain_state (A := lp64) (FO := ring_buff_fifo (A := lp64)) k st = Some st' /\
      st'.1 <> 0.
Proof.
  apply (msg_buff_truncated_read_hangs (A := lp64) (FS := ring_buff_fifo_spec (A := lp64))
           demo_buff [1; 2; 3] [4] [] 1).
  - exact demo_buff_rep.
  - unfold zlen; cbn; lia.
  - vm_compute. done.
Defined.
