(* ===== verification/DeltaList.v ===== *)
(** Timers and delta lists.

    [struct sys_timer] of [src/include/kernel/time/sys_timer.h], and the list
    edit that [head_timer.c] and [head_timer_smp.c] share: the queue is kept in
    order of expiry and every counter but the first holds the distance to the
    timer in front.  The counter a list uses is a parameter: [cnt] in the first,
    [TIMER_CNT(tmr, cpuid, ticker)] in the second.

    The view of a delta list is the list of its absolute expiry times
    ([expiries]); insertion and removal are proved to be those of a sorted
    list. *)
From S2P Require Import Prelude.

Local Open Scope Z_scope.
Local Open Scope embox_scope.

(** A timer is named by its address.  [sharing] is [timer_sharing]: NULL, or
    [is_shared] and the [shared_cpu] mask.  [owner_cpu], [multi_cnt] and
    [sharing] exist in SMP builds. *)
Record sys_timer := SysTimer {
  load : Z;
  cnt : Z;
  multi_cnt : list Z;
  handle : Z;
  param : Z;
  flags : Z;
  state : Z;
  owner_cpu : Z;
  sharing : option (bool * Z)
}.

Abbreviation timers := (gmap Z sys_timer).

Definition SYS_TIMER_PERIODIC : Z := 1.
Definition SYS_TIMER_ONESHOT : Z := 0.
Definition SYS_TIMER_STATE_PREALLOC : Z := 1.
Definition SYS_TIMER_STATE_STARTED : Z := 2.

Definition set_load (v : Z) (t : sys_timer) : sys_timer :=
  SysTimer v (cnt t) (multi_cnt t) (handle t) (param t) (flags t) (state t) (owner_cpu t) (sharing t).
Definition set_cnt (v : Z) (t : sys_timer) : sys_timer :=
  SysTimer (load t) v (multi_cnt t) (handle t) (param t) (flags t) (state t) (owner_cpu t) (sharing t).
Definition set_multi_cnt (l : list Z) (t : sys_timer) : sys_timer :=
  SysTimer (load t) (cnt t) l (handle t) (param t) (flags t) (state t) (owner_cpu t) (sharing t).
Definition set_state (v : Z) (t : sys_timer) : sys_timer :=
  SysTimer (load t) (cnt t) (multi_cnt t) (handle t) (param t) (flags t) v (owner_cpu t) (sharing t).
Definition set_owner_cpu (v : Z) (t : sys_timer) : sys_timer :=
  SysTimer (load t) (cnt t) (multi_cnt t) (handle t) (param t) (flags t) (state t) v (sharing t).
Definition set_sharing (v : option (bool * Z)) (t : sys_timer) : sys_timer :=
  SysTimer (load t) (cnt t) (multi_cnt t) (handle t) (param t) (flags t) (state t) (owner_cpu t) v.

Definition sys_timer_is_preallocated (t : sys_timer) : bool :=
  negb (Z.land (state t) SYS_TIMER_STATE_PREALLOC =? 0).
Definition sys_timer_set_preallocated (t : sys_timer) : sys_timer :=
  set_state (Z.lor (state t) SYS_TIMER_STATE_PREALLOC) t.
Definition sys_timer_clear_preallocated (t : sys_timer) : sys_timer :=
  set_state (Z.land (state t) (wnot 32 SYS_TIMER_STATE_PREALLOC)) t.
Definition sys_timer_is_periodic (t : sys_timer) : bool :=
  negb (Z.land (flags t) SYS_TIMER_PERIODIC =? 0).

(** The started bit on a single CPU. *)
Definition sys_timer_is_started (t : sys_timer) : bool :=
  negb (Z.land (state t) SYS_TIMER_STATE_STARTED =? 0).
Definition sys_timer_set_started (t : sys_timer) : sys_timer :=
  set_state (Z.lor (state t) SYS_TIMER_STATE_STARTED) t.
Definition sys_timer_set_stopped (t : sys_timer) : sys_timer :=
  set_state (Z.land (state t) (wnot 32 SYS_TIMER_STATE_STARTED)) t.

(** * The list edit *)

Section Delta.
(** The counter of the timer at an address. *)
Context (getc : Z -> sys_timer -> Z) (setc : Z -> Z -> sys_timer -> sys_timer).

Definition cnt_of (h : timers) (t : Z) : option Z := x ← h !! t; Some (getc t x).
Definition put_cnt (t v : Z) (h : timers) : timers := alter (setc t v) t h.

(** The walk of [timer_strat_start]: [t] goes before the first timer that is
    not due before it. *)
Fixpoint delta_place (t : Z) (l : list Z) (h : timers) : option (list Z * timers) :=
  match l with
  | [] => Some ([t], h)
  | it :: l' =>
    ci ← cnt_of h it;
    ct ← cnt_of h t;
    if ci >=? ct then Some (t :: it :: l', put_cnt it (u64 (ci - ct)) h)
    else
      '(l'', h) ← delta_place t l' (put_cnt t (u64 (ct - ci)) h);
      Some (it :: l'', h)
  end.

(** [timer_strat_stop]: the successor takes over the distance, and [t] is
    unlinked; the links of a timer that is not on the list lead nowhere. *)
Fixpoint delta_remove (t : Z) (l : list Z) (h : timers) : option (list Z * timers) :=
  match l with
  | [] => None
  | x :: l' =>
    if bool_decide (x = t) then
      match l' with
      | [] => Some ([], h)
      | n :: _ =>
        cn ← cnt_of h n;
        ct ← cnt_of h t;
        Some (l', put_cnt n (u64 (cn + ct)) h)
      end
    else
      '(l'', h) ← delta_remove t l' h;
      Some (x :: l'', h)
  end.

(** * The view *)

Definition cntv (h : timers) (t : Z) : Z :=
  match h !! t with Some x => getc t x | None => 0 end.

(** Expiry times of the timers of [l], the one before the list being [a]. *)
Fixpoint expiries (h : timers) (l : list Z) (a : Z) : list (Z * Z) :=
  match l with
  | [] => []
  | t :: l => (a + cntv h t, t) :: expiries h l (a + cntv h t)
  end.

(** What an edit leaves alone, whatever that is. *)
Context {R : Type} (rest : sys_timer -> R).
Context (wf : sys_timer -> Prop).
Context (get_set : forall t v x, wf x -> getc t (setc t v x) = v).
Context (wf_set : forall t v x, wf x -> wf (setc t v x)).
Context (rest_set : forall t v x, rest (setc t v x) = rest x).

Definition entry_ok (h : timers) (t : Z) : Prop :=
  exists x, h !! t = Some x /\ wf x /\ 0 <= getc t x.

Record delta_ok (h : timers) (l : list Z) (a : Z) : Prop := {
  do_nodup : NoDup l;
  do_entries : Forall (entry_ok h) l;
  do_range : Forall (fun x => x.1 < 2 ^ 64) (expiries h l a)
}.

Definition same_rest (h h' : timers) : Prop := forall x, rest <$> h' !! x = rest <$> h !! x.

Fixpoint exp_insert (e t : Z) (l : list (Z * Z)) : list (Z * Z) :=
  match l with
  | [] => [(e, t)]
  | (e', t') :: l' => if e <=? e' then (e, t) :: l else (e', t') :: exp_insert e t l'
  end.

Definition exp_remove (t : Z) (l : list (Z * Z)) : list (Z * Z) := filter (fun x => x.2 <> t) l.

Fixpoint exp_sorted (l : list (Z * Z)) : Prop :=
  match l with
  | [] => True
  | x :: l => Forall (fun y => x.1 <= y.1) l /\ exp_sorted l
  end.

Lemma expiries_snd h l : forall a, (expiries h l a).*2 = l.
Proof. induction l as [|t l IH]; intros a; cbn; [done|]. by rewrite IH. Qed.

Lemma expiries_frame h h' l : forall a,
  (forall x, x ∈ l -> h' !! x = h !! x) -> expiries h' l a = expiries h l a.
Proof.
  induction l as [|t l IH]; intros a H; cbn; [done|].
  assert (cntv h' t = cntv h t) as -> by (unfold cntv; rewrite H; [done|left]).
  f_equal. apply IH. intros x Hx. apply H. by right.
Qed.

Lemma expiries_ext h h' l : forall a,
  (forall x, x ∈ l -> cntv h' x = cntv h x) -> expiries h' l a = expiries h l a.
Proof.
  induction l as [|t l IH]; intros a H; cbn; [done|]. rewrite (H t) by left.
  f_equal. apply IH. intros x Hx. apply H. by right.
Qed.

Lemma cnt_of_ok h t : entry_ok h t -> cnt_of h t = Some (cntv h t) /\ 0 <= cntv h t.
Proof.
  intros (x & Hx & _ & H0). unfold cnt_of, cntv. by rewrite Hx.
Qed.

Lemma put_cnt_eq h t v x : h !! t = Some x -> wf x -> cntv (put_cnt t v h) t = v.
Proof. intros Hx Hw. unfold cntv, put_cnt. rewrite lookup_alter_eq, Hx. cbn. by apply get_set. Qed.

Lemma put_cnt_ne h t v y : y <> t -> put_cnt t v h !! y = h !! y.
Proof. intros. unfold put_cnt. by rewrite lookup_alter_ne. Qed.

Lemma put_cnt_rest h t v : same_rest h (put_cnt t v h).
Proof.
  intros x. unfold put_cnt. rewrite lookup_alter. case_decide; [subst|done].
  destruct (h !! x); cbn; [by rewrite rest_set|done].
Qed.

Lemma put_cnt_entry h t v y : 0 <= v -> entry_ok h y -> entry_ok (put_cnt t v h) y.
Proof.
  intros Hv (x & Hx & Hw & H0). unfold entry_ok, put_cnt. rewrite lookup_alter. case_decide.
  - subst. rewrite Hx. cbn. eexists. split; [done|]. split; [by apply wf_set|]. by rewrite get_set.
  - rewrite Hx. eauto.
Qed.

Lemma same_rest_trans h1 h2 h3 : same_rest h1 h2 -> same_rest h2 h3 -> same_rest h1 h3.
Proof. intros H1 H2 x. by rewrite H2, H1. Qed.

Lemma entry_frame h h' l :
  (forall x, x ∈ l -> h' !! x = h !! x) -> Forall (entry_ok h) l -> Forall (entry_ok h') l.
Proof.
  intros H Hf. rewrite !Forall_forall in *. intros x Hx. unfold entry_ok. rewrite H by done. by apply Hf.
Qed.

Lemma delta_place_spec t l : forall h a e,
  NoDup (t :: l) -> Forall (entry_ok h) (t :: l) -> cntv h t = e - a -> 0 <= a <= e -> e < 2 ^ 64 ->
  Forall (fun x => x.1 < 2 ^ 64) (expiries h l a) ->
  exists l' h', delta_place t l h = Some (l', h') /\
    expiries h' l' a = exp_insert e t (expiries h l a) /\
    Forall (entry_ok h') l' /\ same_rest h h' /\
    (forall x, x ∉ t :: l -> h' !! x = h !! x).
Proof.
  induction l as [|it l IH]; intros h a e Hnd Hok Hct Ha He Hr.
  { exists [t], h. cbn. rewrite Hct. replace (a + (e - a)) with e by lia. split_and!; done. }
  cbn [delta_place expiries exp_insert] in *.
  apply Forall_cons in Hok as [Hot Hok]. apply Forall_cons in Hok as [Hoi Hol].
  apply NoDup_cons in Hnd as [Hti Hnd]. apply NoDup_cons in Hnd as [Hil Hndl].
  apply not_elem_of_cons in Hti as [Hne Htl]. apply Forall_cons in Hr as [Hri Hrl]. cbn in Hri.
  destruct (cnt_of_ok h it Hoi) as [-> Hi0]. destruct (cnt_of_ok h t Hot) as [-> Ht0].
  cbn [mbind option_bind]. rewrite Z.geb_leb, Hct. destruct Hoi as (xi & Hxi & Hwi & Hgi).
  destruct (Z.leb_spec (e - a) (cntv h it)) as [Hle|Hlt].
  - eexists _, _. split; [done|]. rewrite wrap_small by lia.
    set (h' := put_cnt it (cntv h it - (e - a)) h).
    assert (cntv h' it = cntv h it - (e - a)) as Hci by (eapply put_cnt_eq; eauto).
    assert (cntv h' t = e - a) as Hct'.
    { unfold cntv, h'. rewrite put_cnt_ne by done. exact Hct. }
    assert (expiries h' l (a + cntv h it) = expiries h l (a + cntv h it)) as Hex.
    { apply expiries_frame. intros x Hx. apply put_cnt_ne. by intros ->. }
    destruct (Z.leb_spec e (a + cntv h it)); [|lia]. cbn [expiries]. rewrite Hct', Hci.
    replace (a + (e - a)) with e by lia.
    replace (e + (cntv h it - (e - a))) with (a + cntv h it) by lia. rewrite Hex.
    split_and!; try done.
    + repeat constructor; try (apply put_cnt_entry; [lia|done]); [|].
      * apply put_cnt_entry; [lia|]. by exists xi.
      * apply Forall_forall. intros x Hx. apply put_cnt_entry; [lia|].
        by eapply Forall_forall in Hol.
    + apply put_cnt_rest.
    + intros x Hx. apply put_cnt_ne. set_solver.
  - rewrite wrap_small by lia. set (h1 := put_cnt t (e - a - cntv h it) h).
    destruct Hot as (xt & Hxt & Hwt & Hgt).
    assert (forall x, x ∈ it :: l -> h1 !! x = h !! x) as Hsame
      by (intros x Hx; apply put_cnt_ne; set_solver).
    destruct (IH h1 (a + cntv h it) e) as (l' & h' & -> & Hexp & Hok' & Hsr & Hfr).
    + by constructor.
    + constructor; [apply put_cnt_entry; [lia|]; by exists xt|].
      eapply entry_frame; [|done]. intros x Hx. apply Hsame. by right.
    + unfold h1. rewrite (put_cnt_eq h t _ xt) by done. lia.
    + lia.
    + done.
    + rewrite (expiries_frame h); [done|]. intros x Hx. apply Hsame. by right.
    + cbn [mbind option_bind]. eexists _, _. split; [done|].
      destruct (Z.leb_spec e (a + cntv h it)); [lia|].
      assert (h' !! it = h !! it) as Hit.
      { rewrite Hfr by set_solver. apply Hsame. left. }
      cbn [expiries]. assert (cntv h' it = cntv h it) as -> by (unfold cntv; by rewrite Hit).
      rewrite Hexp. rewrite (expiries_frame h h1) by (intros x Hx; apply Hsame; by right).
      split_and!; try done.
      * constructor; [|done]. unfold entry_ok. rewrite Hit. by exists xi.
      * eapply same_rest_trans; [apply put_cnt_rest|done].
      * intros x Hx. rewrite Hfr by set_solver. apply put_cnt_ne. set_solver.
Qed.

Lemma delta_remove_spec t l : forall h a,
  NoDup l -> Forall (entry_ok h) l -> t ∈ l -> 0 <= a ->
  Forall (fun x => x.1 < 2 ^ 64) (expiries h l a) ->
  exists l' h', delta_remove t l h = Some (l', h') /\
    expiries h' l' a = exp_remove t (expiries h l a) /\
    Forall (entry_ok h') l' /\ same_rest h h' /\
    (forall x, x ∉ l \/ x = t -> h' !! x = h !! x).
Proof.
  induction l as [|x l IH]; intros h a Hnd Hok Hin Ha Hr; [by apply elem_of_nil in Hin|].
  cbn [delta_remove expiries] in *. apply Forall_cons in Hok as [Hox Hol].
  apply NoDup_cons in Hnd as [Hxl Hndl]. apply Forall_cons in Hr as [Hrx Hrl]. cbn in Hrx.
  destruct (cnt_of_ok h x Hox) as [Hcx Hx0]. unfold exp_remove. case_bool_decide as Heq.
  - subst x. rewrite filter_cons_False by (cbn; naive_solver).
    assert (filter (fun y : Z * Z => y.2 <> t) (expiries h l (a + cntv h t)) =
            expiries h l (a + cntv h t)) as Hf.
    { apply filter_all. intros [e y] Hy Heq. cbn in Heq. subst y. apply Hxl.
      rewrite <- (expiries_snd h l (a + cntv h t)). by apply (list_elem_of_fmap_2 snd _ (e, t)). }
    rewrite Hf. destruct l as [|n l]; [exists [], h; split_and!; done|].
    apply Forall_cons in Hol as [Hon Hol]. destruct (cnt_of_ok h n Hon) as [-> Hn0]. rewrite Hcx.
    cbn [mbind option_bind expiries] in *. apply Forall_cons in Hrl as [Hrn Hrl]. cbn in Hrn.
    rewrite wrap_small by lia. destruct Hon as (xn & Hxn & Hwn & Hgn).
    apply NoDup_cons in Hndl as [Hnl Hndl].
    set (h' := put_cnt n (cntv h n + cntv h t) h). eexists _, h'. split; [done|].
    cbn [expiries]. assert (cntv h' n = cntv h n + cntv h t) as -> by (eapply put_cnt_eq; eauto).
    replace (a + (cntv h n + cntv h t)) with (a + cntv h t + cntv h n) by lia.
    rewrite (expiries_frame h h') by (intros y Hy; apply put_cnt_ne; by intros ->).
    split_and!; try done.
    + constructor; [apply put_cnt_entry; [lia|]; by exists xn|].
      apply Forall_forall. intros y Hy. apply put_cnt_entry; [lia|]. by eapply Forall_forall in Hol.
    + apply put_cnt_rest.
    + intros y [Hy| ->]; apply put_cnt_ne; set_solver.
  - assert (t ∈ l) as Htl by (apply elem_of_cons in Hin as [?|?]; [congruence|done]).
    destruct (IH h (a + cntv h x)) as (l' & h' & -> & Hexp & Hok' & Hsr & Hfr); try done; [lia|].
    cbn [mbind option_bind]. eexists _, h'. split; [done|].
    assert (h' !! x = h !! x) as Hx by (apply Hfr; by left).
    cbn [expiries]. assert (cntv h' x = cntv h x) as -> by (unfold cntv; by rewrite Hx).
    rewrite filter_cons_True by done. rewrite Hexp. split_and!; try done.
    + constructor; [|done]. unfold entry_ok. by rewrite Hx.
    + intros y [Hy| ->]; apply Hfr; set_solver.
Qed.

(** * Sorted lists of expiries *)

Lemma exp_insert_perm e t l : exp_insert e t l ≡ₚ (e, t) :: l.
Proof.
  induction l as [|[e' t'] l IH]; cbn; [done|]. zbool; [done|]. rewrite IH. apply perm_swap.
Qed.

Lemma exp_insert_elem e t l x : x ∈ exp_insert e t l <-> x = (e, t) \/ x ∈ l.
Proof. rewrite exp_insert_perm. apply elem_of_cons. Qed.

Lemma exp_insert_sorted e t l : exp_sorted l -> exp_sorted (exp_insert e t l).
Proof.
  induction l as [|[e' t'] l IH]; cbn; [done|]. intros [Hf Hs]. zbool; cbn.
  - split; [|done]. constructor; [done|]. eapply Forall_impl; [done|]. intros y Hy. cbn in *. lia.
  - split; [|by apply IH]. apply Forall_forall. intros y [->|Hy]%exp_insert_elem; cbn; [lia|].
    by apply (proj1 (Forall_forall _ _) Hf).
Qed.

Lemma exp_remove_elem t l x : x ∈ exp_remove t l <-> x ∈ l /\ x.2 <> t.
Proof. unfold exp_remove. rewrite list_elem_of_filter. tauto. Qed.

Lemma exp_remove_sorted t l : exp_sorted l -> exp_sorted (exp_remove t l).
Proof.
  unfold exp_remove. induction l as [|x l IH]; [done|]. intros [Hf Hs].
  destruct (decide (x.2 <> t)).
  - rewrite filter_cons_True by done. cbn. split; [|by apply IH].
    apply Forall_forall. intros y [Hy _]%exp_remove_elem. by apply (proj1 (Forall_forall _ _) Hf).
  - rewrite filter_cons_False by done. by apply IH.
Qed.

Lemma expiries_sorted h l : forall a, Forall (entry_ok h) l -> exp_sorted (expiries h l a).
Proof.
  assert (forall l b a, Forall (entry_ok h) l -> b <= a -> Forall (fun y => b <= y.1) (expiries h l a)) as Hge.
  { clear l. induction l as [|t l IH]; intros b a Hok Hb; cbn; [done|].
    apply Forall_cons in Hok as [Ht Hok]. destruct (cnt_of_ok h t Ht). constructor; cbn; [lia|].
    apply IH; [done|lia]. }
  induction l as [|t l IH]; intros a Hok; cbn; [done|].
  apply Forall_cons in Hok as [Ht Hok]. split; [|by apply IH]. apply Hge; [done|]. cbn. lia.
Qed.

End Delta.
