(* ===== verification/HeadTimer.v ===== *)
(** The timer queue of a single-CPU build,
    [src/kernel/time/timer/strategy/head_timer.c], the default strategy.

    [clock_sys_ticks()] is the argument [now]: interrupts are off during every
    operation, so the tick count does not move.  A handler is code of the
    client: a parameter [handle], called with the timer's address; [fired]
    records the calls. *)
From S2P Require Import Prelude DeltaList.

Local Open Scope Z_scope.
Local Open Scope embox_scope.

Module HeadTimer.

Record tst := Tst { tm : timers; sys_timers_list : list Z; fired : list Z }.

Definition getc (t : Z) (x : sys_timer) : Z := cnt x.
Definition setc (t v : Z) (x : sys_timer) : sys_timer := set_cnt v x.

Definition timer_strat_start (now t : Z) (st : tst) : option tst :=
  x ← tm st !! t;
  let h := alter (set_cnt (u64 (now + load x))) t (tm st) in
  '(l, h) ← delta_place getc setc t (sys_timers_list st) h;
  Some (Tst (alter sys_timer_set_started t h) l (fired st)).

Definition timer_strat_stop (t : Z) (st : tst) : option tst :=
  let h := alter sys_timer_set_stopped t (tm st) in
  '(l, h) ← delta_remove getc setc t (sys_timers_list st) h;
  Some (Tst h l (fired st)).

(** [ret] and [next_event]. *)
Definition timer_strat_get_next_event (st : tst) : option (option Z) :=
  match sys_timers_list st with
  | [] => Some None
  | t :: _ => c ← cnt_of getc (tm st) t; Some (Some c)
  end.

(** The element after [t], [None] at the end of the list; the [next] that
    [dlist_foreach_entry] saves before it runs the body. *)
Fixpoint next_in (l : list Z) (t : Z) : option (option Z) :=
  match l with
  | [] => None
  | x :: l' => if bool_decide (x = t) then Some (hd_error l') else next_in l' t
  end.

Section Sched.
Variable handle : Z -> tst -> option tst.

(** The body of the [foreach] of [timer_strat_sched] from [link] on. *)
Fixpoint sched_loop (fuel : nat) (now jiffies : Z) (link : option Z) (st : tst) : option tst :=
  match fuel with
  | O => None
  | S fuel =>
    match link with
    | None => Some st
    | Some t =>
      next ← next_in (sys_timers_list st) t;
      c ← cnt_of getc (tm st) t;
      if jiffies <? c then Some st
      else
        let jiffies := u64 (jiffies - c) in
        st ← timer_strat_stop t st;
        x ← tm st !! t;
        st ← (if sys_timer_is_periodic x then timer_strat_start now t st else Some st);
        st ← handle t (Tst (tm st) (sys_timers_list st) (fired st ++ [t]));
        sched_loop fuel now jiffies next st
    end
  end.

Definition timer_strat_sched (fuel : nat) (now jiffies : Z) (st : tst) : option tst :=
  sched_loop fuel now jiffies (hd_error (sys_timers_list st)) st.

End Sched.

(** * The view *)

(** What no operation changes, and what the list edits leave alone. *)
Definition kept (x : sys_timer) := (load x, handle x, param x, flags x, owner_cpu x, sharing x).
Definition rest (x : sys_timer) := (kept x, state x).
Definition wf (x : sys_timer) : Prop := True.

Abbreviation exps st := (expiries getc (tm st) (sys_timers_list st) 0).

(** The queue is a delta list of distinct timers; the started bit tells
    whether a timer is on it. *)
Record ok (st : tst) : Prop := {
  ok_delta : delta_ok getc wf (tm st) (sys_timers_list st) 0;
  ok_started : forall t x, tm st !! t = Some x ->
    (sys_timer_is_started x = true <-> t ∈ sys_timers_list st)
}.

Lemma get_set t v x : wf x -> getc t (setc t v x) = v.
Proof. done. Qed.
Lemma wf_set t v x : wf x -> wf (setc t v x).
Proof. done. Qed.
Lemma rest_set t v x : rest (setc t v x) = rest x.
Proof. done. Qed.

Lemma state_bit_set x : sys_timer_is_started (sys_timer_set_started x) = true.
Proof.
  unfold sys_timer_is_started, sys_timer_set_started. cbn. apply negb_true_iff, Z.eqb_neq.
  intros H. assert (Z.testbit (Z.land (Z.lor (state x) 2) 2) 1 = true) as Hb.
  { rewrite Z.land_spec, Z.lor_spec. cbn. by rewrite orb_true_r. }
  change SYS_TIMER_STATE_STARTED with 2 in H. rewrite H in Hb. done.
Qed.

Lemma state_bit_clear x : sys_timer_is_started (sys_timer_set_stopped x) = false.
Proof.
  unfold sys_timer_is_started, sys_timer_set_stopped. cbn. apply negb_false_iff, Z.eqb_eq.
  apply Z.bits_inj'. intros i Hi. rewrite !Z.land_spec, Z.bits_0.
  change SYS_TIMER_STATE_STARTED with 2. rewrite wnot_testbit by lia.
  destruct (Z.testbit 2 i); [|by rewrite andb_false_r]. by rewrite !andb_false_r.
Qed.

(** State changes that keep the counters keep the view. *)
Lemma expiries_alter h l a t f :
  (forall x, cnt (f x) = cnt x) -> expiries getc (alter f t h) l a = expiries getc h l a.
Proof.
  intros Hf. revert a. induction l as [|y l IH]; intros a; cbn; [done|].
  assert (cntv getc (alter f t h) y = cntv getc h y) as ->; [|by rewrite IH].
  unfold cntv. rewrite lookup_alter. case_decide; [subst|done].
  destruct (h !! y); cbn; [|done]. unfold getc. by rewrite Hf.
Qed.

Lemma entries_alter h l t f :
  (forall x, cnt (f x) = cnt x) -> Forall (entry_ok getc wf h) l ->
  Forall (entry_ok getc wf (alter f t h)) l.
Proof.
  intros Hf H. rewrite Forall_forall in *. intros y Hy. destruct (H y Hy) as (x & Hx & _ & H0).
  unfold entry_ok. rewrite lookup_alter. case_decide; [subst|by exists x].
  rewrite Hx. eexists. split; [done|]. split; [done|]. unfold getc in *. by rewrite Hf.
Qed.

Lemma rest_state h h' y x x' :
  same_rest rest h h' -> h !! y = Some x -> h' !! y = Some x' ->
  state x' = state x /\ kept x' = kept x.
Proof.
  intros Hr Hx Hx'. specialize (Hr y). rewrite Hx, Hx' in Hr. cbn in Hr. injection Hr as H1 H2 H3 H4 H5 H6 H7.
  split; [done|]. unfold kept. congruence.
Qed.

(** A view of the table: what holds of [kept] and the started bits after an
    edit of the queue and a change of the started bit of [t]. *)
Lemma edit_started (h h1 h' : timers) t (l l' : list Z) (b : bool) f :
  (forall y z, h !! y = Some z -> (sys_timer_is_started z = true <-> y ∈ l)) ->
  (forall y, y <> t -> h1 !! y = h !! y) -> same_rest rest h1 h' ->
  (forall z, sys_timer_is_started (f z) = b) ->
  (forall y, y <> t -> y ∈ l' <-> y ∈ l) -> (t ∈ l' <-> b = true) ->
  forall y z, alter f t h' !! y = Some z -> (sys_timer_is_started z = true <-> y ∈ l').
Proof.
  intros Hst Hh1 Hr Hf Hl Ht y z Hy. rewrite lookup_alter in Hy. case_decide as Hyt.
  - subst y. destruct (h' !! t) as [z0|]; [|done]. cbn in Hy. simplify_eq. by rewrite Hf, Ht.
  - assert (y <> t) as Hne by congruence. rewrite Hl by done.
    specialize (Hr y) as Hry. rewrite Hh1 in Hry by done. rewrite Hy in Hry.
    destruct (h !! y) as [z0|] eqn:Hz0; [|done]. cbn in Hry. injection Hry as H1 H2 H3 H4 H5 H6 H7.
    unfold sys_timer_is_started. rewrite H7. by apply (Hst _ _ Hz0).
Qed.

Lemma kept_alter (h : timers) t f y :
  (forall z, kept (f z) = kept z) -> kept <$> alter f t h !! y = kept <$> h !! y.
Proof.
  intros Hf. rewrite lookup_alter. case_decide; [subst|done]. destruct (h !! y); cbn; [by rewrite Hf|done].
Qed.

Lemma kept_rest h h' y : same_rest rest h h' -> kept <$> h' !! y = kept <$> h !! y.
Proof.
  intros Hr. specialize (Hr y). destruct (h !! y), (h' !! y); try done. cbn in Hr |- *.
  f_equal. unfold rest in Hr. congruence.
Qed.

Lemma start_ok now t x st :
  ok st -> tm st !! t = Some x -> t ∉ sys_timers_list st ->
  0 <= now + load x < 2 ^ 64 ->
  exists st', timer_strat_start now t st = Some st' /\ ok st' /\
    exps st' = exp_insert (now + load x) t (exps st) /\ fired st' = fired st /\
    (forall y, kept <$> tm st' !! y = kept <$> tm st !! y).
Proof.
  intros Hok Hx Ht He. unfold timer_strat_start. rewrite Hx. cbn [mbind option_bind].
  rewrite wrap_small by done. set (h1 := alter (set_cnt (now + load x)) t (tm st)).
  destruct (ok_delta _ Hok) as [Hnd Hent Hr].
  assert (forall y, y ∈ sys_timers_list st -> h1 !! y = tm st !! y) as Hsame
    by (intros y Hy; unfold h1; rewrite lookup_alter_ne; [done|by intros ->]).
  assert (h1 !! t = Some (set_cnt (now + load x) x)) as Hh1 by (unfold h1; by rewrite lookup_alter_eq, Hx).
  destruct (delta_place_spec getc setc rest wf get_set wf_set rest_set t (sys_timers_list st) h1 0 (now + load x))
    as (l' & h' & -> & Hexp & Hent' & Hrest & Hfr).
  - by constructor.
  - constructor; [exists (set_cnt (now + load x) x); split_and!; unfold getc; done || (cbn; lia)|].
    by eapply entry_frame.
  - unfold cntv. rewrite Hh1. unfold getc. cbn. lia.
  - lia.
  - lia.
  - by rewrite (expiries_frame getc (tm st)).
  - cbn [mbind option_bind]. rewrite (expiries_frame getc (tm st) h1) in Hexp by done.
    eexists. split; [done|]. cbn [tm sys_timers_list fired].
    assert (l' ≡ₚ t :: sys_timers_list st) as Hperm.
    { rewrite <- (expiries_snd getc h' l' 0), Hexp, exp_insert_perm. cbn. by rewrite expiries_snd. }
    rewrite expiries_alter by done. split_and!; try done.
    + split; cbn.
      * split; [by rewrite Hperm; constructor|by apply entries_alter|].
        rewrite expiries_alter, Hexp, exp_insert_perm by done. constructor; [cbn; lia|done].
      * eapply (edit_started (tm st) h1 h' t (sys_timers_list st) l' true); try done; [apply (ok_started _ Hok)|..].
        -- intros y Hy. unfold h1. by rewrite lookup_alter_ne.
        -- apply state_bit_set.
        -- intros y Hy. rewrite Hperm, elem_of_cons. naive_solver.
        -- rewrite Hperm, elem_of_cons. naive_solver.
    + intros y. rewrite kept_alter, (kept_rest h1 h') by done. by apply kept_alter.
Qed.

Lemma stop_ok t x st :
  ok st -> tm st !! t = Some x -> t ∈ sys_timers_list st ->
  exists st', timer_strat_stop t st = Some st' /\ ok st' /\
    exps st' = exp_remove t (exps st) /\ fired st' = fired st /\
    (forall y, kept <$> tm st' !! y = kept <$> tm st !! y).
Proof.
  intros Hok Hx Ht. unfold timer_strat_stop. set (h1 := alter sys_timer_set_stopped t (tm st)).
  destruct (ok_delta _ Hok) as [Hnd Hent Hr].
  destruct (delta_remove_spec getc setc rest wf get_set wf_set rest_set t (sys_timers_list st) h1 0)
    as (l' & h' & -> & Hexp & Hent' & Hrest & Hfr); try done.
  - by apply entries_alter.
  - unfold h1. by rewrite expiries_alter.
  - cbn [mbind option_bind]. unfold h1 in Hexp. rewrite expiries_alter in Hexp by done.
    eexists. split; [done|]. cbn [tm sys_timers_list fired].
    assert (forall y, y ∈ l' <-> y ∈ sys_timers_list st /\ y <> t) as Hl'.
    { intros y. rewrite <- (expiries_snd getc h' l' 0), Hexp. unfold exp_remove.
      rewrite filter_snd, expiries_snd, list_elem_of_filter. tauto. }
    split_and!; try done.
    + split; cbn.
      * split; [|done|].
        { rewrite <- (expiries_snd getc h' l' 0), Hexp. unfold exp_remove.
          rewrite filter_snd, expiries_snd. by apply NoDup_filter. }
        rewrite Hexp. apply Forall_forall. intros z [Hz _]%exp_remove_elem.
        by apply (proj1 (Forall_forall _ _) Hr).
      * intros y z Hy. rewrite Hl'. destruct (decide (y = t)) as [->|Hne].
        -- rewrite Hfr in Hy by (by right). unfold h1 in Hy. rewrite lookup_alter_eq, Hx in Hy.
           cbn in Hy. simplify_eq. rewrite state_bit_clear. naive_solver.
        -- specialize (Hrest y). unfold h1 in Hrest. rewrite Hy, lookup_alter_ne in Hrest by done.
           destruct (tm st !! y) as [z0|] eqn:Hz0; [|done]. cbn in Hrest.
           assert (state z = state z0) as Hs by (unfold rest in Hrest; congruence).
           unfold sys_timer_is_started. rewrite Hs. rewrite <- (ok_started _ Hok _ _ Hz0).
           unfold sys_timer_is_started. naive_solver.
    + intros y. rewrite (kept_rest h1 h') by done. by apply kept_alter.
Qed.

Lemma next_event_ok st :
  ok st -> timer_strat_get_next_event st = Some (fst <$> head (exps st)).
Proof.
  intros Hok. unfold timer_strat_get_next_event. destruct (ok_delta _ Hok) as [_ Hent _].
  destruct (sys_timers_list st) as [|t l]; [done|]. apply Forall_cons in Hent as [Ht _].
  destruct (cnt_of_ok getc wf _ _ Ht) as [-> _]. cbn. by rewrite Z.add_0_l.
Qed.

(** * The pass over the list, for one-shot timers and handlers that leave the
      timers alone *)

Definition oneshot (st : tst) : Prop :=
  forall t x, tm st !! t = Some x -> sys_timer_is_periodic x = false.

(** What the pass does in terms of expiries: each timer that is fired is also
    taken off the time the others are compared with. *)
Fixpoint pass (jiffies : Z) (l : list (Z * Z)) : list Z * list (Z * Z) :=
  match l with
  | [] => ([], [])
  | (e, t) :: l' =>
    if jiffies <? e then ([], l)
    else let '(fs, l'') := pass (jiffies - e) l' in (t :: fs, l'')
  end.

Lemma oneshot_kept st st' :
  (forall y, kept <$> tm st' !! y = kept <$> tm st !! y) -> oneshot st -> oneshot st'.
Proof.
  intros Hk Ho t x Hx. specialize (Hk t). rewrite Hx in Hk.
  destruct (tm st !! t) as [x0|] eqn:E; [|done]. cbn in Hk. unfold kept in Hk.
  assert (flags x = flags x0) as Hf by congruence. unfold sys_timer_is_periodic.
  rewrite Hf. by apply (Ho t x0).
Qed.

Lemma sched_loop_pass fuel now : forall jiffies st,
  ok st -> oneshot st -> 0 <= jiffies < 2 ^ 64 -> (length (sys_timers_list st) < fuel)%nat ->
  exists st', sched_loop (fun _ st => Some st) fuel now jiffies (hd_error (sys_timers_list st)) st = Some st' /\
    ok st' /\ fired st' = fired st ++ (pass jiffies (exps st)).1 /\
    exps st' = (pass jiffies (exps st)).2.
Proof.
  induction fuel as [|fuel IH]; intros jiffies st Hok Hone Hj Hf; [lia|].
  destruct (sys_timers_list st) as [|t l] eqn:El.
  { exists st. cbn. rewrite El, app_nil_r. done. }
  destruct (ok_delta _ Hok) as [Hnd Hent _]. rewrite El in Hnd, Hent.
  apply Forall_cons in Hent as [Ht Hent]. destruct (cnt_of_ok getc wf _ _ Ht) as [Hct Hc0].
  destruct Ht as (x & Hx & _). cbn [sched_loop hd_error]. rewrite El. cbn [next_in].
  rewrite bool_decide_true by done. cbn [mbind option_bind]. rewrite Hct. cbn [mbind option_bind].
  cbn [expiries pass]. rewrite Z.add_0_l.
  destruct (Z.ltb_spec jiffies (cntv getc (tm st) t)) as [Hlt|Hge].
  { exists st. rewrite El. cbn. rewrite app_nil_r, Z.add_0_l. done. }
  rewrite wrap_small by lia.
  destruct (stop_ok t x st Hok Hx) as (st1 & -> & Hok1 & He1 & Hfi1 & Hk1); [rewrite El; left|].
  cbn [mbind option_bind].
  pose proof (oneshot_kept _ _ Hk1 Hone) as Hone1.
  destruct (tm st1 !! t) as [x1|] eqn:Hx1.
  2: { specialize (Hk1 t). by rewrite Hx, Hx1 in Hk1. }
  cbn [mbind option_bind]. rewrite (Hone1 _ _ Hx1). cbn [mbind option_bind].
  assert (exps st1 = expiries getc (tm st) l (cntv getc (tm st) t)) as Hexp1.
  { rewrite He1, El. cbn [expiries]. rewrite Z.add_0_l. unfold exp_remove.
    rewrite filter_cons_False by (cbn; naive_solver). apply filter_all.
    intros [e y] Hy Heq. cbn in Heq. subst y. apply NoDup_cons in Hnd as [Hnd _]. apply Hnd.
    rewrite <- (expiries_snd getc (tm st) l (cntv getc (tm st) t)).
    by apply (list_elem_of_fmap_2 snd _ (e, t)). }
  assert (sys_timers_list st1 = l) as Hl1
    by (rewrite <- (expiries_snd getc (tm st1) (sys_timers_list st1) 0), Hexp1; apply expiries_snd).
  set (st2 := Tst (tm st1) (sys_timers_list st1) (fired st1 ++ [t])).
  destruct (IH (jiffies - cntv getc (tm st) t) st2) as (st' & Hs & Hok' & Hfi & Hex).
  - split; [apply (ok_delta _ Hok1)|apply (ok_started _ Hok1)].
  - done.
  - lia.
  - cbn. rewrite Hl1. cbn in Hf. lia.
  - change (sys_timers_list st2) with (sys_timers_list st1) in Hs. rewrite Hl1 in Hs. rewrite Hs.
    exists st'. split; [done|]. split; [done|].
    change (exps st2) with (exps st1) in Hfi, Hex. rewrite Hexp1 in Hfi, Hex.
    destruct (pass _ _) as [fs l']. cbn in *. rewrite Hfi, Hfi1. by rewrite <- app_assoc.
Qed.

End HeadTimer.
