(* ===== verification/Pool.v ===== *)
(** Pools of fixed-size objects, [src/mem/misc/pool.c].

    Addresses are integers.  The list of free blocks is the list of their
    addresses; the link that is written into a free block is not modelled, the
    block's contents being nobody's while it is free.  [live] in the invariant
    is the set of objects the clients hold. *)
From S2P Require Import Prelude.

Local Open Scope Z_scope.
Local Open Scope embox_scope.

Record pool := Pool {
  memory : Z;
  free_blocks : list Z;
  obj_size : Z;
  pool_size : Z;
  bound_free : Z
}.

(** [POOL_DEF]: [n] objects of [osize] bytes at [mem]. *)
Definition POOL_DEF (mem osize n : Z) : pool :=
  {| memory := mem; free_blocks := []; obj_size := osize; pool_size := osize * n;
     bound_free := mem |}.

Definition pool_belong (pl : pool) (obj : Z) : bool :=
  (memory pl <=? obj) && (obj + obj_size pl <=? memory pl + pool_size pl) &&
  ((obj - memory pl) mod obj_size pl =? 0).

(** [None] is NULL. *)
Definition pool_alloc (pl : pool) : option (option Z * pool) :=
  match free_blocks pl with
  | obj :: rest =>
    Some (Some obj, Pool (memory pl) rest (obj_size pl) (pool_size pl) (bound_free pl))
  | [] =>
    if negb (bound_free pl =? memory pl + pool_size pl) then
      let obj := bound_free pl in
      let bound := bound_free pl + obj_size pl in
      assert! bound <=? memory pl + pool_size pl ;;
      Some (Some obj, Pool (memory pl) [] (obj_size pl) (pool_size pl) bound)
    else Some (None, pl)
  end.

Definition pool_free (pl : pool) (obj : Z) : option pool :=
  assert! pool_belong pl obj ;;
  Some (Pool (memory pl) (obj :: free_blocks pl) (obj_size pl) (pool_size pl) (bound_free pl)).

(** * The invariant: the blocks handed out so far are the free ones and the
      live ones, each exactly once *)

Definition block (pl : pool) (i : Z) : Z := memory pl + i * obj_size pl.

Record pool_ok (pl : pool) (n : Z) (live : list Z) : Prop := {
  po_size : 0 < obj_size pl;
  po_n : 0 <= n /\ pool_size pl = obj_size pl * n;
  po_bound : exists k, 0 <= k <= n /\ bound_free pl = block pl k /\
    free_blocks pl ++ live ≡ₚ block pl <$> (Z.of_nat <$> seq 0 (Z.to_nat k))
}.

Lemma pool_def_ok mem osize n : 0 < osize -> 0 <= n -> pool_ok (POOL_DEF mem osize n) n [].
Proof.
  intros Ho Hn. split; cbn; [done|lia|]. exists 0. split_and!; [lia|lia| |done].
  unfold block. cbn. lia.
Qed.

Lemma block_inj pl i j : 0 < obj_size pl -> block pl i = block pl j -> i = j.
Proof. unfold block. intros. nia. Qed.

Lemma blocks_nodup pl k : 0 < obj_size pl -> NoDup (block pl <$> (Z.of_nat <$> seq 0 k)).
Proof.
  intros Ho. apply NoDup_fmap_2_strong.
  - intros x y _ _. by apply block_inj.
  - apply NoDup_fmap_2; [|apply NoDup_seq]. intros x y. lia.
Qed.

Lemma blocks_elem pl k x :
  x ∈ block pl <$> (Z.of_nat <$> seq 0 (Z.to_nat k)) <-> exists i, 0 <= i < k /\ x = block pl i.
Proof.
  rewrite list_elem_of_fmap. setoid_rewrite list_elem_of_fmap. setoid_rewrite elem_of_seq. split.
  - intros (i & -> & j & -> & Hj). exists (Z.of_nat j). split; [lia|done].
  - intros (i & Hi & ->). exists i. split; [done|]. exists (Z.to_nat i). lia.
Qed.

Lemma block_belong pl n live i :
  pool_ok pl n live -> 0 <= i < n -> pool_belong pl (block pl i) = true.
Proof.
  intros [Ho [Hn Hs] _] Hi. unfold pool_belong, block. rewrite Hs.
  replace (memory pl + i * obj_size pl - memory pl) with (i * obj_size pl) by lia.
  rewrite Z.mod_mul by lia. rewrite Z.eqb_refl, andb_true_r.
  apply andb_true_iff. split; apply Z.leb_le; nia.
Qed.

(** Everything live is a block of the pool. *)
Lemma live_block pl n live x :
  pool_ok pl n live -> x ∈ live -> exists i, 0 <= i < n /\ x = block pl i.
Proof.
  intros [_ _ (k & Hk & _ & Hp)] Hx.
  assert (x ∈ free_blocks pl ++ live) as Hin by (apply elem_of_app; by right).
  rewrite Hp, blocks_elem in Hin. destruct Hin as (i & Hi & ->). exists i. split; [lia|done].
Qed.

Lemma pool_nodup pl n live : pool_ok pl n live -> NoDup (free_blocks pl ++ live).
Proof. intros [Ho _ (k & _ & _ & ->)]. by apply blocks_nodup. Qed.

Lemma pool_count pl n live :
  pool_ok pl n live -> zlen (free_blocks pl) + zlen live <= n.
Proof.
  intros [_ [Hn _] (k & Hk & _ & Hp)]. apply Permutation_length in Hp.
  rewrite length_app, !length_fmap, length_seq in Hp. unfold zlen. lia.
Qed.

Lemma blocks_succ pl k :
  0 <= k -> block pl <$> (Z.of_nat <$> seq 0 (Z.to_nat (k + 1))) =
  (block pl <$> (Z.of_nat <$> seq 0 (Z.to_nat k))) ++ [block pl k].
Proof.
  intros Hk. replace (Z.to_nat (k + 1)) with (Z.to_nat k + 1)%nat by lia.
  rewrite seq_app, !fmap_app. cbn. do 3 f_equal. lia.
Qed.

Lemma pool_alloc_ok pl n live :
  pool_ok pl n live ->
  if zlen live =? n then pool_alloc pl = Some (None, pl)
  else exists x pl', pool_alloc pl = Some (Some x, pl') /\ x ∉ live /\
         pool_belong pl x = true /\ pool_ok pl' n (x :: live).
Proof.
  intros Hok. pose proof Hok as [Ho [Hn Hs] (k & Hk & Hb & Hp)].
  pose proof (pool_nodup _ _ _ Hok) as Hnd. pose proof (Permutation_length Hp) as Hlen.
  rewrite length_app, !length_fmap, length_seq in Hlen. unfold pool_alloc.
  destruct (free_blocks pl) as [|obj rest] eqn:Ef.
  - cbn [app length] in *. assert (zlen live = k) as Hl by (unfold zlen; lia). rewrite Hl, Hb.
    unfold block. rewrite Hs.
    destruct (Z.eqb_spec k n) as [->|Hne].
    { destruct (Z.eqb_spec (memory pl + n * obj_size pl) (memory pl + obj_size pl * n)); [done|lia]. }
    destruct (Z.eqb_spec (memory pl + k * obj_size pl) (memory pl + obj_size pl * n)); [nia|].
    cbn [negb].
    destruct (Z.leb_spec (memory pl + k * obj_size pl + obj_size pl) (memory pl + obj_size pl * n)); [|nia].
    fold (block pl k). eexists (block pl k), _. split; [done|]. split_and!.
    + rewrite Hp, blocks_elem. intros (i & Hi & He%block_inj); [lia|done].
    + eapply block_belong; [done|lia].
    + split; cbn; [done|lia|]. exists (k + 1). split_and!; [lia|lia|unfold block; cbn; lia|].
      change (block {| memory := memory pl; free_blocks := []; obj_size := obj_size pl;
                       pool_size := obj_size pl * n; bound_free := block pl k + obj_size pl |})
        with (block pl).
      rewrite blocks_succ by lia. rewrite <- Hp. by rewrite Permutation_app_comm.
  - destruct (Z.eqb_spec (zlen live) n) as [He|_]; [unfold zlen in He; cbn in Hlen; lia|].
    eexists obj, _. split; [done|]. apply NoDup_cons in Hnd as [Hni Hnd].
    assert (obj ∈ (obj :: rest) ++ live) as Hin by (left; done).
    rewrite Hp, blocks_elem in Hin. destruct Hin as (i & Hi & Hobj). split_and!.
    + intros Hl. apply Hni, elem_of_app. by right.
    + rewrite Hobj. eapply block_belong; [done|lia].
    + split; cbn; [done|lia|]. exists k. split_and!; [lia|lia|done|].
      rewrite <- Permutation_middle. exact Hp.
Qed.

Lemma pool_free_ok pl n live1 x live2 :
  pool_ok pl n (live1 ++ x :: live2) -> exists pl', pool_free pl x = Some pl' /\
    pool_ok pl' n (live1 ++ live2) /\ pool_alloc pl' = Some (Some x, pl) /\ memory pl' = memory pl.
Proof.
  intros Hok. destruct (live_block _ _ _ x Hok) as (i & Hi & ->); [set_solver|].
  unfold pool_free. rewrite (block_belong _ _ _ i Hok Hi). eexists. split; [done|].
  destruct Hok as [Ho Hs (k & Hk & Hb & Hp)]. split; [|by destruct pl].
  split; cbn; [done|done|]. exists k. split_and!; [lia|lia|done|].
  etransitivity; [|exact Hp]. cbn. rewrite !app_assoc. apply Permutation_middle.
Qed.

Lemma pool_ok_perm pl n live live' : live ≡ₚ live' -> pool_ok pl n live -> pool_ok pl n live'.
Proof.
  intros Hp [Ho Hs (k & Hk & Hb & Hl)]. split; [done|done|]. exists k. split_and!; [lia|lia|done|]. by rewrite <- Hp.
Qed.

Lemma pool_alloc_memory pl x pl' : pool_alloc pl = Some (x, pl') -> memory pl' = memory pl.
Proof. unfold pool_alloc. intros H. repeat case_match; simplify_eq; done. Qed.

(** The place and the size of a pool do not change. *)
Lemma pool_alloc_shape pl x pl' : pool_alloc pl = Some (x, pl') ->
  memory pl' = memory pl /\ forall p, pool_belong pl' p = pool_belong pl p.
Proof. unfold pool_alloc. intros H. repeat case_match; simplify_eq; done. Qed.

Lemma pool_free_shape pl x pl' : pool_free pl x = Some pl' ->
  memory pl' = memory pl /\ forall p, pool_belong pl' p = pool_belong pl p.
Proof. unfold pool_free. intros H. repeat case_match; simplify_eq; done. Qed.

(** C20: a pool hands out every object once.  An allocation succeeds exactly
    when fewer than [n] objects are live, and gives a block of the pool that no
    client holds; freeing a live object makes it, and none of the others, the
    next to be allocated. *)
Theorem pool_correct pl n live :
  pool_ok pl n live ->
  (if zlen live =? n then pool_alloc pl = Some (None, pl)
   else exists x pl', pool_alloc pl = Some (Some x, pl') /\ x ∉ live /\
          pool_belong pl x = true /\ pool_ok pl' n (x :: live)) /\
  (forall live1 x live2, live = live1 ++ x :: live2 -> exists pl', pool_free pl x = Some pl' /\
     pool_ok pl' n (live1 ++ live2) /\ pool_alloc pl' = Some (Some x, pl)).
Proof.
  intros Hok. split; [by apply pool_alloc_ok|]. intros live1 x live2 ->.
  destruct (pool_free_ok _ _ _ _ _ Hok) as (pl' & E & Hok' & Ea & _). by exists pl'.
Qed.

Lemma pool_correct_witness :
  exists x pl', pool_alloc (POOL_DEF 4096 24 2) = Some (Some x, pl') /\ x ∉ [] /\
    pool_belong (POOL_DEF 4096 24 2) x = true /\ pool_ok pl' 2 [x].
Proof.
  apply (pool_correct (POOL_DEF 4096 24 2) 2 []). apply pool_def_ok; lia.
Defined.
