(* ===== verification/Time.v ===== *)
(** Time arithmetic: [src/kernel/time/timeval.c], the conversions of
    [src/include/kernel/time/time.h], [src/kernel/time/jiffies.c] and
    [src/kernel/time/timer/itimer.c].

    [time_t] and [long] have the width of the target ([sl]); [time64_t] is 64
    bits wide.  C's division truncates ([Z.quot], [Z.rem]).  A clock source's
    reading is an argument. *)
From S2P Require Import Prelude.

Local Open Scope Z_scope.
Local Open Scope embox_scope.

Definition MSEC_PER_SEC : Z := 1000.
Definition USEC_PER_MSEC : Z := 1000.
Definition NSEC_PER_USEC : Z := 1000.
Definition NSEC_PER_MSEC : Z := 1000000.
Definition NSEC_PER_SEC : Z := 1000000000.

Record timespec := Timespec { tv_sec : Z; tv_nsec : Z }.
Record timeval := Timeval { tvv_sec : Z; tvv_usec : Z }.

Section Time.
Context `{A : arch}.

(** The two loops of [set_normalized_timespec]. *)
Fixpoint normalize_down (fuel : nat) (sec nsec : Z) : option (Z * Z) :=
  match fuel with
  | O => None
  | S fuel =>
    if nsec >=? NSEC_PER_SEC
    then normalize_down fuel (sl (sec + 1)) (sl (nsec - NSEC_PER_SEC)) else Some (sec, nsec)
  end.

Fixpoint normalize_up (fuel : nat) (sec nsec : Z) : option (Z * Z) :=
  match fuel with
  | O => None
  | S fuel =>
    if nsec <? 0
    then normalize_up fuel (sl (sec - 1)) (sl (nsec + NSEC_PER_SEC)) else Some (sec, nsec)
  end.

(** One turn per second in [nsec], and one to leave. *)
Definition normalize_fuel (nsec : Z) : nat := Z.to_nat (Z.abs nsec / NSEC_PER_SEC + 2).

Definition set_normalized_timespec (sec nsec : Z) : option timespec :=
  '(sec, nsec) ← normalize_down (normalize_fuel nsec) sec nsec;
  '(sec, nsec) ← normalize_up (normalize_fuel nsec) sec nsec;
  Some (Timespec sec nsec).

Definition timespec_add (t1 t2 : timespec) : option timespec :=
  set_normalized_timespec (sl (tv_sec t1 + tv_sec t2)) (sl (tv_nsec t1 + tv_nsec t2)).

Definition timespec_sub (t1 t2 : timespec) : option timespec :=
  set_normalized_timespec (sl (tv_sec t1 - tv_sec t2)) (sl (tv_nsec t1 - tv_nsec t2)).

Definition ns_to_timespec (nsec : Z) : timespec :=
  let sec := sl (Z.quot nsec NSEC_PER_SEC) in
  let ns := sl (Z.rem nsec NSEC_PER_SEC) in
  if nsec <? 0 then Timespec (sl (sec - 1)) (sl (ns + NSEC_PER_SEC)) else Timespec sec ns.

Definition ns_to_timeval (nsec : Z) : timeval :=
  let ts := ns_to_timespec nsec in
  Timeval (tv_sec ts) (Z.quot (tv_nsec ts) NSEC_PER_USEC).

(** * [time.h] *)

Definition timespec_to_ns (ts : timespec) : Z := s64 (s64 (tv_sec ts * NSEC_PER_SEC) + tv_nsec ts).

Definition timespec_to_ms (ts : timespec) : Z :=
  s64 (s64 (tv_sec ts * MSEC_PER_SEC) + Z.quot (tv_nsec ts) NSEC_PER_MSEC).

Definition timespec_to_hw (ts : timespec) (hz : Z) : Z :=
  u64 (u64 (u64 (tv_sec ts) * hz) + u64 (u64 (tv_nsec ts) * hz) / NSEC_PER_SEC).

Definition timeval_to_ms (tv : timeval) : Z :=
  ul (ul (ul (tvv_sec tv) * MSEC_PER_SEC) + Z.quot (tvv_usec tv) USEC_PER_MSEC).

Definition ms_to_timeval (ms : Z) : timeval :=
  Timeval (sl (ms / MSEC_PER_SEC)) (sl (ul ((ms mod MSEC_PER_SEC) * USEC_PER_MSEC))).

Definition timeval_to_ns (tv : timeval) : Z :=
  s64 (s64 (tvv_sec tv * NSEC_PER_SEC) + sl (tvv_usec tv * NSEC_PER_USEC)).

Definition clock_to_ns (hz ticks : Z) : option Z :=
  assert! negb (hz =? 0) ;;
  Some (Z.quot (s64 (s64 (ticks * NSEC_PER_SEC) + hz - 1)) hz).

Definition ns_to_clock (hz ns : Z) : option Z :=
  assert! negb (hz =? 0) ;;
  Some (u64 (Z.quot (s64 (s64 (ns * hz) + NSEC_PER_SEC - 1)) NSEC_PER_SEC + 1)).

Definition cycles64_to_timespec (hz cycles : Z) : option timespec :=
  assert! negb (hz =? 0) ;;
  Some (Timespec (sl (cycles / hz)) (sl (u64 ((cycles mod hz) * NSEC_PER_SEC) / hz))).

Definition jiffies_to_timespec (hz jiffies : Z) : option timespec :=
  assert! negb (hz =? 0) ;;
  Some (Timespec (sl (jiffies / hz)) (sl ((NSEC_PER_SEC / hz) * (jiffies mod hz)))).

Definition ns_to_cycles (hz ns : Z) : option Z :=
  assert! negb (hz =? 0) ;;
  Some (u64 (Z.quot (s64 (s64 (ns * hz) + NSEC_PER_SEC - 1)) NSEC_PER_SEC)).

(** * [jiffies.c]: [hz] is [cs_jiffies->event_device->event_hz] *)

Definition ns2jiffies (hz ns : Z) : option Z := ns_to_clock hz ns.
Definition ms2jiffies (hz ms : Z) : option Z := ns2jiffies hz (s64 (ms * NSEC_PER_MSEC)).
Definition jiffies2ms (hz jiff : Z) : option Z :=
  ns ← clock_to_ns hz jiff; Some (Z.quot ns NSEC_PER_MSEC).

(** * [itimer.c]: [clock] is [clock_source_read(it->cs)] *)

Record itimer := Itimer { start_value : timespec }.

Definition itimer_init (clock : timespec) (start_tstamp : Z) : option itimer :=
  v ← timespec_add (ns_to_timespec start_tstamp) clock; Some (Itimer v).

Definition itimer_read_timespec (it : itimer) (clock : timespec) : option timespec :=
  timespec_sub clock (start_value it).

Definition itimer_read_ns (it : itimer) (clock : timespec) : option Z :=
  ts ← itimer_read_timespec it clock; Some (timespec_to_ns ts).

End Time.

(** * Values *)

Definition normalized (ts : timespec) : Prop := 0 <= tv_nsec ts < NSEC_PER_SEC.
(** The instant a [timespec] stands for, in nanoseconds. *)
Definition ns_of (ts : timespec) : Z := tv_sec ts * NSEC_PER_SEC + tv_nsec ts.
(** Seconds that leave room for a carry. *)
Definition sec_ok `{A : arch} (s : Z) : Prop := - 2 ^ (LONG_BIT - 1) + 8 <= s < 2 ^ (LONG_BIT - 1) - 8.

Section Facts.
Context `{A : arch} `{!ArchOk A}.

Lemma normalize_down_ok n : forall sec nsec,
  nsec < (Z.of_nat n) * NSEC_PER_SEC -> (0 < n)%nat -> - 2 ^ 31 <= nsec < 2 ^ 31 ->
  - 2 ^ (LONG_BIT - 1) <= sec -> sec + Z.of_nat n <= 2 ^ (LONG_BIT - 1) ->
  exists sec' nsec', normalize_down n sec nsec = Some (sec', nsec') /\
    sec' * NSEC_PER_SEC + nsec' = sec * NSEC_PER_SEC + nsec /\ nsec' < NSEC_PER_SEC /\
    (nsec' = nsec \/ 0 <= nsec') /\ sec <= sec' <= sec + Z.of_nat n.
Proof.
  unfold NSEC_PER_SEC. induction n as [|n IH]; intros sec nsec Hn Hpos Hr Hs1 Hs2; [lia|].
  cbn [normalize_down]. rewrite Z.geb_leb. change NSEC_PER_SEC with 1000000000.
  destruct (Z.leb_spec 1000000000 nsec); [|exists sec, nsec; split_and!; try done; lia].
  rewrite sl_small by lia. rewrite sl_32 by lia.
  destruct (IH (sec + 1) (nsec - 1000000000)) as (sec' & nsec' & -> & ? & ? & ? & ?);
    [lia|lia|lia|lia|lia|]. exists sec', nsec'. split_and!; try done; lia.
Qed.

Lemma normalize_up_ok n : forall sec nsec,
  - nsec <= (Z.of_nat n - 1) * NSEC_PER_SEC -> (0 < n)%nat -> - 2 ^ 31 <= nsec < NSEC_PER_SEC ->
  - 2 ^ (LONG_BIT - 1) + Z.of_nat n <= sec -> sec < 2 ^ (LONG_BIT - 1) ->
  exists sec' nsec', normalize_up n sec nsec = Some (sec', nsec') /\
    sec' * NSEC_PER_SEC + nsec' = sec * NSEC_PER_SEC + nsec /\ 0 <= nsec' < NSEC_PER_SEC.
Proof.
  unfold NSEC_PER_SEC. induction n as [|n IH]; intros sec nsec Hn Hpos Hr Hs1 Hs2; [lia|].
  cbn [normalize_up]. change NSEC_PER_SEC with 1000000000.
  destruct (Z.ltb_spec nsec 0); [|exists sec, nsec; split_and!; try done; lia].
  rewrite (sl_small (sec - 1)) by lia. rewrite sl_32 by lia.
  destruct (IH (sec - 1) (nsec + 1000000000)) as (sec' & nsec' & -> & ? & ?);
    [lia|lia|lia|lia|lia|]. exists sec', nsec'. split_and!; try done; lia.
Qed.

Lemma set_normalized_ok sec nsec :
  sec_ok sec -> - 2 ^ 31 <= nsec < 2 ^ 31 ->
  exists ts, set_normalized_timespec sec nsec = Some ts /\ normalized ts /\
    ns_of ts = sec * NSEC_PER_SEC + nsec.
Proof.
  unfold sec_ok. intros Hs Hn. unfold set_normalized_timespec.
  assert (forall x, Z.abs x <= 2 ^ 31 -> (2 <= normalize_fuel x <= 4)%nat /\
    Z.abs x <= (Z.of_nat (normalize_fuel x) - 1) * NSEC_PER_SEC) as Hfuel.
  { intros x Hx. unfold normalize_fuel, NSEC_PER_SEC.
    assert (0 <= Z.abs x / 1000000000 <= 2).
    { split; [apply Z.div_pos; lia|]. apply Z.lt_succ_r, Z.div_lt_upper_bound; lia. }
    pose proof (Z.mod_pos_bound (Z.abs x) 1000000000 ltac:(lia)).
    pose proof (Z.div_mod (Z.abs x) 1000000000 ltac:(lia)). lia. }
  destruct (Hfuel nsec) as [Hf1 Hf2]; [lia|].
  destruct (normalize_down_ok (normalize_fuel nsec) sec nsec) as
    (s1 & n1 & -> & Hv1 & Hlt1 & Hor & Hs1); [unfold NSEC_PER_SEC in *; lia|lia|lia|lia|lia|].
  cbn [mbind option_bind].
  destruct (Hfuel n1) as [Hf3 Hf4]; [unfold NSEC_PER_SEC in *; lia|].
  destruct (normalize_up_ok (normalize_fuel n1) s1 n1) as (s2 & n2 & -> & Hv2 & Hr2);
    [lia|lia|unfold NSEC_PER_SEC in *; lia|lia|lia|].
  cbn [mbind option_bind]. eexists. split; [done|]. split; [done|]. unfold ns_of. cbn. lia.
Qed.

(** The loops end whatever the fields hold; the seconds may wrap. *)
Lemma normalize_down_ends n : forall sec nsec,
  nsec < Z.of_nat n * NSEC_PER_SEC -> (0 < n)%nat -> nsec < 2 ^ (LONG_BIT - 1) ->
  exists sec' nsec', normalize_down n sec nsec = Some (sec', nsec') /\
    nsec' < NSEC_PER_SEC /\ (nsec' = nsec \/ 0 <= nsec').
Proof.
  unfold NSEC_PER_SEC. induction n as [|n IH]; intros sec nsec Hn Hpos Hr; [lia|].
  cbn [normalize_down]. rewrite Z.geb_leb. change NSEC_PER_SEC with 1000000000.
  destruct (Z.leb_spec 1000000000 nsec); [|exists sec, nsec; split_and!; try done; lia].
  rewrite (sl_small (nsec - _)) by lia.
  destruct (IH (sl (sec + 1)) (nsec - 1000000000)) as (s & k & -> & ? & ?); [lia..|].
  exists s, k. split_and!; try done; lia.
Qed.

Lemma normalize_up_ends n : forall sec nsec,
  - nsec <= (Z.of_nat n - 1) * NSEC_PER_SEC -> (0 < n)%nat ->
  - 2 ^ (LONG_BIT - 1) <= nsec < NSEC_PER_SEC ->
  exists sec' nsec', normalize_up n sec nsec = Some (sec', nsec') /\ 0 <= nsec' < NSEC_PER_SEC.
Proof.
  pose proof long_bit_ge_32 as HL. assert (2 ^ 31 <= 2 ^ (LONG_BIT - 1)) as HP by (apply Z.pow_le_mono_r; lia).
  unfold NSEC_PER_SEC. induction n as [|n IH]; intros sec nsec Hn Hpos Hr; [lia|].
  cbn [normalize_up]. change NSEC_PER_SEC with 1000000000.
  destruct (Z.ltb_spec nsec 0); [|exists sec, nsec; split_and!; try done; lia].
  rewrite (sl_small (nsec + _)) by lia.
  destruct (IH (sl (sec - 1)) (nsec + 1000000000)) as (s & k & -> & ?); [lia..|]. by exists s, k.
Qed.

Lemma set_normalized_ends sec x :
  exists ts, set_normalized_timespec sec (sl x) = Some ts /\ normalized ts.
Proof.
  unfold set_normalized_timespec. pose proof (sl_range x) as Hr.
  assert (forall y, (2 <= normalize_fuel y)%nat /\ Z.abs y <= (Z.of_nat (normalize_fuel y) - 1) * NSEC_PER_SEC)
    as Hfuel.
  { intros y. unfold normalize_fuel, NSEC_PER_SEC.
    pose proof (Z.mod_pos_bound (Z.abs y) 1000000000 ltac:(lia)).
    pose proof (Z.div_mod (Z.abs y) 1000000000 ltac:(lia)).
    assert (0 <= Z.abs y / 1000000000) by (apply Z.div_pos; lia). lia. }
  destruct (Hfuel (sl x)) as [Hf1 Hf2].
  destruct (normalize_down_ends (normalize_fuel (sl x)) sec (sl x)) as (s1 & n1 & -> & Hlt & Hor);
    [unfold NSEC_PER_SEC in *; lia|lia|lia|]. cbn [mbind option_bind].
  destruct (Hfuel n1) as [Hf3 Hf4].
  destruct (normalize_up_ends (normalize_fuel n1) s1 n1) as (s2 & n2 & -> & Hn2); [lia|lia|lia|].
  cbn [mbind option_bind]. eexists. split; [done|]. exact Hn2.
Qed.

Lemma timespec_sub_ok t1 t2 :
  normalized t1 -> normalized t2 -> sec_ok (tv_sec t1 - tv_sec t2) ->
  exists ts, timespec_sub t1 t2 = Some ts /\ normalized ts /\ ns_of ts = ns_of t1 - ns_of t2.
Proof.
  unfold normalized, NSEC_PER_SEC. intros H1 H2 Hs. unfold timespec_sub.
  rewrite (sl_small (tv_sec t1 - _)) by (unfold sec_ok in *; lia). rewrite sl_32 by lia.
  destruct (set_normalized_ok _ (tv_nsec t1 - tv_nsec t2) Hs) as (s & -> & Hns & Hvs); [lia|].
  exists s. split_and!; try done; try apply Hns. unfold ns_of, NSEC_PER_SEC in *. lia.
Qed.

Lemma timespec_to_ns_exact ts : normalized ts -> Z.abs (ns_of ts) < 2 ^ 62 -> timespec_to_ns ts = ns_of ts.
Proof.
  unfold normalized, ns_of, timespec_to_ns, NSEC_PER_SEC. intros Hn Hr.
  rewrite (swrap_small 64 (tv_sec ts * 1000000000)), swrap_small by lia. done.
Qed.

Lemma quot_rem_ns ns :
  ns = NSEC_PER_SEC * Z.quot ns NSEC_PER_SEC + Z.rem ns NSEC_PER_SEC /\
  (0 <= ns -> 0 <= Z.rem ns NSEC_PER_SEC < NSEC_PER_SEC) /\
  (ns < 0 -> - NSEC_PER_SEC < Z.rem ns NSEC_PER_SEC <= 0).
Proof.
  unfold NSEC_PER_SEC. split; [apply Z.quot_rem; lia|]. split; intros H.
  - apply Z.rem_bound_pos; lia.
  - pose proof (Z.rem_opp_l ns 1000000000 ltac:(lia)).
    pose proof (Z.rem_bound_pos (- ns) 1000000000). lia.
Qed.

(** The instant is kept; only whole negative seconds are left unnormalized. *)
Lemma ns_to_timespec_ns ns :
  - 2 ^ 31 * NSEC_PER_SEC < ns < 2 ^ 31 * NSEC_PER_SEC ->
  ns_of (ns_to_timespec ns) = ns /\
  (normalized (ns_to_timespec ns) <-> 0 <= ns \/ ns mod NSEC_PER_SEC <> 0).
Proof.
  intros Hr. destruct (quot_rem_ns ns) as (Hqr & Hpos & Hneg).
  unfold ns_to_timespec, ns_of, normalized, NSEC_PER_SEC in *.
  rewrite (sl_32 (Z.quot _ _)), (sl_32 (Z.rem _ _)) by lia.
  destruct (Z.ltb_spec ns 0); cbn [tv_sec tv_nsec]; [|lia]. rewrite !sl_32 by lia.
  split; [lia|]. specialize (Hneg ltac:(lia)).
  destruct (Z.eq_dec (Z.rem ns 1000000000) 0) as [Hz|Hz].
  - assert (ns mod 1000000000 = 0) as Hm
      by (rewrite Hqr, Hz, Z.add_0_r, Z.mul_comm; apply Z.mod_mul; lia). lia.
  - assert (ns mod 1000000000 <> 0) as Hm; [|lia]. intros Hm. apply Hz.
    apply Z.mod_divide in Hm as [k Hk]; [|lia]. rewrite Hk. apply Z.rem_mul. lia.
Qed.

End Facts.

(** Sums and differences of [timespec]s are exact and normalized: the
    loops end, the instant is the sum or the difference of the instants, and
    the nanoseconds lie in [0, 10^9). *)
Theorem timespec_add_sub_exact `{A : arch} `{!ArchOk A} t1 t2 :
  normalized t1 -> normalized t2 -> sec_ok (tv_sec t1 + tv_sec t2) -> sec_ok (tv_sec t1 - tv_sec t2) ->
  (exists ts, timespec_add t1 t2 = Some ts /\ normalized ts /\ ns_of ts = ns_of t1 + ns_of t2) /\
  (exists ts, timespec_sub t1 t2 = Some ts /\ normalized ts /\ ns_of ts = ns_of t1 - ns_of t2).
Proof.
  intros H1 H2 Ha Hs. split; [|by apply timespec_sub_ok].
  unfold normalized, NSEC_PER_SEC in H1, H2. unfold timespec_add.
  rewrite (sl_small (tv_sec t1 + _)) by (unfold sec_ok in *; lia). rewrite sl_32 by lia.
  destruct (set_normalized_ok _ (tv_nsec t1 + tv_nsec t2) Ha) as (a & -> & Hna & Hva); [lia|].
  exists a. split_and!; try done. unfold ns_of, NSEC_PER_SEC in *. lia.
Qed.

(** C28: the normalising loops of [timespec_add] and [timespec_sub] end for all
    arguments whatsoever, the unnormalized ones included, and leave nanoseconds
    in [0, 10^9); one turn for every second in [tv_nsec], and one to leave, is
    enough. *)
Theorem timespec_loops_end `{A : arch} `{!ArchOk A} t1 t2 :
  (exists ts, timespec_add t1 t2 = Some ts /\ normalized ts) /\
  (exists ts, timespec_sub t1 t2 = Some ts /\ normalized ts).
Proof. split; apply set_normalized_ends. Qed.

Lemma timespec_loops_end_witness :
  exists ts, @timespec_sub lp64 (Timespec 0 0) (Timespec 5 (2 ^ 62)) = Some ts /\ normalized ts.
Proof. exact (proj2 (@timespec_loops_end lp64 lp64_ok (Timespec 0 0) (Timespec 5 (2 ^ 62)))). Defined.

Lemma timespec_add_sub_exact_witness :
  exists ts, timespec_sub (A := ilp32) (Timespec 5 1) (Timespec 2 999999999) = Some ts /\
    normalized ts /\ ns_of ts = 2000000002.
Proof.
  apply (timespec_add_sub_exact (A := ilp32) (Timespec 5 1) (Timespec 2 999999999)).
  - done.
  - done.
  - done.
  - done.
Defined.

(** A whole negative number of seconds is converted to an unnormalized
    [timespec] with [tv_nsec = NSEC_PER_SEC]; it stands for the right instant,
    as every conversion does. *)
Theorem ns_to_timespec_whole_negative `{A : arch} `{!ArchOk A} k :
  0 < k < 2 ^ 31 ->
  let ts := ns_to_timespec (- k * NSEC_PER_SEC) in
  tv_nsec ts = NSEC_PER_SEC /\ ~ normalized ts /\ ns_of ts = - k * NSEC_PER_SEC.
Proof.
  intros Hk ts. destruct (ns_to_timespec_ns (- k * NSEC_PER_SEC)) as [Hv Hn];
    [unfold NSEC_PER_SEC; lia|].
  assert ((- k * NSEC_PER_SEC) mod NSEC_PER_SEC = 0) as Hm by (apply Z.mod_mul; done).
  assert (~ normalized ts) as Hnn by (unfold ts; rewrite Hn; unfold NSEC_PER_SEC in *; lia).
  split; [|split; [done|exact Hv]].
  unfold ts, ns_to_timespec. destruct (Z.ltb_spec (- k * NSEC_PER_SEC) 0); [|unfold NSEC_PER_SEC in *; lia].
  cbn [tv_nsec]. rewrite Z.rem_mul by done. rewrite (sl_32 0) by lia. rewrite Z.add_0_l.
  apply sl_32. unfold NSEC_PER_SEC. lia.
Qed.

Lemma ns_to_timespec_whole_negative_witness :
  tv_nsec (ns_to_timespec (A := lp64) (- 1 * NSEC_PER_SEC)) = NSEC_PER_SEC.
Proof. apply (ns_to_timespec_whole_negative (A := lp64) 1). lia. Defined.

(** [ns_to_clock] is long enough.  If the first of the ticks it returns may
    already be under way, the ones that remain still last at least [ns]
    nanoseconds; and it exceeds the exact number of ticks by less than two. *)
Theorem ns_to_clock_covers hz ns :
  0 < hz -> 0 <= ns -> ns * hz + NSEC_PER_SEC < 2 ^ 63 ->
  exists c, ns_to_clock hz ns = Some c /\ ns * hz <= (c - 1) * NSEC_PER_SEC /\
    (c - 2) * NSEC_PER_SEC < ns * hz.
Proof.
  intros Hh Hn Hr. unfold ns_to_clock. destruct (Z.eqb_spec hz 0); [lia|]. cbn [negb].
  assert (0 <= ns * hz) by (apply Z.mul_nonneg_nonneg; lia).
  unfold NSEC_PER_SEC in *.
  rewrite (swrap_small 64 (ns * hz)), swrap_small by lia.
  rewrite Z.quot_div_nonneg by lia.
  set (q := (ns * hz + 1000000000 - 1) / 1000000000).
  pose proof (Z.div_mod (ns * hz + 1000000000 - 1) 1000000000 ltac:(lia)).
  pose proof (Z.mod_pos_bound (ns * hz + 1000000000 - 1) 1000000000 ltac:(lia)). fold q in H0.
  eexists. split; [done|]. rewrite wrap_small by lia. lia.
Qed.

Lemma ns_to_clock_covers_witness :
  exists c, ns_to_clock 1000 1001000 = Some c /\ 1001000 * 1000 <= (c - 1) * NSEC_PER_SEC /\
    (c - 2) * NSEC_PER_SEC < 1001000 * 1000.
Proof. apply (ns_to_clock_covers 1000 1001000); unfold NSEC_PER_SEC; lia. Defined.

(** An interval timer measures elapsed time: started at one reading of the
    clock and read at a later one, it returns the difference of the two, less
    its starting stamp, normalized. *)
Theorem itimer_elapsed `{A : arch} `{!ArchOk A} c0 c1 stamp :
  normalized c0 -> normalized c1 -> 0 <= stamp < 2 ^ 30 * NSEC_PER_SEC ->
  0 <= tv_sec c0 < 2 ^ 30 - 8 -> 0 <= tv_sec c1 < 2 ^ 30 - 8 ->
  exists it ts, itimer_init c0 stamp = Some it /\ itimer_read_timespec it c1 = Some ts /\
    normalized ts /\ ns_of ts = ns_of c1 - ns_of c0 - stamp.
Proof.
  intros H0 H1 Hs Hc0 Hc1. unfold itimer_init, itimer_read_timespec.
  assert (2 ^ 31 <= 2 ^ (LONG_BIT - 1)) as HL
    by (pose proof long_bit_ge_32; apply Z.pow_le_mono_r; lia).
  destruct (ns_to_timespec_ns stamp) as [Hv Hn]; [unfold NSEC_PER_SEC in *; lia|].
  assert (normalized (ns_to_timespec stamp)) as Hnorm by (apply Hn; lia).
  set (s := ns_to_timespec stamp) in *.
  assert (0 <= tv_sec s < 2 ^ 30) as Hss
    by (unfold ns_of, normalized, NSEC_PER_SEC in *; lia).
  unfold timespec_add. rewrite (sl_small (tv_sec s + _)) by lia.
  unfold normalized, NSEC_PER_SEC in *. rewrite (sl_32 (tv_nsec s + _)) by lia.
  destruct (set_normalized_ok (tv_sec s + tv_sec c0) (tv_nsec s + tv_nsec c0)) as (v & -> & Hnv & Hvv);
    [unfold sec_ok; lia|lia|]. cbn [mbind option_bind]. exists (Itimer v). unfold timespec_sub. cbn [start_value].
  unfold normalized, ns_of, NSEC_PER_SEC in *.
  assert (0 <= tv_sec v < 2 ^ 31 - 7) as Hvs by lia.
  rewrite (sl_small (tv_sec c1 - _)), (sl_32 (tv_nsec c1 - _)) by lia.
  destruct (set_normalized_ok (tv_sec c1 - tv_sec v) (tv_nsec c1 - tv_nsec v)) as (w & -> & Hnw & Hvw);
    [unfold sec_ok; lia|lia|].
  exists w. unfold normalized, ns_of, NSEC_PER_SEC in *. split_and!; try done; lia.
Qed.

Lemma itimer_elapsed_witness :
  exists it ts, itimer_init (A := lp64) (Timespec 10 5) 0 = Some it /\
    itimer_read_timespec (A := lp64) it (Timespec 12 3) = Some ts /\
    normalized ts /\ ns_of ts = ns_of (Timespec 12 3) - ns_of (Timespec 10 5) - 0.
Proof.
  apply (itimer_elapsed (A := lp64) (Timespec 10 5) (Timespec 12 3) 0);
    unfold normalized, NSEC_PER_SEC; cbn; lia.
Defined.
