(* ===== verification/Sync.v ===== *)
(** The synchronisation objects: mutexes ([src/kernel/thread/sync/mutex.c],
    [src/kernel/sched/sync/mutex.c] and [mutexattr.c]), semaphores
    ([semaphore.c]), reader-writer locks ([rwlock.c]), barriers ([barrier.c])
    and condition variables ([cond.c]).

    [self] is [schedee_get_current()].  What a function does between
    [sched_lock] and [sched_unlock] is one step, taken with the scheduler's
    state; the wait loops ([WAITQ_WAIT]) are the steps of [SyncRun.v].  A wait
    queue that a static initialiser has left with NULL links is [None].
    [None] as a result is a failed assertion, a NULL dereference or a signed
    overflow. *)
From S2P Require Import Prelude Schedee Sched Waitq Time.

Local Open Scope Z_scope.
Local Open Scope embox_scope.

Definition ENOERR : Z := 0.
Definition EPERM : Z := 1001.
Definition EINTR : Z := 4.
Definition EAGAIN : Z := 11.
Definition EBUSY : Z := 16.
Definition EDEADLK : Z := 35.
Definition EACCES : Z := 301.
Definition ETIMEDOUT : Z := 360.
Definition SCHED_TIMEOUT_INFINITE : Z := -1.

(** [int] addition; overflow is undefined. *)
Definition int_add (x y : Z) : option Z :=
  if (- 2 ^ 31 <=? x + y) && (x + y <? 2 ^ 31) then Some (x + y) else None.

(** * Mutexes *)

Definition MUTEX_NORMAL : Z := 0.
Definition MUTEX_ERRORCHECK : Z := 1.
Definition MUTEX_RECURSIVE : Z := 2.
Definition MUTEX_DEFAULT : Z := MUTEX_NORMAL.

Record mutexattr := MutexAttr { attr_type : Z }.

Definition mutexattr_init : mutexattr := MutexAttr MUTEX_DEFAULT.
Definition mutexattr_copy (source : mutexattr) : mutexattr := MutexAttr (attr_type source).
Definition mutexattr_destroy : mutexattr := MutexAttr 0.
Definition mutexattr_gettype (attr : mutexattr) : Z := attr_type attr.
Definition mutexattr_settype (attr : mutexattr) (type : Z) : mutexattr := MutexAttr type.

Record mutex := Mutex {
  m_wq : option waitq;
  holder : option nat;
  attr : mutexattr;
  lock_count : Z
}.

Definition mutex_is_static_inited (m : mutex) : bool :=
  match m_wq m with None => true | Some _ => false end.
Definition mutex_complete_static_init (m : mutex) : mutex :=
  Mutex (Some waitq_init) (holder m) (attr m) (lock_count m).

Definition mutex_init_default (a : option mutexattr) : mutex :=
  Mutex (Some waitq_init) None
    (match a with Some a => mutexattr_copy a | None => mutexattr_init end) 0.
Definition mutex_init : mutex :=
  let m := mutex_init_default None in
  Mutex (m_wq m) (holder m) (mutexattr_settype (attr m) MUTEX_RECURSIVE) (lock_count m).
Definition mutex_init_schedee : mutex := Mutex (Some waitq_init) None mutexattr_init 0.

Definition mutex_this_owner (self : nat) (m : mutex) : bool := bool_decide (holder m = Some self).

Definition mutex_trylock_schedee (self : nat) (m : mutex) : Z * mutex :=
  match holder m with
  | Some _ => (- EBUSY, m)
  | None => (0, Mutex (m_wq m) (Some self) (attr m) 1)
  end.

Definition mutex_trylock (self : nat) (m : mutex) : option (Z * mutex) :=
  let m := if mutex_is_static_inited m then mutex_complete_static_init m else m in
  if attr_type (attr m) =? MUTEX_ERRORCHECK then
    Some (if negb (mutex_this_owner self m) then mutex_trylock_schedee self m else (- EDEADLK, m))
  else if attr_type (attr m) =? MUTEX_RECURSIVE then
    if mutex_this_owner self m then
      n ← int_add (lock_count m) 1; Some (0, Mutex (m_wq m) (holder m) (attr m) n)
    else Some (mutex_trylock_schedee self m)
  else Some (mutex_trylock_schedee self m).

Section Ops.
Context {Q : Type} `{RQ : !RunqOps Q}.
Abbreviation st_t := (sched Q).

Definition mutex_priority_inherit (self : nat) (m : mutex) (st : st_t) : option st_t :=
  e ← tbl st !! self;
  let prior := schedee_priority_get e in
  h ← holder m;
  '(r, st) ← schedee_priority_inherit h prior st;
  if r <? prior then '(_, st) ← schedee_priority_set h prior st; Some st else Some st.

Definition mutex_priority_uninherit (self : nat) (st : st_t) : option st_t :=
  '(_, st) ← schedee_priority_reverse self st; Some st.

Definition mutex_unlock_schedee (self : nat) (m : mutex) (st : st_t) : option (mutex * st_t) :=
  st ← mutex_priority_uninherit self st;
  wq ← m_wq m;
  st ← waitq_wakeup_all wq st;
  Some (Mutex (m_wq m) None (attr m) 0, st).

Definition mutex_unlock (self : nat) (m : mutex) (st : st_t) : option (Z * mutex * st_t) :=
  if attr_type (attr m) =? MUTEX_ERRORCHECK then
    if mutex_this_owner self m then
      '(m, st) ← mutex_unlock_schedee self m st; Some (0, m, st)
    else Some (- EPERM, m, st)
  else if attr_type (attr m) =? MUTEX_RECURSIVE then
    if mutex_this_owner self m then
      assert! lock_count m >? 0 ;;
      let n := lock_count m - 1 in
      let m := Mutex (m_wq m) (holder m) (attr m) n in
      if n =? 0 then '(m, st) ← mutex_unlock_schedee self m st; Some (0, m, st)
      else Some (0, m, st)
    else Some (- EPERM, m, st)
  else '(m, st) ← mutex_unlock_schedee self m st; Some (0, m, st).

(** The condition [mutex_lock_common] waits for: whether the loop is left, and
    the value [ret] then has. *)
Definition mutex_lock_cond (self : nat) (m : mutex) (st : st_t) : option (bool * Z * mutex * st_t) :=
  let errcheck := attr_type (attr m) =? MUTEX_ERRORCHECK in
  '(ret, m) ← mutex_trylock self m;
  let done := (ret =? 0) || errcheck && (ret =? - EDEADLK) in
  st ← (if negb done then mutex_priority_inherit self m st else Some st);
  Some (done, ret, m, st).

(** * Reader-writer locks *)

Definition RWLOCK_STATUS_NONE : Z := 0.
Definition RWLOCK_STATUS_READING : Z := 1.
Definition RWLOCK_STATUS_WRITING : Z := 2.

Record rwlock := Rwlock { r_wq : waitq; status : Z; r_count : Z }.

Definition rwlock_init : rwlock := Rwlock waitq_init RWLOCK_STATUS_NONE 0.

Definition rwlock_tryenter_sched_lock (r : rwlock) (st : Z) : option (Z * rwlock) :=
  if status r =? RWLOCK_STATUS_NONE then Some (0, Rwlock (r_wq r) st 1)
  else if (status r =? st) && (st =? RWLOCK_STATUS_READING) then
    n ← int_add (r_count r) 1; Some (0, Rwlock (r_wq r) (status r) n)
  else Some (- EAGAIN, r).

Definition rwlock_any_down (r : rwlock) (st : st_t) : option (rwlock * st_t) :=
  n ← int_add (r_count r) (-1);
  if n =? 0 then
    st ← waitq_wakeup_all (r_wq r) st; Some (Rwlock (r_wq r) RWLOCK_STATUS_NONE n, st)
  else Some (Rwlock (r_wq r) (status r) n, st).

(** * Semaphores *)

Record sem := Sem { s_wq : waitq; value : Z; max_value : Z }.

Definition semaphore_init (val : Z) : sem := Sem waitq_init 0 val.

Definition set_value (v : Z) (s : sem) : sem := Sem (s_wq s) v (max_value s).

Definition sem_tryenter_sched_lock (s : sem) : option (Z * sem) :=
  if value s =? max_value s then Some (- EAGAIN, s)
  else n ← int_add (value s) 1; Some (0, set_value n s).

Definition semaphore_tryenter (s : sem) : option (Z * sem) := sem_tryenter_sched_lock s.

Definition semaphore_leave (s : sem) (st : st_t) : option (sem * st_t) :=
  n ← int_add (value s) (-1);
  st ← waitq_wakeup_all (s_wq s) st;
  Some (set_value n s, st).

Definition semaphore_getvalue (s : sem) : Z := value s.

(** * Barriers *)

Record barrier := Barrier { b_wq : waitq; current_count : Z; b_count : Z }.

Definition barrier_init (count : Z) : barrier := Barrier waitq_init 0 count.

(** [barrier_wait] up to the wait: whether the caller goes on at once. *)
Definition barrier_wait (self : nat) (b : barrier) (st : st_t) : option (bool * barrier * st_t) :=
  next ← int_add (current_count b) 1;
  if b_count b =? next then
    st ← waitq_wakeup_all (b_wq b) st; Some (true, Barrier (b_wq b) 0 (b_count b), st)
  else
    wq ← waitq_link_init self (b_wq b);
    '(wq, st) ← waitq_wait_prepare wq self st;
    Some (false, Barrier wq next (b_count b), st).

(** ... and after it. *)
Definition barrier_wait_done (self : nat) (b : barrier) (st : st_t) : option (barrier * st_t) :=
  '(wq, st) ← waitq_wait_cleanup (b_wq b) self st;
  Some (Barrier wq (current_count b) (b_count b), st).

(** * Condition variables *)

Definition PROCESS_SHARED : Z := 0.
Definition PROCESS_PRIVATE : Z := 1.

Record condattr := CondAttr { pshared : Z; clock_id : Z }.

Record cond := Cond { c_wq : option waitq; c_attr : condattr; c_task : option nat }.

(** [condattr_init] and [condattr_copy] write one field of the two. *)
Definition condattr_init (a : condattr) : condattr := CondAttr PROCESS_PRIVATE (clock_id a).
Definition condattr_copy (source dest : condattr) : condattr := CondAttr (pshared source) (clock_id dest).
Definition condattr_setpshared (a : condattr) (p : Z) : condattr := CondAttr p (clock_id a).
Definition condattr_setclock (a : condattr) (c : Z) : condattr := CondAttr (pshared a) c.

Definition cond_is_static_inited (c : cond) : bool :=
  match c_wq c with None => true | Some _ => false end.

Definition cond_init (task : nat) (c : cond) (a : option condattr) : cond :=
  Cond (Some waitq_init)
    (match a with Some a => condattr_copy a (c_attr c) | None => condattr_init (c_attr c) end)
    (Some task).

(** [c->task] is filled in by the first call. *)
Definition cond_own (task : nat) (c : cond) : cond :=
  match c_task c with None => Cond (c_wq c) (c_attr c) (Some task) | Some _ => c end.
Definition cond_denied (task : nat) (c : cond) : bool :=
  negb (bool_decide (c_task c = Some task)) && (pshared (c_attr c) =? PROCESS_PRIVATE).
Definition cond_complete_static_init (c : cond) : cond :=
  if cond_is_static_inited c then Cond (Some waitq_init) (c_attr c) (c_task c) else c.

(** [cond_signal] and [cond_broadcast]: the same wakeup. *)
Definition cond_wake (task : nat) (c : cond) (st : st_t) : option (Z * cond * st_t) :=
  let c := cond_own task c in
  if cond_denied task c then Some (- EACCES, c, st)
  else
    let c := cond_complete_static_init c in
    wq ← c_wq c;
    st ← waitq_wakeup wq 0 st;
    Some (ENOERR, c, st).
Definition cond_signal (task : nat) (c : cond) (st : st_t) : option (Z * cond * st_t) := cond_wake task c st.
Definition cond_broadcast (task : nat) (c : cond) (st : st_t) : option (Z * cond * st_t) := cond_wake task c st.

(** The two parts of [cond_timedwait] around the switch of [sched_wait_timeout].
    The first runs with the scheduler locked: [inl] is an early return. *)
Definition cond_wait_enter (self task : nat) (c : cond) (m : mutex) (st : st_t)
  : option ((Z * cond) + (cond * mutex * st_t)) :=
  let c := cond_own task c in
  if cond_denied task c then Some (inl (EACCES, c))
  else
    let c := cond_complete_static_init c in
    wq ← c_wq c;
    wq ← waitq_link_init self wq;
    '(wq, st) ← waitq_wait_prepare wq self st;
    let c := Cond (Some wq) (c_attr c) (c_task c) in
    '(_, m, st) ← mutex_unlock self m st;
    Some (inr (c, m, st)).

Definition cond_wait_done (self : nat) (c : cond) (st : st_t) : option (cond * st_t) :=
  wq ← c_wq c;
  '(wq, st) ← waitq_wait_cleanup wq self st;
  Some (Cond (Some wq) (c_attr c) (c_task c), st).

End Ops.

(** * [semaphore_enter] without the lock

    The condition of its [WAITQ_WAIT] is evaluated with the scheduler unlocked,
    so a thread can lose the CPU between the comparison and the increment of
    [tryenter_sched_lock]. *)

Definition sem_full (s : sem) : bool := value s =? max_value s.
Definition sem_take (s : sem) : option sem := n ← int_add (value s) 1; Some (set_value n s).

Inductive sem_event := SemCompare (t : nat) | SemTake (t : nat).

(** The semaphore, the threads between the two, and the threads inside. *)
Record sem_race := SemRace { race_sem : sem; passed : list nat; inside : list nat }.

Definition race_step (e : sem_event) (σ : sem_race) : option sem_race :=
  match e with
  | SemCompare t =>
    Some (if sem_full (race_sem σ) then σ else SemRace (race_sem σ) (t :: passed σ) (inside σ))
  | SemTake t =>
    assert! bool_decide (t ∈ passed σ) ;;
    s ← sem_take (race_sem σ);
    Some (SemRace s (filter (fun x => x <> t) (passed σ)) (t :: inside σ))
  end.

Fixpoint race_run (l : list sem_event) (σ : sem_race) : option sem_race :=
  match l with [] => Some σ | e :: l => σ ← race_step e σ; race_run l σ end.

(** * Deadlines *)

Section Deadlines.
Context `{A : arch}.

(** The timeout [mutex_lock_common] computes, in milliseconds, in an [int]. *)
Definition mutex_lock_timeout (abstime : option timespec) (current_time : timespec) : option Z :=
  match abstime with
  | None => Some SCHED_TIMEOUT_INFINITE
  | Some abstime =>
    time_to_wait ← timespec_sub abstime current_time;
    Some (s32 (Z.quot (timespec_to_ns time_to_wait) NSEC_PER_MSEC))
  end.

(** The one of [cond_timedwait], in a [clock_t]. *)
Definition cond_timeout (ts : option timespec) (current_time : timespec) : option Z :=
  match ts with
  | None => Some (u64 SCHED_TIMEOUT_INFINITE)
  | Some ts =>
    relative_time ← timespec_sub ts current_time;
    let relative_time :=
      if (tv_nsec relative_time <? 0) || (tv_sec relative_time <? 0)
      then Timespec 0 0 else relative_time in
    Some (u64 (Z.quot (timespec_to_ns relative_time) NSEC_PER_MSEC))
  end.

(** [WAITQ_WAIT_TIMEOUT] seen by one thread: [waits] says what happens during
    each [sched_wait_timeout] (the object as others leave it, and the value
    returned); [None] if the thread still waits at the end of [waits]. *)
Fixpoint waitq_wait_loop {O} (cond_expr : O -> option (bool * O)) (waits : list (O -> O * Z)) (o : O)
  : option (Z * O) :=
  '(c, o) ← cond_expr o;
  if c : bool then Some (0, o)
  else match waits with
       | [] => None
       | wait :: waits =>
         let '(o, wait_ret) := wait o in
         if wait_ret =? 0 then waitq_wait_loop cond_expr waits o else Some (wait_ret, o)
       end.

Definition WAITQ_WAIT_TIMEOUT {O} (cond_expr : O -> option (bool * O)) (waits : list (O -> O * Z)) (o : O)
  : option (Z * O) :=
  '(c, o) ← cond_expr o;
  if c : bool then Some (0, o) else waitq_wait_loop cond_expr waits o.

Definition sem_cond (s : sem) : option (bool * sem) :=
  '(r, s) ← sem_tryenter_sched_lock s; Some (r =? 0, s).

(** [others] is what other threads do to the semaphore between the first
    attempt and the wait. *)
Definition semaphore_timedwait (abs_timeout current_time : timespec) (others : sem -> sem)
    (waits : list (sem -> sem * Z)) (s : sem) : option (Z * sem) :=
  '(r, s) ← sem_tryenter_sched_lock s;
  if negb (r =? 0) then
    time_to_wait ← timespec_sub abs_timeout current_time;
    let ns := timespec_to_ns time_to_wait in
    let s := others s in
    '(ret, s) ← (if ns >? 0 then WAITQ_WAIT_TIMEOUT sem_cond waits s else Some (- ETIMEDOUT, s));
    '(r, s) ← sem_tryenter_sched_lock s;
    Some (if r =? 0 then 0 else ret, s)
  else Some (0, s).

End Deadlines.
