(* ===== verification/SyncFacts.v ===== *)
(** What is asked of a synchronisation object ([SyncOk]), the invariant of
    the threads that use it, and its preservation by every step of
    [SyncRun.v]. *)
From S2P Require Import Prelude Schedee Sched SchedFacts SchedLoop Waitq SyncRun.

Local Open Scope Z_scope.

Section Object.
Context {Q O Req : Type} `{RS : RunqSpec Q} `{SO : !SyncOps Q O Req}.

Definition known (st : sched Q) (t : nat) : Prop :=
  exists e, tbl st !! t = Some e /\ schedee_is_thread e = true.

Class SyncOk := {
  (** who is inside, and who could not enter *)
  so_inv : O -> list (nat * Req) -> Prop;
  so_blocked : Req -> nat -> O -> bool;
  so_wq_set : forall w o, so_wq (so_set_wq w o) = w;
  so_inv_set : forall w o l, so_inv o l -> so_inv (so_set_wq w o) l;
  so_blocked_set : forall w o r t, so_blocked r t (so_set_wq w o) = so_blocked r t o;
  so_try_total : forall r c o st l, sched_ok c st -> so_inv o l -> zlen l < 2 ^ 31 - 1 ->
    (forall t r, (t, r) ∈ l -> known st t) -> is_Some (so_try r c o st);
  so_try_ok : forall r c o st l oc o' st', sched_ok c st -> so_inv o l ->
    (forall t r, (t, r) ∈ l -> known st t) -> so_try r c o st = Some (oc, o', st') ->
    match oc with
    | Entered => so_inv o' ((c, r) :: l) /\ so_wq o' = so_wq o /\ st' = st /\
        (forall r' t, so_blocked r' t o = true -> so_blocked r' t o' = true)
    | Refused => o' = o /\ st' = st
    | Busy => o' = o /\ so_blocked r c o = true /\ sched_ok c st' /\ effect st st'
    end;
  so_leave_ok : forall c o st l1 r l2, sched_ok c st -> so_inv o (l1 ++ (c, r) :: l2) ->
    (forall s, s ∈ so_wq o -> known st s) -> zlen (so_wq o) <= 2 ^ 31 ->
    exists o' st', so_leave c o st = Some (o', st') /\ so_inv o' (l1 ++ l2) /\
      so_wq o' = so_wq o /\ sched_ok c st' /\ effect st st' /\
      ((forall s e, s ∈ so_wq o -> tbl st' !! s = Some e -> finished e = false -> waiting e = 0) \/
       (forall r' t, so_blocked r' t o = true -> so_blocked r' t o' = true))
}.

End Object.
Arguments SyncOk Q O Req {_ _ _}.

Section Facts.
Context {Q O Req : Type} `{RS : RunqSpec Q} `{SO : !SyncOps Q O Req} `{SK : !SyncOk Q O Req}.
Context (P : Z) (idle : nat) (run : nat -> sched Q -> option (sched Q)) (signals : bool).
Abbreviation sys_t := (sys Q O Req).

(** * The invariant *)

Definition kept_at (e e' : schedee) : Prop :=
  type e' = type e /\ finished e' = finished e /\
  (waiting e' = waiting e \/ waiting e' = 0) /\ (ready e = true -> ready e' = true).
Definition kept_on (t : nat) (h h' : heap) : Prop :=
  forall e, h !! t = Some e -> schedee_is_thread e = true -> exists e', h' !! t = Some e' /\ kept_at e e'.
Definition kept (h h' : heap) : Prop := forall t, kept_on t h h'.

(** The code of the lthreads keeps the scheduler's promises and neither
    suspends nor ends threads. *)
Definition run_kept : Prop :=
  (forall c preempt, run_ok P idle c preempt run) /\
  (forall l st st', run l st = Some st' -> kept (tbl st) (tbl st')).

Definition thread_ok (st : sched Q) (o : O) (t : nat) (ph : phase Req) : Prop :=
  exists e, tbl st !! t = Some e /\ schedee_is_thread e = true /\ finished e = false /\
    (match ph with Back _ => True | _ => ready e = true end) /\
    (linked ph = true -> t ∈ so_wq o) /\ (unlinked ph = true -> t ∉ so_wq o) /\
    (forall r, waits_for ph = Some r -> waiting e <> 0 -> so_blocked r t o = true).

Record sys_inv (σ : sys_t) : Prop := {
  yi_sched : exists c, sched_ok c (sch σ);
  yi_env : env P idle (sch σ);
  yi_obj : so_inv (obj σ) (holds σ);
  yi_threads : forall t ph, threads σ !! t = Some ph -> thread_ok (sch σ) (obj σ) t ph;
  yi_nodup : NoDup (so_wq (obj σ));
  yi_wq : forall t, t ∈ so_wq (obj σ) -> is_Some (threads σ !! t);
  yi_holds : forall t r, (t, r) ∈ holds σ -> is_Some (threads σ !! t);
  yi_size : Z.of_nat (size (threads σ)) <= 2 ^ 31
}.

(** * Frames *)

Lemma kept_at_thread e e' : kept_at e e' -> schedee_is_thread e' = schedee_is_thread e.
Proof. intros (T & _). unfold schedee_is_thread. by rewrite T. Qed.

Lemma kept_at_trans e1 e2 e3 : kept_at e1 e2 -> kept_at e2 e3 -> kept_at e1 e3.
Proof.
  intros (T1 & F1 & W1 & R1) (T2 & F2 & W2 & R2). split_and!; try congruence; auto.
  destruct W2 as [-> | ->]; auto.
Qed.

Lemma effect_kept (st st' : sched Q) : effect st st' -> kept (tbl st) (tbl st').
Proof.
  intros Hf t e He _. destruct (effect_at _ _ _ _ Hf He) as (e' & He' & T & _ & F & W & R & _).
  exists e'. by split_and!.
Qed.

Lemma kept_loop h h' s e e' :
  kept h h' -> h' !! s = Some e -> loop_effect e e' -> kept h (<[s := e']> h').
Proof.
  intros Hk Hs [Hty Hth] t e0 He0 Ht0. destruct (Hk t e0 He0 Ht0) as (e1 & He1 & Hk1).
  destruct (decide (s = t)) as [->|]; [|exists e1; by rewrite lookup_insert_ne].
  simplify_eq. exists e'. rewrite lookup_insert_eq. split; [done|].
  eapply kept_at_trans; [done|]. destruct Hth as (_ & _ & Hf & Hw & Hr).
  { by rewrite (kept_at_thread _ _ Hk1). }
  by split_and!.
Qed.

Lemma kept_run : run_kept -> forall h l st st', kept h (tbl st) -> run l st = Some st' -> kept h (tbl st').
Proof.
  intros [_ Hr] h l st st' Hk Hrun t e He Ht. destruct (Hk t e He Ht) as (e1 & He1 & Hk1).
  destruct (Hr l st st' Hrun t e1 He1) as (e2 & He2 & Hk2); [by rewrite (kept_at_thread _ _ Hk1)|].
  exists e2. split; [done|]. by eapply kept_at_trans.
Qed.

(** A thread is as it was if its flags, its place and its reason to wait are. *)
Lemma thread_kept st st' o o' t ph :
  kept_on t (tbl st) (tbl st') -> thread_ok st o t ph ->
  (t ∈ so_wq o' <-> t ∈ so_wq o) ->
  ((forall e, t ∈ so_wq o -> tbl st' !! t = Some e -> finished e = false -> waiting e = 0) \/
   (forall r, so_blocked r t o = true -> so_blocked r t o' = true)) ->
  thread_ok st' o' t ph.
Proof.
  intros Hk (e & He & Ht & Hf & Hr & Hl & Hu & Hw) Hq Hb.
  destruct (Hk e He Ht) as (e' & He' & Hka). pose proof Hka as (_ & F & W & R). exists e'.
  rewrite (kept_at_thread _ _ Hka), F, Hq. split_and!; try done.
  - destruct ph; auto.
  - intros r Hph Hwt. destruct Hb as [Hb|Hb].
    + destruct Hwt. apply Hb; [|done|congruence]. apply Hl. by destruct ph.
    + apply Hb, (Hw r Hph). destruct W; congruence.
Qed.

(** ** One thread steps *)
Lemma inv_thread (σ : sys_t) c ph st' o' ph' l' :
  sys_inv σ -> threads σ !! c = Some ph ->
  (exists c', sched_ok c' st') -> env P idle st' -> so_inv o' l' -> NoDup (so_wq o') ->
  (forall t, t <> c -> t ∈ so_wq o' <-> t ∈ so_wq (obj σ)) ->
  (forall t r, (t, r) ∈ l' -> t = c \/ (t, r) ∈ holds σ) ->
  (forall t ph, t <> c -> thread_ok (sch σ) (obj σ) t ph -> thread_ok st' o' t ph) ->
  thread_ok st' o' c ph' ->
  sys_inv (Sys st' o' (<[c := ph']> (threads σ)) l').
Proof.
  intros [Hs He Ho Ht Hn Hq Hh Hz] Hc Hs' He' Ho' Hn' Hq' Hl' Hoth Hme.
  assert (forall t, is_Some (threads σ !! t) -> is_Some (<[c := ph']> (threads σ) !! t)) as Hdom.
  { intros t Hx. destruct (decide (c = t)) as [->|]; [rewrite lookup_insert_eq; eauto|].
    by rewrite lookup_insert_ne. }
  split; cbn; try done.
  - intros t pt. destruct (decide (c = t)) as [<-|].
    + rewrite lookup_insert_eq. by intros [= <-].
    + rewrite lookup_insert_ne by done. intros Hpt. apply Hoth; [done|]. by apply Ht.
  - intros t Hin. apply Hdom. destruct (decide (t = c)) as [->|]; [eauto|]. apply Hq. by apply Hq'.
  - intros t r Hin. apply Hdom. destruct (Hl' t r Hin) as [->|Hin']; [eauto|]. by eapply Hh.
  - rewrite map_size_insert_Some by eauto. done.
Qed.

Lemma kept_on_same t h h' : h' !! t = h !! t -> kept_on t h h'.
Proof. intros Heq e He _. exists e. rewrite Heq. split; [done|]. split_and!; auto. Qed.

(** The object, or only its wait queue, changes. *)
Lemma others_object st o o' c :
  (forall t, t <> c -> t ∈ so_wq o' <-> t ∈ so_wq o) ->
  (forall r t, so_blocked r t o = true -> so_blocked r t o' = true) ->
  forall t ph, t <> c -> thread_ok st o t ph -> thread_ok st o' t ph.
Proof.
  intros Hq Hb t ph Ht Hok. eapply thread_kept; [by apply kept_on_same|done|by apply Hq|]. right. auto.
Qed.

(** The scheduler's state changes. *)
Lemma others_sched st st' o c :
  (forall t, t <> c -> kept_on t (tbl st) (tbl st')) ->
  forall t ph, t <> c -> thread_ok st o t ph -> thread_ok st' o t ph.
Proof. intros Hk t ph Ht Hok. eapply thread_kept; [by apply Hk|done|done|]. by right. Qed.

Lemma same_wq_blocked w o r t : so_blocked r t o = true -> so_blocked r t (so_set_wq w o) = true.
Proof. by rewrite so_blocked_set. Qed.

Section Step.
Context (σ : sys_t) (c : nat) (ph : phase Req).
Context (Hi : sys_inv σ) (Hc : current (sch σ) = Some c) (Hph : threads σ !! c = Some ph).

Lemma cur_ok : sched_ok c (sch σ).
Proof. destruct (yi_sched _ Hi) as (c' & Hs & Hc'). rewrite Hc in Hc'. injection Hc' as <-. by split. Qed.

Lemma running : exists e, tbl (sch σ) !! c = Some e /\ schedee_is_thread e = true /\
  finished e = false /\ ready e = true.
Proof.
  destruct (yi_threads _ Hi _ _ Hph) as (e & He & Ht & Hf & _). exists e. split_and!; try done.
  destruct (si_p _ _ _ (proj1 cur_ok)) as (e' & He' & _ & [Hr|[? _]]); [|done]. congruence.
Qed.

(** The thread in its new phase, if it has not started to wait. *)
Lemma me_ok st' o' ph' :
  kept_on c (tbl (sch σ)) (tbl st') -> waits_for ph' = None ->
  (linked ph' = true -> c ∈ so_wq o') -> (unlinked ph' = true -> c ∉ so_wq o') ->
  thread_ok st' o' c ph'.
Proof.
  intros Hk Hw Hl Hu. destruct running as (e & He & Ht & Hf & Hr).
  destruct (Hk e He Ht) as (e' & He' & Hka). pose proof Hka as (_ & F & _ & R). exists e'.
  rewrite (kept_at_thread _ _ Hka), F. split_and!; try done; [destruct ph'; auto|]. congruence.
Qed.

Lemma was_linked : linked ph = true -> c ∈ so_wq (obj σ).
Proof. destruct (yi_threads _ Hi _ _ Hph) as (e & _ & _ & _ & _ & Hl & _). exact Hl. Qed.
Lemma was_unlinked : unlinked ph = true -> c ∉ so_wq (obj σ).
Proof. destruct (yi_threads _ Hi _ _ Hph) as (e & _ & _ & _ & _ & _ & Hu & _). exact Hu. Qed.

Lemma holders_known t r : (t, r) ∈ holds σ -> known (sch σ) t.
Proof.
  intros Hin. destruct (yi_holds _ Hi _ _ Hin) as (pt & Hpt).
  destruct (yi_threads _ Hi _ _ Hpt) as (e & He & Ht & _). by exists e.
Qed.

Lemma queued_known t : t ∈ so_wq (obj σ) -> known (sch σ) t.
Proof.
  intros Hin. destruct (yi_wq _ Hi _ Hin) as (pt & Hpt).
  destruct (yi_threads _ Hi _ _ Hpt) as (e & He & Ht & _). by exists e.
Qed.

Lemma queue_short : zlen (so_wq (obj σ)) <= 2 ^ 31.
Proof.
  assert (length (so_wq (obj σ)) <= size (threads σ))%nat as Hle.
  { rewrite <- size_dom. rewrite <- (size_list_to_set (C := gset nat) _ (yi_nodup _ Hi)).
    apply subseteq_size. intros t Ht%elem_of_list_to_set. apply elem_of_dom. by apply (yi_wq _ Hi). }
  pose proof (yi_size _ Hi). unfold zlen. lia.
Qed.

(** Nothing but the phase and the wait queue changes. *)
Lemma inv_quiet w ph' :
  NoDup w -> (forall t, t <> c -> t ∈ w <-> t ∈ so_wq (obj σ)) ->
  waits_for ph' = None -> (linked ph' = true -> c ∈ w) -> (unlinked ph' = true -> c ∉ w) ->
  sys_inv (Sys (sch σ) (so_set_wq w (obj σ)) (<[c := ph']> (threads σ)) (holds σ)).
Proof.
  intros Hn Hq Hw Hl Hu. eapply inv_thread; try done.
  - apply (yi_sched _ Hi).
  - apply (yi_env _ Hi).
  - apply so_inv_set, (yi_obj _ Hi).
  - by rewrite so_wq_set.
  - by rewrite so_wq_set.
  - eauto.
  - apply others_object; [by rewrite so_wq_set|]. intros. by apply same_wq_blocked.
  - apply me_ok; rewrite ?so_wq_set; try done. by apply kept_on_same.
Qed.

(** Only the scheduler's state and the phase change. *)
Lemma inv_sched st' ph' :
  (exists c', sched_ok c' st') -> env P idle st' ->
  (forall t, t <> c -> kept_on t (tbl (sch σ)) (tbl st')) -> thread_ok st' (obj σ) c ph' ->
  sys_inv (Sys st' (obj σ) (<[c := ph']> (threads σ)) (holds σ)).
Proof.
  intros Hs He Hk Hme. eapply inv_thread; try done.
  - apply (yi_obj _ Hi).
  - apply (yi_nodup _ Hi).
  - eauto.
  - by apply others_sched.
Qed.

(** An attempt, with what it leads to. *)
Lemma inv_attempt r oc o st ph' :
  so_try r c (obj σ) (sch σ) = Some (oc, o, st) ->
  linked ph' = linked ph -> unlinked ph' = unlinked ph ->
  (forall r', waits_for ph' = Some r' -> r' = r /\ oc = Busy) ->
  sys_inv (Sys st o (<[c := ph']> (threads σ)) (now_holds c r oc (holds σ))).
Proof.
  intros Htry Hl Hu Hw.
  pose proof (so_try_ok r c (obj σ) (sch σ) (holds σ) oc o st cur_ok (yi_obj _ Hi) holders_known Htry) as Hok.
  assert (waits_for ph' = None \/ oc = Busy) as Hcase.
  { destruct (waits_for ph') as [r'|]; [|by left]. right. by apply (Hw r'). }
  destruct oc; cbn [now_holds].
  - destruct Hok as (Ho & Hq & -> & Hb). destruct Hcase as [Hn|]; [|done].
    eapply inv_thread; try done; [apply (yi_sched _ Hi)|apply (yi_env _ Hi)|..].
    + rewrite Hq. apply (yi_nodup _ Hi).
    + by rewrite Hq.
    + intros t r' [[= -> ->]|?]%elem_of_cons; auto.
    + apply others_object; [by rewrite Hq|done].
    + apply me_ok; rewrite ?Hq, ?Hl, ?Hu; [by apply kept_on_same|done|apply was_linked|apply was_unlinked].
  - destruct Hok as (-> & ->). destruct Hcase as [Hn|]; [|done].
    apply inv_sched; [apply (yi_sched _ Hi)|apply (yi_env _ Hi)|intros; by apply kept_on_same|].
    apply me_ok; rewrite ?Hl, ?Hu; [by apply kept_on_same|done|apply was_linked|apply was_unlinked].
  - destruct Hok as (-> & Hb & Hs & Hf). pose proof (effect_kept _ _ Hf) as Hk.
    apply inv_sched; [eauto|by eapply env_effect; [apply (yi_env _ Hi)|]|intros; apply Hk|].
    destruct running as (e & He & Ht & Hfin & Hr). destruct (Hk c e He Ht) as (e' & He' & Hka).
    pose proof Hka as (_ & F & _ & R). exists e'. rewrite (kept_at_thread _ _ Hka), F, Hl, Hu.
    split_and!; try done; [destruct ph'; auto|apply was_linked|apply was_unlinked|].
    intros r' Hr' _. by destruct (Hw r' Hr') as [-> _].
Qed.

End Step.

(** * The scheduler's own steps *)

Section Switch.
Context (Hrun : run_kept).

(** A switch away from [c]: whoever gets the CPU, the others keep their flags. *)
Lemma switch_ok preempt c (st : sched Q) :
  sched_ok c st -> env P idle st -> can_switch P preempt c st ->
  exists st', schedule_ run (switch_fuel P st) preempt st = Some st' /\
    (exists c', sched_ok c' st') /\ env P idle st' /\
    exists e e', tbl st !! c = Some e /\ entered preempt e e' /\ kept (<[c := e']> (tbl st)) (tbl st').
Proof.
  intros Hok [Hcpu Hj Hid] Hgo. destruct Hrun as [Hro _].
  destruct (schedule_total P idle c preempt run kept (switch_fuel P st) st)
    as (n & st' & Hs & [Hok' _] & Hid' & Hcpu' & Hj' & e & e' & He & Hent & Hk); try done.
  - intros. by eapply kept_loop.
  - intros h l st1 st2 Hk Hr. by eapply kept_run.
  - unfold switch_fuel. lia.
  - exists st'. split_and!; eauto; [by split|]. exists e, e'. split_and!; try done.
    apply Hk. intros t. by apply kept_on_same.
Qed.

Lemma kept_entered_other preempt c e e' h h' t :
  h !! c = Some e -> entered preempt e e' -> kept (<[c := e']> h) h' ->
  t <> c \/ preempt = true -> kept_on t h h'.
Proof.
  intros Hc (Ty & _ & _ & Rd & Wt & Fi) Hk Hor x Hx Htx. destruct (decide (c = t)) as [->|].
  - destruct Hor as [?| ->]; [done|]. simplify_eq. cbn in Rd. destruct (Hk t e') as (y & Hy & Hky).
    + by rewrite lookup_insert_eq.
    + unfold schedee_is_thread in *. by rewrite Ty.
    + exists y. split; [done|]. eapply kept_at_trans; [|done]. split_and!; auto.
  - apply Hk; [|done]. by rewrite lookup_insert_ne.
Qed.

Lemma inv_switch (σ : sys_t) c r st' :
  sys_inv σ -> current (sch σ) = Some c -> threads σ !! c = Some (Switch r) ->
  can_switch P false c (sch σ) -> schedule_ run (switch_fuel P (sch σ)) false (sch σ) = Some st' ->
  sys_inv (Sys st' (obj σ) (<[c := Back r]> (threads σ)) (holds σ)).
Proof.
  intros Hi Hc Hph Hgo Hs.
  destruct (switch_ok false c (sch σ)) as (st2 & Hs2 & Hok2 & He2 & e & e' & He & Hent & Hk);
    [by apply cur_ok|apply Hi|done|]. rewrite Hs in Hs2. injection Hs2 as <-.
  eapply inv_sched; try done.
  { intros t Ht. eapply kept_entered_other; eauto. }
  destruct (yi_threads _ Hi _ _ Hph) as (e0 & He0 & Ht0 & Hf0 & _ & Hl0 & _ & Hw0). simplify_eq.
  destruct Hent as (Ty & _ & _ & _ & Wt & Fi).
  destruct (Hk c e') as (y & Hy & Hky).
  { by rewrite lookup_insert_eq. } { unfold schedee_is_thread in *. by rewrite Ty. }
  pose proof Hky as (_ & F & W & _). exists y. rewrite (kept_at_thread _ _ Hky), F, Fi.
  split_and!; try done; [unfold schedee_is_thread in *; by rewrite Ty|].
  cbn. intros r' [= <-] Hwt. apply (Hw0 r); [done|]. destruct W; congruence.
Qed.

(** Only the scheduler's state changes. *)
Lemma inv_all (σ : sys_t) st' :
  sys_inv σ -> (exists c', sched_ok c' st') -> env P idle st' -> kept (tbl (sch σ)) (tbl st') ->
  sys_inv (Sys st' (obj σ) (threads σ) (holds σ)).
Proof.
  intros [Hs He Ho Ht Hn Hq Hh Hz] Hs' He' Hk. split; cbn; try done.
  intros t ph Hph. eapply thread_kept; [apply Hk|by apply Ht|done|by right].
Qed.

Lemma inv_preempt (σ : sys_t) c st' :
  sys_inv σ -> current (sch σ) = Some c -> can_switch P true c (sch σ) ->
  sched_preempt run (switch_fuel P (sch σ)) (sch σ) = Some st' ->
  sys_inv (Sys st' (obj σ) (threads σ) (holds σ)).
Proof.
  intros Hi Hc Hgo Hs. unfold sched_preempt in Hs. set (st := Sched _ _ _ _ _ _ _) in Hs.
  destruct (switch_ok true c st) as (st2 & Hs2 & Hok2 & He2 & e & e' & He & Hent & Hk); try done.
  - destruct (yi_sched _ Hi) as (c' & Hsi & Hc'). rewrite Hc in Hc'. injection Hc' as <-.
    split; [|done]. eapply inv_flags; [exact Hsi|done|done|apply Hsi].
  - destruct (yi_env _ Hi). by split.
  - change (switch_fuel P st) with (switch_fuel P (sch σ)) in Hs2. rewrite Hs in Hs2. injection Hs2 as <-.
    apply inv_all; [done..|]. intros t. eapply kept_entered_other; eauto.
Qed.

Lemma inv_wakeup (σ : sys_t) t b st' :
  sys_inv σ -> t ∈ dom (threads σ) -> sched_wakeup t (sch σ) = Some (b, st') ->
  sys_inv (Sys st' (obj σ) (threads σ) (holds σ)).
Proof.
  intros Hi [ph Hph]%elem_of_dom Hw. destruct (yi_threads _ Hi _ _ Hph) as (e & He & Ht & _).
  destruct (yi_sched _ Hi) as (c & Hs & Hc).
  destruct (wakeup_effect _ _ _ _ _ Hs He Ht) as (b' & st2 & Hw2 & Hs2 & Hf & _).
  rewrite Hw in Hw2. injection Hw2 as <- <-.
  apply inv_all; [done|..|by apply effect_kept].
  - exists c. split; [done|]. by rewrite (ef_current _ _ Hf).
  - by eapply env_effect; [apply (yi_env _ Hi)|].
Qed.

(** A release: the queue has been woken, or nobody is freed by it. *)
Lemma inv_leave (σ : sys_t) c r l1 l2 o st' :
  sys_inv σ -> current (sch σ) = Some c -> threads σ !! c = Some Out ->
  holds σ = l1 ++ (c, r) :: l2 -> so_leave c (obj σ) (sch σ) = Some (o, st') ->
  sys_inv (Sys st' o (threads σ) (l1 ++ l2)).
Proof.
  intros Hi Hc Hph Hh Hl. pose proof (yi_obj _ Hi) as Ho. rewrite Hh in Ho.
  destruct (so_leave_ok c (obj σ) (sch σ) l1 r l2) as (o2 & st2 & Hl2 & Ho2 & Hq2 & Hok2 & Hf2 & Hor);
    [by apply cur_ok|done|by apply queued_known|by apply queue_short|].
  rewrite Hl in Hl2. injection Hl2 as <- <-. pose proof (effect_kept _ _ Hf2) as Hk.
  rewrite <- (insert_id (threads σ) c Out) by done.
  eapply inv_thread; try done.
  - eauto.
  - by eapply env_effect; [apply (yi_env _ Hi)|].
  - rewrite Hq2. apply (yi_nodup _ Hi).
  - by rewrite Hq2.
  - intros t r' Hin. right. rewrite Hh. revert Hin. rewrite !elem_of_app, elem_of_cons. tauto.
  - intros t ph Ht Hok. eapply thread_kept; [apply Hk|done|by rewrite Hq2|].
    destruct Hor as [Hw|Hb]; [left; eauto|by right; eauto].
  - eapply me_ok; [done|done|exact Hph|apply Hk|done..|]. rewrite Hq2. intros _.
    by eapply (was_unlinked σ c Out).
Qed.

(** * Every step keeps the invariant *)

Context (Hsig : signals = false \/ so_ignores_intr = false).

Lemma thread_step_inv (σ σ' : sys_t) c ph :
  sys_inv σ -> current (sch σ) = Some c -> threads σ !! c = Some ph ->
  thread_step P run signals c ph σ σ' -> sys_inv σ'.
Proof.
  intros Hi Hc Hph Hst. pose proof (yi_nodup _ Hi) as Hnd.
  pose proof (was_linked σ c ph Hi Hph) as Hwl. pose proof (was_unlinked σ c ph Hi Hph) as Hwu.
  pose proof (cur_ok σ c Hi Hc) as Hok.
  destruct Hst as [r σ|r oc o st σ Htry|r wq σ Hlink|r σ|r st σ Hmk|r oc o st σ Htry|r st σ Hgo Hs
    |r σ|r σ Hsg|r st σ Hcl|r σ|r l1 l2 o st σ Hh Hlv].
  - eapply inv_sched; try done; [eauto|apply Hi|by intros; apply kept_on_same|].
    eapply me_ok; try done. by apply kept_on_same.
  - eapply inv_attempt; try done; destruct oc; done.
  - unfold waitq_link_init in Hlink. destruct (negb _); [|done]. injection Hlink as <-.
    eapply inv_quiet; done.
  - eapply inv_quiet; try done; [by apply waitq_add_NoDup| |].
    + intros t Ht. rewrite elem_waitq_add. naive_solver.
    + intros _. apply elem_waitq_add. by right.
  - unfold sched_wait_prepare in Hmk. rewrite Hc in Hmk. cbn in Hmk. injection Hmk as <-.
    destruct (set_waiting_ok P idle c 1 (sch σ)) as (Hok' & He' & e & He & Hr & Ht); [done|apply Hi|].
    eapply inv_sched; try done; [eauto|..].
    + intros t Hne. apply kept_on_same. by rewrite Ht, lookup_insert_ne.
    + destruct (yi_threads _ Hi _ _ Hph) as (e0 & He0 & Hth & Hf & _). simplify_eq.
      exists (set_waiting 1 e). rewrite Ht, lookup_insert_eq. by split_and!.
  - eapply inv_attempt; try done; destruct oc; try done; naive_solver.
  - by eapply inv_switch.
  - eapply inv_sched; try done; [eauto|apply Hi|by intros; apply kept_on_same|].
    eapply me_ok; try done. by apply kept_on_same.
  - destruct Hsig as [->|Hig]; [done|]. rewrite Hig.
    eapply inv_sched; try done; [eauto|apply Hi|by intros; apply kept_on_same|].
    eapply me_ok; try done. by apply kept_on_same.
  - unfold sched_wait_cleanup in Hcl. rewrite Hc in Hcl. cbn in Hcl. injection Hcl as <-.
    destruct (set_waiting_ok P idle c 0 (sch σ)) as (Hok' & He' & e & He & Hr & Ht); [done|apply Hi|].
    eapply inv_sched; try done; [eauto|..].
    + intros t Hne. apply kept_on_same. by rewrite Ht, lookup_insert_ne.
    + destruct (yi_threads _ Hi _ _ Hph) as (e0 & He0 & Hth & Hf & _). simplify_eq.
      exists (set_waiting 0 e). rewrite Ht, lookup_insert_eq. by split_and!.
  - eapply inv_quiet; try done; [by apply waitq_del_NoDup| |].
    + intros t Ht. rewrite elem_waitq_del. naive_solver.
    + intros _. rewrite elem_waitq_del. naive_solver.
  - by eapply inv_leave.
Qed.

Lemma sys_steps_inv (σ σ' : sys_t) :
  sys_inv σ -> sys_steps P run signals σ σ' -> sys_inv σ'.
Proof.
  intros Hi Hs. induction Hs as [|σ1 σ2 σ3 Hst _ IH]; [done|]. apply IH.
  destruct Hst; [by eapply thread_step_inv|by eapply inv_preempt|by eapply inv_wakeup].
Qed.

(** * What follows *)

(** Nobody is inside or on the queue, and every thread is ready. *)
Record sync_start (σ : sys_t) : Prop := {
  ss_sched : exists c, sched_ok c (sch σ);
  ss_env : env P idle (sch σ);
  ss_obj : so_inv (obj σ) [] /\ so_wq (obj σ) = [] /\ holds σ = [];
  ss_threads : forall t ph, threads σ !! t = Some ph -> ph = Out /\
    exists e, tbl (sch σ) !! t = Some e /\ schedee_is_thread e = true /\ finished e = false /\ ready e = true;
  ss_size : Z.of_nat (size (threads σ)) <= 2 ^ 31
}.

Lemma start_inv (σ : sys_t) : sync_start σ -> sys_inv σ.
Proof.
  intros [Hs He (Ho & Hq & Hh) Ht Hz]. split; rewrite ?Hq, ?Hh; try done.
  - intros t ph Hph. destruct (Ht t ph Hph) as (-> & e & ? & ? & ? & ?). exists e.
    split_and!; try done. rewrite Hq. intros _ []%not_elem_of_nil.
  - constructor.
  - intros t []%not_elem_of_nil.
  - intros t r []%not_elem_of_nil.
Qed.

(** No wakeup is lost: a thread that is not ready is in the loop, on the queue,
    and could not enter. *)
Lemma no_lost_wakeup (σ : sys_t) t ph e :
  sys_inv σ -> threads σ !! t = Some ph -> tbl (sch σ) !! t = Some e -> ready e = false ->
  exists r, ph = Back r /\ t ∈ so_wq (obj σ) /\ so_blocked r t (obj σ) = true.
Proof.
  intros Hi Hph He Hr.
  destruct (yi_threads _ Hi _ _ Hph) as (e0 & He0 & _ & Hf & Hb & Hl & _ & Hw). simplify_eq.
  destruct (yi_sched _ Hi) as (c & Hs & _).
  destruct (si_elem _ _ _ Hs _ _ He) as (_ & _ & _ & Hwt). specialize (Hwt Hf).
  destruct ph; try congruence. exists r. split_and!; [done|auto|]. apply Hw; [done|]. destruct Hwt; congruence.
Qed.

(** The running thread can go on, unless it is about to give the CPU to nobody. *)
Lemma progress (σ : sys_t) c ph :
  sys_inv σ -> current (sch σ) = Some c -> threads σ !! c = Some ph -> zlen (holds σ) < 2 ^ 31 - 1 ->
  (forall r, ph = Switch r -> can_switch P false c (sch σ)) ->
  ph <> Out \/ (exists r, (c, r) ∈ holds σ) ->
  exists σ', thread_step P run signals c ph σ σ'.
Proof.
  intros Hi Hc Hph Hz Hsw Hout. pose proof (cur_ok σ c Hi Hc) as Hok.
  assert (forall r, is_Some (so_try r c (obj σ) (sch σ))) as Htry.
  { intros r. eapply so_try_total; [done|apply (yi_obj _ Hi)|done|by apply holders_known]. }
  destruct ph as [|r|r|r|r|r|r|r|r|r].
  - destruct Hout as [?|[r Hin]]; [done|]. apply list_elem_of_split in Hin as (l1 & l2 & Hl).
    pose proof (yi_obj _ Hi) as Ho. rewrite Hl in Ho.
    destruct (so_leave_ok c (obj σ) (sch σ) l1 r l2) as (o & st & Hlv & _);
      [done|done|by apply queued_known|by apply queue_short|]. eexists. by eapply step_leave.
  - destruct (Htry r) as [[[oc o] st] E]. eexists. by eapply step_try.
  - eexists. eapply step_link. unfold waitq_link_init. rewrite bool_decide_false; [done|].
    by eapply (was_unlinked σ c (Link r)).
  - eexists. apply step_add.
  - eexists. eapply step_mark. unfold sched_wait_prepare. by rewrite Hc.
  - destruct (Htry r) as [[[oc o] st] E]. eexists. by eapply step_check.
  - destruct (switch_ok false c (sch σ)) as (st & Hs & _); [done|apply Hi|by eapply Hsw|].
    eexists. eapply step_switch; [by eapply Hsw|exact Hs].
  - eexists. apply step_again.
  - eexists. eapply step_clear. unfold sched_wait_cleanup. by rewrite Hc.
  - eexists. apply step_del.
Qed.

End Switch.

End Facts.
