(* ===== verification/SyncObjects.v ===== *)
(** Mutexes and reader-writer locks of [Sync.v] as objects of [SyncRun.v]:
    each one's attempt and release, the invariant that ties its fields to the
    threads inside, and the instances of [SyncOk]. *)
From S2P Require Import Prelude Schedee Sched SchedFacts SchedLoop Waitq Sync SyncRun SyncFacts.

Local Open Scope Z_scope.
Local Open Scope embox_scope.

Lemma int_add_ok x y : - 2 ^ 31 <= x + y < 2 ^ 31 -> int_add x y = Some (x + y).
Proof. intros. unfold int_add. zbool; lia || done. Qed.

Lemma int_add_Some x y n : int_add x y = Some n -> n = x + y /\ - 2 ^ 31 <= n < 2 ^ 31.
Proof. unfold int_add. zbool; [|done..]. intros [= <-]. lia. Qed.

Lemma zlen_remove {A} (l1 l2 : list A) x : zlen (l1 ++ x :: l2) = zlen (l1 ++ l2) + 1.
Proof. unfold zlen. rewrite !length_app. cbn [length]. lia. Qed.

Section Priority.
Context {Q : Type} `{RS : RunqSpec Q}.

(** Any change of a thread's priority is an [effect]. *)
Lemma change_priority_effect c (st : sched Q) s e prior cb :
  sched_ok c st -> tbl st !! s = Some e -> schedee_is_thread e = true ->
  prio_ok (cb (priority e) prior) ->
  exists st' e', sched_change_priority s prior cb st = Some st' /\ sched_ok c st' /\ effect st st' /\
    tbl st' !! s = Some e' /\ priority e' = cb (priority e) prior.
Proof.
  intros [Hi Hc] He Ht Hp.
  destruct (change_priority_spec false c st s e prior cb) as (st' & x & Hs & Hi' & Htb & _ & Hc' & Hl');
    [done|done|by left|done|].
  exists st', (set_runq_prio x (new_prio cb prior e)). split_and!; try done.
  - split; [done|congruence].
  - eapply effect_insert; try done. split_and!; auto. congruence.
  - by rewrite Htb, lookup_insert_eq.
Qed.

Lemma inherit_effect c (st : sched Q) s e prior :
  sched_ok c st -> tbl st !! s = Some e -> schedee_is_thread e = true -> prio_range prior ->
  exists r st', schedee_priority_inherit s prior st = Some (r, st') /\ prior <= r /\
    sched_ok c st' /\ effect st st'.
Proof.
  intros Hok He Ht Hr. destruct (si_elem _ _ _ (proj1 Hok) _ _ He) as (Hp & _).
  destruct (change_priority_effect c st s e prior priority_inherit_cb)
    as (st' & e' & Hs & Hok' & Hf & He' & Hpr); [done..|by apply priority_inherit_cb_ok|].
  unfold schedee_priority_inherit. rewrite Hs. cbn [mbind option_bind]. rewrite He'. cbn [mbind option_bind].
  eexists _, st'. split; [done|]. split_and!; try done. unfold schedee_priority_get. rewrite Hpr.
  unfold priority_inherit_cb. rewrite Z.gtb_ltb. zbool; cbn; lia.
Qed.

Lemma reverse_effect c (st : sched Q) s e :
  sched_ok c st -> tbl st !! s = Some e -> schedee_is_thread e = true ->
  exists r st', schedee_priority_reverse s st = Some (r, st') /\ sched_ok c st' /\ effect st st'.
Proof.
  intros Hok He Ht. destruct (si_elem _ _ _ (proj1 Hok) _ _ He) as ((Hb & _) & _).
  destruct (change_priority_effect c st s e (base_priority (priority e)) priority_reverse_cb)
    as (st' & e' & Hs & Hok' & Hf & He' & Hpr); [done..| |].
  { unfold priority_reverse_cb. split_and!; cbn; try apply Hb. lia. }
  unfold schedee_priority_reverse. rewrite He. cbn [mbind option_bind]. rewrite Hs.
  cbn [mbind option_bind]. rewrite He'. by eexists _, st'.
Qed.

Lemma known_effect (st st' : sched Q) t : effect st st' -> known st t -> known st' t.
Proof.
  intros Hf (e & He & Ht). destruct (effect_at _ _ _ _ Hf He) as (e' & ? & Hm). exists e'.
  by rewrite (mild_thread _ _ Hm).
Qed.

Lemma wakeup_all_ok c wq (st : sched Q) :
  sched_ok c st -> (forall s, s ∈ wq -> known st s) -> zlen wq <= 2 ^ 31 ->
  exists st', waitq_wakeup_all wq st = Some st' /\ sched_ok c st' /\ effect st st' /\
    forall s e, s ∈ wq -> tbl st' !! s = Some e -> finished e = false -> waiting e = 0.
Proof.
  intros [Hi Hc] Hk Hz. destruct (waitq_wakeup_ok false c wq 0 st) as (st' & Hw & Hi' & Hf & Hall);
    [done|done|lia|lia|]. exists st'. split_and!; try done. split; [done|]. by rewrite (ef_current _ _ Hf).
Qed.

End Priority.

(** * Mutexes *)

Section Mutex.
Context {Q : Type} `{RS : RunqSpec Q}.

Definition mutex_set_wq (w : waitq) (m : mutex) : mutex :=
  Mutex (Some w) (holder m) (attr m) (lock_count m).

#[export] Instance mutex_ops : SyncOps Q mutex unit := {
  so_wq m := default [] (m_wq m);
  so_set_wq := mutex_set_wq;
  so_try _ self m st :=
    '(done, ret, m, st) ← mutex_lock_cond self m st;
    Some (if (done : bool) then (if ret =? 0 then Entered else Refused) else Busy, m, st);
  so_leave self m st := '(_, m, st) ← mutex_unlock self m st; Some (m, st);
  so_ignores_intr := false
}.

Definition is_recursive (m : mutex) : bool := attr_type (attr m) =? MUTEX_RECURSIVE.

Definition mutex_inv (m : mutex) (l : list (nat * unit)) : Prop :=
  is_Some (m_wq m) /\ lock_count m = zlen l /\
  (forall t r, (t, r) ∈ l -> holder m = Some t) /\
  (holder m = None -> l = []) /\ (forall h, holder m = Some h -> (h, ()) ∈ l) /\
  (is_recursive m = false -> zlen l <= 1).

Definition mutex_blocked (_ : unit) (t : nat) (m : mutex) : bool :=
  match holder m with None => false | Some h => negb (is_recursive m && bool_decide (h = t)) end.

(** What an attempt makes of an initialised mutex. *)
Inductive trylock_spec (self : nat) (m : mutex) : option (Z * mutex) -> Prop :=
  | trylock_free : holder m = None ->
      trylock_spec self m (Some (0, Mutex (m_wq m) (Some self) (attr m) 1))
  | trylock_again : holder m = Some self -> is_recursive m = true ->
      trylock_spec self m (n ← int_add (lock_count m) 1; Some (0, Mutex (m_wq m) (holder m) (attr m) n))
  | trylock_own : holder m = Some self -> attr_type (attr m) = MUTEX_ERRORCHECK ->
      trylock_spec self m (Some (- EDEADLK, m))
  | trylock_busy : mutex_blocked () self m = true ->
      trylock_spec self m (Some (- EBUSY, m)).

Lemma trylock_cases self m : is_Some (m_wq m) -> trylock_spec self m (mutex_trylock self m).
Proof.
  intros [w Hw]. unfold mutex_trylock, mutex_is_static_inited. rewrite Hw.
  unfold mutex_trylock_schedee, mutex_this_owner.
  destruct (Z.eqb_spec (attr_type (attr m)) MUTEX_ERRORCHECK) as [Et|Et].
  { case_bool_decide as Eo; cbn [negb]; [by apply trylock_own|].
    destruct (holder m) as [h|] eqn:Eh; [|by apply trylock_free].
    apply trylock_busy. unfold mutex_blocked. by rewrite Eh, bool_decide_false, andb_false_r by congruence. }
  destruct (Z.eqb_spec (attr_type (attr m)) MUTEX_RECURSIVE) as [Er|Er].
  - case_bool_decide as Eo; [apply trylock_again; [done|]; unfold is_recursive; by rewrite Er|].
    destruct (holder m) as [h|] eqn:Eh; [|by apply trylock_free].
    apply trylock_busy. unfold mutex_blocked. by rewrite Eh, bool_decide_false, andb_false_r by congruence.
  - destruct (holder m) as [h|] eqn:Eh; [|by apply trylock_free].
    apply trylock_busy. unfold mutex_blocked, is_recursive. rewrite Eh.
    by destruct (Z.eqb_spec (attr_type (attr m)) MUTEX_RECURSIVE).
Qed.

(** A failed attempt lends the holder the caller's priority. *)
Lemma mutex_inherit_ok c m (st : sched Q) l :
  sched_ok c st -> mutex_inv m l -> (forall t r, (t, r) ∈ l -> known st t) ->
  mutex_blocked () c m = true ->
  exists st', mutex_priority_inherit c m st = Some st' /\ sched_ok c st' /\ effect st st'.
Proof.
  intros Hok (_ & _ & _ & _ & Hin & _) Hk Hb. unfold mutex_blocked in Hb.
  destruct (holder m) as [h|] eqn:Eh; [|done]. destruct (Hk h ()) as (eh & Heh & Hth); [by apply Hin|].
  destruct (si_p _ _ _ (proj1 Hok)) as (e & He & _). unfold mutex_priority_inherit. rewrite He, Eh.
  cbn [mbind option_bind].
  destruct (inherit_effect c st h eh (schedee_priority_get e)) as (r & st' & -> & Hle & Hok' & Hf); try done.
  { by destruct (si_elem _ _ _ (proj1 Hok) _ _ He) as ((_ & Hr & _) & _). }
  cbn [mbind option_bind]. destruct (Z.ltb_spec r (schedee_priority_get e)); [lia|]. eauto.
Qed.

Lemma mutex_try_cases c m (st : sched Q) l :
  sched_ok c st -> mutex_inv m l -> (forall t r, (t, r) ∈ l -> known st t) ->
  (zlen l < 2 ^ 31 - 1 -> is_Some (so_try () c m st)) /\
  forall oc m' st', so_try () c m st = Some (oc, m', st') ->
  match oc with
  | Entered => mutex_inv m' ((c, ()) :: l) /\ so_wq m' = so_wq m /\ st' = st /\
      (forall r' t, mutex_blocked r' t m = true -> mutex_blocked r' t m' = true)
  | Refused => m' = m /\ st' = st
  | Busy => m' = m /\ mutex_blocked () c m = true /\ sched_ok c st' /\ effect st st'
  end.
Proof.
  intros Hok Hi Hk. pose proof Hi as (Hq & Hn & Hl & Hnone & Hin & Hrec).
  cbn [so_try mutex_ops]. unfold mutex_lock_cond.
  destruct (trylock_cases c m Hq) as [Hf|Ho Hr|Ho Hty|Hb]; cbn [mbind option_bind].
  - cbn. split; [eauto|]. intros oc m' st' [= <- <- <-]. rewrite (Hnone Hf) in *.
    split_and!; try done.
    + split_and!; try done. cbn. intros t r [[= -> _]|[]%not_elem_of_nil]%elem_of_cons. done.
      cbn. intros h [= <-]. left.
    + intros r' t. unfold mutex_blocked at 1. by rewrite Hf.
  - split.
    { intros Hz. rewrite int_add_ok by (rewrite Hn; unfold zlen in *; lia). cbn. eauto. }
    destruct (int_add (lock_count m) 1) as [n|] eqn:En; cbn; [|done]. apply int_add_Some in En as [-> _].
    intros oc m' st' [= <- <- <-]. split_and!; try done. split_and!; try done; cbn.
    + rewrite Hn. unfold zlen. cbn [length]. lia.
    + intros t r [[= -> _]|Ht]%elem_of_cons; [done|]. eauto.
    + congruence.
    + intros h Hh. right. by apply Hin.
    + unfold is_recursive in *. cbn. by rewrite Hr.
  - rewrite Hty. cbn. split; [eauto|]. by intros oc m' st' [= <- <- <-].
  - destruct (mutex_inherit_ok c m st l Hok Hi Hk Hb) as (st1 & Hin1 & Hok1 & Hf1).
    assert ((- EBUSY =? 0) || (attr_type (attr m) =? MUTEX_ERRORCHECK) && (- EBUSY =? - EDEADLK) = false) as ->
      by (by rewrite andb_false_r).
    cbn [negb]. rewrite Hin1. cbn [mbind option_bind]. split; [eauto|].
    by intros oc m' st' [= <- <- <-].
Qed.

Lemma mutex_unlock_schedee_ok c m (st : sched Q) w :
  sched_ok c st -> m_wq m = Some w -> (forall s, s ∈ w -> known st s) -> zlen w <= 2 ^ 31 ->
  exists st', mutex_unlock_schedee c m st = Some (Mutex (m_wq m) None (attr m) 0, st') /\
    sched_ok c st' /\ effect st st' /\
    forall s e, s ∈ w -> tbl st' !! s = Some e -> finished e = false -> waiting e = 0.
Proof.
  intros Hok Hw Hk Hz. destruct (si_p _ _ _ (proj1 Hok)) as (e & He & Ht & _).
  destruct (reverse_effect c st c e Hok He Ht) as (r & st1 & Hr & Hok1 & Hf1).
  destruct (wakeup_all_ok c w st1) as (st2 & Hwk & Hok2 & Hf2 & Hall); [done| |done|].
  { intros s Hs. eapply known_effect; eauto. }
  exists st2. unfold mutex_unlock_schedee, mutex_priority_uninherit. rewrite Hr. cbn [mbind option_bind].
  rewrite Hw. cbn [mbind option_bind]. rewrite Hwk. split_and!; try done. by etrans.
Qed.

Lemma mutex_inv_free w a (l : list (nat * unit)) : zlen l = 0 -> mutex_inv (Mutex (Some w) None a 0) l.
Proof.
  intros H0. assert (l = []) as -> by (apply length_zero_iff_nil; unfold zlen in H0; lia).
  split_and!; try done. intros t r' Hx. by apply not_elem_of_nil in Hx.
Qed.

(** A release by a thread inside. *)
Lemma mutex_leave_ok c m (st : sched Q) l1 r l2 :
  sched_ok c st -> mutex_inv m (l1 ++ (c, r) :: l2) ->
  (forall s, s ∈ so_wq m -> known st s) -> zlen (so_wq m) <= 2 ^ 31 ->
  exists m' st', so_leave c m st = Some (m', st') /\ mutex_inv m' (l1 ++ l2) /\
    so_wq m' = so_wq m /\ sched_ok c st' /\ effect st st' /\
    ((forall s e, s ∈ so_wq m -> tbl st' !! s = Some e -> finished e = false -> waiting e = 0) \/
     (forall r' t, mutex_blocked r' t m = true -> mutex_blocked r' t m' = true)).
Proof.
  cbn [so_wq so_leave mutex_ops]. intros Hok ([w Hw] & Hn & Hl & Hnone & Hin & Hrec) Hk Hz.
  rewrite zlen_remove in Hn, Hrec. rewrite Hw in Hk, Hz |- *. cbn [default] in Hk, Hz |- *.
  assert (holder m = Some c) as Hc by (apply (Hl c r); set_solver).
  assert (0 <= zlen (l1 ++ l2)) as Hpos by (unfold zlen; lia).
  assert (forall m, mutex_this_owner c m = bool_decide (holder m = Some c)) as Hown by done.
  assert (forall n, zlen (l1 ++ l2) = 0 -> exists st',
    mutex_unlock_schedee c (Mutex (m_wq m) (holder m) (attr m) n) st =
      Some (Mutex (Some w) None (attr m) 0, st') /\
    mutex_inv (Mutex (Some w) None (attr m) 0) (l1 ++ l2) /\ sched_ok c st' /\ effect st st' /\
    forall s e, s ∈ w -> tbl st' !! s = Some e -> finished e = false -> waiting e = 0) as Hlast.
  { intros n Hz0. destruct (mutex_unlock_schedee_ok c (Mutex (m_wq m) (holder m) (attr m) n) st w)
      as (st' & Hu & Hok' & Hf & Hall); try done. exists st'. cbn in Hu. rewrite Hw in Hu.
    rewrite Hw. split_and!; try done. by apply mutex_inv_free. }
  destruct (is_recursive m) eqn:Er; unfold is_recursive in Er.
  - apply Z.eqb_eq in Er. unfold mutex_unlock. rewrite Er. cbn [Z.eqb MUTEX_RECURSIVE MUTEX_ERRORCHECK Pos.eqb].
    rewrite Hown, bool_decide_true by done. rewrite Z.gtb_ltb. destruct (Z.ltb_spec 0 (lock_count m)) as [_|?]; [|lia].
    replace (lock_count m - 1) with (zlen (l1 ++ l2)) by lia.
    destruct (Z.eqb_spec (zlen (l1 ++ l2)) 0) as [Hz0|Hz0].
    + destruct (Hlast (zlen (l1 ++ l2)) Hz0) as (st' & -> & Hi' & Hok' & Hf & Hall).
      cbn [mbind option_bind]. eexists _, st'. split; [done|]. split_and!; try done. by left.
    + cbn [mbind option_bind]. eexists _, st. split; [done|]. cbn. rewrite Hw.
      split_and!; try done; [|by right]. split_and!; try done; cbn.
      * intros t r' Ht. apply (Hl t r'). set_solver.
      * congruence.
      * rewrite Hc. intros h [= <-]. destruct (l1 ++ l2) as [|[t []] l'] eqn:El; [done|].
        assert (holder m = Some t) as Ht; [|simplify_eq; left].
        apply (Hl t ()). assert ((t, ()) ∈ l1 ++ l2) as Hx by (rewrite El; left). set_solver.
      * unfold is_recursive. cbn. by rewrite Er.
  - assert (zlen (l1 ++ l2) = 0) as Hz0 by (specialize (Hrec eq_refl); lia).
    destruct (Hlast (lock_count m) Hz0) as (st' & Hu & Hi' & Hok' & Hf & Hall).
    assert (Mutex (m_wq m) (holder m) (attr m) (lock_count m) = m) as Hm by (by destruct m).
    rewrite Hm in Hu. unfold mutex_unlock. rewrite Er, Hown, bool_decide_true by done. rewrite Hu.
    cbn [mbind option_bind]. exists (Mutex (Some w) None (attr m) 0), st'.
    destruct (attr_type (attr m) =? MUTEX_ERRORCHECK); split_and!; try done; by left.
Qed.

#[export] Instance mutex_ok : SyncOk Q mutex unit.
Proof.
  refine {| so_inv := mutex_inv; so_blocked := mutex_blocked |}; try done.
  - intros w o l (_ & ? & ? & ? & ? & ?). by split_and!.
  - intros [] c o st l Hok Hi Hz Hk. by apply (mutex_try_cases c o st l).
  - intros [] c o st l oc o' st' Hok Hi Hk. by apply (mutex_try_cases c o st l).
  - intros. by eapply mutex_leave_ok.
Defined.

End Mutex.

(** * Reader-writer locks *)

Inductive rw := Reading | Writing.
#[export] Instance rw_eq_dec : EqDecision rw.
Proof. solve_decision. Defined.

Definition rw_status (r : rw) : Z :=
  match r with Reading => RWLOCK_STATUS_READING | Writing => RWLOCK_STATUS_WRITING end.

Section RwLock.
Context {Q : Type} `{RS : RunqSpec Q}.

(** [do_up] drops the result of [WAITQ_WAIT]. *)
#[export] Instance rwlock_ops : SyncOps Q rwlock rw := {
  so_wq := r_wq;
  so_set_wq w r := Rwlock w (status r) (r_count r);
  so_try req self r st :=
    '(ret, r) ← rwlock_tryenter_sched_lock r (rw_status req);
    Some (if ret =? 0 then Entered else Busy, r, st);
  so_leave self r st := rwlock_any_down r st;
  so_ignores_intr := true
}.

(** The status is that of everyone inside, and a writer is alone. *)
Definition rwlock_inv (o : rwlock) (l : list (nat * rw)) : Prop :=
  (r_count o = zlen l /\ zlen l < 2 ^ 31) /\ (forall t r, (t, r) ∈ l -> status o = rw_status r) /\
  (l = [] <-> status o = RWLOCK_STATUS_NONE) /\
  (status o = RWLOCK_STATUS_WRITING -> zlen l <= 1).

Definition rwlock_blocked (r : rw) (_ : nat) (o : rwlock) : bool :=
  negb (status o =? RWLOCK_STATUS_NONE) &&
  negb (bool_decide (r = Reading) && (status o =? RWLOCK_STATUS_READING)).

Lemma zlen_nil_iff {A} (l : list A) : zlen l = 0 <-> l = [].
Proof. unfold zlen. rewrite <- length_zero_iff_nil. lia. Qed.

Lemma rwlock_inv_free w : rwlock_inv (Rwlock w RWLOCK_STATUS_NONE 0) [].
Proof. split_and!; try done. cbn. by intros t r []%not_elem_of_nil. Qed.

Lemma rwlock_try_cases r c o (st : sched Q) l :
  rwlock_inv o l ->
  (zlen l < 2 ^ 31 - 1 -> is_Some (so_try r c o st)) /\
  forall oc o' st', so_try r c o st = Some (oc, o', st') ->
  match oc with
  | Entered => rwlock_inv o' ((c, r) :: l) /\ so_wq o' = so_wq o /\ st' = st /\
      (forall r' t, rwlock_blocked r' t o = true -> rwlock_blocked r' t o' = true)
  | Refused => False
  | Busy => o' = o /\ rwlock_blocked r c o = true /\ st' = st
  end.
Proof.
  intros ((Hn & _) & Hst & Hnil & Hw). cbn [so_try rwlock_ops]. unfold rwlock_tryenter_sched_lock, rwlock_blocked.
  destruct (Z.eqb_spec (status o) RWLOCK_STATUS_NONE) as [E0|E0].
  { assert (l = []) as -> by by apply Hnil. cbn. split; [eauto|]. intros oc o' st' [= <- <- <-].
    split_and!; try done. split_and!; try done; cbn.
    - by intros t r' [[= -> ->]|[]%not_elem_of_nil]%elem_of_cons.
    - split; [done|]. by destruct r. }
  destruct ((status o =? rw_status r) && (rw_status r =? RWLOCK_STATUS_READING)) eqn:E1.
  - apply andb_true_iff in E1 as [Es%Z.eqb_eq Er%Z.eqb_eq]. destruct r; [|done]. cbn in Es.
    split; [intros Hz; rewrite int_add_ok by (rewrite Hn; unfold zlen in *; lia); cbn; eauto|].
    destruct (int_add (r_count o) 1) as [n|] eqn:En; cbn; [|done]. apply int_add_Some in En as [-> Hbd].
    intros oc o' st' [= <- <- <-]. split_and!; try done; [|intros r' t Hb; cbn; by destruct (Z.eqb_spec (status o) RWLOCK_STATUS_NONE)].
    split_and!; cbn.
    + rewrite Hn. unfold zlen. cbn [length]. lia.
    + rewrite Hn in Hbd. unfold zlen in *. cbn [length]. lia.
    + intros t r' [[= -> ->]|Ht]%elem_of_cons; [done|]. eauto.
    + done.
    + by rewrite Es.
  - cbn. split; [eauto|]. intros oc o' st' [= <- <- <-]. split_and!; try done.
    apply negb_true_iff. destruct r; [|done]. cbn in *. by rewrite andb_true_r in E1.
Qed.

Lemma rwlock_leave_ok c o (st : sched Q) l1 r l2 :
  sched_ok c st -> rwlock_inv o (l1 ++ (c, r) :: l2) ->
  (forall s, s ∈ so_wq o -> known st s) -> zlen (so_wq o) <= 2 ^ 31 ->
  exists o' st', so_leave c o st = Some (o', st') /\ rwlock_inv o' (l1 ++ l2) /\
    so_wq o' = so_wq o /\ sched_ok c st' /\ effect st st' /\
    ((forall s e, s ∈ so_wq o -> tbl st' !! s = Some e -> finished e = false -> waiting e = 0) \/
     (forall r' t, rwlock_blocked r' t o = true -> rwlock_blocked r' t o' = true)).
Proof.
  cbn [so_wq so_leave rwlock_ops]. intros Hok ((Hn & Hs) & Hst & Hnil & Hw) Hk Hz.
  rewrite zlen_remove in Hn, Hw, Hs. assert (0 <= zlen (l1 ++ l2)) as Hpos by (unfold zlen; lia).
  unfold rwlock_any_down. rewrite int_add_ok by lia. cbn [mbind option_bind].
  replace (r_count o + -1) with (zlen (l1 ++ l2)) by lia.
  destruct (Z.eqb_spec (zlen (l1 ++ l2)) 0) as [Hz0|Hz0].
  - destruct (wakeup_all_ok c (r_wq o) st Hok Hk Hz) as (st' & -> & Hok' & Hf & Hall).
    cbn [mbind option_bind]. eexists _, st'. split; [done|]. split_and!; try done; [|by left].
    apply zlen_nil_iff in Hz0. rewrite Hz0. apply rwlock_inv_free.
  - eexists _, st. split; [done|]. split_and!; try done; [|by right].
    assert (l1 ++ l2 <> []) as Hne by (by rewrite <- zlen_nil_iff).
    split_and!; try done; cbn.
    + lia.
    + intros t r' Ht. apply (Hst t r'). set_solver.
    + split; [done|]. intros [? ?]%Hnil%app_eq_nil. done.
    + intros ?%Hw. lia.
Qed.

#[export] Instance rwlock_ok : SyncOk Q rwlock rw.
Proof.
  refine {| so_inv := rwlock_inv; so_blocked := rwlock_blocked |}; try done.
  - intros r c o st l Hok Hi Hz Hk. by apply (rwlock_try_cases r c o st l).
  - intros r c o st l oc o' st' Hok Hi Hk Ht.
    pose proof (proj2 (rwlock_try_cases r c o st l Hi) oc o' st' Ht) as Hc. destruct oc; [done..|].
    by destruct Hc as (-> & Hb & ->).
  - intros. by eapply rwlock_leave_ok.
Defined.

End RwLock.
