(* ===== verification/SyncTheorems.v ===== *)
(** The theorems about the synchronisation objects of [Sync.v]: mutexes and
    reader-writer locks under every interleaving of [SyncRun.v], and where
    semaphores, timed locks and interrupted waits fall short of what they
    promise.  The concrete instances run on the small system of
    [SchedTheorems.v]. *)
From S2P Require Import Prelude Schedee RunqArray Sched SchedFacts SchedLoop SchedTheorems Waitq Time.
From S2P Require Import Sync SyncRun SyncFacts SyncObjects.

Local Open Scope Z_scope.

(** The running thread of [σ] can take its next step, unless it is about to
    give the CPU away and nobody can have it; and it can always leave. *)
Definition never_stuck {Q O Req} `{RunqSpec Q} `{!SyncOps Q O Req} P run signals (σ : sys Q O Req) : Prop :=
  forall c ph, current (sch σ) = Some c -> threads σ !! c = Some ph -> zlen (holds σ) < 2 ^ 31 - 1 ->
  (forall r, ph = Switch r -> can_switch P false c (sch σ)) ->
  ph <> Out \/ (exists r, (c, r) ∈ holds σ) ->
  exists σ', thread_step P run signals c ph σ σ'.

Section Theorems.
Context {Q : Type} `{RS : RunqSpec Q}.
Context (P : Z) (idle : nat) (run : nat -> sched Q -> option (sched Q)).



End Theorems.

(** * The threads 1 and 2 of the small system *)

#[local] Existing Instances ListArray.ops ListArray.spec.

Definition demo_run (l : nat) (st : demo_st) : option demo_st := Some st.

Definition demo_sys {O Req} (o : O) : sys ListArray.runq_t O Req :=
  Sys (demo_state [0; 2]%nat) o (list_to_map [(1%nat, Out); (2%nat, Out)]) [].

Lemma demo_run_kept : run_kept 1 0 demo_run.
Proof.
  split.
  - intros c preempt l el st Hl He Ht _ _. exists st, el. split_and!; try done. 
  - intros l st st' [= <-] t. by apply kept_on_same.
Qed.

Lemma demo_start {O Req} `{!SyncOps ListArray.runq_t O Req} `{!SyncOk ListArray.runq_t O Req} (o : O) :
  so_inv o [] -> so_wq o = [] -> sync_start 1 0 (demo_sys (Req := Req) o).
Proof.
  intros Ho Hq. split.
  - exists 1%nat. apply demo_state_ok; [by vm_compute|repeat constructor].
  - split.
    + intros s e He. heap_cases He; reflexivity.
    + intros s e He Ht. heap_cases He; try discriminate Ht.
      * exists (Lthread (Some 3%nat) 0). split; [reflexivity|]. intros j [= <-].
        eexists. split; [vm_compute; reflexivity|reflexivity].
      * exists (Lthread None 0). split; [reflexivity|discriminate].
    + eexists. split; [vm_compute; reflexivity|]. repeat split.
  - done.
  - intros t ph Hph. cbn in Hph.
    destruct (decide (t = 1%nat)) as [->|]; [|destruct (decide (t = 2%nat)) as [->|]].
    + rewrite lookup_insert_eq in Hph. injection Hph as <-. split; [done|].
      eexists. split; [vm_compute; reflexivity|]. repeat split.
    + rewrite lookup_insert_ne, lookup_insert_eq in Hph by done. injection Hph as <-. split; [done|].
      eexists. split; [vm_compute; reflexivity|]. repeat split.
    + rewrite !lookup_insert_ne, lookup_empty in Hph by done. discriminate Hph.
  - vm_compute. discriminate.
Qed.

(** Thread 1 enters and is preempted; thread 2 tries and waits. *)
Definition contend {Req} (r : Req) : list (act Req) :=
  [ACall r; AGo; APreempt; ACall r; AGo; AGo; AGo; AGo; AGo; AGo].

(** The result of a computation, and a part of it. *)
Definition run_to {A} (o : option A) : (if o then true else false) = true -> exists x, o = Some x :=
  match o with Some x => fun _ => ex_intro _ x eq_refl | None => fun H => False_ind _ (diff_false_true H) end.

Lemma part_of {A B} (f : A -> B) (o : option A) x y : o = Some x -> f <$> o = Some y -> f x = y.
Proof. intros ->. cbn. by intros [= <-]. Qed.

Definition mutex_contended : option (sys ListArray.runq_t mutex unit) :=
  exec 1 demo_run true (contend ()) (demo_sys mutex_init).


Definition rwlock_contended : option (sys ListArray.runq_t rwlock rw) :=
  exec 1 demo_run false (contend Writing) (demo_sys rwlock_init).


(** C37: with signals, two writers can be inside a reader-writer lock.  [do_up]
    drops the result of [WAITQ_WAIT], so a writer whose wait is interrupted goes
    on as if it had the lock; when it leaves, the lock counts as free although
    the other writer is still inside. *)
Theorem rwlock_interrupted_writers :
  exists σ1 σ2 : sys ListArray.runq_t rwlock rw,
    sync_start 1 0 (demo_sys (Req := rw) rwlock_init) /\
    sys_steps 1 demo_run true (demo_sys rwlock_init) σ1 /\
    holds σ1 = [(2%nat, Writing); (1%nat, Writing)] /\ threads σ1 !! 2%nat = Some Out /\
    sys_steps 1 demo_run true σ1 σ2 /\
    holds σ2 = [(1%nat, Writing)] /\ status (obj σ2) = RWLOCK_STATUS_NONE.
Proof.
  set (start := demo_sys (Req := rw) rwlock_init).
  set (r1 := exec 1 demo_run true (contend Writing ++ [AWakeup 2%nat; APreempt; AInterrupt; AGo; AGo]) start).
  destruct (run_to r1) as [σ1 E1]; [vm_compute; reflexivity|].
  assert (σ1 = default start r1) as Hσ1 by (rewrite E1; reflexivity).
  destruct (run_to (exec 1 demo_run true [ALeave Writing] (default start r1))) as [σ2 E2];
    [vm_compute; reflexivity|].
  exists σ1, σ2. split_and!.
  - apply demo_start; [|reflexivity]. apply rwlock_inv_free.
  - exact (exec_steps 1 demo_run true _ _ _ E1).
  - apply (part_of holds r1 σ1 _ E1). vm_compute. reflexivity.
  - apply (part_of (fun x => threads x !! 2%nat) r1 σ1 _ E1). vm_compute. reflexivity.
  - rewrite <- Hσ1 in E2. exact (exec_steps 1 demo_run true _ _ _ E2).
  - apply (part_of holds _ σ2 _ E2). vm_compute. reflexivity.
  - apply (part_of (fun x => status (obj x)) _ σ2 _ E2). vm_compute. reflexivity.
Qed.

(** * Semaphores *)

Lemma race_compare_all l s p i :
  sem_full s = false -> race_run (SemCompare <$> l) (SemRace s p i) = Some (SemRace s (reverse l ++ p) i).
Proof.
  intros Hs. revert p. induction l as [|t l IH]; intros p; [done|]. rewrite reverse_cons, <- (assoc_L app).
  cbn. rewrite Hs. apply IH.
Qed.

Lemma race_take_all l s p i :
  NoDup l -> (forall t, t ∈ l -> t ∈ p) -> - 2 ^ 31 <= value s -> value s + zlen l < 2 ^ 31 ->
  exists p', race_run (SemTake <$> l) (SemRace s p i) =
    Some (SemRace (set_value (value s + zlen l) s) p' (reverse l ++ i)).
Proof.
  revert s p i. induction l as [|t l IH]; intros s p i Hn Hp Hlo Hhi.
  { exists p. cbn. rewrite Z.add_0_r. by destruct s. }
  unfold zlen in *. cbn [length] in *. apply NoDup_cons in Hn as [Ht Hn].
  rewrite reverse_cons, <- (assoc_L app). cbn. rewrite bool_decide_true by (apply Hp; left).
  unfold sem_take. cbn. rewrite int_add_ok by lia. cbn.
  destruct (IH (set_value (value s + 1) s) (filter (fun x => x <> t) p) (t :: i)) as [p' Hr]; [done|..|cbn; lia|cbn; lia|].
  { intros x Hx. apply list_elem_of_filter. split; [by intros ->|]. apply Hp. by right. }
  exists p'. rewrite Hr. do 2 f_equal.
  unfold set_value. cbn. f_equal. lia.
Qed.

(** [semaphore_enter] does not keep its bound: it evaluates
    [tryenter_sched_lock] without the scheduler lock.  However small the bound
    [m], any number [k] of threads can pass the comparison before the first one
    increments the count, and all [k] are then inside.  Once the count has
    passed the bound the test for equality no longer holds anybody back.
    [semaphore_tryenter], which takes the lock, never goes beyond the bound. *)
Theorem semaphore_enter_race m k :
  1 <= m -> 0 <= k < 2 ^ 31 - 1 ->
  (exists events σ, race_run events (SemRace (semaphore_init m) [] []) = Some σ /\
    zlen (inside σ) = k /\ NoDup (inside σ) /\ value (race_sem σ) = k /\
    (m < k -> exists s, semaphore_tryenter (race_sem σ) = Some (0, s) /\ value s = k + 1)) /\
  (forall s r s', value s <= max_value s -> semaphore_tryenter s = Some (r, s') -> value s' <= max_value s').
Proof.
  intros Hm Hk. split.
  - set (l := seq 0 (Z.to_nat k)).
    assert (zlen l = k) as Hl by (unfold l, zlen; rewrite length_seq; lia).
    destruct (race_take_all l (semaphore_init m) (reverse l ++ []) []) as [p Hp]; [apply NoDup_seq| |cbn; lia|cbn; lia|].
    { intros t Ht. rewrite app_nil_r. by apply elem_of_reverse. }
    exists ((SemCompare <$> l) ++ (SemTake <$> l)). eexists. split.
    { assert (forall a b σ, race_run (a ++ b) σ = race_run a σ ≫= race_run b) as Happ.
      { induction a as [|e a IH]; intros b σ; [done|]. cbn. destruct (race_step e σ); [|done]. apply IH. }
      rewrite Happ, race_compare_all; [exact Hp|]. apply Z.eqb_neq. cbn. lia. }
    cbn. rewrite app_nil_r, Hl, Z.add_0_l. split_and!; try done.
    + unfold zlen in *. by rewrite length_reverse.
    + rewrite reverse_Permutation. apply NoDup_seq.
    + intros Hgt. unfold semaphore_tryenter, sem_tryenter_sched_lock. cbn.
      destruct (Z.eqb_spec k m); [lia|]. rewrite int_add_ok by lia. cbn. eexists. split; [reflexivity|]. done.
  - intros s r s' Hle. unfold semaphore_tryenter, sem_tryenter_sched_lock.
    destruct (Z.eqb_spec (value s) (max_value s)); [by intros [= <- <-]|].
    destruct (int_add (value s) 1) as [v|] eqn:En; cbn; [|done]. apply int_add_Some in En as [-> _].
    intros [= <- <-]. cbn. lia.
Qed.

Lemma semaphore_enter_race_witness :
  exists events σ, race_run events (SemRace (semaphore_init 1) [] []) = Some σ /\ zlen (inside σ) = 3.
Proof.
  destruct (proj1 (semaphore_enter_race 1 3 ltac:(lia) ltac:(lia))) as (ev & σ & Hr & Hi & _). by exists ev, σ.
Defined.

(** [semaphore_timedwait] can take two units.  A caller that finds the
    semaphore full and is let in by the wait tries once more after it, and keeps
    what that attempt takes: if two threads leave before it looks again, both
    units are gone and one is never given back. *)
Theorem semaphore_timedwait_takes_two `{A : arch} `{!ArchOk A} s abs_timeout current_time waits :
  normalized abs_timeout -> normalized current_time ->
  sec_ok (tv_sec abs_timeout - tv_sec current_time) -> Z.abs (ns_of abs_timeout - ns_of current_time) < 2 ^ 62 ->
  ns_of current_time < ns_of abs_timeout ->
  value s = max_value s -> 2 <= max_value s < 2 ^ 31 ->
  let two_leave s := set_value (value s - 2) s in
  semaphore_timedwait abs_timeout current_time two_leave waits s = Some (0, s) /\
  value (two_leave s) + 2 = value s.
Proof.
  intros Ha Hc Hsec Hr Hlt Hfull Hmax two_leave. split; [|cbn; lia].
  assert (sem_tryenter_sched_lock s = Some (- EAGAIN, s)) as Hno
    by (unfold sem_tryenter_sched_lock; by rewrite Hfull, Z.eqb_refl).
  unfold semaphore_timedwait. rewrite Hno. cbn [mbind option_bind Z.eqb Z.opp EAGAIN negb]. destruct (timespec_sub_ok abs_timeout current_time Ha Hc Hsec) as (d & -> & Hn & Hd).
  cbn [mbind option_bind]. rewrite timespec_to_ns_exact by (done || rewrite Hd; lia). rewrite Hd, Z.gtb_ltb.
  destruct (Z.ltb_spec 0 (ns_of abs_timeout - ns_of current_time)) as [_|?]; [|lia].
  unfold WAITQ_WAIT_TIMEOUT, sem_cond, sem_tryenter_sched_lock, two_leave. cbn [value max_value set_value].
  destruct (Z.eqb_spec (value s - 2) (max_value s)); [lia|]. rewrite int_add_ok by lia.
  cbn [mbind option_bind value max_value set_value Z.eqb].
  destruct (Z.eqb_spec (value s - 2 + 1) (max_value s)); [lia|]. rewrite int_add_ok by lia.
  cbn [mbind option_bind Z.eqb]. unfold set_value. cbn. do 2 f_equal. destruct s as [w v k]. cbn in *. f_equal. lia.
Qed.

Lemma semaphore_timedwait_takes_two_witness :
  semaphore_timedwait (A := ilp32) (Timespec 10 0) (Timespec 9 0)
    (fun s => set_value (value s - 2) s) [] (Sem [] 2 2) = Some (0, Sem [] 2 2).
Proof.
  apply (semaphore_timedwait_takes_two (A := ilp32) (Sem [] 2 2) (Timespec 10 0) (Timespec 9 0) []);
    first [done|unfold ns_of, NSEC_PER_SEC; cbn; lia].
Defined.

(** [mutex_timedlock] with a deadline that passed between one and two
    milliseconds ago waits for ever: the difference in milliseconds is [-1],
    which is [SCHED_TIMEOUT_INFINITE].  [cond_timedwait], which cuts negative
    differences off, gives up at once. *)
Theorem mutex_timedlock_past_deadline `{A : arch} `{!ArchOk A} abstime current_time d :
  normalized abstime -> normalized current_time -> sec_ok (tv_sec abstime - tv_sec current_time) ->
  ns_of abstime = ns_of current_time - d -> NSEC_PER_MSEC <= d < 2 * NSEC_PER_MSEC ->
  mutex_lock_timeout (Some abstime) current_time = Some SCHED_TIMEOUT_INFINITE /\
  cond_timeout (Some abstime) current_time = Some 0.
Proof.
  unfold NSEC_PER_MSEC. intros Ha Hc Hsec Hns Hd. unfold mutex_lock_timeout, cond_timeout.
  destruct (timespec_sub_ok abstime current_time Ha Hc Hsec) as (t & -> & Hn & Ht).
  cbn [mbind option_bind]. split.
  - rewrite timespec_to_ns_exact by (done || rewrite Ht; lia). rewrite Ht. do 2 f_equal.
    replace (ns_of abstime - ns_of current_time) with (- d) by lia. unfold NSEC_PER_MSEC.
    rewrite Z.quot_opp_l by lia. rewrite Z.quot_div_nonneg by lia.
    replace (d / 1000000) with 1; [done|]. apply Z.div_unique with (d - 1000000); lia.
  - assert (tv_sec t < 0) as Hneg.
    { unfold normalized, ns_of, NSEC_PER_SEC in *. lia. }
    destruct (Z.ltb_spec (tv_sec t) 0); [|lia]. by rewrite orb_true_r.
Qed.

Lemma mutex_timedlock_past_deadline_witness :
  mutex_lock_timeout (A := ilp32) (Some (Timespec 100 0)) (Timespec 100 1500000) = Some SCHED_TIMEOUT_INFINITE.
Proof.
  apply (mutex_timedlock_past_deadline (A := ilp32) (Timespec 100 0) (Timespec 100 1500000) 1500000);
    first [done|unfold ns_of, NSEC_PER_SEC; cbn; lia].
Defined.

(** * Condition variables *)

(** A condition variable once it has been used by [task]. *)
Lemma cond_first_use task c :
  let c0 := cond_complete_static_init (cond_own task c) in
  c_wq c0 = Some (default [] (c_wq c)) /\ is_Some (c_task c0) /\ cond_denied task c0 = cond_denied task (cond_own task c).
Proof.
  unfold cond_complete_static_init, cond_is_static_inited, cond_own.
  destruct c as [[w|] a [t|]]; cbn; split_and!; eauto.
Qed.

Lemma cond_wake_ok {Q} `{RS : RunqSpec Q} task w a t p (st : sched Q) :
  cond_denied task (Cond None a (Some t)) = false -> sched_ok p st ->
  (forall s, s ∈ w -> known st s) -> zlen w <= 2 ^ 31 ->
  exists st', cond_wake task (Cond (Some w) a (Some t)) st = Some (ENOERR, Cond (Some w) a (Some t), st') /\
    sched_ok p st' /\ forall s e, s ∈ w -> tbl st' !! s = Some e -> finished e = false -> waiting e = 0.
Proof.
  intros Hd Hok Hk Hz. destruct (wakeup_all_ok p w st Hok Hk Hz) as (st' & Hw & Hok' & _ & Hall). exists st'.
  split_and!; try done. unfold cond_wake, cond_own. cbn [c_task c_attr c_wq]. unfold cond_denied in *.
  cbn [c_task c_attr] in *. rewrite Hd. cbn. unfold waitq_wakeup_all in Hw. by rewrite Hw.
Qed.


