(* ===== verification/SysTimer.v ===== *)
(** System timers, [src/kernel/time/timer/sys_timer.c], in a single-CPU build.

    The queue is any strategy ([TimerStrat]); [head_timer.c] is an instance.
    [now] is [clock_sys_ticks()], [hz] the tick rate.  A NULL pointer is [0]. *)
From S2P Require Import Prelude Pool Time DeltaList HeadTimer.

Local Open Scope Z_scope.
Local Open Scope embox_scope.

Definition ENOERR : Z := 0.
Definition ENOMEM : Z := 12.
Definition EINVAL : Z := 22.

Class TimerStrat (S : Type) := {
  ts_tm : S -> timers;
  ts_with_tm : timers -> S -> S;
  ts_start : Z -> Z -> S -> option S;
  ts_stop : Z -> S -> option S
}.

Section Ops.
Context {S : Type} `{TS : !TimerStrat S}.

(** The strategy's state and [timer_pool]. *)
Record sys := Sys { strat : S; timer_pool : pool }.

Definition with_strat (s : S) (st : sys) : sys := Sys s (timer_pool st).
Definition upd_timer (t : Z) (f : sys_timer -> sys_timer) (st : sys) : sys :=
  with_strat (ts_with_tm (alter f t (ts_tm (strat st))) (strat st)) st.

Definition sys_timer_alloc (st : sys) : option (option Z * sys) :=
  '(t, p) ← pool_alloc (timer_pool st); Some (t, Sys (strat st) p).

Definition sys_timer_free (t : Z) (st : sys) : option sys :=
  p ← pool_free (timer_pool st) t; Some (Sys (strat st) p).

Definition sys_timer_init (t flgs handler prm : Z) (st : sys) : Z * sys :=
  if (handler =? 0) || (t =? 0) then (- EINVAL, st)
  else (ENOERR, upd_timer t (fun x =>
    SysTimer (load x) (cnt x) (multi_cnt x) handler prm flgs 0 (owner_cpu x) (sharing x)) st).

Definition sys_timer_stop (t : Z) (st : sys) : option sys :=
  x ← ts_tm (strat st) !! t;
  if sys_timer_is_started x then s ← ts_stop t (strat st); Some (with_strat s st)
  else Some st.

Definition sys_timer_start (now t jiffies : Z) (st : sys) : option sys :=
  st ← sys_timer_stop t st;
  let st := upd_timer t (fun x => let x := set_load (u32 jiffies) x in
                                  set_cnt (u64 (now + load x)) x) st in
  s ← ts_start now t (strat st);
  Some (with_strat s st).

Definition sys_timer_init_start (now t flgs jiffies handler prm : Z) (st : sys) : option (Z * sys) :=
  let '(err, st) := sys_timer_init t flgs handler prm st in
  if negb (err =? 0) then Some (err, st)
  else st ← sys_timer_start now t jiffies st; Some (ENOERR, st).

Definition sys_timer_init_start_msec (hz now t flgs msec handler prm : Z) (st : sys)
  : option (Z * sys) :=
  j ← ms2jiffies hz msec; sys_timer_init_start now t flgs j handler prm st.

(** The result code, the timer stored through [ptimer], the state. *)
Definition sys_timer_set (hz now : Z) (ptimer_null : bool) (flgs msec handler prm : Z) (st : sys)
  : option (Z * option Z * sys) :=
  if (handler =? 0) || ptimer_null then Some (- EINVAL, None, st)
  else
    '(t, st) ← sys_timer_alloc st;
    match t with
    | None => Some (- ENOMEM, None, st)
    | Some t =>
      '(err, st) ← sys_timer_init_start_msec hz now t flgs msec handler prm st;
      if negb (err =? 0) then st ← sys_timer_free t st; Some (err, None, st)
      else Some (ENOERR, Some t, upd_timer t sys_timer_set_preallocated st)
    end.

Definition sys_timer_close (t : Z) (st : sys) : option (Z * sys) :=
  if t =? 0 then Some (- EINVAL, st)
  else
    st ← sys_timer_stop t st;
    x ← ts_tm (strat st) !! t;
    if sys_timer_is_preallocated x then
      st ← sys_timer_free t (upd_timer t sys_timer_clear_preallocated st);
      Some (ENOERR, st)
    else Some (ENOERR, st).

End Ops.
Arguments sys S : clear implicits.

#[export] Instance head_timer_strat : TimerStrat HeadTimer.tst := {|
  ts_tm := HeadTimer.tm;
  ts_with_tm := fun h st => HeadTimer.Tst h (HeadTimer.sys_timers_list st) (HeadTimer.fired st);
  ts_start := HeadTimer.timer_strat_start;
  ts_stop := HeadTimer.timer_strat_stop |}.

(** * Timers over [head_timer.c] *)

Abbreviation hsys := (sys HeadTimer.tst).
Definition hexps (st : hsys) : list (Z * Z) :=
  expiries HeadTimer.getc (HeadTimer.tm (strat st)) (HeadTimer.sys_timers_list (strat st)) 0.

Lemma stop_spec t (st : hsys) :
  HeadTimer.ok (strat st) -> is_Some (HeadTimer.tm (strat st) !! t) ->
  exists st', sys_timer_stop t st = Some st' /\ HeadTimer.ok (strat st') /\
    hexps st' = exp_remove t (hexps st) /\ t ∉ HeadTimer.sys_timers_list (strat st') /\
    timer_pool st' = timer_pool st /\
    HeadTimer.fired (strat st') = HeadTimer.fired (strat st) /\
    (forall y, HeadTimer.kept <$> HeadTimer.tm (strat st') !! y =
               HeadTimer.kept <$> HeadTimer.tm (strat st) !! y).
Proof.
  intros Hok [x Hx]. unfold sys_timer_stop. cbn [ts_tm head_timer_strat]. rewrite Hx.
  cbn [mbind option_bind]. destruct (sys_timer_is_started x) eqn:Es.
  - apply (HeadTimer.ok_started _ Hok _ _ Hx) in Es.
    destruct (HeadTimer.stop_ok t x (strat st) Hok Hx Es) as (s & Hs & Hok' & He & Hf & Hk).
    cbn [ts_stop head_timer_strat]. rewrite Hs. cbn [mbind option_bind]. eexists. split; [done|].
    split_and!; try done. cbn. rewrite <- (expiries_snd HeadTimer.getc (HeadTimer.tm s) _ 0).
    rewrite He. unfold exp_remove. rewrite filter_snd, list_elem_of_filter. tauto.
  - assert (t ∉ HeadTimer.sys_timers_list (strat st)) as Hn.
    { intros Hin. apply (HeadTimer.ok_started _ Hok _ _ Hx) in Hin. congruence. }
    exists st. split_and!; try done. symmetry. apply filter_all. intros [e y] Hy Heq.
    cbn in Heq. subst y. apply Hn.
    rewrite <- (expiries_snd HeadTimer.getc (HeadTimer.tm (strat st)) (HeadTimer.sys_timers_list (strat st)) 0).
    by apply (list_elem_of_fmap_2 snd _ (e, t)).
Qed.

(** Touching a timer that is not queued, its state excepted. *)
Lemma touch_ok t f (s : HeadTimer.tst) :
  HeadTimer.ok s -> t ∉ HeadTimer.sys_timers_list s ->
  (forall x, state (f x) = state x) ->
  let s' := HeadTimer.Tst (alter f t (HeadTimer.tm s)) (HeadTimer.sys_timers_list s) (HeadTimer.fired s) in
  HeadTimer.ok s' /\
  expiries HeadTimer.getc (HeadTimer.tm s') (HeadTimer.sys_timers_list s') 0 =
  expiries HeadTimer.getc (HeadTimer.tm s) (HeadTimer.sys_timers_list s) 0.
Proof.
  intros Hok Hn Hf s'. destruct (HeadTimer.ok_delta _ Hok) as [Hnd Hent Hr].
  assert (forall y, y ∈ HeadTimer.sys_timers_list s -> HeadTimer.tm s' !! y = HeadTimer.tm s !! y) as Hsame
    by (intros y Hy; cbn; rewrite lookup_alter_ne; [done|by intros ->]).
  assert (expiries HeadTimer.getc (HeadTimer.tm s') (HeadTimer.sys_timers_list s') 0 =
    expiries HeadTimer.getc (HeadTimer.tm s) (HeadTimer.sys_timers_list s) 0) as He
    by (by apply expiries_frame).
  split; [|done]. split.
  - split; [done| |by rewrite He]. by eapply entry_frame.
  - intros y x Hy. cbn in Hy |- *. rewrite lookup_alter in Hy. case_decide.
    + subst y. destruct (HeadTimer.tm s !! t) as [x0|] eqn:E; [|done]. cbn in Hy. simplify_eq.
      unfold sys_timer_is_started. rewrite Hf. by apply (HeadTimer.ok_started _ Hok _ _ E).
    + by apply (HeadTimer.ok_started _ Hok).
Qed.

Lemma start_spec now t jiffies (st : hsys) :
  HeadTimer.ok (strat st) -> is_Some (HeadTimer.tm (strat st) !! t) ->
  0 <= now -> now + u32 jiffies < 2 ^ 64 ->
  exists st', sys_timer_start now t jiffies st = Some st' /\ HeadTimer.ok (strat st') /\
    hexps st' = exp_insert (now + u32 jiffies) t (exp_remove t (hexps st)) /\
    timer_pool st' = timer_pool st /\
    HeadTimer.fired (strat st') = HeadTimer.fired (strat st) /\
    (forall y, is_Some (HeadTimer.tm (strat st') !! y) <-> is_Some (HeadTimer.tm (strat st) !! y)).
Proof.
  intros Hok Hx Hnow Hsum. pose proof (wrap_bounds 32 jiffies ltac:(lia)). unfold sys_timer_start.
  destruct (stop_spec t st Hok Hx) as (st1 & -> & Hok1 & He1 & Hn1 & Hp1 & Hf1 & Hk1).
  cbn [mbind option_bind]. unfold upd_timer. cbn [ts_tm ts_with_tm head_timer_strat with_strat strat].
  set (f := fun x0 : sys_timer => set_cnt _ _).
  destruct (touch_ok t f (strat st1) Hok1 Hn1) as [Hok2 He2]; [done|].
  set (s2 := HeadTimer.Tst _ _ _) in *.
  assert (forall y, is_Some (HeadTimer.tm (strat st1) !! y) <-> is_Some (HeadTimer.tm (strat st) !! y)) as Hdom.
  { intros y. specialize (Hk1 y). unfold is_Some.
    destruct (HeadTimer.tm (strat st1) !! y), (HeadTimer.tm (strat st) !! y); try done; naive_solver. }
  destruct (proj2 (Hdom t) Hx) as [x1 Hx1].
  assert (HeadTimer.tm s2 !! t = Some (f x1)) as Hx2 by (cbn; by rewrite lookup_alter_eq, Hx1).
  assert (load (f x1) = u32 jiffies) as Hl by done.
  destruct (HeadTimer.start_ok now t (f x1) s2 Hok2 Hx2 Hn1) as (s3 & Hs3 & Hok3 & He3 & Hf3 & Hk3);
    [rewrite Hl; lia|].
  cbn [ts_start head_timer_strat]. rewrite Hs3. cbn [mbind option_bind].
  eexists. split; [done|]. split_and!; try done.
  - unfold hexps at 1. cbn [strat with_strat]. rewrite He3, Hl, He2. f_equal. exact He1.
  - cbn. by rewrite Hf3.
  - intros y. rewrite <- Hdom. cbn [strat with_strat]. specialize (Hk3 y).
    assert (is_Some (HeadTimer.tm s2 !! y) <-> is_Some (HeadTimer.tm (strat st1) !! y)) as <-.
    { cbn. rewrite lookup_alter_is_Some. done. }
    unfold is_Some. destruct (HeadTimer.tm s3 !! y), (HeadTimer.tm s2 !! y); try done; naive_solver.
Qed.

(** * Sequences of starts and stops *)

Inductive tm_op := TStart (now t jiffies : Z) | TStop (t : Z).

Definition tm_step (o : tm_op) (st : hsys) : option hsys :=
  match o with
  | TStart now t jiffies => sys_timer_start now t jiffies st
  | TStop t => sys_timer_stop t st
  end.

Fixpoint tm_run (os : list tm_op) (st : hsys) : option hsys :=
  match os with [] => Some st | o :: os => st ← tm_step o st; tm_run os st end.

(** The reference: a sorted list of expiry times. *)
Definition spec_tm_step (o : tm_op) (l : list (Z * Z)) : list (Z * Z) :=
  match o with
  | TStart now t jiffies => exp_insert (now + jiffies) t (exp_remove t l)
  | TStop t => exp_remove t l
  end.

Definition tm_op_ok (h : timers) (o : tm_op) : Prop :=
  match o with
  | TStart now t jiffies =>
    is_Some (h !! t) /\ 0 <= jiffies < 2 ^ 32 /\ 0 <= now /\ now + jiffies < 2 ^ 64
  | TStop t => is_Some (h !! t)
  end.

Lemma tm_run_ok os : forall (st : hsys) h0,
  HeadTimer.ok (strat st) -> (forall y, is_Some (HeadTimer.tm (strat st) !! y) <-> is_Some (h0 !! y)) ->
  Forall (tm_op_ok h0) os ->
  exists st', tm_run os st = Some st' /\ HeadTimer.ok (strat st') /\
    hexps st' = foldl (fun l o => spec_tm_step o l) (hexps st) os.
Proof.
  induction os as [|o os IH]; intros st h0 Hok Hdom Hos; cbn; [by exists st|].
  apply Forall_cons in Hos as [Ho Hos]. destruct o as [now t j|t]; cbn in Ho |- *.
  - destruct Ho as (Ht & Hj & Hnow & Hsum). assert (u32 j = j) as Hw by by apply wrap_small.
    destruct (start_spec now t j st Hok) as (st1 & -> & Hok1 & He1 & _ & _ & Hd1);
      [by apply Hdom|done|by rewrite Hw|]. cbn [mbind option_bind]. rewrite Hw in He1. rewrite <- He1.
    eapply IH; [done| |done]. intros y. by rewrite Hd1.
  - destruct (stop_spec t st Hok) as (st1 & -> & Hok1 & He1 & _ & _ & _ & Hk1); [by apply Hdom|].
    cbn [mbind option_bind]. rewrite <- He1. eapply (IH _ h0); [done| |done].
    intros y. rewrite <- Hdom. specialize (Hk1 y). unfold is_Some.
    destruct (HeadTimer.tm (strat st1) !! y), (HeadTimer.tm (strat st) !! y); try done; naive_solver.
Qed.

(** C18: the delta list is a sorted queue of absolute expiry times.  Whatever
    timers are started and stopped, in whatever order, every operation succeeds;
    a start replaces the timer's earlier expiry by [now + jiffies], a stop
    removes it, no other timer's expiry changes, and the next event reported is
    the earliest expiry. *)
Theorem sys_timer_queue os (st : hsys) :
  HeadTimer.ok (strat st) -> Forall (tm_op_ok (HeadTimer.tm (strat st))) os ->
  exists st', tm_run os st = Some st' /\ HeadTimer.ok (strat st') /\
    hexps st' = foldl (fun l o => spec_tm_step o l) (hexps st) os /\ exp_sorted (hexps st') /\
    HeadTimer.timer_strat_get_next_event (strat st') = Some (fst <$> head (hexps st')).
Proof.
  intros Hok Hos. destruct (tm_run_ok os st _ Hok ltac:(done) Hos) as (st' & Hr & Hok' & He).
  exists st'. split_and!; try done.
  - eapply expiries_sorted. apply (do_entries _ _ _ _ _ (HeadTimer.ok_delta _ Hok')).
  - by apply HeadTimer.next_event_ok.
Qed.

Definition demo_timer (flgs : Z) : sys_timer := SysTimer 0 0 [] 1 0 flgs 0 (-1) None.
Definition demo_sys : hsys :=
  Sys (HeadTimer.Tst (list_to_map [(1, demo_timer 0); (2, demo_timer 0); (3, demo_timer 0)]) [] [])
    (POOL_DEF 0 64 0).

Lemma demo_sys_ok : HeadTimer.ok (strat demo_sys).
Proof.
  split; [split; constructor|]. intros t x Hx. apply elem_of_map_to_list in Hx. vm_compute in Hx.
  repeat (apply elem_of_cons in Hx as [Hx|Hx]; [injection Hx as -> ->; cbn; split; [done|set_solver]|]).
  by apply elem_of_nil in Hx.
Qed.

Lemma sys_timer_queue_witness :
  exists st', tm_run [TStart 100 1 7; TStart 100 2 5; TStart 101 3 4; TStop 3; TStart 102 1 1] demo_sys = Some st' /\
    HeadTimer.ok (strat st') /\ hexps st' = [(103, 1); (105, 2)] /\ exp_sorted (hexps st') /\
    HeadTimer.timer_strat_get_next_event (strat st') = Some (fst <$> head (hexps st')).
Proof.
  apply (sys_timer_queue [TStart 100 1 7; TStart 100 2 5; TStart 101 3 4; TStop 3; TStart 102 1 1] demo_sys).
  - exact demo_sys_ok.
  - repeat constructor; cbn; try lia; eexists; reflexivity.
Defined.

(** A timeout of [2^32] ticks or more is cut to its low 32 bits, because
    [load] is a [uint32_t]: the timer is queued to fire early. *)
Theorem sys_timer_start_truncates now t jiffies (st : hsys) :
  HeadTimer.ok (strat st) -> is_Some (HeadTimer.tm (strat st) !! t) ->
  0 <= now < 2 ^ 63 -> 2 ^ 32 <= jiffies ->
  exists st' e, sys_timer_start now t jiffies st = Some st' /\
    (e, t) ∈ hexps st' /\ e < now + 2 ^ 32 <= now + jiffies.
Proof.
  intros Hok Ht Hnow Hj. pose proof (wrap_bounds 32 jiffies ltac:(lia)).
  destruct (start_spec now t jiffies st Hok Ht) as (st' & -> & _ & He & _); [lia|lia|].
  exists st', (now + u32 jiffies). split; [done|]. split; [|lia].
  rewrite He. apply exp_insert_elem. by left.
Qed.

Lemma sys_timer_start_truncates_witness :
  exists st' e, sys_timer_start 1000 2 (2 ^ 32 + 5) demo_sys = Some st' /\
    (e, 2) ∈ hexps st' /\ e < 1000 + 2 ^ 32 <= 1000 + (2 ^ 32 + 5).
Proof.
  apply (sys_timer_start_truncates 1000 2 (2 ^ 32 + 5) demo_sys).
  - exact demo_sys_ok.
  - eexists; reflexivity.
  - lia.
  - lia.
Defined.

(** One pass fires at most what the reduced time allows.  The pass is total
    on one-shot timers, but it subtracts each fired expiry from the time and
    folds it into the next counter as well, so when a second timer is due at
    the same tick (or at any time before twice the first expiry) the pass
    stops after the first: the second stays queued although it is due. *)
Theorem timer_strat_sched_misses_due fuel now jiffies (st : HeadTimer.tst) e1 t1 e2 t2 l :
  HeadTimer.ok st -> HeadTimer.oneshot st -> 0 <= jiffies < 2 ^ 64 ->
  (length (HeadTimer.sys_timers_list st) < fuel)%nat ->
  expiries HeadTimer.getc (HeadTimer.tm st) (HeadTimer.sys_timers_list st) 0 = (e1, t1) :: (e2, t2) :: l ->
  e2 <= jiffies < e1 + e2 ->
  exists st', HeadTimer.timer_strat_sched (fun _ st => Some st) fuel now jiffies st = Some st' /\
    HeadTimer.fired st' = HeadTimer.fired st ++ [t1] /\
    expiries HeadTimer.getc (HeadTimer.tm st') (HeadTimer.sys_timers_list st') 0 = (e2, t2) :: l.
Proof.
  intros Hok Hone Hj Hf He Hdue. unfold HeadTimer.timer_strat_sched.
  destruct (HeadTimer.sched_loop_pass fuel now jiffies st Hok Hone Hj Hf) as (st' & -> & _ & Hfi & Hex).
  exists st'. split; [done|].
  pose proof (expiries_sorted HeadTimer.getc HeadTimer.wf _ (HeadTimer.sys_timers_list st) 0
    (do_entries _ _ _ _ _ (HeadTimer.ok_delta _ Hok))) as Hs.
  rewrite He in *. destruct Hs as [Hs _]. apply Forall_cons in Hs as [Hle _]. cbn in Hle.
  cbn [HeadTimer.pass] in Hfi, Hex.
  destruct (Z.ltb_spec jiffies e1); [lia|]. destruct (Z.ltb_spec (jiffies - e1) e2); [done|lia].
Qed.

Definition two_due : HeadTimer.tst :=
  match tm_run [TStart 100 1 5; TStart 100 2 5] demo_sys with
  | Some st => strat st | None => strat demo_sys end.

Lemma timer_strat_sched_misses_due_witness :
  exists st', HeadTimer.timer_strat_sched (fun _ st => Some st) 3 105 105 two_due = Some st' /\
    HeadTimer.fired st' = [] ++ [2] /\
    expiries HeadTimer.getc (HeadTimer.tm st') (HeadTimer.sys_timers_list st') 0 = [(105, 1)].
Proof.
  apply (timer_strat_sched_misses_due 3 105 105 two_due 105 2 105 1 []).
  - destruct (tm_run_ok [TStart 100 1 5; TStart 100 2 5] demo_sys (HeadTimer.tm (strat demo_sys)))
      as (st' & Hr & Hok & _).
    + exact demo_sys_ok.
    + done.
    + repeat constructor; cbn; try lia; eexists; reflexivity.
    + unfold two_due. rewrite Hr. exact Hok.
  - intros t x Hx. apply elem_of_map_to_list in Hx. vm_compute in Hx.
    repeat (apply elem_of_cons in Hx as [Hx|Hx]; [injection Hx as -> ->; reflexivity|]).
    by apply elem_of_nil in Hx.
  - lia.
  - vm_compute. lia.
  - by vm_compute.
  - lia.
Defined.
