(* ===== verification/HeadTimerSmp.v ===== *)
(** The timer queues of an SMP build,
    [src/kernel/time/timer/strategy/head_timer_smp.c].

    One delta list per CPU.  The scheduler's ticker ([ticker], the address
    [sched_ticker_get_timer()] returns) is on every list at once and has one
    counter per list; every other timer is on at most one list, the one of
    [owner_cpu].  [cpu] is [cpu_get_id()], [now] is [clock_sys_ticks()]; each
    list edit runs under that list's lock with interrupts off, so it is one
    step.  Handlers are a parameter; [fired] records their calls. *)
From S2P Require Import Prelude DeltaList.

Local Open Scope Z_scope.
Local Open Scope embox_scope.

Module HeadTimerSmp.
Section Smp.
Context (NCPU : nat) (ticker : Z).

Record tst := Tst { tm : timers; sys_timers_list : list (list Z); fired : list Z }.

Definition sys_timers_list_init (h : timers) : tst := Tst h (replicate NCPU []) [].

(** [TIMER_CNT(tmr, cpuid, ticker)], read and written. *)
Definition getc (cpu : nat) (t : Z) (x : sys_timer) : Z :=
  if bool_decide (t = ticker) then default 0 (multi_cnt x !! cpu) else cnt x.
Definition setc (cpu : nat) (t v : Z) (x : sys_timer) : sys_timer :=
  if bool_decide (t = ticker) then set_multi_cnt (<[cpu := v]> (multi_cnt x)) x else set_cnt v x.

(** * The started state, shared or not ([sys_timer.h]) *)

Definition sys_timer_is_shared (x : sys_timer) : bool :=
  match sharing x with Some (is_shared, _) => is_shared | None => false end.

Definition cpu_bit (cpu : nat) : Z := u32 (Z.shiftl 1 (Z.of_nat cpu)).

Definition sys_timer_is_started (cpu : nat) (x : sys_timer) : bool :=
  let started := negb (Z.land (state x) SYS_TIMER_STATE_STARTED =? 0) in
  match sharing x with
  | Some (true, shared_cpu) => started && negb (Z.land shared_cpu (cpu_bit cpu) =? 0)
  | _ => started
  end.

Definition sys_timer_set_started (cpu : nat) (x : sys_timer) : sys_timer :=
  let x := match sharing x with
           | Some (true, shared_cpu) => set_sharing (Some (true, Z.lor shared_cpu (cpu_bit cpu))) x
           | _ => x
           end in
  set_state (Z.lor (state x) SYS_TIMER_STATE_STARTED) x.

Definition sys_timer_set_stopped (cpu : nat) (x : sys_timer) : sys_timer :=
  match sharing x with
  | Some (true, shared_cpu) =>
    let shared_cpu := Z.land shared_cpu (wnot 32 (cpu_bit cpu)) in
    let x := set_sharing (Some (true, shared_cpu)) x in
    if 0 =? shared_cpu then set_state (Z.land (state x) (wnot 32 SYS_TIMER_STATE_STARTED)) x else x
  | _ => set_state (Z.land (state x) (wnot 32 SYS_TIMER_STATE_STARTED)) x
  end.

(** * The operations *)

(** [__timer_strat_start(tmr, cpu)] run by core [self]: [cpu] names the list,
    and the started state is that of the core that runs. *)
Definition timer_strat_start_on (self cpu : nat) (now t : Z) (st : tst) : option tst :=
  x ← tm st !! t;
  let h := alter (setc cpu t (u64 (now + load x))) t (tm st) in
  l ← sys_timers_list st !! cpu;
  '(l, h) ← delta_place (getc cpu) (setc cpu) t l h;
  let h := alter (sys_timer_set_started self) t h in
  let h := if bool_decide (t = ticker) then h else alter (set_owner_cpu (Z.of_nat cpu)) t h in
  Some (Tst h (<[cpu := l]> (sys_timers_list st)) (fired st)).

Definition timer_strat_start (cpu : nat) (now t : Z) (st : tst) : option tst :=
  timer_strat_start_on cpu cpu now t st.

(** [__timer_strat_stop(tmr, cpu)] run by core [self].  The assertion on the
    ticker fails when its link points to itself, that is when it is not on the
    list; [delta_remove] fails then. *)
Definition timer_strat_stop_on (self cpu : nat) (t : Z) (st : tst) : option tst :=
  let h := alter (sys_timer_set_stopped self) t (tm st) in
  l ← sys_timers_list st !! cpu;
  '(l, h) ← delta_remove (getc cpu) (setc cpu) t l h;
  let h := if bool_decide (t = ticker) then h else alter (set_owner_cpu (-1)) t h in
  Some (Tst h (<[cpu := l]> (sys_timers_list st)) (fired st)).

Definition timer_strat_stop (cpu : nat) (t : Z) (st : tst) : option tst :=
  if bool_decide (t = ticker) then timer_strat_stop_on cpu cpu t st
  else
    x ← tm st !! t;
    assert! (0 <=? owner_cpu x) && (owner_cpu x <? Z.of_nat NCPU) ;;
    timer_strat_stop_on cpu (Z.to_nat (owner_cpu x)) t st.

Definition timer_strat_get_next_event (cpu : nat) (st : tst) : option (option Z) :=
  l ← sys_timers_list st !! cpu;
  match l with
  | [] => Some None
  | t :: _ => c ← cnt_of (getc cpu) (tm st) t; Some (Some c)
  end.

Section Sched.
Variable handle : Z -> tst -> option tst.

(** The [while (1)] of [timer_strat_sched]. *)
Fixpoint timer_strat_sched (fuel : nat) (cpu : nat) (now jiffies : Z) (st : tst) : option tst :=
  match fuel with
  | O => None
  | S fuel =>
    l ← sys_timers_list st !! cpu;
    match l with
    | [] => Some st
    | t :: _ =>
      c ← cnt_of (getc cpu) (tm st) t;
      if jiffies >=? c then
        st ← timer_strat_stop_on cpu cpu t st;
        x ← tm st !! t;
        st ← (if sys_timer_is_periodic x then timer_strat_start_on cpu cpu now t st else Some st);
        st ← handle t (Tst (tm st) (sys_timers_list st) (fired st ++ [t]));
        timer_strat_sched fuel cpu now jiffies st
      else Some st
    end
  end.

End Sched.

(** * The view *)

Definition wf (x : sys_timer) : Prop := length (multi_cnt x) = NCPU.

Definition exps (cpu : nat) (st : tst) : list (Z * Z) :=
  expiries (getc cpu) (tm st) (default [] (sys_timers_list st !! cpu)) 0.

Record ok (st : tst) : Prop := {
  ok_len : length (sys_timers_list st) = NCPU;
  ok_wf : forall t x, tm st !! t = Some x -> wf x;
  ok_delta : forall c l, sys_timers_list st !! c = Some l -> delta_ok (getc c) wf (tm st) l 0;
  ok_owner : forall t x c l, tm st !! t = Some x -> t <> ticker ->
    sys_timers_list st !! c = Some l -> (t ∈ l <-> owner_cpu x = Z.of_nat c)
}.

(** What no operation changes, and what an edit of list [c] leaves alone. *)
Definition kept (x : sys_timer) := (load x, handle x, param x, flags x).
Definition rest (c : nat) (x : sys_timer) := (kept x, owner_cpu x, <[c := 0]> (multi_cnt x)).

Lemma smp_get_set c t v x : (c < NCPU)%nat -> wf x -> getc c t (setc c t v x) = v.
Proof.
  intros Hc Hw. unfold getc, setc. case_bool_decide; [|done]. cbn.
  rewrite list_lookup_insert_eq; [done|]. by rewrite Hw.
Qed.
Lemma smp_wf_set c t v x : wf x -> wf (setc c t v x).
Proof. unfold wf, setc. case_bool_decide; cbn; [by rewrite length_insert|done]. Qed.
Lemma smp_rest_set c t v x : rest c (setc c t v x) = rest c x.
Proof.
  unfold rest, kept, setc. case_bool_decide; cbn; [|done]. by rewrite list_insert_insert_eq.
Qed.

(** The counter of list [c] as seen in the table. *)
Definition cview (c : nat) (h : timers) (y : Z) : option (Z * nat) :=
  (fun x => (getc c y x, length (multi_cnt x))) <$> h !! y.

Lemma cview_expiries c h h' l a :
  (forall y, y ∈ l -> cview c h' y = cview c h y) ->
  expiries (getc c) h' l a = expiries (getc c) h l a.
Proof.
  intros Hv. apply expiries_ext. intros y Hy. specialize (Hv y Hy). unfold cview, cntv in *.
  destruct (h !! y), (h' !! y); cbn in Hv; congruence.
Qed.

Lemma cview_entries c h h' l :
  (forall y, y ∈ l -> cview c h' y = cview c h y) ->
  Forall (entry_ok (getc c) wf h) l -> Forall (entry_ok (getc c) wf h') l.
Proof.
  intros Hv Hf. rewrite Forall_forall in *. intros y Hy. destruct (Hf y Hy) as (x & Hx & Hw & H0).
  specialize (Hv y Hy). unfold cview in Hv. rewrite Hx in Hv. unfold entry_ok.
  destruct (h' !! y) as [x'|]; [|done]. cbn in Hv. injection Hv as Hg Hl. exists x'.
  unfold wf in *. rewrite Hg, Hl. done.
Qed.

Lemma cview_delta c h h' l :
  (forall y, y ∈ l -> cview c h' y = cview c h y) ->
  delta_ok (getc c) wf h l 0 -> delta_ok (getc c) wf h' l 0.
Proof.
  intros Hv [Hnd He Hr]. split; [done|by eapply cview_entries|]. by rewrite (cview_expiries c h).
Qed.

(** Changes that keep all the counters. *)
Lemma cview_alter c h t f y :
  (forall x, cnt (f x) = cnt x /\ multi_cnt (f x) = multi_cnt x) ->
  cview c (alter f t h) y = cview c h y.
Proof.
  intros Hf. unfold cview. rewrite lookup_alter. case_decide; [subst|done].
  destruct (h !! y) as [x|]; [|done]. cbn. destruct (Hf x) as [H1 H2].
  unfold getc. by rewrite H1, H2.
Qed.

(** An edit of list [c] does not touch the counters of list [c']. *)
Lemma cview_rest c c' h h' y :
  c <> c' -> same_rest (rest c) h h' -> y = ticker -> cview c' h' y = cview c' h y.
Proof.
  intros Hc Hr ->. specialize (Hr ticker). unfold cview.
  destruct (h !! ticker) as [x|], (h' !! ticker) as [x'|]; try done. cbn in Hr |- *.
  assert (<[c:=0]> (multi_cnt x') = <[c:=0]> (multi_cnt x)) as Hm by (unfold rest in Hr; congruence).
  do 2 f_equal; [|by rewrite <- (length_insert (multi_cnt x') c 0), Hm, length_insert].
  unfold getc. rewrite bool_decide_true by done.
  rewrite <- (list_lookup_insert_ne (multi_cnt x') c c' 0), Hm by done.
  by rewrite list_lookup_insert_ne.
Qed.

Lemma rest_alter c h t f :
  (forall x, rest c (f x) = rest c x) -> same_rest (rest c) h (alter f t h).
Proof.
  intros Hf y. rewrite lookup_alter. case_decide; [subst|done].
  destruct (h !! y); cbn; [by rewrite Hf|done].
Qed.

Lemma started_counters c x :
  cnt (sys_timer_set_started c x) = cnt x /\ multi_cnt (sys_timer_set_started c x) = multi_cnt x.
Proof. unfold sys_timer_set_started. by destruct (sharing x) as [[[] ?]|]. Qed.
Lemma stopped_counters c x :
  cnt (sys_timer_set_stopped c x) = cnt x /\ multi_cnt (sys_timer_set_stopped c x) = multi_cnt x.
Proof. unfold sys_timer_set_stopped. destruct (sharing x) as [[[] ?]|]; try done. by case_match. Qed.
Lemma started_rest c d x : rest d (sys_timer_set_started c x) = rest d x.
Proof. unfold sys_timer_set_started. by destruct (sharing x) as [[[] ?]|]. Qed.
Lemma stopped_rest c d x : rest d (sys_timer_set_stopped c x) = rest d x.
Proof. unfold sys_timer_set_stopped. destruct (sharing x) as [[[] ?]|]; try done. by case_match. Qed.

Lemma rest_wf c x x' : rest c x' = rest c x -> wf x -> wf x'.
Proof.
  unfold rest, wf. intros H Hw. assert (<[c:=0]> (multi_cnt x') = <[c:=0]> (multi_cnt x)) as Hm by congruence.
  by rewrite <- (length_insert (multi_cnt x') c 0), Hm, length_insert.
Qed.

(** The owner written at the end of an edit. *)
Definition put_owner (t o : Z) (h : timers) : timers :=
  if bool_decide (t = ticker) then h else alter (set_owner_cpu o) t h.

Lemma put_owner_cview c t o h y : cview c (put_owner t o h) y = cview c h y.
Proof. unfold put_owner. case_bool_decide; [done|]. by apply cview_alter. Qed.

Lemma put_owner_lookup t o h y x' :
  put_owner t o h !! y = Some x' ->
  exists x, h !! y = Some x /\ kept x' = kept x /\ multi_cnt x' = multi_cnt x /\
    owner_cpu x' = (if bool_decide (y = t /\ t <> ticker) then o else owner_cpu x).
Proof.
  unfold put_owner. case_bool_decide as Ht; [|rewrite lookup_alter; case_decide as Hy].
  - intros Hx. exists x'. rewrite bool_decide_false by naive_solver. done.
  - subst y. destruct (h !! t) as [x|]; [|done]. intros [= <-]. exists x.
    rewrite bool_decide_true by done. done.
  - intros Hx. exists x'. rewrite bool_decide_false by naive_solver. done.
Qed.

Lemma put_owner_kept t o h y : kept <$> put_owner t o h !! y = kept <$> h !! y.
Proof.
  unfold put_owner. case_bool_decide; [done|]. rewrite lookup_alter. case_decide; [subst|done].
  by destruct (h !! y).
Qed.

(** An edit of list [c] about timer [t] that has established list [c] keeps
    the other lists. *)
Lemma edit_others st c t l h' o c' k :
  ok st -> c' <> c -> sys_timers_list st !! c = Some l -> sys_timers_list st !! c' = Some k ->
  (t <> ticker -> forall d m, d <> c -> sys_timers_list st !! d = Some m -> t ∉ m) ->
  same_rest (rest c) (tm st) h' -> (forall y, y ∉ t :: l -> h' !! y = tm st !! y) ->
  forall y, y ∈ k -> cview c' (put_owner t o h') y = cview c' (tm st) y.
Proof.
  intros Hok Hc Hl Hk Ht Hr Hfr y Hy. rewrite put_owner_cview.
  destruct (decide (y = ticker)) as [Hyt|Hyt]; [by eapply cview_rest|].
  unfold cview. rewrite Hfr; [done|]. rewrite elem_of_cons. intros [-> | Hyl].
  - by apply (Ht Hyt c' k).
  - destruct (ok_delta _ Hok _ _ Hk) as [_ Hent _]. rewrite Forall_forall in Hent.
    destruct (Hent y Hy) as (x & Hx & _). apply (ok_owner _ Hok y x c l Hx Hyt Hl) in Hyl.
    apply (ok_owner _ Hok y x c' k Hx Hyt Hk) in Hy. lia.
Qed.

Lemma edit_ok st c t l l' h' o fs :
  ok st -> sys_timers_list st !! c = Some l ->
  (t <> ticker -> forall d m, d <> c -> sys_timers_list st !! d = Some m -> t ∉ m) ->
  same_rest (rest c) (tm st) h' -> (forall y, y ∉ t :: l -> h' !! y = tm st !! y) ->
  delta_ok (getc c) wf h' l' 0 -> (forall y, y <> t -> y ∈ l' <-> y ∈ l) ->
  (t ∈ l' <-> o = Z.of_nat c) -> (o = Z.of_nat c \/ o = -1) ->
  let st' := Tst (put_owner t o h') (<[c := l']> (sys_timers_list st)) fs in
  ok st' /\ exps c st' = expiries (getc c) h' l' 0 /\
  (forall d, d <> c -> exps d st' = exps d st) /\
  (forall y, kept <$> tm st' !! y = kept <$> tm st !! y).
Proof.
  intros Hok Hl Ht Hr Hfr Hd Hin Hto Ho st'.
  assert ((c < length (sys_timers_list st))%nat) as Hc by (by eapply lookup_lt_Some).
  assert (forall d k, d <> c -> sys_timers_list st !! d = Some k ->
            forall y, y ∈ k -> cview d (tm st') y = cview d (tm st) y) as Hoth
    by (intros d k Hdc Hk; eapply edit_others; eauto).
  assert (forall t x, tm st' !! t = Some x -> wf x) as Hwf.
  { intros y x' [x (Hx & _ & Hm & _)]%put_owner_lookup. specialize (Hr y). rewrite Hx in Hr.
    destruct (tm st !! y) as [x0|] eqn:E; [|done]. cbn in Hr.
    assert (wf x) as Hw by (eapply (rest_wf c x0); [congruence|by eapply ok_wf]).
    unfold wf in *. by rewrite Hm. }
  split_and!.
  - split; [by cbn; rewrite length_insert; apply ok_len|done|..].
    + intros d k. cbn. destruct (decide (d = c)) as [->|Hdc].
      * rewrite list_lookup_insert_eq by done. intros [= <-].
        eapply cview_delta; [|done]. intros y _. apply put_owner_cview.
      * rewrite list_lookup_insert_ne by done. intros Hk.
        eapply cview_delta; [by apply (Hoth d k)|by eapply ok_delta].
    + intros y x' d k Hx' Hyt Hk. cbn in Hx', Hk. apply put_owner_lookup in Hx' as (x & Hx & _ & _ & ->).
      assert (exists x0, tm st !! y = Some x0 /\ owner_cpu x = owner_cpu x0) as (x0 & Hx0 & Hox).
      { specialize (Hr y). rewrite Hx in Hr. destruct (tm st !! y) as [x0|]; [|done].
        exists x0. split; [done|]. cbn in Hr. unfold rest in Hr. congruence. }
      destruct (decide (d = c)) as [->|Hdc].
      * rewrite list_lookup_insert_eq in Hk by done. injection Hk as <-. case_bool_decide as Hy.
        -- by destruct Hy as [-> _].
        -- rewrite Hin by naive_solver. rewrite Hox. by eapply ok_owner.
      * rewrite list_lookup_insert_ne in Hk by done. case_bool_decide as Hy.
        -- destruct Hy as [-> Htt]. split; [intros Hyk; by destruct (Ht Htt d k Hdc Hk)|lia].
        -- rewrite Hox. by eapply ok_owner.
  - unfold exps. cbn. rewrite list_lookup_insert_eq by done. cbn.
    apply cview_expiries. intros y _. apply put_owner_cview.
  - intros d Hdc. unfold exps. cbn. rewrite list_lookup_insert_ne by done.
    destruct (sys_timers_list st !! d) as [k|] eqn:Hk; [|done]. cbn.
    apply cview_expiries. by apply (Hoth d k).
  - intros y. cbn. rewrite put_owner_kept. specialize (Hr y).
    destruct (h' !! y), (tm st !! y); try done. cbn in *. f_equal. unfold rest in Hr. congruence.
Qed.

(** The list a timer may be started on: a timer other than the ticker is on
    no list at all. *)
Definition startable (c : nat) (t : Z) (st : tst) : Prop :=
  forall d m, sys_timers_list st !! d = Some m -> d = c \/ t <> ticker -> t ∉ m.

Lemma start_on_ok self c now t x st :
  ok st -> (c < NCPU)%nat -> tm st !! t = Some x -> startable c t st ->
  0 <= now + load x < 2 ^ 64 ->
  exists st', timer_strat_start_on self c now t st = Some st' /\ ok st' /\
    exps c st' = exp_insert (now + load x) t (exps c st) /\
    (forall d, d <> c -> exps d st' = exps d st) /\ fired st' = fired st /\
    (forall y, kept <$> tm st' !! y = kept <$> tm st !! y).
Proof.
  intros Hok Hc Hx Hs He. unfold timer_strat_start_on. rewrite Hx. cbn [mbind option_bind].
  rewrite wrap_small by done. set (v := now + load x) in *. set (h1 := alter (setc c t v) t (tm st)).
  destruct (sys_timers_list st !! c) as [l|] eqn:Hl.
  2: { apply lookup_ge_None in Hl. rewrite (ok_len _ Hok) in Hl. lia. }
  cbn [mbind option_bind]. assert (t ∉ l) as Htl by (eapply Hs; eauto).
  destruct (ok_delta _ Hok _ _ Hl) as [Hnd Hent Hr]. pose proof (ok_wf _ Hok _ _ Hx) as Hw.
  assert (forall y, y ∈ l -> h1 !! y = tm st !! y) as Hsame
    by (intros y Hy; unfold h1; rewrite lookup_alter_ne; [done|by intros ->]).
  assert (h1 !! t = Some (setc c t v x)) as Hh1 by (unfold h1; by rewrite lookup_alter_eq, Hx).
  destruct (delta_place_spec (getc c) (setc c) (rest c) wf (fun t v x => smp_get_set c t v x Hc)
    (smp_wf_set c) (smp_rest_set c) t l h1 0 v) as (l' & h' & -> & Hexp & Hent' & Hrest & Hfr).
  - by constructor.
  - constructor; [|by eapply entry_frame]. exists (setc c t v x).
    rewrite smp_get_set by done. split_and!; [done|by apply smp_wf_set|lia].
  - unfold cntv. rewrite Hh1, smp_get_set by done. lia.
  - lia.
  - lia.
  - by rewrite (expiries_frame (getc c) (tm st)).
  - cbn [mbind option_bind]. rewrite (expiries_frame (getc c) (tm st) h1) in Hexp by done.
    assert (l' ≡ₚ t :: l) as Hperm.
    { rewrite <- (expiries_snd (getc c) h' l' 0), Hexp, exp_insert_perm. cbn. by rewrite expiries_snd. }
    set (h2 := alter (sys_timer_set_started self) t h').
    assert (forall y, cview c h2 y = cview c h' y) as Hv
      by (intros y; apply cview_alter, started_counters).
    destruct (edit_ok st c t l l' h2 (Z.of_nat c) (fired st)) as (Hok' & He' & Ho' & Hk'); try done.
    + intros Htt d m _ Hm. eapply Hs; eauto.
    + eapply same_rest_trans; [apply (put_cnt_rest (setc c) (rest c) (smp_rest_set c))|].
      eapply same_rest_trans; [done|]. apply rest_alter, started_rest.
    + intros y Hy. unfold h2. rewrite lookup_alter_ne by set_solver. rewrite Hfr by done.
      unfold h1. rewrite lookup_alter_ne; [done|set_solver].
    + eapply (cview_delta c h'); [done|]. split; [by rewrite Hperm; constructor|done|].
      rewrite Hexp, exp_insert_perm. by constructor; [cbn; lia|].
    + intros y Hy. rewrite Hperm, elem_of_cons. naive_solver.
    + rewrite Hperm, elem_of_cons. naive_solver.
    + by left.
    + eexists. split; [done|]. split; [done|].
      assert (exps c st = expiries (getc c) (tm st) l 0) as -> by (unfold exps; by rewrite Hl).
      split_and!; try done. rewrite <- Hexp. etrans; [exact He'|]. by apply cview_expiries.
Qed.

Lemma stop_on_ok self c t st l :
  ok st -> (c < NCPU)%nat -> sys_timers_list st !! c = Some l -> t ∈ l ->
  exists st', timer_strat_stop_on self c t st = Some st' /\ ok st' /\
    exps c st' = exp_remove t (exps c st) /\
    (forall d, d <> c -> exps d st' = exps d st) /\ fired st' = fired st /\
    (forall y, kept <$> tm st' !! y = kept <$> tm st !! y).
Proof.
  intros Hok Hc Hl Ht. unfold timer_strat_stop_on. set (h1 := alter (sys_timer_set_stopped self) t (tm st)).
  rewrite Hl. cbn [mbind option_bind]. destruct (ok_delta _ Hok _ _ Hl) as [Hnd Hent Hr].
  assert (forall y, cview c h1 y = cview c (tm st) y) as Hv
    by (intros y; apply cview_alter, stopped_counters).
  assert (expiries (getc c) h1 l 0 = expiries (getc c) (tm st) l 0) as He1
    by (by apply cview_expiries).
  destruct (delta_remove_spec (getc c) (setc c) (rest c) wf (fun t v x => smp_get_set c t v x Hc)
    (smp_wf_set c) (smp_rest_set c) t l h1 0) as (l' & h' & -> & Hexp & Hent' & Hrest & Hfr);
    [done|by apply (cview_entries c (tm st))|done|lia|by rewrite He1|].
  cbn [mbind option_bind]. rewrite He1 in Hexp.
  assert (l' = filter (fun y => y <> t) l) as Hl'.
  { rewrite <- (expiries_snd (getc c) h' l' 0), Hexp. unfold exp_remove.
    by rewrite filter_snd, expiries_snd. }
  destruct (edit_ok st c t l l' h' (-1) (fired st)) as (Hok' & He' & Ho' & Hk'); try done.
  - intros Htt d m Hdc Hm Hin. rewrite Forall_forall in Hent. destruct (Hent t Ht) as (x & Hx & _).
    apply (ok_owner _ Hok t x c l Hx Htt Hl) in Ht. apply (ok_owner _ Hok t x d m Hx Htt Hm) in Hin. lia.
  - eapply same_rest_trans; [apply rest_alter, (stopped_rest self)|done].
  - intros y Hy. rewrite Hfr by set_solver. unfold h1. rewrite lookup_alter_ne; [done|set_solver].
  - split; [rewrite Hl'; by apply NoDup_filter|done|]. rewrite Hexp. apply Forall_forall.
    intros z [Hz _]%exp_remove_elem. by apply (proj1 (Forall_forall _ _) Hr).
  - intros y Hy. rewrite Hl', list_elem_of_filter. naive_solver.
  - rewrite Hl', list_elem_of_filter. split; [naive_solver|lia].
  - by right.
  - eexists. split; [done|]. split; [done|].
    assert (exps c st = expiries (getc c) (tm st) l 0) as -> by (unfold exps; by rewrite Hl).
    split_and!; try done. rewrite <- Hexp. exact He'.
Qed.

Lemma exps_snd c st : (exps c st).*2 = default [] (sys_timers_list st !! c).
Proof. apply expiries_snd. Qed.

(** A timer that has just been taken off its list can be started there. *)
Lemma removed_startable c t st st1 l :
  ok st -> sys_timers_list st !! c = Some l -> t ∈ l ->
  exps c st1 = exp_remove t (exps c st) -> (forall d, d <> c -> exps d st1 = exps d st) ->
  startable c t st1.
Proof.
  intros Hok Hl Ht Hc Ho d m Hm Hd Hin. destruct (decide (d = c)) as [->|Hdc].
  - assert (m = (exps c st1).*2) as -> by (by rewrite exps_snd, Hm).
    rewrite Hc in Hin. unfold exp_remove in Hin. rewrite filter_snd, list_elem_of_filter in Hin. naive_solver.
  - destruct Hd as [?|Htt]; [done|]. assert (m = default [] (sys_timers_list st !! d)) as ->.
    { rewrite <- exps_snd, <- Ho, exps_snd, Hm; done. }
    destruct (sys_timers_list st !! d) as [m|] eqn:Hm0; [cbn in Hin|by apply elem_of_nil in Hin].
    destruct (ok_delta _ Hok _ _ Hl) as [_ Hent _]. rewrite Forall_forall in Hent.
    destruct (Hent t Ht) as (x & Hx & _).
    apply (ok_owner _ Hok t x c l Hx Htt Hl) in Ht. apply (ok_owner _ Hok t x d m Hx Htt Hm0) in Hin. lia.
Qed.

Lemma exp_remove_insert e t (E : list (Z * Z)) : t ∉ E.*2 -> exp_remove t (exp_insert e t E) = E.
Proof.
  unfold exp_remove. induction E as [|[e' t'] E IH]; cbn [exp_insert]; intros Ht.
  - by rewrite filter_cons_False by (cbn; naive_solver).
  - rewrite fmap_cons in Ht. cbn [snd] in Ht. apply not_elem_of_cons in Ht as [Hne Ht]. zbool.
    + rewrite filter_cons_False by (cbn; naive_solver). rewrite filter_cons_True by (cbn; congruence).
      f_equal. apply filter_all. intros [e2 t2] Hy Heq. cbn in Heq. subst.
      apply Ht. by apply (list_elem_of_fmap_2 snd _ (e2, t)).
    + rewrite filter_cons_True by (cbn; congruence). by rewrite IH.
Qed.

(** * A pass of the timer interrupt *)

(** A fired timer goes back to the queue when it is periodic. *)
Definition rearm (now : Z) (h : timers) (E : list (Z * Z)) (d : Z * Z) : list (Z * Z) :=
  match h !! d.2 with
  | Some x => if sys_timer_is_periodic x then exp_insert (now + load x) d.2 E else E
  | None => E
  end.

Lemma rearm_kept now h h' E d :
  (forall y, kept <$> h' !! y = kept <$> h !! y) -> rearm now h' E d = rearm now h E d.
Proof.
  intros Hk. unfold rearm. specialize (Hk d.2). destruct (h !! d.2) as [x|], (h' !! d.2) as [x'|]; try done.
  cbn in Hk. unfold kept in Hk. unfold sys_timer_is_periodic.
  assert (flags x' = flags x) as -> by congruence. by assert (load x' = load x) as -> by congruence.
Qed.

Lemma foldl_rearm_kept now h h' due : forall E,
  (forall y, kept <$> h' !! y = kept <$> h !! y) ->
  foldl (rearm now h') E due = foldl (rearm now h) E due.
Proof.
  induction due as [|d due IH]; intros E Hk; cbn; [done|]. rewrite (rearm_kept now h) by done. by apply IH.
Qed.

Lemma exp_insert_app e t j (due rest : list (Z * Z)) :
  j < e -> Forall (fun y => y.1 <= j) due -> exp_insert e t (due ++ rest) = due ++ exp_insert e t rest.
Proof.
  intros He. induction due as [|[e' t'] due IH]; cbn; [done|]. intros [H1 H2]%Forall_cons. cbn in H1.
  zbool; [lia|]. by rewrite IH.
Qed.

(** The periodic timers have periods that lead past [jiffies]. *)
Definition periods_ok (now jiffies : Z) (h : timers) : Prop :=
  forall t x, h !! t = Some x -> sys_timer_is_periodic x = true -> jiffies < now + load x < 2 ^ 64.

Lemma periods_kept now j h h' :
  (forall y, kept <$> h' !! y = kept <$> h !! y) -> periods_ok now j h -> periods_ok now j h'.
Proof.
  intros Hk Hp t x Hx Hper. specialize (Hk t). rewrite Hx in Hk.
  destruct (h !! t) as [x0|] eqn:E; [|done]. cbn in Hk. unfold kept in Hk.
  assert (flags x = flags x0) as Hf by congruence. assert (load x = load x0) as -> by congruence.
  apply (Hp t x0 E). unfold sys_timer_is_periodic in *. by rewrite <- Hf.
Qed.

(** The head of the queue, fired: it is taken off and, if periodic, put back
    after all the timers that are due. *)
Lemma fire_head c now j e t due late st :
  ok st -> (c < NCPU)%nat -> periods_ok now j (tm st) -> 0 <= j ->
  exps c st = (e, t) :: due ++ late -> Forall (fun y => y.1 <= j) due ->
  exists st1 x1 st2, timer_strat_stop_on c c t st = Some st1 /\ tm st1 !! t = Some x1 /\
    (if sys_timer_is_periodic x1 then timer_strat_start_on c c now t st1 else Some st1) = Some st2 /\
    ok st2 /\ exps c st2 = due ++ rearm now (tm st) late (e, t) /\
    (forall d, d <> c -> exps d st2 = exps d st) /\ fired st2 = fired st /\
    (forall y, kept <$> tm st2 !! y = kept <$> tm st !! y).
Proof.
  intros Hok Hc Hp Hj He Hdue. destruct (sys_timers_list st !! c) as [l|] eqn:Hl.
  2: { apply lookup_ge_None in Hl. rewrite (ok_len _ Hok) in Hl. lia. }
  assert (l = t :: (due ++ late).*2) as Hlt by (pose proof (exps_snd c st) as H; rewrite He, Hl in H; done).
  assert (t ∈ l) as Ht by (subst l; left). destruct (ok_delta _ Hok _ _ Hl) as [Hnd Hent _].
  destruct (stop_on_ok c c t st l) as (st1 & -> & Hok1 & He1 & Ho1 & Hf1 & Hk1); try done.
  assert (exps c st1 = due ++ late) as Hex1.
  { rewrite He1, He. unfold exp_remove. rewrite filter_cons_False by (cbn; naive_solver).
    apply filter_all. intros [e2 y] Hy Heq. cbn in Heq. subst y l. apply NoDup_cons in Hnd as [Hnd _].
    apply Hnd. by apply (list_elem_of_fmap_2 snd _ (e2, t)). }
  rewrite Forall_forall in Hent. destruct (Hent t Ht) as (x & Hx & _).
  destruct (tm st1 !! t) as [x1|] eqn:Hx1; [|specialize (Hk1 t); by rewrite Hx, Hx1 in Hk1].
  pose proof (periods_kept _ _ _ _ Hk1 Hp t x1 Hx1) as Hp1.
  rewrite <- (rearm_kept now _ _ late (e, t) Hk1). unfold rearm. cbn [snd]. rewrite Hx1.
  destruct (sys_timer_is_periodic x1) eqn:Eper; [|by exists st1, x1, st1; rewrite Eper].
  destruct (start_on_ok c c now t x1 st1) as (st2 & Hs2 & Hok2 & He2 & Ho2 & Hf2 & Hk2); try done.
  - by apply (removed_startable c t st st1 l).
  - specialize (Hp1 eq_refl). lia.
  - exists st1, x1, st2. rewrite Eper. split_and!; try done.
    + rewrite He2, Hex1. apply (exp_insert_app _ _ j); [by apply Hp1|done].
    + intros d Hd. by rewrite Ho2, Ho1.
    + congruence.
    + intros y. by rewrite Hk2, Hk1.
Qed.

Lemma ok_fired st fs : ok st -> ok (Tst (tm st) (sys_timers_list st) fs).
Proof. intros [H1 H2 H3 H4]. by split. Qed.

Lemma sched_pass c now j : forall fuel due late st,
  ok st -> (c < NCPU)%nat -> periods_ok now j (tm st) ->
  exps c st = due ++ late -> Forall (fun y => y.1 <= j) due -> Forall (fun y => j < y.1) late ->
  0 <= j -> (length due < fuel)%nat ->
  exists st', timer_strat_sched (fun _ st => Some st) fuel c now j st = Some st' /\ ok st' /\
    fired st' = fired st ++ due.*2 /\ exps c st' = foldl (rearm now (tm st)) late due /\
    (forall d, d <> c -> exps d st' = exps d st).
Proof.
  induction fuel as [|fuel IH]; intros due late st Hok Hc Hp He Hdue Hlate Hj Hf; [lia|].
  destruct (sys_timers_list st !! c) as [l|] eqn:Hl.
  2: { apply lookup_ge_None in Hl. rewrite (ok_len _ Hok) in Hl. lia. }
  cbn [timer_strat_sched]. rewrite Hl. cbn [mbind option_bind].
  assert (exps c st = expiries (getc c) (tm st) l 0) as Hel by (unfold exps; by rewrite Hl).
  destruct (ok_delta _ Hok _ _ Hl) as [_ Hent _]. destruct l as [|t l].
  { cbn in Hel. rewrite He in Hel. apply app_eq_nil in Hel as [-> ->].
    exists st. rewrite app_nil_r. split_and!; done. }
  apply Forall_cons in Hent as [Het _]. destruct (cnt_of_ok (getc c) wf _ _ Het) as [-> Hc0].
  cbn [mbind option_bind expiries] in *. rewrite Z.add_0_l in Hel.
  rewrite Z.geb_leb. destruct due as [|[e t'] due].
  { cbn in He. rewrite Hel in He. subst late. apply Forall_cons in Hlate as [Hlt _]. cbn in Hlt.
    destruct (Z.leb_spec (cntv (getc c) (tm st) t) j); [lia|].
    exists st. rewrite app_nil_r. split_and!; done. }
  assert (cntv (getc c) (tm st) t = e /\ t' = t) as [Hce ->] by (rewrite Hel in He; cbn in He; split; congruence).
  apply Forall_cons in Hdue as [Hej Hdue]. cbn in Hej.
  destruct (Z.leb_spec (cntv (getc c) (tm st) t) j); [|lia].
  destruct (fire_head c now j e t due late st) as (st1 & x1 & st2 & -> & Hx1 & Hs2 & Hok2 & He2 & Ho2 & Hf2 & Hk2);
    try done.
  cbn [mbind option_bind]. rewrite Hx1. cbn [mbind option_bind]. rewrite Hs2. cbn [mbind option_bind].
  destruct (IH due (rearm now (tm st) late (e, t)) (Tst (tm st2) (sys_timers_list st2) (fired st2 ++ [t])))
    as (st' & -> & Hok' & Hf' & He' & Ho'); try done.
  - by apply ok_fired.
  - by eapply periods_kept.
  - unfold rearm. cbn [snd]. destruct (tm st !! t) as [x|] eqn:Hx; [|done].
    destruct (sys_timer_is_periodic x) eqn:Eper; [|done]. rewrite exp_insert_perm.
    constructor; [|done]. cbn. by apply (Hp t x Hx).
  - cbn in Hf. lia.
  - exists st'. split; [done|]. split; [done|]. split_and!.
    + rewrite Hf'. cbn. by rewrite Hf2, <- app_assoc.
    + rewrite He'. cbn. by apply foldl_rearm_kept.
    + intros d Hd. rewrite Ho' by done. by apply Ho2.
Qed.

Lemma sorted_split j (E : list (Z * Z)) :
  exp_sorted E -> E = filter (fun y => y.1 <= j) E ++ filter (fun y => j < y.1) E.
Proof.
  induction E as [|x E IH]; [done|]. intros [Hf Hs]. destruct (decide (x.1 <= j)) as [Hle|Hgt].
  - rewrite filter_cons_True by done. rewrite (filter_cons_False (fun y => j < y.1)) by lia.
    cbn. f_equal. by apply IH.
  - rewrite filter_cons_False by done. rewrite (filter_cons_True (fun y => j < y.1)) by lia.
    rewrite Forall_forall in Hf.
    assert (filter (fun y : Z * Z => y.1 <= j) E = []) as ->.
    {
      destruct (filter (fun y : Z * Z => y.1 <= j) E) as [|y ys] eqn:Ef; [done|].
      assert (y ∈ filter (fun y : Z * Z => y.1 <= j) E) as Hy by (rewrite Ef; left).
      apply list_elem_of_filter in Hy as [Hy1 Hy2]. specialize (Hf y Hy2). cbn in *. lia. }
    cbn. f_equal. symmetry. apply filter_all. intros y Hy. specialize (Hf y Hy). cbn in *. lia.
Qed.

(** C33: a pass of core [c]'s timer interrupt ends and calls the handlers of
    exactly the timers of its queue that are due, in order of expiry; a
    periodic one is queued again one period from now, a one-shot one is gone,
    the timers that are not due stay, and no other core's queue changes.
    (Handlers that leave the timers alone, periods that lead past the pass.) *)
Theorem smp_sched_fires_due fuel c now jiffies st :
  ok st -> (c < NCPU)%nat -> 0 <= jiffies -> periods_ok now jiffies (tm st) ->
  (length (exps c st) < fuel)%nat ->
  let due := filter (fun y => y.1 <= jiffies) (exps c st) in
  let late := filter (fun y => jiffies < y.1) (exps c st) in
  exists st', timer_strat_sched (fun _ st => Some st) fuel c now jiffies st = Some st' /\ ok st' /\
    fired st' = fired st ++ due.*2 /\ exps c st' = foldl (rearm now (tm st)) late due /\
    (forall d, d <> c -> exps d st' = exps d st).
Proof.
  intros Hok Hc Hj Hp Hf due late. apply sched_pass; try done.
  - apply sorted_split. unfold exps. destruct (sys_timers_list st !! c) as [l|] eqn:Hl; [|done].
    eapply expiries_sorted, (do_entries _ _ _ _ _ (ok_delta _ Hok _ _ Hl)).
  - apply Forall_forall. intros y Hy. by apply list_elem_of_filter in Hy as [Hy _].
  - apply Forall_forall. intros y Hy. by apply list_elem_of_filter in Hy as [Hy _].
  - pose proof (length_filter (fun y : Z * Z => y.1 <= jiffies) (exps c st)). unfold due. lia.
Qed.

Lemma stop_unqueued d t st :
  ok st -> t <> ticker -> (forall k m, sys_timers_list st !! k = Some m -> t ∉ m) ->
  timer_strat_stop d t st = None.
Proof.
  intros Hok Htt Hno. unfold timer_strat_stop. rewrite bool_decide_false by done.
  destruct (tm st !! t) as [x|] eqn:Hx; [|done]. cbn [mbind option_bind].
  destruct (Z.leb_spec 0 (owner_cpu x)), (Z.ltb_spec (owner_cpu x) (Z.of_nat NCPU)); try done.
  destruct (lookup_lt_is_Some_2 (sys_timers_list st) (Z.to_nat (owner_cpu x))) as [m Hm].
  { rewrite (ok_len _ Hok). lia. }
  exfalso. apply (Hno _ _ Hm), (ok_owner _ Hok t x _ _ Hx Htt Hm). lia.
Qed.

(** A timer started on core [c] can be stopped from any core [d]: the stop
    mends the queue of [c], every queue is then what it was before the start,
    and stopping the timer once more trips the assertion. *)
Theorem smp_stop_any_core c d now t x st :
  ok st -> (c < NCPU)%nat -> tm st !! t = Some x -> t <> ticker -> startable c t st ->
  0 <= now + load x < 2 ^ 64 ->
  exists st1 st2, timer_strat_start c now t st = Some st1 /\ (now + load x, t) ∈ exps c st1 /\
    timer_strat_stop d t st1 = Some st2 /\ ok st2 /\ (forall k, exps k st2 = exps k st) /\
    timer_strat_stop d t st2 = None.
Proof.
  intros Hok Hc Hx Htt Hs He.
  destruct (start_on_ok c c now t x st) as (st1 & Hs1 & Hok1 & He1 & Ho1 & _); try done.
  assert ((now + load x, t) ∈ exps c st1) as Hin by (rewrite He1; apply exp_insert_elem; by left).
  destruct (sys_timers_list st1 !! c) as [l1|] eqn:Hl1.
  2: { apply lookup_ge_None in Hl1. rewrite (ok_len _ Hok1) in Hl1. lia. }
  assert (t ∈ l1) as Ht1.
  { assert (l1 = (exps c st1).*2) as -> by (by rewrite exps_snd, Hl1).
    by apply (list_elem_of_fmap_2 snd _ (now + load x, t)). }
  destruct (proj1 (Forall_forall _ _) (do_entries _ _ _ _ _ (ok_delta _ Hok1 _ _ Hl1)) t Ht1) as (x1 & Hx1 & _).
  pose proof (proj1 (ok_owner _ Hok1 t x1 c l1 Hx1 Htt Hl1) Ht1) as Hown.
  destruct (stop_on_ok d c t st1 l1) as (st2 & Hs2 & Hok2 & He2 & Ho2 & _ & Hk2); try done.
  assert (forall k, exps k st2 = exps k st) as Hex.
  { intros k. destruct (decide (k = c)) as [->|Hk]; [|by rewrite Ho2, Ho1].
    rewrite He2, He1. apply exp_remove_insert. rewrite exps_snd.
    destruct (sys_timers_list st !! c) eqn:E; [eapply Hs; eauto|apply not_elem_of_nil]. }
  exists st1, st2. split_and!; try done.
  - unfold timer_strat_stop. rewrite bool_decide_false by done. rewrite Hx1. cbn [mbind option_bind].
    rewrite Hown, Nat2Z.id. destruct (Z.leb_spec 0 (Z.of_nat c)), (Z.ltb_spec (Z.of_nat c) (Z.of_nat NCPU)); try lia.
    exact Hs2.
  - apply stop_unqueued; [done|done|]. intros k m Hm.
    assert (m = (exps k st2).*2) as -> by (by rewrite exps_snd, Hm).
    rewrite Hex, exps_snd. destruct (sys_timers_list st !! k) eqn:E; [eapply Hs; eauto|apply not_elem_of_nil].
Qed.

End Smp.

Definition demo_timer (flgs ld : Z) (sh : option (bool * Z)) : sys_timer :=
  SysTimer ld 0 [0; 0] 1 0 flgs 0 (-1) sh.
(** Two cores; timer 9 is the ticker, 2 is periodic. *)
Definition demo_tab : timers :=
  list_to_map [(1, demo_timer 0 7 None); (2, demo_timer 1 5 None); (9, demo_timer 0 3 (Some (true, 0)))].
Definition demo_smp : tst := sys_timers_list_init 2 demo_tab.

Lemma demo_tab_case t x : demo_tab !! t = Some x ->
  (t = 1 /\ x = demo_timer 0 7 None) \/ (t = 2 /\ x = demo_timer 1 5 None) \/
  (t = 9 /\ x = demo_timer 0 3 (Some (true, 0))).
Proof.
  intros Hx. apply elem_of_map_to_list in Hx. vm_compute in Hx.
  repeat (apply elem_of_cons in Hx as [Hx|Hx]; [injection Hx as -> ->; tauto|]).
  by apply elem_of_nil in Hx.
Qed.

Lemma demo_lists c l : sys_timers_list demo_smp !! c = Some l -> l = [].
Proof. intros H. by destruct c as [|[|c]]; cbn in H; simplify_eq. Qed.

Lemma demo_init_ok : ok 2 9 demo_smp.
Proof.
  split; [done|..].
  - intros t x Hx. by destruct (demo_tab_case _ _ Hx) as [[-> ->]|[[-> ->]|[-> ->]]].
  - intros c l ->%demo_lists. split; constructor.
  - intros t x c l Hx Ht ->%demo_lists. split; [by intros ?%elem_of_nil|].
    destruct (demo_tab_case _ _ Hx) as [[-> ->]|[[-> ->]|[-> ->]]]; cbn; lia.
Qed.

Lemma smp_stop_any_core_witness :
  exists st1 st2, timer_strat_start 9 1 100 1 demo_smp = Some st1 /\ (100 + 7, 1) ∈ exps 9 1 st1 /\
    timer_strat_stop 2 9 0 1 st1 = Some st2 /\ ok 2 9 st2 /\ (forall k, exps 9 k st2 = exps 9 k demo_smp) /\
    timer_strat_stop 2 9 0 1 st2 = None.
Proof.
  apply (smp_stop_any_core 2 9 1 0 100 1 (demo_timer 0 7 None) demo_smp).
  - exact demo_init_ok.
  - lia.
  - reflexivity.
  - lia.
  - intros d m ->%demo_lists _. apply not_elem_of_nil.
  - cbn; lia.
Defined.

(** The periodic timer and the ticker armed on core 0, timer 1 on core 1. *)
Definition demo_armed : tst :=
  match (st ← timer_strat_start 9 0 100 2 demo_smp; st ← timer_strat_start 9 0 100 9 st;
         timer_strat_start 9 1 100 1 st) with
  | Some st => st | None => demo_smp end.

Lemma demo_armed_lists c l : sys_timers_list demo_armed !! c = Some l ->
  (c = 0%nat /\ l = [9; 2]) \/ (c = 1%nat /\ l = [1]).
Proof. intros H. destruct c as [|[|c]]; vm_compute in H; [left|right|done]; split; congruence. Qed.

Lemma demo_armed_owner t x : tm demo_armed !! t = Some x ->
  length (multi_cnt x) = 2%nat /\ (t = 9 \/ t = 1 /\ owner_cpu x = 1 \/ t = 2 /\ owner_cpu x = 0).
Proof.
  intros Hx. apply elem_of_map_to_list in Hx. vm_compute in Hx.
  repeat (apply elem_of_cons in Hx as [Hx|Hx]; [injection Hx as -> ->; cbn; tauto|]).
  by apply elem_of_nil in Hx.
Qed.

Lemma demo_armed_ok : ok 2 9 demo_armed.
Proof.
  assert (forall c t, match tm demo_armed !! t with
            | Some x => bool_decide (length (multi_cnt x) = 2%nat) && (0 <=? getc 9 c t x)
            | None => false end = true -> entry_ok (getc 9 c) (wf 2) (tm demo_armed) t) as Hent.
  { intros c t. unfold entry_ok. destruct (tm demo_armed !! t) as [x|]; [|done].
    intros [H1%bool_decide_eq_true H2%Z.leb_le]%andb_true_iff. by exists x. }
  split; [reflexivity|..].
  - intros t x Hx. by apply demo_armed_owner in Hx as [Hw _].
  - intros c l [[-> ->]|[-> ->]]%demo_armed_lists.
    + split; [repeat constructor; set_solver|repeat constructor; apply Hent; vm_compute; reflexivity|].
      apply Forall_forall. intros y Hy. vm_compute in Hy.
      repeat (apply elem_of_cons in Hy as [->|Hy]; [cbn; lia|]). by apply elem_of_nil in Hy.
    + split; [repeat constructor; set_solver|repeat constructor; apply Hent; vm_compute; reflexivity|].
      apply Forall_forall. intros y Hy. vm_compute in Hy.
      repeat (apply elem_of_cons in Hy as [->|Hy]; [cbn; lia|]). by apply elem_of_nil in Hy.
  - intros t x c l Hx Ht Hl. apply demo_armed_owner in Hx as [_ [-> |[[-> ->]|[-> ->]]]]; [done|..];
    apply demo_armed_lists in Hl as [[-> ->]|[-> ->]]; rewrite ?elem_of_cons, elem_of_nil; lia.
Qed.

Lemma smp_sched_fires_due_witness :
  exists st', timer_strat_sched 9 (fun _ st => Some st) 3 0 106 106 demo_armed = Some st' /\ ok 2 9 st' /\
    fired st' = [] ++ [9; 2] /\ exps 9 0 st' = [(111, 2)] /\
    (forall d, d <> 0%nat -> exps 9 d st' = exps 9 d demo_armed).
Proof.
  apply (smp_sched_fires_due 2 9 3 0 106 106 demo_armed).
  - exact demo_armed_ok.
  - lia.
  - lia.
  - intros t x Hx Hp. apply elem_of_map_to_list in Hx. vm_compute in Hx.
    repeat (apply elem_of_cons in Hx as [Hx|Hx]; [injection Hx as -> ->; first [done|cbn; lia]|]).
    by apply elem_of_nil in Hx.
  - vm_compute. lia.
Defined.

End HeadTimerSmp.
