(* ===== verification/Indexator.v ===== *)
(** The index allocator, [src/lib/libds/indexator].

    [struct indexator] hands out the indices [start .. end]: [mask] has a bit
    for each, and [min], [max], [prev] and [next] cache the answers of
    [index_find] for the indices of the clamp.  An index set, a cached answer or
    [INDEX_NONE] is a [size_t]; [1 << bit] is an [int], as the code has it. *)
From S2P Require Import Prelude.

Local Open Scope Z_scope.
Local Open Scope embox_scope.

Inductive index_type := INDEX_RANDOM | INDEX_MIN | INDEX_MAX | INDEX_PREV | INDEX_NEXT.

Record indexator := Indexator {
  last : Z;
  min : Z;
  max : Z;
  prev : Z;
  next : Z;
  mask : list Z;
  start : Z;
  end_ : Z;
  clamp_min : Z;
  clamp_max : Z
}.

Definition EINVAL : Z := 22.

Section Indexator.
Context `{A : arch}.

Definition INDEX_NONE : Z := ul (-1).

Definition INDEX_DATA_LEN (capacity : Z) : Z := ul (capacity + LONG_BIT - 1) / LONG_BIT.

Definition set_mask (m : list Z) (ind : indexator) : indexator :=
  Indexator (last ind) (min ind) (max ind) (prev ind) (next ind) m
    (start ind) (end_ ind) (clamp_min ind) (clamp_max ind).
Definition set_cache (la mi ma pr ne : Z) (ind : indexator) : indexator :=
  Indexator la mi ma pr ne (mask ind) (start ind) (end_ ind) (clamp_min ind) (clamp_max ind).

(** * [index_priv.c] *)

(** [1 << bit] as an [int] converted to [unsigned long]: a shift by the width
    of [int] or more is undefined, a shift into the sign bit gives [INT_MIN],
    which is sign-extended. *)
Definition bit_mask (bit : Z) : option Z :=
  if bit <? 32 then Some (ul (s32 (Z.shiftl 1 bit))) else None.

Definition ind_check (ind : indexator) (idx : Z) : Z :=
  if idx =? INDEX_NONE then - EINVAL
  else if negb ((start ind <=? idx) && (idx <=? end_ ind)) then - EINVAL
  else 0.

(** The assertions the three bit operations open with, the word and its mask. *)
Definition ind_word (ind : indexator) (idx : Z) : option (Z * Z * Z) :=
  assert! negb (idx =? INDEX_NONE) ;;
  assert! (start ind <=? idx) && (idx <=? end_ ind) ;;
  let word := ul (idx - start ind) / LONG_BIT in
  let bit := ul (idx - start ind) mod LONG_BIT in
  w ← znth (mask ind) word;
  b ← bit_mask bit;
  Some (word, w, b).

(** The [int] returned, used as a truth value. *)
Definition ind_get_bit (ind : indexator) (idx : Z) : option bool :=
  '(_, w, b) ← ind_word ind idx;
  Some (negb (s32 (Z.land w b) =? 0)).

Definition ind_set_bit (ind : indexator) (idx : Z) : option indexator :=
  '(word, w, b) ← ind_word ind idx;
  assert! negb (Z.land (wnot LONG_BIT w) b =? 0) ;;
  m ← zset (mask ind) word (Z.lor w b);
  Some (set_mask m ind).

Definition ind_unset_bit (ind : indexator) (idx : Z) : option indexator :=
  '(word, w, b) ← ind_word ind idx;
  assert! negb (Z.land w b =? 0) ;;
  m ← zset (mask ind) word (Z.land w (wnot LONG_BIT b));
  Some (set_mask m ind).

(** [rands] are the values [rand()] returns. *)
Fixpoint ind_find_rand_loop (rands : list Z) (ind : indexator) (capacity : Z) : option Z :=
  match rands with
  | [] => None
  | r :: rands =>
    let idx := ul (clamp_min ind + ul r mod capacity) in
    b ← ind_get_bit ind idx;
    if (b : bool) then ind_find_rand_loop rands ind capacity else Some idx
  end.

Definition ind_find_rand (rands : list Z) (ind : indexator) : option Z :=
  if min ind =? INDEX_NONE then Some INDEX_NONE
  else ind_find_rand_loop rands ind (ul (ul (clamp_max ind - clamp_min ind) + 1)).

(** [while (idx-- > lo)] and [while (idx++ < hi)]. *)
Fixpoint ind_find_less_loop (fuel : nat) (ind : indexator) (idx lo none : Z) : option Z :=
  match fuel with
  | O => None
  | S fuel =>
    if idx >? lo then
      let idx := ul (idx - 1) in
      b ← ind_get_bit ind idx;
      if (b : bool) then ind_find_less_loop fuel ind idx lo none else Some idx
    else Some none
  end.

Definition ind_find_less (ind : indexator) (idx lo none : Z) : option Z :=
  ind_find_less_loop (S (Z.to_nat (idx - lo))) ind idx lo none.

Fixpoint ind_find_more_loop (fuel : nat) (ind : indexator) (idx hi none : Z) : option Z :=
  match fuel with
  | O => None
  | S fuel =>
    if idx <? hi then
      let idx := ul (idx + 1) in
      b ← ind_get_bit ind idx;
      if (b : bool) then ind_find_more_loop fuel ind idx hi none else Some idx
    else Some none
  end.

Definition ind_find_more (ind : indexator) (idx hi none : Z) : option Z :=
  ind_find_more_loop (S (Z.to_nat (hi - idx))) ind idx hi none.

(** * The interface *)

Definition index_capacity (ind : indexator) : Z := ul (ul (end_ ind - start ind) + 1).

Definition index_init (first capacity : Z) (data : list Z) : option indexator :=
  assert! negb (capacity =? 0) ;;
  assert! negb (ul (first + capacity) =? INDEX_NONE) ;;
  let hi := ul (ul (first + capacity) - 1) in
  let n := INDEX_DATA_LEN capacity in
  m ← zwrite data 0 (replicate (Z.to_nat n) 0);
  Some (Indexator INDEX_NONE first hi hi first m first hi first hi).

(** [-err] or the bit. *)
Definition index_locked (ind : indexator) (idx : Z) : option Z :=
  let err := ind_check ind idx in
  if negb (err =? 0) then Some err
  else b ← ind_get_bit ind idx; Some (b2z b).

Definition index_clamp (ind : indexator) (lo hi : Z) : option indexator :=
  assert! start ind <=? lo ;;
  assert! hi <=? end_ ind ;;
  assert! last ind =? INDEX_NONE ;;
  let ind := Indexator (last ind) lo hi hi lo (mask ind) (start ind) (end_ ind) lo hi in
  l1 ← index_locked ind (min ind); assert! l1 =? 0 ;;
  l2 ← index_locked ind (max ind); assert! l2 =? 0 ;;
  l3 ← index_locked ind (prev ind); assert! l3 =? 0 ;;
  l4 ← index_locked ind (next ind); assert! l4 =? 0 ;;
  Some ind.

(** [binalign_bound(capacity, LONG_BIT) / CHAR_BIT] bytes are [n] words. *)
Definition index_clean (ind : indexator) : option indexator :=
  let n := ul (index_capacity ind + (LONG_BIT - 1)) / LONG_BIT in
  m ← zwrite (mask ind) 0 (replicate (Z.to_nat n) 0);
  Some (Indexator INDEX_NONE (start ind) (end_ ind) (end_ ind) (start ind) m
    (start ind) (end_ ind) (start ind) (end_ ind)).

Definition index_find (rands : list Z) (ind : indexator) (type : index_type) : option Z :=
  match type with
  | INDEX_RANDOM => ind_find_rand rands ind
  | INDEX_MIN => Some (min ind)
  | INDEX_MAX => Some (max ind)
  | INDEX_PREV => Some (prev ind)
  | INDEX_NEXT => Some (next ind)
  end.

Definition index_lock (ind : indexator) (idx : Z) : option indexator :=
  ind ← ind_set_bit ind idx;
  assert! negb (idx =? INDEX_NONE) ;;
  if (clamp_min ind <=? idx) && (idx <=? clamp_max ind) then
    mi ← (if idx =? min ind then ind_find_more ind (min ind) (clamp_max ind) INDEX_NONE
          else Some (min ind));
    ma ← (if idx =? max ind then ind_find_less ind (max ind) (clamp_min ind) INDEX_NONE
          else Some (max ind));
    pr ← ind_find_less ind idx (clamp_min ind) ma;
    ne ← ind_find_more ind idx (clamp_max ind) mi;
    Some (set_cache idx mi ma pr ne ind)
  else Some ind.

Definition index_try_lock (ind : indexator) (idx : Z) : option (Z * indexator) :=
  let err := ind_check ind idx in
  if negb (err =? 0) then Some (err, ind)
  else
    b ← ind_get_bit ind idx;
    if (b : bool) then Some (0, ind)
    else ind ← index_lock ind idx; Some (1, ind).

Definition index_unlock (ind : indexator) (idx : Z) : option indexator :=
  if negb (ind_check ind idx =? 0) then Some ind
  else
    ind ← ind_unset_bit ind idx;
    assert! negb (idx =? INDEX_NONE) ;;
    if (clamp_min ind <=? idx) && (idx <=? clamp_max ind) then
      assert! negb (last ind =? INDEX_NONE) ;;
      if min ind =? INDEX_NONE then Some (set_cache (last ind) idx idx idx idx ind)
      else
        let la := last ind in
        let mi := if idx <? min ind then idx else min ind in
        let ma := if idx >? max ind then idx else max ind in
        let pr := if ((idx >? prev ind) && (idx <? la))
                     || ((prev ind >? la) && ((idx >? prev ind) || (idx <? la)))
                     || (prev ind =? la) then idx else prev ind in
        let ne := if ((idx <? next ind) && (idx >? la))
                     || ((next ind <? la) && ((idx <? next ind) || (idx >? la)))
                     || (next ind =? la) then idx else next ind in
        Some (set_cache la mi ma pr ne ind)
    else Some ind.

Definition index_alloc (rands : list Z) (ind : indexator) (type : index_type)
  : option (Z * indexator) :=
  idx ← index_find rands ind type;
  if negb (idx =? INDEX_NONE) then ind ← index_lock ind idx; Some (idx, ind)
  else Some (idx, ind).

Definition index_free (ind : indexator) (idx : Z) : option indexator := index_unlock ind idx.

(** * The view: the set of the locked indices *)

Context `{!ArchOk A}.

(** Where [1 << bit] is the bit meant: everywhere on a 32-bit target, in the
    first 31 indices on a 64-bit one. *)
Definition bits_fit (n : Z) : Prop := LONG_BIT = 32 \/ n <= 31.

Definition mask_bit (m : list Z) (i : Z) : bool :=
  match znth m (i / LONG_BIT) with Some w => Z.testbit w (i mod LONG_BIT) | None => false end.

Definition avail (ind : indexator) (L : gset Z) (y : Z) : Prop :=
  clamp_min ind <= y <= clamp_max ind /\ y ∉ L.

Section Order.
Context (P : Z -> Prop).
Definition least (r : Z) : Prop :=
  (P r /\ forall y, P y -> r <= y) \/ (r = INDEX_NONE /\ forall y, ~ P y).
Definition greatest (r : Z) : Prop :=
  (P r /\ forall y, P y -> y <= r) \/ (r = INDEX_NONE /\ forall y, ~ P y).
(** The first after [la], around the end. *)
Definition cyc_next (la mi r : Z) : Prop :=
  (P r /\ la < r /\ forall y, P y -> la < y -> r <= y) \/ ((forall y, P y -> y <= la) /\ r = mi).
Definition cyc_prev (la ma r : Z) : Prop :=
  (P r /\ r < la /\ forall y, P y -> y < la -> y <= r) \/ ((forall y, P y -> la <= y) /\ r = ma).
End Order.

Record geom (ind : indexator) : Prop := {
  g_start : 0 <= start ind <= clamp_min ind;
  g_clamp : clamp_min ind <= clamp_max ind <= end_ ind;
  g_end : end_ ind < INDEX_NONE;
  g_fit : bits_fit (end_ ind - start ind + 1)
}.

Record mask_ok (ind : indexator) (L : gset Z) : Prop := {
  m_len : (end_ ind - start ind) / LONG_BIT < zlen (mask ind);
  m_words : forall i w, znth (mask ind) i = Some w -> 0 <= w < 2 ^ LONG_BIT;
  m_bits : forall y, start ind <= y <= end_ ind ->
    mask_bit (mask ind) (y - start ind) = bool_decide (y ∈ L);
  m_range : forall y, y ∈ L -> start ind <= y <= end_ ind
}.

Record ind_ok (ind : indexator) (L : gset Z) : Prop := {
  o_geom : geom ind;
  o_mask : mask_ok ind L;
  o_last : last ind = INDEX_NONE /\ (forall y, clamp_min ind <= y <= clamp_max ind -> y ∉ L) \/
           clamp_min ind <= last ind <= clamp_max ind;
  o_min : least (avail ind L) (min ind);
  o_max : greatest (avail ind L) (max ind);
  o_prev : cyc_prev (avail ind L) (last ind) (max ind) (prev ind);
  o_next : cyc_next (avail ind L) (last ind) (min ind) (next ind)
}.

Lemma none_val : INDEX_NONE = 2 ^ LONG_BIT - 1.
Proof.
  unfold INDEX_NONE, ul, wrap. pose proof long_bit_pos.
  assert (0 < 2 ^ LONG_BIT) by (apply Z.pow_pos_nonneg; lia).
  symmetry. apply (Zmod_unique _ _ (-1)); lia.
Qed.

Lemma bit_mask_ok n bit : bits_fit n -> 0 <= bit < LONG_BIT -> bit < n -> bit_mask bit = Some (2 ^ bit).
Proof.
  intros Hf Hb Hn. unfold bit_mask. rewrite Z.shiftl_1_l.
  assert (LONG_BIT = 32 /\ bit = 31 \/ bit < 31) as [[E ->]|Hs].
  { destruct Hf as [E|E]; [rewrite E in *|]; lia. }
  - unfold ul. rewrite E. reflexivity.
  - destruct (Z.ltb_spec bit 32); [|lia].
    assert (2 ^ bit < 2 ^ 31) by (apply Z.pow_lt_mono_r; lia).
    rewrite s32_small, ul_32 by lia. done.
Qed.

Lemma land_pow2 w bit : 0 <= bit -> Z.land w (2 ^ bit) = if Z.testbit w bit then 2 ^ bit else 0.
Proof.
  intros Hb. apply Z.bits_inj'. intros i Hi. rewrite Z.land_spec, Z.pow2_bits_eqb by done.
  destruct (Z.eqb_spec bit i) as [->|Hne].
  - rewrite andb_true_r. destruct (Z.testbit w i); [by rewrite Z.pow2_bits_true|by rewrite Z.bits_0].
  - rewrite andb_false_r. destruct (Z.testbit w bit); [by rewrite Z.pow2_bits_false|by rewrite Z.bits_0].
Qed.

Lemma ind_word_ok ind L idx :
  geom ind -> mask_ok ind L -> start ind <= idx <= end_ ind ->
  exists w, let i := idx - start ind in
    znth (mask ind) (i / LONG_BIT) = Some w /\ 0 <= w < 2 ^ LONG_BIT /\
    ind_word ind idx = Some (i / LONG_BIT, w, 2 ^ (i mod LONG_BIT)) /\
    Z.testbit w (i mod LONG_BIT) = bool_decide (idx ∈ L).
Proof.
  intros [Hs Hc He Hf] [Hlen Hw Hbits _] Hi. pose proof long_bit_pos as HL. pose proof none_val as HN.
  set (i := idx - start ind). assert (0 <= i <= end_ ind - start ind) as Hir by lia.
  destruct (znth_lt (mask ind) (i / LONG_BIT)) as [w Hwi].
  { split; [apply Z.div_pos; lia|]. assert (i / LONG_BIT <= (end_ ind - start ind) / LONG_BIT)
      by (apply Z.div_le_mono; lia). lia. }
  pose proof (Z.mod_pos_bound i LONG_BIT HL) as Hm. pose proof (Z.mod_le i LONG_BIT ltac:(lia) HL) as Hml.
  exists w. cbn. split_and!; try done; try by eapply Hw.
  - unfold ind_word. zbool; try lia. cbn [negb andb]. rewrite ul_small by lia. fold i. rewrite Hwi.
    cbn [mbind option_bind]. rewrite (bit_mask_ok _ _ Hf) by lia. done.
  - specialize (Hbits idx Hi). unfold mask_bit in Hbits. fold i in Hbits. by rewrite Hwi in Hbits.
Qed.

Lemma get_bit_ok ind L idx :
  geom ind -> mask_ok ind L -> start ind <= idx <= end_ ind ->
  ind_get_bit ind idx = Some (bool_decide (idx ∈ L)).
Proof.
  intros Hg Hm Hi. destruct (ind_word_ok ind L idx Hg Hm Hi) as (w & _ & _ & Hw & Hb).
  pose proof (Z.mod_pos_bound (idx - start ind) LONG_BIT long_bit_pos) as Hmb.
  unfold ind_get_bit. rewrite Hw. cbn [mbind option_bind]. rewrite land_pow2, Hb by lia. f_equal.
  case_bool_decide; [|done]. apply negb_true_iff, Z.eqb_neq. unfold swrap.
  set (b := (idx - start ind) mod LONG_BIT) in *.
  assert (b < 32) as Hb32.
  { assert (b <= idx - start ind) by (apply Z.mod_le; [lia|apply long_bit_pos]).
    destruct (g_fit _ Hg) as [E|E]; lia. }
  assert (2 ^ b <= 2 ^ 31) by (apply Z.pow_le_mono_r; lia).
  assert (0 < 2 ^ b) by (apply Z.pow_pos_nonneg; lia). change (2 ^ (32 - 1)) with (2 ^ 31). intros Hz.
  assert ((2 ^ b + 2 ^ 31) mod 2 ^ 32 = 2 ^ 31) as Hz' by lia.
  destruct (decide (2 ^ b = 2 ^ 31)) as [E|E]; [rewrite E in Hz'; discriminate Hz'|].
  rewrite Z.mod_small in Hz'; lia.
Qed.

(** Two indices share a word exactly when they differ in the bit. *)
Lemma index_apart i j : 0 <= i -> 0 <= j -> i <> j ->
  i / LONG_BIT = j / LONG_BIT -> i mod LONG_BIT <> j mod LONG_BIT.
Proof.
  intros Hi Hj Hne Hd Hm. pose proof long_bit_pos as HL. apply Hne.
  rewrite (Z.div_mod i LONG_BIT), (Z.div_mod j LONG_BIT), Hd, Hm by lia. done.
Qed.

(** A word of the mask replaced: the bit of [idx] becomes [b]. *)
Lemma mask_update ind L L' idx w w' (b : bool) :
  geom ind -> mask_ok ind L -> start ind <= idx <= end_ ind ->
  znth (mask ind) ((idx - start ind) / LONG_BIT) = Some w ->
  0 <= w' < 2 ^ LONG_BIT ->
  (forall k, 0 <= k -> Z.testbit w' k = if k =? (idx - start ind) mod LONG_BIT then b else Z.testbit w k) ->
  (forall y, y ∈ L' <-> if decide (y = idx) then b = true else y ∈ L) ->
  exists m, zset (mask ind) ((idx - start ind) / LONG_BIT) w' = Some m /\ mask_ok (set_mask m ind) L'.
Proof.
  intros Hg [Hlen Hws Hbits Hr] Hi Hw Hw' Hk HL'. pose proof long_bit_pos as HLB.
  set (i := idx - start ind) in *. pose proof (znth_Some _ _ _ Hw) as Hin.
  destruct (zset (mask ind) (i / LONG_BIT) w') as [m|] eqn:Hm; [|by rewrite zset_lt in Hm].
  exists m. split; [done|]. pose proof (zset_len _ _ _ _ Hm) as Hml. split; cbn.
  - by rewrite Hml.
  - intros j v Hv. destruct (decide (i / LONG_BIT = j)) as [<-|Hne].
    + rewrite (znth_zset_eq _ _ _ _ Hm) in Hv. by simplify_eq.
    + rewrite (znth_zset_ne _ _ _ _ _ Hm Hne) in Hv. by eapply Hws.
  - intros y Hy. unfold mask_bit. destruct (decide (y = idx)) as [->|Hyi].
    + fold i. rewrite (znth_zset_eq _ _ _ _ Hm), Hk by (apply Z.mod_pos_bound; lia).
      rewrite Z.eqb_refl. specialize (HL' idx). rewrite decide_True in HL' by done.
      destruct b; case_bool_decide; naive_solver.
    + rewrite (bool_decide_ext (y ∈ L') (y ∈ L)) by (rewrite HL'; by rewrite decide_False).
      rewrite <- (Hbits y Hy). unfold mask_bit. destruct (decide (i / LONG_BIT = (y - start ind) / LONG_BIT)) as [E|E].
      * rewrite <- E, (znth_zset_eq _ _ _ _ Hm), Hw, Hk by (apply Z.mod_pos_bound; lia).
        destruct (Z.eqb_spec ((y - start ind) mod LONG_BIT) (i mod LONG_BIT)); [|done].
        exfalso. eapply (index_apart (y - start ind) i); unfold i in *; lia || congruence.
      * by rewrite (znth_zset_ne _ _ _ _ _ Hm E).
  - intros y Hy. apply HL' in Hy. destruct (decide (y = idx)) as [->|]; [done|by apply Hr].
Qed.

Lemma set_bit_ok ind L idx :
  geom ind -> mask_ok ind L -> start ind <= idx <= end_ ind -> idx ∉ L ->
  exists m, ind_set_bit ind idx = Some (set_mask m ind) /\ mask_ok (set_mask m ind) ({[idx]} ∪ L).
Proof.
  intros Hg Hm Hi HnL. destruct (ind_word_ok ind L idx Hg Hm Hi) as (w & Hw & Hwr & Hiw & Hb).
  rewrite bool_decide_false in Hb by done. unfold ind_set_bit. rewrite Hiw. cbn [mbind option_bind].
  pose proof (Z.mod_pos_bound (idx - start ind) LONG_BIT long_bit_pos) as Hmb.
  set (bit := (idx - start ind) mod LONG_BIT) in *. rewrite land_pow2, wnot_testbit, Hb by lia.
  destruct (Z.ltb_spec bit LONG_BIT); [cbn [andb negb]|lia].
  assert (0 < 2 ^ bit) by (apply Z.pow_pos_nonneg; lia).
  destruct (Z.eqb_spec (2 ^ bit) 0); [lia|]. cbn [negb].
  assert (forall k, 0 <= k -> Z.testbit (Z.lor w (2 ^ bit)) k = if k =? bit then true else Z.testbit w k) as Hk.
  { intros k Hk. rewrite Z.lor_spec, Z.pow2_bits_eqb by lia. rewrite (Z.eqb_sym k).
    destruct (bit =? k); [apply orb_true_r|apply orb_false_r]. }
  destruct (mask_update ind L ({[idx]} ∪ L) idx w (Z.lor w (2 ^ bit)) true) as (m & Hs & Hok); try done.
  - apply bounded_testbit; [lia|]. split; [apply Z.lor_nonneg; lia|]. intros k Hkk.
    rewrite Hk by lia. destruct (Z.eqb_spec k bit); [lia|]. apply (bounded_high_bit LONG_BIT); lia.
  - intros y. destruct (decide (y = idx)); set_solver.
  - exists m. by rewrite Hs.
Qed.

Lemma unset_bit_ok ind L idx :
  geom ind -> mask_ok ind L -> idx ∈ L ->
  exists m, ind_unset_bit ind idx = Some (set_mask m ind) /\ mask_ok (set_mask m ind) (L ∖ {[idx]}).
Proof.
  intros Hg Hm HL. pose proof (m_range _ _ Hm idx HL) as Hi.
  destruct (ind_word_ok ind L idx Hg Hm Hi) as (w & Hw & Hwr & Hiw & Hb).
  rewrite bool_decide_true in Hb by done. unfold ind_unset_bit. rewrite Hiw. cbn [mbind option_bind].
  pose proof (Z.mod_pos_bound (idx - start ind) LONG_BIT long_bit_pos) as Hmb.
  set (bit := (idx - start ind) mod LONG_BIT) in *. rewrite land_pow2, Hb by lia.
  assert (0 < 2 ^ bit) by (apply Z.pow_pos_nonneg; lia).
  destruct (Z.eqb_spec (2 ^ bit) 0); [lia|]. cbn [negb].
  assert (forall k, 0 <= k -> Z.testbit (Z.land w (wnot LONG_BIT (2 ^ bit))) k =
            if k =? bit then false else Z.testbit w k) as Hk.
  { intros k Hk. rewrite Z.land_spec, wnot_testbit, Z.pow2_bits_eqb by lia. rewrite (Z.eqb_sym k).
    destruct (Z.eqb_spec bit k) as [->|]; cbn; [by rewrite !andb_false_r|]. rewrite andb_true_r.
    destruct (Z.ltb_spec k LONG_BIT); [apply andb_true_r|].
    by rewrite (bounded_high_bit LONG_BIT w k) by lia. }
  destruct (mask_update ind L (L ∖ {[idx]}) idx w (Z.land w (wnot LONG_BIT (2 ^ bit))) false) as (m & Hs & Hok); try done.
  - apply bounded_testbit; [lia|]. split; [apply Z.land_nonneg; lia|]. intros k Hkk.
    rewrite Hk by lia. destruct (Z.eqb_spec k bit); [lia|]. apply (bounded_high_bit LONG_BIT); lia.
  - intros y. destruct (decide (y = idx)); set_solver.
  - exists m. by rewrite Hs.
Qed.

(** * The searches *)

Lemma find_more_ok ind L none hi : forall fuel idx,
  geom ind -> mask_ok ind L -> start ind <= idx -> hi <= end_ ind -> (Z.to_nat (hi - idx) < fuel)%nat ->
  exists r, ind_find_more_loop fuel ind idx hi none = Some r /\
    ((idx < r <= hi /\ r ∉ L /\ forall y, idx < y < r -> y ∈ L) \/
     (r = none /\ forall y, idx < y <= hi -> y ∈ L)).
Proof.
  induction fuel as [|fuel IH]; intros idx Hg Hm Hs Hh Hf; [lia|]. cbn [ind_find_more_loop].
  pose proof (g_end _ Hg) as Hge. pose proof (g_start _ Hg) as Hgs. pose proof none_val as HN.
  destruct (Z.ltb_spec idx hi); [|exists none; split; [done|]; right; split; [done|lia]].
  rewrite ul_small by lia. rewrite (get_bit_ok ind L) by (done || lia). cbn [mbind option_bind].
  case_bool_decide as HL.
  - destruct (IH (idx + 1)) as (r & -> & Hr); try done; try lia. exists r. split; [done|].
    destruct Hr as [(Hr1 & Hr2 & Hr3)|[-> Hr3]]; [left|right]; split_and!; try done; try lia;
      intros y Hy; (destruct (decide (y = idx + 1)) as [->|]; [done|]); apply Hr3; lia.
  - exists (idx + 1). split; [done|]. left. split_and!; [lia|lia|done|lia].
Qed.

Lemma find_less_ok ind L none lo : forall fuel idx,
  geom ind -> mask_ok ind L -> start ind <= lo -> idx <= end_ ind -> (Z.to_nat (idx - lo) < fuel)%nat ->
  exists r, ind_find_less_loop fuel ind idx lo none = Some r /\
    ((lo <= r < idx /\ r ∉ L /\ forall y, r < y < idx -> y ∈ L) \/
     (r = none /\ forall y, lo <= y < idx -> y ∈ L)).
Proof.
  induction fuel as [|fuel IH]; intros idx Hg Hm Hs Hh Hf; [lia|]. cbn [ind_find_less_loop].
  pose proof (g_end _ Hg) as Hge. pose proof (g_start _ Hg) as Hgs. pose proof none_val as HN. rewrite Z.gtb_ltb.
  destruct (Z.ltb_spec lo idx); [|exists none; split; [done|]; right; split; [done|lia]].
  rewrite ul_small by lia. rewrite (get_bit_ok ind L) by (done || lia). cbn [mbind option_bind].
  case_bool_decide as HL.
  - destruct (IH (idx - 1)) as (r & -> & Hr); try done; try lia. exists r. split; [done|].
    destruct Hr as [(Hr1 & Hr2 & Hr3)|[-> Hr3]]; [left|right]; split_and!; try done; try lia;
      intros y Hy; (destruct (decide (y = idx - 1)) as [->|]; [done|]); apply Hr3; lia.
  - exists (idx - 1). split; [done|]. left. split_and!; [lia|lia|done|lia].
Qed.

(** * Locking *)

Lemma order_ext (P Q : Z -> Prop) la mi ma mn mx pr ne :
  (forall y, P y <-> Q y) ->
  least P mn -> greatest P mx -> cyc_prev P la ma pr -> cyc_next P la mi ne ->
  least Q mn /\ greatest Q mx /\ cyc_prev Q la ma pr /\ cyc_next Q la mi ne.
Proof.
  intros H. unfold least, greatest, cyc_prev, cyc_next.
  setoid_rewrite H. tauto.
Qed.

Definition frame (ind ind' : indexator) : Prop :=
  start ind' = start ind /\ end_ ind' = end_ ind /\
  clamp_min ind' = clamp_min ind /\ clamp_max ind' = clamp_max ind.

Lemma frame_geom ind ind' : frame ind ind' -> geom ind -> geom ind'.
Proof. intros (E1 & E2 & E3 & E4) [H1 H2 H3 H4]. split; rewrite ?E1, ?E2, ?E3, ?E4; done. Qed.

Definition in_clamp (ind : indexator) (idx : Z) : bool :=
  (clamp_min ind <=? idx) && (idx <=? clamp_max ind).

Lemma in_clamp_spec ind idx : in_clamp ind idx = true <-> clamp_min ind <= idx <= clamp_max ind.
Proof. unfold in_clamp. rewrite andb_true_iff, !Z.leb_le. done. Qed.

(** A change outside of the clamp does not touch the cached answers. *)
Lemma outside_ok ind L L' m idx :
  ind_ok ind L -> mask_ok (set_mask m ind) L' -> in_clamp ind idx = false ->
  (forall y, y <> idx -> y ∈ L' <-> y ∈ L) -> ind_ok (set_mask m ind) L'.
Proof.
  intros [Hg Hm Hl Hmi Hma Hp Hn] Hm' Hc HL.
  assert (forall y, clamp_min ind <= y <= clamp_max ind -> y <> idx) as Hne.
  { intros y Hy ->. apply in_clamp_spec in Hy. congruence. }
  destruct (order_ext (avail ind L) (avail (set_mask m ind) L') (last ind) (min ind) (max ind)
    (min ind) (max ind) (prev ind) (next ind)) as (Hmi' & Hma' & Hp' & Hn'); try done.
  { intros y. unfold avail. cbn. split; (intros [Hy Hy']; split; [done|]); by rewrite HL in * by eauto. }
  split; cbn; try done.
  - by apply (frame_geom ind).
  - destruct Hl as [[Hl Hl2]|Hl]; [left|by right]. split; [done|]. intros y Hy. rewrite HL by eauto. eauto.
Qed.

Lemma least_drop (P : Z -> Prop) m idx :
  least P m -> P idx -> m <> idx -> least (fun y => P y /\ y <> idx) m.
Proof. unfold least. naive_solver. Qed.

Lemma greatest_drop (P : Z -> Prop) m idx :
  greatest P m -> P idx -> m <> idx -> greatest (fun y => P y /\ y <> idx) m.
Proof. unfold greatest. naive_solver. Qed.

(** What the searches from a locked index of the clamp give. *)
Lemma search_next ind L idx none :
  geom ind -> mask_ok ind L -> clamp_min ind <= idx <= clamp_max ind -> idx ∈ L ->
  exists r, ind_find_more ind idx (clamp_max ind) none = Some r /\ cyc_next (avail ind L) idx none r.
Proof.
  intros Hg Hm Hi HL. pose proof (g_start _ Hg). pose proof (g_clamp _ Hg).
  destruct (find_more_ok ind L none (clamp_max ind) (S (Z.to_nat (clamp_max ind - idx))) idx)
    as (r & Hr & Hspec); try done; try lia. exists r. split; [exact Hr|].
  unfold cyc_next, avail. destruct Hspec as [(Hr1 & Hr2 & Hr3)|[-> Hr3]]; [left|right]; split_and!; try done; try lia.
  - intros y [Hy HyL] Hlt. destruct (decide (r <= y)); [done|]. destruct HyL. apply Hr3. lia.
  - intros y [Hy HyL]. destruct (decide (y <= idx)); [done|]. destruct HyL. apply Hr3. lia.
Qed.

Lemma search_prev ind L idx none :
  geom ind -> mask_ok ind L -> clamp_min ind <= idx <= clamp_max ind -> idx ∈ L ->
  exists r, ind_find_less ind idx (clamp_min ind) none = Some r /\ cyc_prev (avail ind L) idx none r.
Proof.
  intros Hg Hm Hi HL. pose proof (g_start _ Hg). pose proof (g_clamp _ Hg).
  destruct (find_less_ok ind L none (clamp_min ind) (S (Z.to_nat (idx - clamp_min ind))) idx)
    as (r & Hr & Hspec); try done; try lia. exists r. split; [exact Hr|].
  unfold cyc_prev, avail. destruct Hspec as [(Hr1 & Hr2 & Hr3)|[-> Hr3]]; [left|right]; split_and!; try done; try lia.
  - intros y [Hy HyL] Hlt. destruct (decide (y <= r)); [done|]. destruct HyL. apply Hr3. lia.
  - intros y [Hy HyL]. destruct (decide (idx <= y)); [done|]. destruct HyL. apply Hr3. lia.
Qed.

Lemma next_least (P : Z -> Prop) idx r :
  (forall y, P y -> idx < y) -> cyc_next P idx INDEX_NONE r -> least P r.
Proof.
  intros Hlo [(H1 & H2 & H3)|[H1 ->]]; [left|right].
  - split; [done|]. eauto.
  - split; [done|]. intros y Hy. specialize (Hlo y Hy). specialize (H1 y Hy). lia.
Qed.

Lemma prev_greatest (P : Z -> Prop) idx r :
  (forall y, P y -> y < idx) -> cyc_prev P idx INDEX_NONE r -> greatest P r.
Proof.
  intros Hhi [(H1 & H2 & H3)|[H1 ->]]; [left|right].
  - split; [done|]. eauto.
  - split; [done|]. intros y Hy. specialize (Hhi y Hy). specialize (H1 y Hy). lia.
Qed.

Lemma lock_ok ind L idx :
  ind_ok ind L -> start ind <= idx <= end_ ind -> idx ∉ L ->
  exists ind', index_lock ind idx = Some ind' /\ ind_ok ind' ({[idx]} ∪ L) /\ frame ind ind' /\
    last ind' = if in_clamp ind idx then idx else last ind.
Proof.
  intros Hok Hi HL. pose proof Hok as [Hg Hm Hl Hmi Hma Hp Hn]. pose proof (g_end _ Hg) as Hge.
  destruct (set_bit_ok ind L idx Hg Hm Hi HL) as (m & Hs & Hm'). unfold index_lock. rewrite Hs.
  cbn [mbind option_bind]. destruct (Z.eqb_spec idx INDEX_NONE); [lia|]. cbn [negb].
  set (ind1 := set_mask m ind) in *. set (L' := {[idx]} ∪ L) in *.
  change (_ && _) with (in_clamp ind idx). destruct (in_clamp ind idx) eqn:Hc.
  2: { exists ind1. split_and!; try done. eapply outside_ok; try done. intros y Hy. set_solver. }
  apply in_clamp_spec in Hc. assert (geom ind1) as Hg1 by (by apply (frame_geom ind)).
  assert (forall y, avail ind1 L' y <-> avail ind L y /\ y <> idx) as HP.
  { intros y. unfold avail, L'. rewrite not_elem_of_union, not_elem_of_singleton. cbn. tauto. }
  assert (idx ∈ L') as HiL by set_solver. assert (avail ind L idx) as HPi by (split; done).
  assert (exists mi, (if idx =? min ind1 then ind_find_more ind1 (min ind1) (clamp_max ind1) INDEX_NONE
            else Some (min ind1)) = Some mi /\ least (avail ind1 L') mi) as (mi & -> & Hmi').
  { destruct (Z.eqb_spec idx (min ind1)) as [E|E].
    - rewrite <- E. destruct (search_next ind1 L' idx INDEX_NONE) as (r & Hr & Hspec); try done.
      exists r. split; [done|]. apply (next_least _ idx); [|done]. intros y [Hy Hne]%HP.
      destruct Hmi as [[_ H]|[_ H]]; [specialize (H y Hy); cbn in E; lia|by destruct (H y)].
    - exists (min ind1). split; [done|]. unfold least. setoid_rewrite HP.
      by apply least_drop. }
  assert (exists ma, (if idx =? max ind1 then ind_find_less ind1 (max ind1) (clamp_min ind1) INDEX_NONE
            else Some (max ind1)) = Some ma /\ greatest (avail ind1 L') ma) as (ma & -> & Hma').
  { destruct (Z.eqb_spec idx (max ind1)) as [E|E].
    - rewrite <- E. destruct (search_prev ind1 L' idx INDEX_NONE) as (r & Hr & Hspec); try done.
      exists r. split; [done|]. apply (prev_greatest _ idx); [|done]. intros y [Hy Hne]%HP.
      destruct Hma as [[_ H]|[_ H]]; [specialize (H y Hy); cbn in E; lia|by destruct (H y)].
    - exists (max ind1). split; [done|]. unfold greatest. setoid_rewrite HP.
      by apply greatest_drop. }
  cbn [mbind option_bind].
  destruct (search_prev ind1 L' idx ma) as (pr & -> & Hpr); try done.
  destruct (search_next ind1 L' idx mi) as (ne & -> & Hne); try done.
  cbn [mbind option_bind]. eexists. split; [done|]. split; [|done].
  split; try done; [by apply (frame_geom ind1)|by destruct Hm'; split|by right].
Qed.

(** * Unlocking *)

Lemma unlock_extremes (P Q : Z -> Prop) idx mi ma :
  (forall y, Q y <-> P y \/ y = idx) -> mi <> INDEX_NONE -> least P mi -> greatest P ma ->
  least Q (if idx <? mi then idx else mi) /\ greatest Q (if idx >? ma then idx else ma).
Proof.
  intros HQ Hmi [[Hl1 Hl2]|[? _]] [[Hg1 Hg2]|[_ Hg]]; try done; [|by destruct (Hg mi)].
  rewrite Z.gtb_ltb. split; left.
  - destruct (Z.ltb_spec idx mi); (split; [naive_solver|]);
      intros y [Hy| ->]%HQ; try specialize (Hl2 y Hy); lia.
  - destruct (Z.ltb_spec ma idx); (split; [naive_solver|]);
      intros y [Hy| ->]%HQ; try specialize (Hg2 y Hy); lia.
Qed.

Lemma unlock_prev (P Q : Z -> Prop) idx la ma pr :
  (forall y, Q y <-> P y \/ y = idx) -> ~ P idx -> greatest P ma -> ma <> INDEX_NONE ->
  cyc_prev P la ma pr ->
  cyc_prev Q la (if idx >? ma then idx else ma)
    (if ((idx >? pr) && (idx <? la)) || ((pr >? la) && ((idx >? pr) || (idx <? la))) || (pr =? la)
     then idx else pr).
Proof.
  intros HQ Hi [[Hg1 Hg2]|[? _]] Hma Hp; [|done].
  assert (pr <> idx) as Hpi by (intros ->; destruct Hp as [[? _]|[_ ->]]; done).
  assert (ma <> idx) as Hmi by (intros ->; done).
  destruct Hp as [(Hp1 & Hp2 & Hp3)|[Hp1 ->]].
  - (* the cached answer is below [la] *)
    zbool; cbn [andb orb]; try lia; left.
    all: split; [naive_solver|]; (split; [lia|]); intros y [Hy| ->]%HQ Hlt;
      try specialize (Hp3 y Hy Hlt); lia.
  - (* the cached answer is the greatest *)
    pose proof (Hp1 ma Hg1) as Hla. zbool; cbn [andb orb]; try lia.
    all: first
      [ left; split; [naive_solver|]; split; [lia|]; intros y [Hy| ->]%HQ Hlt;
          [specialize (Hp1 y Hy)|]; lia
      | right; split; [|lia || done]; intros y [Hy| ->]%HQ;
          [specialize (Hp1 y Hy)|]; lia ].
Qed.

Lemma unlock_next (P Q : Z -> Prop) idx la mi ne :
  (forall y, Q y <-> P y \/ y = idx) -> ~ P idx -> least P mi -> mi <> INDEX_NONE ->
  cyc_next P la mi ne ->
  cyc_next Q la (if idx <? mi then idx else mi)
    (if ((idx <? ne) && (idx >? la)) || ((ne <? la) && ((idx <? ne) || (idx >? la))) || (ne =? la)
     then idx else ne).
Proof.
  intros HQ Hi [[Hg1 Hg2]|[? _]] Hma Hp; [|done].
  assert (ne <> idx) as Hpi by (intros ->; destruct Hp as [[? _]|[_ ->]]; done).
  assert (mi <> idx) as Hmi by (intros ->; done).
  destruct Hp as [(Hp1 & Hp2 & Hp3)|[Hp1 ->]].
  - zbool; cbn [andb orb]; try lia; left.
    all: split; [naive_solver|]; (split; [lia|]); intros y [Hy| ->]%HQ Hlt;
      try specialize (Hp3 y Hy Hlt); lia.
  - pose proof (Hp1 mi Hg1) as Hla. zbool; cbn [andb orb]; try lia.
    all: first
      [ left; split; [naive_solver|]; split; [lia|]; intros y [Hy| ->]%HQ Hlt;
          [specialize (Hp1 y Hy)|]; lia
      | right; split; [|lia || done]; intros y [Hy| ->]%HQ;
          [specialize (Hp1 y Hy)|]; lia ].
Qed.

Lemma check_ok ind idx : geom ind -> start ind <= idx <= end_ ind -> ind_check ind idx = 0.
Proof. intros Hg Hi. pose proof (g_end _ Hg). unfold ind_check. zbool; lia || done. Qed.

Lemma check_bad ind idx : ~ start ind <= idx <= end_ ind -> ind_check ind idx = - EINVAL.
Proof. intros Hi. unfold ind_check. zbool; try done. lia. Qed.

Lemma unlock_ok ind L idx :
  ind_ok ind L -> idx ∈ L ->
  exists ind', index_unlock ind idx = Some ind' /\ ind_ok ind' (L ∖ {[idx]}) /\ frame ind ind' /\
    last ind' = last ind.
Proof.
  intros Hok HL. pose proof Hok as [Hg Hm Hl Hmi Hma Hp Hn].
  pose proof (m_range _ _ Hm idx HL) as Hi. pose proof (g_end _ Hg) as Hge. pose proof (g_clamp _ Hg) as Hgc.
  unfold index_unlock. rewrite check_ok by done. cbn [negb Z.eqb].
  destruct (unset_bit_ok ind L idx Hg Hm HL) as (m & Hs & Hm'). rewrite Hs.
  cbn [mbind option_bind]. destruct (Z.eqb_spec idx INDEX_NONE); [lia|]. cbn [negb].
  set (ind1 := set_mask m ind) in *. set (L' := L ∖ {[idx]}) in *.
  change ((clamp_min ind1 <=? idx) && (idx <=? clamp_max ind1)) with (in_clamp ind idx). destruct (in_clamp ind idx) eqn:Hc.
  2: { exists ind1. split_and!; try done. eapply outside_ok; try done. intros y Hy. set_solver. }
  apply in_clamp_spec in Hc. assert (geom ind1) as Hg1 by (by apply (frame_geom ind)).
  assert (forall y, avail ind1 L' y <-> avail ind L y \/ y = idx) as HQ.
  { intros y. unfold avail, L'. cbn. destruct (decide (y = idx)) as [->|]; set_solver. }
  assert (~ avail ind L idx) as Hni by (by intros [_ ?]).
  assert (clamp_min ind <= last ind <= clamp_max ind) as Hlr
    by (destruct Hl as [[_ Hl]|Hl]; [by destruct (Hl idx Hc)|done]).
  change (last ind1) with (last ind). destruct (Z.eqb_spec (last ind) INDEX_NONE); [lia|]. cbn [negb].
  change (min ind1) with (min ind). destruct (Z.eqb_spec (min ind) INDEX_NONE) as [Hmn|Hmn].
  - assert (forall y, avail ind1 L' y <-> y = idx) as HQ1.
    { intros y. rewrite HQ. split; [|by right]. intros [Hy|]; [|done].
      destruct Hmi as [[Hmm _]|[_ Hno]]; [|by destruct (Hno y)]. destruct Hmm. lia. }
    eexists. split; [done|]. split; [|done].
    split; [by apply (frame_geom ind1)|by destruct Hm'; split|by right|..].
    + left. split; [by apply HQ1|]. intros y ->%HQ1. cbn. lia.
    + left. split; [by apply HQ1|]. intros y ->%HQ1. cbn. lia.
    + destruct (decide (idx < last ind)); [left|right]; cbn.
      * split; [by apply HQ1|]. split; [done|]. intros y ->%HQ1. cbn. lia.
      * split; [|done]. intros y ->%HQ1. cbn. lia.
    + destruct (decide (last ind < idx)); [left|right]; cbn.
      * split; [by apply HQ1|]. split; [done|]. intros y ->%HQ1. cbn. lia.
      * split; [|done]. intros y ->%HQ1. cbn. lia.
  - assert (max ind <> INDEX_NONE) as Hmx.
    { destruct Hma as [[[Hmm _] _]|[_ Hno]]; [lia|]. destruct Hmi as [[Hmm _]|[? _]]; [by destruct (Hno (min ind))|done]. }
    destruct (unlock_extremes (avail ind L) (avail ind1 L') idx (min ind) (max ind)) as [Hmi' Hma']; try done.
    eexists. split; [done|]. split; [|done].
    split; [by apply (frame_geom ind1)|by destruct Hm'; split|by right|done|done|..]; cbn.
    + by apply (unlock_prev (avail ind L)).
    + by apply (unlock_next (avail ind L)).
Qed.

(** * Allocation *)

(** What each kind of search promises. *)
Definition answer (ty : index_type) (P : Z -> Prop) (la r : Z) : Prop :=
  match ty with
  | INDEX_RANDOM => P r \/ (r = INDEX_NONE /\ forall y, ~ P y)
  | INDEX_MIN => least P r
  | INDEX_MAX => greatest P r
  | INDEX_PREV => exists ma, greatest P ma /\ cyc_prev P la ma r
  | INDEX_NEXT => exists mi, least P mi /\ cyc_next P la mi r
  end.

(** [rand()] comes around to every residue of the capacity. *)
Definition rands_cover (ind : indexator) (rands : list Z) : Prop :=
  Forall (fun r => 0 <= r < 2 ^ 31) rands /\
  forall k, 0 <= k <= clamp_max ind - clamp_min ind ->
    exists r, r ∈ rands /\ r mod (clamp_max ind - clamp_min ind + 1) = k.

Lemma find_rand_ok ind L rands y :
  ind_ok ind L -> avail ind L y -> Forall (fun r => 0 <= r < 2 ^ 31) rands ->
  (exists r, r ∈ rands /\ r mod (clamp_max ind - clamp_min ind + 1) = y - clamp_min ind) ->
  exists r, ind_find_rand_loop rands ind (clamp_max ind - clamp_min ind + 1) = Some r /\ avail ind L r.
Proof.
  intros [Hg Hm _ _ _ _ _] [Hy HyL]. pose proof (g_end _ Hg) as Hge. pose proof (g_start _ Hg) as Hgs.
  pose proof (g_clamp _ Hg) as Hgc. pose proof none_val as HN. set (cap := clamp_max ind - clamp_min ind + 1).
  induction rands as [|r rands IH]; intros Hf (r0 & Hin & Hr0); [by apply elem_of_nil in Hin|].
  apply Forall_cons in Hf as [Hr Hf]. cbn [ind_find_rand_loop].
  pose proof (Z.mod_pos_bound r cap ltac:(unfold cap; lia)) as Hb. unfold cap in Hb.
  rewrite (ul_32 r) by lia. rewrite ul_small by (unfold cap in *; lia).
  rewrite (get_bit_ok ind L) by (done || (unfold cap in *; lia)). cbn [mbind option_bind].
  case_bool_decide as HL.
  - apply IH; [done|]. exists r0. split; [|done]. apply elem_of_cons in Hin as [->|]; [|done].
    destruct HyL. replace y with (clamp_min ind + r mod cap) by lia. done.
  - eexists. split; [done|]. split; [unfold cap in *; lia|done].
Qed.

Lemma find_ok ind L ty rands :
  ind_ok ind L -> rands_cover ind rands ->
  exists r, index_find rands ind ty = Some r /\ answer ty (avail ind L) (last ind) r.
Proof.
  intros Hok [Hf Hcov]. pose proof Hok as [Hg Hm Hl Hmi Hma Hp Hn].
  pose proof (g_end _ Hg) as Hge. pose proof (g_start _ Hg) as Hgs. pose proof (g_clamp _ Hg) as Hgc.
  pose proof none_val as HN. destruct ty; cbn [index_find answer]; [|by eexists..|by eauto|by eauto].
  unfold ind_find_rand. destruct (Z.eqb_spec (min ind) INDEX_NONE) as [E|E].
  - exists INDEX_NONE. split; [done|]. right. split; [done|].
    destruct Hmi as [[[Hmm _] _]|[_ H]]; [lia|done].
  - destruct Hmi as [[Hmm _]|[? _]]; [|done].
    rewrite (ul_small (clamp_max ind - clamp_min ind)), ul_small by lia.
    destruct (find_rand_ok ind L rands (min ind) Hok Hmm Hf) as (r & Hr & Ha).
    + apply Hcov. destruct Hmm. lia.
    + exists r. split; [done|by left].
Qed.

Lemma answer_avail ty P la r :
  answer ty P la r -> r <> INDEX_NONE -> P r.
Proof.
  destruct ty; cbn.
  - intros [?|[? _]]; done.
  - intros [[? _]|[? _]]; done.
  - intros [[? _]|[? _]]; done.
  - intros (ma & Hg & [[? _]|[_ ->]]) Hr; [done|]. destruct Hg as [[? _]|[? _]]; done.
  - intros (mi & Hg & [[? _]|[_ ->]]) Hr; [done|]. destruct Hg as [[? _]|[? _]]; done.
Qed.

(** * A cleared mask *)

Lemma zero_mask ind m n rest :
  geom ind -> m = replicate (Z.to_nat n) 0 ++ rest -> Forall (fun w => 0 <= w < 2 ^ LONG_BIT) rest ->
  (end_ ind - start ind) / LONG_BIT < n -> mask ind = m -> mask_ok ind ∅.
Proof.
  intros Hg -> Hr Hn Hm. pose proof long_bit_pos as HL. pose proof (g_start _ Hg). pose proof (g_clamp _ Hg).
  assert (0 <= (end_ ind - start ind) / LONG_BIT) by (apply Z.div_pos; lia).
  assert (0 < 2 ^ LONG_BIT) by (apply Z.pow_pos_nonneg; lia).
  split; rewrite ?Hm; [| | |set_solver].
  - rewrite zlen_app. unfold zlen. rewrite length_replicate. lia.
  - intros i w Hw. pose proof (znth_Some _ _ _ Hw). rewrite znth_lookup in Hw by lia.
    apply lookup_app_Some in Hw as [Hw|[_ Hw]].
    + apply lookup_replicate in Hw as [-> _]. lia.
    + by apply (Forall_lookup_1 _ _ _ _ Hr Hw).
  - intros y Hy. rewrite bool_decide_false by set_solver. unfold mask_bit.
    assert (0 <= (y - start ind) / LONG_BIT <= (end_ ind - start ind) / LONG_BIT)
      by (split; [apply Z.div_pos; lia|apply Z.div_le_mono; lia]).
    rewrite znth_lookup by lia. rewrite lookup_app_l by (rewrite length_replicate; lia).
    rewrite lookup_replicate_2 by lia. apply Z.bits_0.
Qed.

Lemma fresh_ok ind :
  geom ind -> mask_ok ind ∅ -> last ind = INDEX_NONE -> min ind = clamp_min ind -> max ind = clamp_max ind ->
  prev ind = clamp_max ind -> next ind = clamp_min ind -> ind_ok ind ∅.
Proof.
  intros Hg Hm Hl Hmi Hma Hp Hn. pose proof (g_end _ Hg). pose proof (g_clamp _ Hg).
  assert (forall y, avail ind ∅ y <-> clamp_min ind <= y <= clamp_max ind) as HP
    by (intros y; unfold avail; set_solver).
  split; try done.
  - left. split; [done|]. set_solver.
  - left. rewrite HP, Hmi. split; [lia|]. intros y ?%HP. lia.
  - left. rewrite HP, Hma. split; [lia|]. intros y ?%HP. lia.
  - left. rewrite HP, Hp, Hl. split; [lia|]. split; [lia|]. intros y ?%HP. lia.
  - right. rewrite Hl, Hmi, Hn. split; [|done]. intros y ?%HP. lia.
Qed.

(** The words a capacity needs. *)
Lemma data_len_ok c : 0 < c -> c + LONG_BIT < 2 ^ LONG_BIT ->
  0 <= INDEX_DATA_LEN c /\ (c - 1) / LONG_BIT < INDEX_DATA_LEN c.
Proof.
  intros Hc Hb. pose proof long_bit_pos. unfold INDEX_DATA_LEN. rewrite ul_small by lia.
  split; [apply Z.div_pos; lia|].
  replace (c + LONG_BIT - 1) with (c - 1 + 1 * LONG_BIT) by lia. rewrite Z.div_add by lia. lia.
Qed.

Lemma zwrite_prefix (l : list Z) n : 0 <= n <= zlen l ->
  zwrite l 0 (replicate (Z.to_nat n) 0) = Some (replicate (Z.to_nat n) 0 ++ drop (Z.to_nat n) l).
Proof.
  intros Hn. unfold zwrite, zlen in *. rewrite length_replicate. zbool; try lia. cbn. done.
Qed.

Lemma index_init_ok first capacity data :
  0 <= first -> 0 < capacity -> first + capacity < INDEX_NONE -> capacity + LONG_BIT < 2 ^ LONG_BIT ->
  bits_fit capacity -> INDEX_DATA_LEN capacity <= zlen data ->
  Forall (fun w => 0 <= w < 2 ^ LONG_BIT) data ->
  exists ind, index_init first capacity data = Some ind /\ ind_ok ind ∅ /\
    start ind = first /\ end_ ind = first + capacity - 1 /\
    clamp_min ind = first /\ clamp_max ind = first + capacity - 1.
Proof.
  intros Hf Hc Hfc Hcl Hbits Hd Hdw. pose proof none_val as HN.
  destruct (data_len_ok capacity Hc Hcl) as [Hn0 Hn]. unfold index_init. rewrite ul_small by lia.
  destruct (Z.eqb_spec capacity 0); [lia|]. destruct (Z.eqb_spec (first + capacity) INDEX_NONE); [lia|].
  cbn [negb]. rewrite zwrite_prefix by lia. cbn [mbind option_bind]. rewrite ul_small by lia.
  eexists. split; [done|]. split; [|done].
  apply fresh_ok; try done; [split; cbn; [lia..|by replace (first + capacity - 1 - first + 1) with capacity by lia]|].
  eapply zero_mask; [|done|by apply Forall_drop|cbn|done].
  - split; cbn; [lia..|]. by replace (first + capacity - 1 - first + 1) with capacity by lia.
  - by replace (first + capacity - 1 - first) with (capacity - 1) by lia.
Qed.

End Indexator.

(** * The theorems *)


(** C35: initialisation ends with an allocator whose indices are all free, and
    cleaning any allocator does the same. *)
Theorem index_init_clean `{A : arch} `{!ArchOk A} first capacity data (ind0 : indexator) L :
  0 <= first -> 0 < capacity -> first + capacity < INDEX_NONE -> capacity + LONG_BIT < 2 ^ LONG_BIT ->
  bits_fit capacity -> INDEX_DATA_LEN capacity <= zlen data ->
  Forall (fun w => 0 <= w < 2 ^ LONG_BIT) data ->
  ind_ok ind0 L -> end_ ind0 - start ind0 + 1 + LONG_BIT < 2 ^ LONG_BIT ->
  (exists ind, index_init first capacity data = Some ind /\ ind_ok ind ∅ /\
     clamp_min ind = first /\ clamp_max ind = first + capacity - 1) /\
  (INDEX_DATA_LEN (end_ ind0 - start ind0 + 1) <= zlen (mask ind0) ->
   exists ind, index_clean ind0 = Some ind /\ ind_ok ind ∅ /\
     clamp_min ind = start ind0 /\ clamp_max ind = end_ ind0).
Proof.
  intros Hf Hc Hfc Hcl Hbits Hd Hdw [Hg0 Hm0 _ _ _ _ _] Hcl0. pose proof none_val as HN.
  pose proof (g_start _ Hg0). pose proof (g_clamp _ Hg0). pose proof (g_end _ Hg0). split.
  - destruct (index_init_ok first capacity data) as (ind & E & Hok & _ & _ & Hc1 & Hc2); try done. by exists ind.
  - intros Hml. set (c := end_ ind0 - start ind0 + 1) in *.
    destruct (data_len_ok c) as [Hn0 Hn]; [unfold c; lia|done|].
    unfold index_clean, index_capacity. rewrite (ul_small (end_ ind0 - start ind0)), (ul_small (_ + 1)) by lia.
    fold c. replace (c + (LONG_BIT - 1)) with (c + LONG_BIT - 1) by lia. fold (INDEX_DATA_LEN c).
    rewrite zwrite_prefix by lia. cbn [mbind option_bind]. eexists. split; [done|]. split; [|done].
    assert (Forall (fun w => 0 <= w < 2 ^ LONG_BIT) (mask ind0)) as Hw.
    { apply Forall_lookup. intros i w Hi. apply (m_words _ _ Hm0 (Z.of_nat i)).
      by rewrite znth_lookup, Nat2Z.id by lia. }
    apply fresh_ok; try done; [split; cbn; [lia..|apply Hg0]|].
    eapply zero_mask; [|done|by apply Forall_drop|cbn|done].
    + split; cbn; [lia..|apply Hg0].
    + by replace (end_ ind0 - start ind0) with (c - 1) by (unfold c; lia).
Qed.

(** On a 64-bit target the indices whose bit is 32 or more in their word
    cannot be locked, unlocked or tested: [1 << bit] shifts an [int] by its
    width or more, which is undefined.  Every allocator of more than 32 indices
    has such indices. *)
Theorem index_lp64_undefined (ind : indexator) (idx : Z) :
  0 <= start ind -> start ind <= idx <= end_ ind -> end_ ind < INDEX_NONE (A := lp64) ->
  32 <= (idx - start ind) mod 64 ->
  index_locked (A := lp64) ind idx = None /\ index_lock (A := lp64) ind idx = None /\
  index_unlock (A := lp64) ind idx = None.
Proof.
  intros Hs Hi He Hb. pose proof (none_val (A := lp64)) as HN. cbn [LONG_BIT lp64] in HN.
  assert (ind_word (A := lp64) ind idx = None) as Hw.
  { unfold ind_word. zbool; try lia. cbn [negb andb]. rewrite ul_small by (cbn; lia).
    destruct (znth _ _); [|done]. cbn [mbind option_bind]. unfold bit_mask. cbn [LONG_BIT lp64].
    destruct (Z.ltb_spec ((idx - start ind) mod 64) 32); [lia|done]. }
  assert (ind_check (A := lp64) ind idx = 0) as Hc by (unfold ind_check; zbool; done || lia).
  unfold index_locked, index_lock, index_unlock, ind_get_bit, ind_set_bit, ind_unset_bit.
  rewrite Hc, Hw. done.
Qed.

Definition demo_ind : indexator :=
  match index_init (A := ilp32) 5 40 [7; 9] with Some i => i
  | None => Indexator 0 0 0 0 0 [] 0 0 0 0 end.

Lemma demo_ind_ok : ind_ok (A := ilp32) demo_ind ∅.
Proof.
  assert (geom (A := ilp32) demo_ind) as Hg by (split; vm_compute; by (left || done || split)).
  apply fresh_ok; try done.
  apply (zero_mask (A := ilp32) demo_ind (mask demo_ind) 2 []); try done.
Qed.


Lemma index_init_clean_witness :
  exists ind, index_init (A := ilp32) 100 33 [1; 2; 3] = Some ind /\ ind_ok (A := ilp32) ind ∅ /\
     clamp_min ind = 100 /\ clamp_max ind = 132.
Proof.
  apply (index_init_clean (A := ilp32) 100 33 [1; 2; 3] demo_ind ∅).
  - lia.
  - lia.
  - vm_compute; reflexivity.
  - cbn; lia.
  - left; reflexivity.
  - vm_compute; discriminate.
  - repeat constructor; cbn; lia.
  - exact demo_ind_ok.
  - vm_compute; reflexivity.
Defined.

Definition demo_ind64 : indexator :=
  match index_init (A := lp64) 0 40 [0] with Some i => i
  | None => Indexator 0 0 0 0 0 [] 0 0 0 0 end.

Lemma index_lp64_undefined_witness :
  index_locked (A := lp64) demo_ind64 32 = None /\ index_lock (A := lp64) demo_ind64 32 = None /\
  index_unlock (A := lp64) demo_ind64 32 = None.
Proof.
  apply (index_lp64_undefined demo_ind64 32).
  - vm_compute; discriminate.
  - vm_compute; split; discriminate.
  - vm_compute; reflexivity.
  - vm_compute; discriminate.
Defined.
