(* ===== verification/PageAlloc.v ===== *)
(** The page allocator, [src/mem/pagealloc/bitmask.c] and [src/include/mem/page.h].

    One bit per page in a bitmap ([Bitmap.v]); a set bit is a page in use.
    Every operation runs under the allocator lock with interrupts off and is
    one step.  Page numbers are [unsigned int], byte counts [size_t]; a pointer
    is an address, 0 being NULL. *)
From S2P Require Import Prelude Bitmap.

Local Open Scope Z_scope.
Local Open Scope embox_scope.

Record page_allocator := PageAllocator {
  pages_start : Z;
  pages_n : Z;
  page_size : Z;
  free : Z;
  bitmap_len : Z;
  bitmap : list Z
}.

Section PageAlloc.
Context `{A : arch}.

Definition set_pages (bm : list Z) (f : Z) (al : page_allocator) : page_allocator :=
  PageAllocator (pages_start al) (pages_n al) (page_size al) f (bitmap_len al) bm.

Definition page_ptr2i (al : page_allocator) (page : Z) : Z :=
  s32 (ul (page - pages_start al) / page_size al).

Definition page_i2ptr (al : page_allocator) (i : Z) : Z :=
  ul (pages_start al + ul (ul (s32 i) * page_size al)).

Definition PAGE_NONE : Z := ul (-1).

Definition search_first_free (al : page_allocator) (start_page : Z) : option Z :=
  if start_page >=? pages_n al then Some PAGE_NONE
  else
    res ← bitmap_find_zero_bit (bitmap al) (pages_n al) (u32 start_page);
    Some (if negb (res =? pages_n al) then res else PAGE_NONE).

Definition check_n_free (al : page_allocator) (start_page page_q : Z) : option Z :=
  let start_page := u32 start_page in
  let page_q := u32 page_q in
  let nbits := s32 (Z.min (u32 (start_page + page_q)) (pages_n al)) in
  r ← bitmap_find_bit (bitmap al) (u32 nbits) start_page;
  Some (u32 (r - start_page)).

(** The body of the two marking loops, over [n] pages from [i] on. *)
Fixpoint set_bits (n : nat) (i : Z) (bm : list Z) : option (list Z) :=
  match n with
  | O => Some bm
  | S n => bm ← bitmap_set_bit bm i; set_bits n (i + 1) bm
  end.

Fixpoint clear_bits (n : nat) (i : Z) (bm : list Z) (count_free : Z) : option (list Z * Z) :=
  match n with
  | O => Some (bm, count_free)
  | S n =>
    b ← bitmap_test_bit bm i;
    if negb (b =? 0)
    then bm ← bitmap_clear_bit bm i; clear_bits n (i + 1) bm (s32 (count_free + 1))
    else clear_bits n (i + 1) bm count_free
  end.

Definition mark_n_busy (al : page_allocator) (start_page page_q : Z) : option page_allocator :=
  let start_page := u32 start_page in
  let page_q := u32 page_q in
  assert! u32 (start_page + page_q) <=? pages_n al ;;
  bm ← set_bits (Z.to_nat (u32 (start_page + page_q) - start_page)) start_page (bitmap al);
  Some (set_pages bm (ul (free al - ul (page_q * page_size al))) al).

Definition mark_n_free (al : page_allocator) (start_page page_q : Z) : option page_allocator :=
  let start_page := u32 start_page in
  let page_q := u32 page_q in
  assert! u32 (start_page + page_q) <=? pages_n al ;;
  '(bm, count_free) ← clear_bits (Z.to_nat (u32 (start_page + page_q) - start_page)) start_page (bitmap al) 0;
  Some (set_pages bm (ul (free al + ul (ul count_free * page_size al))) al).

(** The [while] loop of [search_multi_page]. *)
Fixpoint search_loop (fuel : nat) (al : page_allocator) (page_q page_n : Z)
  : option (Z * page_allocator) :=
  match fuel with
  | O => None
  | S fuel =>
    page_n ← search_first_free al page_n;
    if page_n =? PAGE_NONE then Some (0, al)
    else
      found_page_q ← check_n_free al page_n page_q;
      if page_q =? found_page_q
      then al ← mark_n_busy al page_n page_q; Some (page_i2ptr al page_n, al)
      else search_loop fuel al page_q (ul (page_n + found_page_q))
  end.

Definition search_multi_page (al : page_allocator) (page_q : Z) : option (Z * page_allocator) :=
  if (page_q =? 0) || (page_q >? pages_n al) then Some (0, al)
  else search_loop (S (Z.to_nat (pages_n al))) al page_q 0.

Definition page_alloc (al : page_allocator) (page_q : Z) : option (Z * page_allocator) :=
  search_multi_page al page_q.

(** The last component is the range that is cleared, its address and length. *)
Definition page_alloc_zero (al : page_allocator) (page_q : Z)
  : option (Z * page_allocator * option (Z * Z)) :=
  '(page_p, al) ← page_alloc al page_q;
  if negb (page_p =? 0) then Some (page_p, al, Some (page_p, ul (page_q * page_size al)))
  else Some (page_p, al, None).

Definition page_free (al : page_allocator) (page page_q : Z) : option page_allocator :=
  mark_n_free al (page_ptr2i al page) page_q.

(** The loop of [page_reserve]. *)
Fixpoint reserve_loop (n : nat) (page_i : Z) (bm : list Z) (taken : Z) : option (list Z * Z) :=
  match n with
  | O => Some (bm, taken)
  | S n =>
    b ← bitmap_test_bit bm (u32 page_i);
    if b =? 0
    then bm ← bitmap_set_bit bm (u32 page_i); reserve_loop n (page_i + 1) bm (ul (taken + 1))
    else reserve_loop n (page_i + 1) bm taken
  end.

Definition page_reserve (al : page_allocator) (start len : Z) : option (Z * page_allocator) :=
  let base := pages_start al in
  let end_ := ul (base + ul (pages_n al * page_size al)) in
  let from := start in
  let to := ul (from + len) in
  if (to <=? from) || (to <=? base) || (from >=? end_) then Some (0, al)
  else
    let from := if from <? base then base else from in
    let to := if to >? end_ then end_ else to in
    let last := ul (ul (to - base) + page_size al - 1) / page_size al in
    let first := ul (from - base) / page_size al in
    '(bm, taken) ← reserve_loop (Z.to_nat (last - first)) first (bitmap al) 0;
    Some (taken, set_pages bm (ul (free al - ul (taken * page_size al))) al).

Definition page_belong (al : page_allocator) (page : Z) : bool :=
  let pages_end := ul (pages_start al + ul (pages_n al * page_size al)) in
  (pages_start al <=? page) && (page <? pages_end).

(** * [page_allocator_init] *)

Definition binalign_bound (x bound : Z) : Z :=
  Z.land (ul (x + ul (bound - 1))) (wnot LONG_BIT (ul (bound - 1))).

(** [sizeof(unsigned long)] and [sizeof(struct page_allocator)]: six words. *)
Definition WORD : Z := LONG_BIT / 8.
Definition HEADER : Z := 6 * WORD.

(** The loop that gives up pages until the header and the bitmap fit. *)
Fixpoint init_loop (fuel : nat) (need start pstart page_size pages : Z) : option (option (Z * Z)) :=
  match fuel with
  | O => None
  | S fuel =>
    if need >? ul (pstart - start) then
      let pages := u32 (pages - 1) in
      if pages <=? 0 then Some None
      else init_loop fuel need start (ul (pstart + page_size)) page_size pages
    else Some (Some (pstart, pages))
  end.

(** The allocator and its own address, or NULL. *)
Definition page_allocator_init (start len page_size : Z) : option (option (Z * page_allocator)) :=
  if len <? ul (page_size + HEADER) then Some None
  else
    let end_ := ul (start + len) in
    let start := binalign_bound start 16 in
    let pstart := binalign_bound start page_size in
    if pstart >=? end_ then Some None
    else
      let pages := u32 (ul (end_ - pstart) / page_size) in
      if pages =? 0 then Some None
      else
        let blen := ul (WORD * BITMAP_SIZE (u32 (pages + 1))) in
        r ← init_loop (S (Z.to_nat pages)) (ul (HEADER + blen)) start pstart page_size pages;
        match r with
        | None => Some None
        | Some (pstart, pages) =>
          bm ← bitmap_set_bit (replicate (Z.to_nat (blen / WORD)) 0) pages;
          Some (Some (start, PageAllocator pstart pages page_size (ul (pages * page_size)) blen bm))
        end.

(** * The view *)

Context `{!ArchOk A}.

(** The number of free pages among the first [n]. *)
Fixpoint nfree (bm : list Z) (n : nat) : Z :=
  match n with
  | O => 0
  | S n => nfree bm n + (1 - b2z (bm_bit bm (Z.of_nat n)))
  end.

Definition free_pages (al : page_allocator) : Z := nfree (bitmap al) (Z.to_nat (pages_n al)).

Record pa_ok (al : page_allocator) : Prop := {
  pa_start : 0 < pages_start al;
  pa_n : 0 < pages_n al < 2 ^ 31;
  pa_size : 0 < page_size al;
  pa_end : pages_start al + pages_n al * page_size al < 2 ^ LONG_BIT;
  pa_bm : bm_ok (bitmap al);
  pa_len : pages_n al <= LONG_BIT * zlen (bitmap al);
  pa_free : free al = free_pages al * page_size al
}.

(** [q] free pages from page [i] on. *)
Definition run (al : page_allocator) (i q : Z) : Prop :=
  0 <= i /\ i + q <= pages_n al /\ forall j, i <= j < i + q -> bm_bit (bitmap al) j = false.

(** The pages of [i .. i+n) get the state [v], the others keep theirs. *)
Definition painted (bm bm' : list Z) (i n : Z) (v : bool) : Prop :=
  forall j, 0 <= j -> bm_bit bm' j = if (i <=? j) && (j <? i + n) then v else bm_bit bm j.

Lemma nfree_bounds bm n : 0 <= nfree bm n <= Z.of_nat n.
Proof. induction n as [|n IH]; cbn [nfree]; [lia|]. destruct (bm_bit bm _); cbn; lia. Qed.

Lemma nfree_upd bm bm' i v n :
  (forall j, 0 <= j -> bm_bit bm' j = if j =? i then v else bm_bit bm j) -> 0 <= i ->
  nfree bm' n = nfree bm n + (if i <? Z.of_nat n then b2z (bm_bit bm i) - b2z v else 0).
Proof.
  intros H Hi. induction n as [|n IH]; cbn [nfree]; [zbool; lia|].
  rewrite IH, H by lia. zbool; subst; try lia.
Qed.

Lemma set_bits_ok n : forall i bm N,
  bm_ok bm -> 0 <= i -> i + Z.of_nat n <= LONG_BIT * zlen bm -> i + Z.of_nat n <= Z.of_nat N ->
  (forall j, i <= j < i + Z.of_nat n -> bm_bit bm j = false) ->
  exists bm', set_bits n i bm = Some bm' /\ bm_ok bm' /\ zlen bm' = zlen bm /\
    painted bm bm' i (Z.of_nat n) true /\ nfree bm' N = nfree bm N - Z.of_nat n.
Proof.
  induction n as [|n IH]; intros i bm N Hok Hi Hlen HN Hc.
  { exists bm. split_and!; try done; [|lia]. intros j Hj. zbool; cbn; lia || done. }
  cbn [set_bits]. destruct (bitmap_set_bit_spec bm i Hok) as (bm1 & -> & Hok1 & Hl1 & Hb1); [lia|].
  cbn [mbind option_bind].
  destruct (IH (i + 1) bm1 N) as (bm' & -> & Hok' & Hl' & Hb' & Hn'); try done; try lia.
  { intros j Hj. rewrite Hb1 by lia. destruct (Z.eqb_spec j i); [lia|]. apply Hc. lia. }
  exists bm'. split_and!; try done; [lia|..].
  - intros j Hj. rewrite Hb', Hb1 by done. zbool; cbn; lia || done.
  - rewrite Hn', (nfree_upd bm bm1 i true) by done. rewrite Hc by lia.
    destruct (Z.ltb_spec i (Z.of_nat N)); cbn; lia.
Qed.

Lemma clear_bits_ok n : forall i bm c N,
  bm_ok bm -> 0 <= i -> i + Z.of_nat n <= LONG_BIT * zlen bm -> i + Z.of_nat n <= Z.of_nat N ->
  0 <= c -> c + Z.of_nat n < 2 ^ 31 ->
  exists bm' k, clear_bits n i bm c = Some (bm', c + k) /\ bm_ok bm' /\ zlen bm' = zlen bm /\
    painted bm bm' i (Z.of_nat n) false /\ nfree bm' N = nfree bm N + k /\ 0 <= k <= Z.of_nat n.
Proof.
  induction n as [|n IH]; intros i bm c N Hok Hi Hlen HN Hc Hcn.
  { exists bm, 0. rewrite Z.add_0_r. split_and!; try done; try lia. intros j Hj. zbool; cbn; lia || done. }
  cbn [clear_bits]. rewrite bitmap_test_bit_spec by lia. cbn [mbind option_bind].
  destruct (bm_bit bm i) eqn:Hbi; cbn [b2z negb Z.eqb].
  - destruct (bitmap_clear_bit_spec bm i Hok) as (bm1 & -> & Hok1 & Hl1 & Hb1); [lia|].
    cbn [mbind option_bind]. rewrite s32_small by lia.
    destruct (IH (i + 1) bm1 (c + 1) N) as (bm' & k & -> & Hok' & Hl' & Hb' & Hn' & Hk); try done; try lia.
    exists bm', (k + 1). split_and!; try done; try lia; [do 2 f_equal; lia|..].
    + intros j Hj. rewrite Hb', Hb1 by done. zbool; cbn; lia || done.
    + rewrite Hn', (nfree_upd bm bm1 i false) by done. rewrite Hbi.
      destruct (Z.ltb_spec i (Z.of_nat N)); cbn; lia.
  - destruct (IH (i + 1) bm c N) as (bm' & k & -> & Hok' & Hl' & Hb' & Hn' & Hk); try done; try lia.
    exists bm', k. split_and!; try done; try lia. intros j Hj. rewrite Hb' by done.
    destruct (decide (j = i)) as [->|]; [rewrite Hbi|]; zbool; cbn; lia || done.
Qed.

Lemma reserve_loop_ok n : forall i bm c N,
  bm_ok bm -> 0 <= i -> i + Z.of_nat n <= LONG_BIT * zlen bm -> i + Z.of_nat n <= Z.of_nat N ->
  0 <= c -> c + Z.of_nat n < 2 ^ 31 -> i + Z.of_nat n < 2 ^ 32 ->
  exists bm' k, reserve_loop n i bm c = Some (bm', c + k) /\ bm_ok bm' /\ zlen bm' = zlen bm /\
    painted bm bm' i (Z.of_nat n) true /\ nfree bm' N = nfree bm N - k /\ 0 <= k <= Z.of_nat n.
Proof.
  induction n as [|n IH]; intros i bm c N Hok Hi Hlen HN Hc Hcn Hi32.
  { exists bm, 0. rewrite Z.add_0_r. split_and!; try done; try lia. intros j Hj. zbool; cbn; lia || done. }
  cbn [reserve_loop]. rewrite wrap_small by lia. rewrite bitmap_test_bit_spec by lia. cbn [mbind option_bind].
  destruct (bm_bit bm i) eqn:Hbi; cbn [b2z negb Z.eqb].
  - destruct (IH (i + 1) bm c N) as (bm' & k & -> & Hok' & Hl' & Hb' & Hn' & Hk); try done; try lia.
    exists bm', k. split_and!; try done; try lia. intros j Hj. rewrite Hb' by done.
    destruct (decide (j = i)) as [->|]; [rewrite Hbi|]; zbool; cbn; lia || done.
  - destruct (bitmap_set_bit_spec bm i Hok) as (bm1 & -> & Hok1 & Hl1 & Hb1); [lia|].
    cbn [mbind option_bind]. rewrite ul_32 by lia.
    destruct (IH (i + 1) bm1 (c + 1) N) as (bm' & k & -> & Hok' & Hl' & Hb' & Hn' & Hk); try done; try lia.
    exists bm', (k + 1). split_and!; try done; try lia; [do 2 f_equal; lia|..].
    + intros j Hj. rewrite Hb', Hb1 by done. zbool; cbn; lia || done.
    + rewrite Hn', (nfree_upd bm bm1 i true) by done. rewrite Hbi.
      destruct (Z.ltb_spec i (Z.of_nat N)); cbn; lia.
Qed.

(** * The search *)

Lemma page_none_big al : pa_ok al -> 2 ^ 32 <= PAGE_NONE + 1.
Proof.
  intros _. unfold PAGE_NONE, ul, wrap. pose proof long_bit_ge_32.
  assert (2 ^ 32 <= 2 ^ LONG_BIT) by (apply Z.pow_le_mono_r; lia).
  replace (-1 mod 2 ^ LONG_BIT) with (2 ^ LONG_BIT - 1); [lia|]. apply (Zmod_unique _ _ (-1)); lia.
Qed.

(** The next free page, or none. *)
Lemma first_free_ok al p :
  pa_ok al -> 0 <= p < 2 ^ 32 ->
  exists r, search_first_free al p = Some r /\
    (r = PAGE_NONE /\ (forall j, p <= j < pages_n al -> bm_bit (bitmap al) j = true) \/
     p <= r < pages_n al /\ bm_bit (bitmap al) r = false /\
     forall j, p <= j < r -> bm_bit (bitmap al) j = true).
Proof.
  intros Hok Hp. destruct Hok as [_ Hn _ _ Hbm Hlen _]. unfold search_first_free. rewrite Z.geb_leb.
  destruct (Z.leb_spec (pages_n al) p); [exists PAGE_NONE; split; [done|]; left; split; [done|lia]|].
  rewrite wrap_small by lia.
  destruct (bitmap_find_first (bitmap al) (pages_n al) p true) as (r & Hr & Hf1 & Hf2); [done|lia|lia|done|].
  unfold bitmap_find_zero_bit. rewrite Hr. cbn [mbind option_bind]. eexists. split; [done|].
  destruct (Z.eqb_spec r (pages_n al)) as [->|Hne]; cbn [negb].
  - left. split; [done|]. intros j Hj. apply Hf2; lia.
  - right. destruct Hf1 as [?|[Hr1 Hr2]]; [done|]. split_and!; try lia; [done|]. intros j Hj. apply Hf2; lia.
Qed.

(** The length of the run from a free page, cut off at [q]. *)
Lemma check_n_ok al p q :
  pa_ok al -> 0 <= p < pages_n al -> bm_bit (bitmap al) p = false -> 0 < q <= pages_n al ->
  exists k, check_n_free al p q = Some k /\ 1 <= k <= q /\ p + k <= pages_n al /\
    (forall j, p <= j < p + k -> bm_bit (bitmap al) j = false) /\
    (k = q \/ p + k = pages_n al \/ bm_bit (bitmap al) (p + k) = true).
Proof.
  intros Hok Hp Hb Hq. destruct Hok as [_ Hn _ _ Hbm Hlen _]. unfold check_n_free.
  rewrite (wrap_small 32 p), (wrap_small 32 q), (wrap_small 32 (p + q)) by lia.
  rewrite s32_small, (wrap_small 32 (Z.min _ _)) by lia.
  set (nb := Z.min (p + q) (pages_n al)).
  destruct (bitmap_find_first (bitmap al) nb p false) as (r & Hr & Hf1 & Hf2); try done; try lia.
  unfold bitmap_find_bit. rewrite Hr. cbn [mbind option_bind].
  assert (p < r <= nb) as Hrr.
  { destruct Hf1 as [->|[Hr1 Hr2]]; [lia|]. assert (r <> p) by (intros ->; rewrite Hb in Hr2; done). lia. }
  rewrite wrap_small by lia. exists (r - p). split; [done|]. split_and!; try lia.
  - intros j Hj. apply Hf2; lia.
  - replace (p + (r - p)) with r by lia. destruct Hf1 as [->|[_ Hr2]]; [lia|by right; right].
Qed.

Lemma mark_busy_ok al p q :
  pa_ok al -> run al p q -> 0 < q ->
  exists al', mark_n_busy al p q = Some al' /\ pa_ok al' /\ painted (bitmap al) (bitmap al') p q true /\
    pages_start al' = pages_start al /\ pages_n al' = pages_n al /\ page_size al' = page_size al /\
    free_pages al' = free_pages al - q.
Proof.
  intros Hok (Hp & Hpq & Hrun) Hq. destruct Hok as [Hs Hn Hps He Hbm Hlen Hf]. unfold mark_n_busy.
  rewrite (wrap_small 32 p), (wrap_small 32 q), wrap_small by lia.
  destruct (Z.leb_spec (p + q) (pages_n al)); [|lia]. replace (p + q - p) with q by lia.
  destruct (set_bits_ok (Z.to_nat q) p (bitmap al) (Z.to_nat (pages_n al))) as (bm' & -> & Hok' & Hl' & Hpa & Hnf);
    rewrite ?Z2Nat.id in * by lia; try done; try lia.
  cbn [mbind option_bind]. eexists. split; [done|].
  assert (0 <= free_pages al <= pages_n al) as Hfr by (pose proof (nfree_bounds (bitmap al) (Z.to_nat (pages_n al))); unfold free_pages; lia).
  assert (0 <= nfree bm' (Z.to_nat (pages_n al))) as Hge by apply nfree_bounds.
  unfold free_pages in *. cbn [bitmap pages_n set_pages].
  split_and!; try done. split; cbn [bitmap pages_n set_pages pages_start page_size free]; try done; [lia|].
  unfold free_pages. cbn [bitmap pages_n set_pages]. rewrite Hnf, Hf, (ul_small (q * _)) by nia.
  rewrite ul_small by nia. lia.
Qed.

Lemma search_loop_ok q : forall fuel al p,
  pa_ok al -> 0 < q <= pages_n al -> 0 <= p <= pages_n al -> (Z.to_nat (pages_n al - p) < fuel)%nat ->
  (forall i, i < p -> ~ run al i q) ->
  exists r al', search_loop fuel al q p = Some (r, al') /\
    ((r = 0 /\ al' = al /\ forall i, ~ run al i q) \/
     exists i, r = pages_start al + i * page_size al /\ run al i q /\ (forall i', i' < i -> ~ run al i' q) /\
       mark_n_busy al i q = Some al').
Proof.
  induction fuel as [|fuel IH]; intros al p Hok Hq Hp Hf Hno; [lia|]. cbn [search_loop].
  pose proof Hok as [Hs Hn Hps He Hbm Hlen _]. pose proof (page_none_big al Hok) as Hnb.
  destruct (first_free_ok al p Hok) as (r & -> & Hr); [lia|]. cbn [mbind option_bind].
  destruct Hr as [[-> Hr]|(Hr1 & Hr2 & Hr3)].
  { rewrite Z.eqb_refl. exists 0, al. split; [done|]. left. split_and!; try done.
    intros i. destruct (decide (i < p)) as [Hi|Hi]; [by apply Hno|].
    intros (H1 & H2 & H3). specialize (H3 i ltac:(lia)). rewrite Hr in H3 by lia. done. }
  destruct (Z.eqb_spec r PAGE_NONE); [lia|].
  assert (forall i, i < r -> ~ run al i q) as Hno'.
  { intros i Hi (H1 & H2 & H3). destruct (decide (i < p)) as [Hip|Hip]; [by apply (Hno i Hip)|].
    specialize (H3 i ltac:(lia)). rewrite Hr3 in H3 by lia. done. }
  destruct (check_n_ok al r q Hok) as (k & -> & Hk1 & Hk2 & Hk3 & Hk4); try done; [lia|].
  cbn [mbind option_bind]. destruct (Z.eqb_spec q k) as [->|Hqk].
  - assert (run al r k) as Hrun by (split; [lia|done]).
    destruct (mark_busy_ok al r k Hok Hrun) as (al' & Hm & _ & _ & Est & Enn & Eps & _); [lia|].
    rewrite Hm. cbn [mbind option_bind]. eexists _, _. split; [done|]. right. exists r. split_and!; try done.
    unfold page_i2ptr. rewrite Est, Eps, s32_small, (ul_32 r), (ul_small (r * _)), ul_small by nia. done.
  - assert (2 ^ 32 <= 2 ^ LONG_BIT) by (pose proof long_bit_ge_32; apply Z.pow_le_mono_r; lia).
    rewrite ul_small by lia. apply IH; try done; try lia.
    intros i Hi. destruct (decide (i < r)) as [Hir|Hir]; [by apply Hno'|].
    intros (H1 & H2 & H3). destruct Hk4 as [?|[?|Hk4]]; [lia|lia|].
    rewrite H3 in Hk4 by lia. done.
Qed.

Definition same_pages (al al' : page_allocator) : Prop :=
  pages_start al' = pages_start al /\ pages_n al' = pages_n al /\ page_size al' = page_size al.

Lemma ptr2i_ok al i : pa_ok al -> 0 <= i < pages_n al ->
  page_ptr2i al (pages_start al + i * page_size al) = i.
Proof.
  intros [Hs Hn Hps He _ _ _] Hi. unfold page_ptr2i.
  replace (pages_start al + i * page_size al - pages_start al) with (i * page_size al) by lia.
  rewrite ul_small by nia. rewrite Z.div_mul by lia. apply s32_small. lia.
Qed.

Lemma free_ok al i q :
  pa_ok al -> 0 <= i < pages_n al -> 0 <= q -> i + q <= pages_n al ->
  exists al' k, page_free al (pages_start al + i * page_size al) q = Some al' /\ pa_ok al' /\
    same_pages al al' /\ painted (bitmap al) (bitmap al') i q false /\
    free_pages al' = free_pages al + k /\ 0 <= k <= q.
Proof.
  intros Hok Hi Hq Hiq. unfold page_free. rewrite ptr2i_ok by done.
  destruct Hok as [Hs Hn Hps He Hbm Hlen Hf]. unfold mark_n_free.
  rewrite (wrap_small 32 i), (wrap_small 32 q), wrap_small by lia.
  destruct (Z.leb_spec (i + q) (pages_n al)); [|lia]. replace (i + q - i) with q by lia.
  destruct (clear_bits_ok (Z.to_nat q) i (bitmap al) 0 (Z.to_nat (pages_n al)))
    as (bm' & k & -> & Hok' & Hl' & Hpa & Hnf & Hk); rewrite ?Z2Nat.id in * by lia; try done; try lia.
  cbn [mbind option_bind]. eexists _, k. split; [done|].
  pose proof (nfree_bounds bm' (Z.to_nat (pages_n al))) as Hb'.
  pose proof (nfree_bounds (bitmap al) (Z.to_nat (pages_n al))) as Hb.
  split_and!; try done; try lia.
  split; cbn [bitmap pages_n set_pages pages_start page_size free]; try done; [lia|].
  unfold free_pages in *. cbn [bitmap pages_n set_pages]. rewrite Z.add_0_l, Hnf, Hf, (ul_32 k), (ul_small (k * _)) by nia.
  rewrite ul_small by nia. lia.
Qed.

(** * The layout computed by [page_allocator_init] *)

Lemma align_ok x k : 0 <= k < LONG_BIT -> 0 <= x -> x + 2 ^ k <= 2 ^ LONG_BIT ->
  exists d, binalign_bound x (2 ^ k) = 2 ^ k * d /\ x <= 2 ^ k * d < x + 2 ^ k.
Proof.
  intros Hk Hx Hb. assert (0 < 2 ^ k) as Hp by (apply Z.pow_pos_nonneg; lia).
  unfold binalign_bound. rewrite (ul_small (2 ^ k - 1)) by lia. rewrite ul_small by lia.
  exists ((x + (2 ^ k - 1)) / 2 ^ k).
  assert (Z.land (x + (2 ^ k - 1)) (wnot LONG_BIT (2 ^ k - 1)) = 2 ^ k * ((x + (2 ^ k - 1)) / 2 ^ k)) as ->.
  { apply Z.bits_inj'. intros i Hi. rewrite Z.land_spec, wnot_testbit by lia.
    replace (2 ^ k - 1) with (Z.ones k) at 2 by (rewrite Z.ones_equiv; lia).
    rewrite Z.testbit_ones_nonneg by lia. rewrite Z.mul_comm, <- Z.shiftr_div_pow2, <- Z.shiftl_mul_pow2 by lia.
    rewrite Z.shiftl_spec by lia. destruct (Z.ltb_spec i k).
    - rewrite (Z.testbit_neg_r _ (i - k)) by lia. by rewrite !andb_false_r.
    - rewrite Z.shiftr_spec by lia. replace (i - k + k) with i by lia. cbn [negb]. rewrite andb_true_r.
      destruct (Z.ltb_spec i LONG_BIT); [apply andb_true_r|].
      by rewrite (bounded_high_bit LONG_BIT (x + (2 ^ k - 1)) i) by lia. }
  split; [done|]. pose proof (Z.div_mod (x + (2 ^ k - 1)) (2 ^ k) ltac:(lia)).
  pose proof (Z.mod_pos_bound (x + (2 ^ k - 1)) (2 ^ k) Hp). lia.
Qed.

Lemma init_loop_ok need start psz : forall fuel pstart pages,
  0 < pages < 2 ^ 31 -> (Z.to_nat pages < fuel)%nat -> 0 <= start <= pstart -> 0 < psz ->
  pstart + pages * psz < 2 ^ LONG_BIT ->
  exists r, init_loop fuel need start pstart psz pages = Some r /\
    match r with
    | None => True
    | Some (pstart', pages') => exists m, 0 <= m /\ pstart' = pstart + m * psz /\ pages' = pages - m /\
        0 < pages' /\ need <= pstart' - start
    end.
Proof.
  induction fuel as [|fuel IH]; intros pstart pages Hp Hf Hs Hpsz Hb; [lia|]. cbn [init_loop].
  rewrite ul_small by nia. rewrite Z.gtb_ltb. destruct (Z.ltb_spec (pstart - start) need).
  - rewrite wrap_small by lia. destruct (Z.leb_spec (pages - 1) 0); [by exists None|].
    rewrite (ul_small (pstart + psz)) by nia.
    destruct (IH (pstart + psz) (pages - 1)) as (r & -> & Hr); try lia.
    exists r. split; [done|]. destruct r as [[ps' pg']|]; [|done].
    destruct Hr as (m & Hm & -> & -> & H1 & H2). exists (m + 1). split_and!; try lia; nia.
  - eexists. split; [done|]. cbn. exists 0. split_and!; lia.
Qed.

Lemma word_pos : WORD = 4 /\ LONG_BIT = 32 \/ WORD = 8 /\ LONG_BIT = 64.
Proof. unfold WORD. destruct long_bit_ok as [E|E]; rewrite E; [left|right]; done. Qed.

Lemma bitmap_size_ok n : 0 <= n -> n <= LONG_BIT * BITMAP_SIZE n <= n + LONG_BIT - 1 /\ 0 <= BITMAP_SIZE n.
Proof.
  intros Hn. unfold BITMAP_SIZE. pose proof long_bit_ge_32 as HL.
  pose proof (Z.mod_pos_bound (n + LONG_BIT - 1) LONG_BIT long_bit_pos) as Hm.
  assert (LONG_BIT <> 0) as Hnz by lia. pose proof (Z.div_mod (n + LONG_BIT - 1) LONG_BIT Hnz) as Hd.
  set (r := (n + LONG_BIT - 1) mod LONG_BIT) in *. set (q := (n + LONG_BIT - 1) / LONG_BIT) in *.
  clearbody r q. split; [lia|]. nia.
Qed.

Lemma nfree_zero bm n :
  (forall j, 0 <= j < Z.of_nat n -> bm_bit bm j = false) -> nfree bm n = Z.of_nat n.
Proof.
  induction n as [|n IH]; intros H; cbn [nfree]; [done|].
  rewrite IH by (intros; apply H; lia). rewrite H by lia. cbn. lia.
Qed.

(** The bitmap as it is laid down, with the guard bit after the last page. *)
Lemma fresh_bitmap n m : 0 <= n -> n < LONG_BIT * m ->
  exists bm, bitmap_set_bit (replicate (Z.to_nat m) 0) n = Some bm /\ bm_ok bm /\ zlen bm = m /\
    forall j, 0 <= j < n -> bm_bit bm j = false.
Proof.
  intros Hn Hm. pose proof long_bit_ge_32 as HL. assert (0 <= m) by nia.
  assert (zlen (replicate (Z.to_nat m) 0) = m) as Hlen by (unfold zlen; rewrite length_replicate; lia).
  destruct (bitmap_set_bit_spec (replicate (Z.to_nat m) 0) n) as (bm & Hs & Hok & Hl & Hb).
  - apply Forall_replicate. split; [lia|]. apply Z.pow_pos_nonneg; lia.
  - rewrite Hlen. lia.
  - exists bm. rewrite Hl, Hlen. split_and!; try done. intros j Hj. rewrite Hb by lia.
    destruct (Z.eqb_spec j n); [lia|]. unfold bm_bit, znth. destruct (Z.leb_spec 0 (j / LONG_BIT)); [|done].
    destruct (replicate (Z.to_nat m) 0 !! Z.to_nat (j / LONG_BIT)) eqn:E; [|done].
    apply lookup_replicate in E as [-> _]. apply Z.bits_0.
Qed.

Lemma page_alloc_run al q : pa_ok al -> 0 < q ->
  exists r al', page_alloc al q = Some (r, al') /\
    (r = 0 /\ al' = al \/
     exists i, r = pages_start al + i * page_size al /\ run al i q /\ mark_n_busy al i q = Some al').
Proof.
  intros Hok Hq. unfold page_alloc, search_multi_page. rewrite Z.gtb_ltb. pose proof (pa_n _ Hok) as Hn.
  destruct (Z.eqb_spec q 0); [lia|]. destruct (Z.ltb_spec (pages_n al) q); cbn [orb]; [by eexists _, _; eauto|].
  destruct (search_loop_ok q (S (Z.to_nat (pages_n al))) al 0 Hok) as (r & al' & -> & Hr); try lia.
  { intros i Hi (H1 & _). lia. }
  exists r, al'. split; [done|]. destruct Hr as [(-> & -> & _)|(i & -> & Hrun & _ & Hm)]; [by left|right; eauto].
Qed.

Lemma nfree_ext bm bm' n :
  (forall j, 0 <= j -> bm_bit bm' j = bm_bit bm j) -> nfree bm' n = nfree bm n.
Proof. intros H. induction n as [|n IH]; cbn [nfree]; [done|]. by rewrite IH, H by lia. Qed.

Lemma free_same al al' :
  pa_ok al -> pa_ok al' -> pages_n al' = pages_n al -> page_size al' = page_size al ->
  (forall j, 0 <= j -> bm_bit (bitmap al') j = bm_bit (bitmap al) j) -> free al' = free al.
Proof.
  intros Hok Hok' En Es Hb. rewrite (pa_free _ Hok), (pa_free _ Hok'). unfold free_pages.
  by rewrite En, Es, (nfree_ext (bitmap al)).
Qed.

End PageAlloc.

(** The pages of size [p] that the bytes [f, t) touch. *)
Lemma span_ok p f t : 0 < p -> forall j,
  (f / p <= j <-> f < (j + 1) * p) /\ (j < (t + p - 1) / p <-> j * p < t).
Proof.
  intros Hp j. pose proof (Z.div_mod f p ltac:(lia)). pose proof (Z.mod_pos_bound f p Hp).
  pose proof (Z.div_mod (t + p - 1) p ltac:(lia)). pose proof (Z.mod_pos_bound (t + p - 1) p Hp).
  split; split; nia.
Qed.

Lemma page_alloc_ok `{A : arch} `{!ArchOk A} (al : page_allocator) q :
  pa_ok al -> 0 < q ->
  exists r al', page_alloc al q = Some (r, al') /\ pa_ok al' /\ same_pages al al' /\
    ((r = 0 /\ al' = al /\ forall i, ~ run al i q) \/
     exists i, r = pages_start al + i * page_size al /\ run al i q /\ (forall i', i' < i -> ~ run al i' q) /\
       painted (bitmap al) (bitmap al') i q true /\ free al' = free al - q * page_size al).
Proof.
  intros Hok Hq. unfold page_alloc, search_multi_page. rewrite Z.gtb_ltb.
  destruct (Z.eqb_spec q 0); [lia|]. destruct (Z.ltb_spec (pages_n al) q); cbn [orb].
  { exists 0, al. split_and!; try done. left. split_and!; try done. intros i (H1 & H2 & _). lia. }
  pose proof (pa_n _ Hok) as Hn.
  destruct (search_loop_ok q (S (Z.to_nat (pages_n al))) al 0 Hok) as (r & al' & -> & Hr); try lia.
  { intros i Hi (H1 & _). lia. }
  exists r, al'. split; [done|]. destruct Hr as [(-> & -> & Hno)|(i & -> & Hrun & Hmin & Hm)].
  { split_and!; try done. by left. }
  destruct (mark_busy_ok al i q Hok Hrun Hq) as (al2 & Hm2 & Hok2 & Hpa & E1 & E2 & E3 & Hfp).
  rewrite Hm in Hm2. injection Hm2 as <-. split_and!; try done. right. exists i. split_and!; try done.
  rewrite (pa_free _ Hok2), (pa_free _ Hok), E3, Hfp. lia.
Qed.

Lemma sub_pages_ok `{A : arch} k f n psz : 0 <= k <= f -> f <= n -> 0 < psz -> n * psz < 2 ^ LONG_BIT ->
  ul (f * psz - ul (k * psz)) = f * psz - k * psz.
Proof.
  intros Hk Hf Hp Hn. pose proof (Z.mul_nonneg_nonneg k psz ltac:(lia) ltac:(lia)).
  pose proof (Z.mul_le_mono_nonneg_r k f psz ltac:(lia) ltac:(lia)).
  pose proof (Z.mul_le_mono_nonneg_r f n psz ltac:(lia) ltac:(lia)).
  rewrite (ul_small (k * psz)) by lia. apply ul_small. lia.
Qed.

(** * The theorems *)

(** [page_alloc] ends and is first fit: it takes the lowest run of [q] free
    pages, marks exactly those, accounts for them in [free], and gives NULL,
    changing nothing, exactly when there is no such run. *)
Theorem page_alloc_first_fit `{A : arch} `{!ArchOk A} (al : page_allocator) q :
  pa_ok al -> 0 < q ->
  exists r al', page_alloc al q = Some (r, al') /\ pa_ok al' /\ same_pages al al' /\
    ((r = 0 /\ al' = al /\ forall i, ~ run al i q) \/
     exists i, r = pages_start al + i * page_size al /\ run al i q /\ (forall i', i' < i -> ~ run al i' q) /\
       painted (bitmap al) (bitmap al') i q true /\ free al' = free al - q * page_size al).
Proof. apply page_alloc_ok. Qed.

(** C19: freeing what [page_alloc] gave restores every page and the count of
    free bytes; freeing it once more changes no page and no count. *)
Theorem page_alloc_free_roundtrip `{A : arch} `{!ArchOk A} (al al1 : page_allocator) q r :
  pa_ok al -> 0 < q -> page_alloc al q = Some (r, al1) -> r <> 0 ->
  exists al2 al3, page_free al1 r q = Some al2 /\ pa_ok al2 /\ free al2 = free al /\
    (forall j, 0 <= j -> bm_bit (bitmap al2) j = bm_bit (bitmap al) j) /\
    page_free al2 r q = Some al3 /\ free al3 = free al /\
    (forall j, 0 <= j -> bm_bit (bitmap al3) j = bm_bit (bitmap al) j).
Proof.
  intros Hok Hq Ha Hr. destruct (page_alloc_run al q Hok Hq) as (r' & al' & Ha' & Hcase).
  rewrite Ha in Ha'. injection Ha' as <- <-. destruct Hcase as [(-> & _)|(i & -> & Hrun & Hm)]; [done|].
  destruct (mark_busy_ok al i q Hok Hrun Hq) as (al2 & Hm2 & Hok1 & Hp1 & E1 & E2 & E3 & Hf1).
  rewrite Hm in Hm2. injection Hm2 as <-. destruct Hrun as (Hi & Hiq & Hrun).
  destruct (free_ok al1 i q Hok1) as (al2 & k & Hfr2 & Hok2 & (F1 & F2 & F3) & Hp2 & Hf2 & Hk); try lia.
  assert (forall j, 0 <= j -> bm_bit (bitmap al2) j = bm_bit (bitmap al) j) as Hv2.
  { intros j Hj. rewrite Hp2, Hp1 by done. zbool; cbn; try done. symmetry. apply Hrun. lia. }
  destruct (free_ok al2 i q Hok2) as (al3 & k3 & Hfr3 & Hok3 & (G1 & G2 & G3) & Hp3 & Hf3 & Hk3); try lia.
  assert (forall j, 0 <= j -> bm_bit (bitmap al3) j = bm_bit (bitmap al) j) as Hv3.
  { intros j Hj. rewrite Hp3, Hv2 by done. zbool; cbn; try done. symmetry. apply Hrun. lia. }
  rewrite F1, F3 in Hfr3. rewrite E1, E3 in Hfr2, Hfr3. exists al2, al3. split_and!; try done.
  - apply (free_same al); try done; congruence.
  - apply (free_same al); try done; congruence.
Qed.

(** [page_reserve] takes exactly the pages the range touches, whatever
    their state, and reports and accounts for those that were free. *)
Theorem page_reserve_correct `{A : arch} `{!ArchOk A} (al : page_allocator) start len :
  pa_ok al -> pages_start al < 2 ^ LONG_BIT - page_size al * (pages_n al + 1) ->
  0 <= start -> 0 < len -> start + len < 2 ^ LONG_BIT ->
  exists k al', page_reserve al start len = Some (k, al') /\ pa_ok al' /\ same_pages al al' /\
    free al' = free al - k * page_size al /\
    forall j, 0 <= j < pages_n al -> bm_bit (bitmap al') j =
      bool_decide (start < pages_start al + (j + 1) * page_size al /\
                   pages_start al + j * page_size al < start + len) || bm_bit (bitmap al) j.
Proof.
  intros Hok Hb Hs Hl He. pose proof Hok as [Hst Hn Hps Hend Hbm Hlen Hf]. unfold page_reserve.
  rewrite (ul_small (pages_n al * page_size al)), (ul_small (pages_start al + _)), (ul_small (start + len)) by nia.
  set (base := pages_start al) in *. set (psz := page_size al) in *. set (n := pages_n al) in *.
  rewrite Z.geb_leb, Z.gtb_ltb. destruct (Z.leb_spec (start + len) start); [lia|]. cbn [orb].
  destruct ((start + len <=? base) || (base + n * psz <=? start)) eqn:Eout.
  { exists 0, al. split_and!; try done; [lia|]. intros j Hj. rewrite bool_decide_false; [done|].
    apply orb_true_iff in Eout as [E%Z.leb_le|E%Z.leb_le]; nia. }
  apply orb_false_iff in Eout as [E1%Z.leb_gt E2%Z.leb_gt].
  set (from := if start <? base then base else start).
  set (to := if base + n * psz <? start + len then base + n * psz else start + len).
  assert (base <= from < base + n * psz /\ from = Z.max base start) as [Hfrom Hfm]
    by (unfold from; destruct (Z.ltb_spec start base); lia).
  assert (from < to <= base + n * psz /\ to = Z.min (base + n * psz) (start + len)) as [Hto Htm]
    by (unfold to, from; destruct (Z.ltb_spec (base + n * psz) (start + len)), (Z.ltb_spec start base); lia).
  clearbody from to. rewrite (ul_small (to - base)), (ul_small (_ + psz - 1)), (ul_small (from - base)) by nia.
  pose proof (span_ok psz (from - base) (to - base) Hps) as Hspan.
  set (first := (from - base) / psz) in *. set (last := (to - base + psz - 1) / psz) in *.
  assert (0 <= first) as H0 by (apply Z.div_pos; lia).
  assert (first < last) as Hfl 
    by (apply Hspan; pose proof (Z.mul_div_le (from - base) psz Hps); unfold first; lia).
  assert (last <= n) as Hln.
  { destruct (decide (last <= n)); [done|]. exfalso. assert (n * psz < to - base) by (apply Hspan; lia). lia. }
  clearbody first last.
  destruct (reserve_loop_ok (Z.to_nat (last - first)) first (bitmap al) 0 (Z.to_nat n))
    as (bm' & k & -> & Hok' & Hl' & Hpa & Hnf & Hk); rewrite ?Z2Nat.id in * by lia; try done; try lia.
  cbn [mbind option_bind]. rewrite Z.add_0_l.
  pose proof (nfree_bounds bm' (Z.to_nat n)) as Hb'. pose proof (nfree_bounds (bitmap al) (Z.to_nat n)) as Hb0.
  assert (ul (free al - ul (k * psz)) = free al - k * psz) as Hfree.
  { unfold free_pages in Hf. fold n psz in Hf. rewrite Hf. apply (sub_pages_ok _ _ n); lia. }
  eexists k, _. split; [done|]. split_and!; try done.
  - split; cbn [bitmap pages_n set_pages pages_start page_size free]; try done; [fold n; lia|].
    fold psz. rewrite Hfree, Hf. unfold free_pages. cbn [bitmap pages_n set_pages]. fold n psz. rewrite Hnf. lia.
  - intros j Hj. cbn [bitmap set_pages]. rewrite Hpa by lia. replace (first + (last - first)) with last by lia.
    specialize (Hspan j). pose proof (Z.mul_le_mono_nonneg_r (j + 1) n psz ltac:(lia) ltac:(lia)) as Hjn.
    case_bool_decide as Hd; cbn [orb]; fold base psz in Hd; zbool; cbn [andb]; try done; exfalso; lia.
Qed.

(** [page_allocator_init] ends, and when it lays an allocator down, all its
    pages are free and aligned, they lie in the memory given, after the header
    and the bitmap, and the bitmap has a bit for each of them. *)
Theorem page_init_layout `{A : arch} `{!ArchOk A} start len k :
  0 < start -> 0 <= k < LONG_BIT - 1 -> 0 < len -> start + len + 16 + 2 ^ k + HEADER < 2 ^ LONG_BIT ->
  len < 2 ^ k * (2 ^ 31 - 1) ->
  exists r, page_allocator_init start len (2 ^ k) = Some r /\
    match r with
    | None => True
    | Some (hdr, al) => pa_ok al /\ free_pages al = pages_n al /\ page_size al = 2 ^ k /\
        (2 ^ k | pages_start al) /\ start <= hdr /\
        hdr + HEADER + bitmap_len al <= pages_start al /\ zlen (bitmap al) * WORD = bitmap_len al /\
        pages_start al + pages_n al * 2 ^ k <= start + len
    end.
Proof.
  intros Hs Hk Hl Hb Hlen. assert (0 < 2 ^ k) as Hp by (apply Z.pow_pos_nonneg; lia).
  pose proof word_pos as HW. assert (0 < HEADER <= 48) as HH by (unfold HEADER; lia).
  unfold page_allocator_init. rewrite (ul_small (2 ^ k + HEADER)), (ul_small (start + len)) by lia.
  destruct (Z.ltb_spec len (2 ^ k + HEADER)); [by exists None|].
  destruct (align_ok start 4) as (d & Ed & Hd); [lia|lia|change (2 ^ 4) with 16; lia|].
  change (2 ^ 4) with 16 in *. rewrite Ed. set (hdr := 16 * d) in *. destruct (align_ok hdr k) as (e & -> & He); [lia|lia|lia|].
  set (ps := 2 ^ k * e) in *. rewrite Z.geb_leb. destruct (Z.leb_spec (start + len) ps); [by exists None|].
  rewrite (ul_small (start + len - ps)) by lia.
  pose proof (Z.mul_div_le (start + len - ps) (2 ^ k) Hp) as Hdiv.
  assert (0 <= (start + len - ps) / 2 ^ k < 2 ^ 31 - 1) as Hpg
    by (split; [apply Z.div_pos; lia|apply Z.div_lt_upper_bound; lia]).
  set (pages := (start + len - ps) / 2 ^ k) in *. rewrite wrap_small by lia.
  destruct (Z.eqb_spec pages 0); [by exists None|]. rewrite wrap_small by lia.
  destruct (bitmap_size_ok (pages + 1)) as [Hbs1 Hbs2]; [lia|]. set (words := BITMAP_SIZE (pages + 1)) in *.
  assert (8 * (WORD * words) <= pages + 64 /\ 0 <= WORD * words) as Hwb by (destruct HW as [[-> E]|[-> E]]; rewrite E in *; lia).
  assert (2 ^ 32 <= 2 ^ LONG_BIT) as H32 by (apply Z.pow_le_mono_r; lia).
  rewrite (ul_small (WORD * words)) by lia. rewrite (ul_small (HEADER + _)) by lia.
  destruct (init_loop_ok (HEADER + WORD * words) hdr (2 ^ k) (S (Z.to_nat pages)) ps pages)
    as (r & -> & Hr); try lia; cbn [mbind option_bind].
  destruct r as [[ps' pages']|]; [|by exists None]. destruct Hr as (m & Hm & -> & -> & Hpos & Hneed).
  rewrite (Z.mul_comm WORD), Z.div_mul by lia.
  destruct (fresh_bitmap (pages - m) words) as (bm & -> & Hbm & Hzl & Hbit); [lia|lia|].
  cbn [mbind option_bind]. eexists. split; [done|]. cbn beta iota.
  assert (free_pages (PageAllocator (ps + m * 2 ^ k) (pages - m) (2 ^ k) (ul ((pages - m) * 2 ^ k)) (words * WORD) bm)
          = pages - m) as Hfp.
  { unfold free_pages. cbn [bitmap pages_n]. rewrite nfree_zero; [lia|]. intros j Hj. apply Hbit. lia. }
  assert (0 < (pages - m) * 2 ^ k /\ (pages - m) * 2 ^ k = pages * 2 ^ k - m * 2 ^ k /\ 0 <= m * 2 ^ k) as Hmul
    by (split_and!; [apply Z.mul_pos_pos; lia|lia|apply Z.mul_nonneg_nonneg; lia]).
  split; [split; cbn [pages_start pages_n page_size bitmap_len bitmap free]|cbn [pages_start pages_n page_size bitmap_len bitmap]].
  - lia.
  - lia.
  - exact Hp.
  - lia.
  - exact Hbm.
  - rewrite Hzl. lia.
  - rewrite Hfp. apply ul_small. lia.
  - split; [exact Hfp|]. split; [reflexivity|]. split; [exists (e + m); unfold ps; lia|].
    split; [lia|]. split; [lia|]. split; [by rewrite Hzl|lia].
Qed.

(** * Witnesses *)

(** An 8-page allocator laid down in a region of nine pages. *)
Definition demo_pa : page_allocator :=
  match page_allocator_init (A := lp64) 4096 36864 4096 with
  | Some (Some (_, al)) => al
  | _ => PageAllocator 0 0 0 0 0 []
  end.

Lemma page_init_layout_witness :
  exists r, page_allocator_init (A := lp64) 4096 36864 (2 ^ 12) = Some r /\
    match r with
    | None => True
    | Some (hdr, al) => pa_ok (A := lp64) al /\ free_pages (A := lp64) al = pages_n al /\ page_size al = 2 ^ 12 /\
        (2 ^ 12 | pages_start al) /\ 4096 <= hdr /\
        hdr + HEADER (A := lp64) + bitmap_len al <= pages_start al /\
        zlen (bitmap al) * WORD (A := lp64) = bitmap_len al /\
        pages_start al + pages_n al * 2 ^ 12 <= 4096 + 36864
    end.
Proof.
  apply (page_init_layout (A := lp64) 4096 36864 12).
  - lia.
  - cbn; lia.
  - lia.
  - vm_compute; reflexivity.
  - vm_compute; reflexivity.
Defined.

Lemma demo_pa_ok : pa_ok (A := lp64) demo_pa.
Proof.
  assert (demo_pa = PageAllocator 8192 8 4096 32768 8 [256]) as -> by reflexivity.
  split; cbn [pages_start pages_n page_size free bitmap LONG_BIT lp64]; try lia.
  - repeat constructor; lia.
  - discriminate.
  - reflexivity.
Qed.

Lemma page_alloc_first_fit_witness :
  exists r al', page_alloc (A := lp64) demo_pa 3 = Some (r, al') /\ pa_ok (A := lp64) al' /\ same_pages demo_pa al' /\
    ((r = 0 /\ al' = demo_pa /\ forall i, ~ run (A := lp64) demo_pa i 3) \/
     exists i, r = pages_start demo_pa + i * page_size demo_pa /\ run (A := lp64) demo_pa i 3 /\
       (forall i', i' < i -> ~ run (A := lp64) demo_pa i' 3) /\
       painted (A := lp64) (bitmap demo_pa) (bitmap al') i 3 true /\
       free al' = free demo_pa - 3 * page_size demo_pa).
Proof. apply (page_alloc_first_fit (A := lp64) demo_pa 3 demo_pa_ok). lia. Defined.

Definition demo_pa1 : page_allocator :=
  match page_alloc (A := lp64) demo_pa 3 with Some (_, al) => al | None => demo_pa end.

Lemma page_alloc_free_roundtrip_witness :
  exists al2 al3, page_free (A := lp64) demo_pa1 8192 3 = Some al2 /\ pa_ok (A := lp64) al2 /\ free al2 = free demo_pa /\
    (forall j, 0 <= j -> bm_bit (A := lp64) (bitmap al2) j = bm_bit (A := lp64) (bitmap demo_pa) j) /\
    page_free (A := lp64) al2 8192 3 = Some al3 /\ free al3 = free demo_pa /\
    (forall j, 0 <= j -> bm_bit (A := lp64) (bitmap al3) j = bm_bit (A := lp64) (bitmap demo_pa) j).
Proof.
  apply (page_alloc_free_roundtrip (A := lp64) demo_pa demo_pa1 3 8192 demo_pa_ok).
  - lia.
  - vm_compute; reflexivity.
  - lia.
Defined.

Lemma page_reserve_correct_witness :
  exists k al', page_reserve (A := lp64) demo_pa 9000 5000 = Some (k, al') /\ pa_ok (A := lp64) al' /\
    same_pages demo_pa al' /\ free al' = free demo_pa - k * page_size demo_pa /\
    forall j, 0 <= j < pages_n demo_pa -> bm_bit (A := lp64) (bitmap al') j =
      bool_decide (9000 < pages_start demo_pa + (j + 1) * page_size demo_pa /\
                   pages_start demo_pa + j * page_size demo_pa < 9000 + 5000)
      || bm_bit (A := lp64) (bitmap demo_pa) j.
Proof.
  apply (page_reserve_correct (A := lp64) demo_pa 9000 5000 demo_pa_ok).
  - vm_compute; reflexivity.
  - lia.
  - lia.
  - cbn; lia.
Defined.
