(* ===== verification/HeapBm.v ===== *)
(** The heap of a segment, boundary markers, [src/mem/heap/heap_bm.c].

    Memory is a map from the addresses of words to their contents; reading or
    writing an address that is not in it fails.  A block starts with a word
    that holds its size, with the busy bit of the block in bit 0 and that of
    the block before it in bit 1; a free block has the links of the free list
    in the two words after that, and its size again in its last word.  The
    heap starts with its descriptor: the head of the free list, and the count
    of the objects allocated, kept here beside the memory.  [sched_lock] makes
    every operation one step.  [afterfree] is one of the two files of the
    build, [src/mem/heap/heap_afterfree.c] or [heap_afterfree_random.c]. *)
From S2P Require Import Prelude PageAlloc.

Local Open Scope Z_scope.
Local Open Scope embox_scope.

Abbreviation memory := (gmap Z Z).

Definition load (m : memory) (a : Z) : option Z := m !! a.
Definition store (a v : Z) (m : memory) : option memory :=
  match m !! a with Some _ => Some (<[a := v]> m) | None => None end.

Record heap_st := HeapSt { mem : memory; count : Z; bm_free_not_busy : Z }.

Section HeapBm.
Context `{A : arch}.

(** [sizeof(size_t)], and the sizes of [struct free_block] and
    [struct heap_desc]: three words each, [count] padded to a word. *)
Abbreviation W := (WORD (A := A)).
Definition FREE_BLOCK : Z := 3 * W.
Definition HEAP_DESC : Z := 3 * W.

Definition get_clear_size (size : Z) : Z := Z.land size (wnot LONG_BIT 3).
Definition get_flags (size : Z) : Z := Z.land size 3.

(** The addresses of [&block->link], of [link->prev] and of [link->next]. *)
Definition link_of (block : Z) : Z := block + W.
Definition prev_at (link : Z) : Z := link.
Definition next_at (link : Z) : Z := link + W.

Definition heap_get_free_blocks (heap : Z) : Z := heap.

Definition block_is_busy (block : Z) (m : memory) : option bool :=
  s ← load m block; Some (negb (Z.land s 1 =? 0)).
Definition prev_is_busy (block : Z) (m : memory) : option bool :=
  s ← load m block; Some (negb (Z.land s 2 =? 0)).

Definition block_link (free_blocks_list block : Z) (m : memory) : option memory :=
  n ← load m (next_at free_blocks_list);
  m ← store (next_at (link_of block)) n m;
  m ← store (prev_at (link_of block)) free_blocks_list m;
  n ← load m (next_at free_blocks_list);
  m ← store (prev_at n) (link_of block) m;
  store (next_at free_blocks_list) (link_of block) m.

Definition block_unlink (block : Z) (m : memory) : option memory :=
  n ← load m (next_at (link_of block));
  p ← load m (prev_at (link_of block));
  m ← store (prev_at n) p m;
  n ← load m (next_at (link_of block));
  p ← load m (prev_at (link_of block));
  store (next_at p) n m.

Definition mark_block (block : Z) (m : memory) : option memory :=
  s ← load m block; store block (Z.lor s 1) m.
Definition clear_block (block : Z) (m : memory) : option memory :=
  s ← load m block; store block (Z.land s (wnot LONG_BIT 1)) m.
Definition mark_prev (block : Z) (m : memory) : option memory :=
  s ← load m block; store block (Z.lor s 2) m.

Definition mark_next (block : Z) (m : memory) : option memory :=
  s ← load m block;
  let nblock := block + get_clear_size s in
  s ← load m nblock; store nblock (Z.lor s 2) m.

Definition clear_next (block : Z) (m : memory) : option memory :=
  s ← load m block;
  let nblock := block + get_clear_size s in
  s ← load m nblock; store nblock (Z.land s (wnot LONG_BIT 2)) m.

Definition set_end_size (block : Z) (m : memory) : option memory :=
  s ← load m block;
  let size := get_clear_size s in
  store (block + size - W) size m.

Definition concatenate_prev (block : Z) (m : memory) : option (Z * memory) :=
  pb ← prev_is_busy block m;
  if (pb : bool) then Some (block, m)
  else
    prev_size ← load m (block - W);
    let pblock := block - get_clear_size prev_size in
    s ← load m block;
    let new_size := ul (get_clear_size prev_size + get_clear_size s) in
    m ← store pblock (Z.lor new_size 2) m;
    m ← set_end_size pblock m;
    m ← block_unlink block m;
    Some (pblock, m).

Definition concatenate_next (block : Z) (m : memory) : option (Z * memory) :=
  s ← load m block;
  let size := get_clear_size s in
  let nblock := block + size in
  b ← block_is_busy nblock m;
  if (b : bool) then Some (block, m)
  else
    ns ← load m nblock;
    let size := ul (size + get_clear_size ns) in
    m ← store block (Z.lor size (get_flags s)) m;
    m ← set_end_size block m;
    m ← block_unlink nblock m;
    Some (block, m).

Definition block_set_size (block size : Z) (m : memory) : option memory :=
  s ← load m block; store block (Z.lor (get_flags s) size) m.

(** [binalign_type(offset, struct free_block)]: the alignment of a word. *)
Definition cut (free_blocks_list block size : Z) (m : memory) : option (Z * memory) :=
  let offset := ul (size + W) in
  let offset := binalign_bound offset W in
  let nblock := block + offset in
  m ← block_unlink block m;
  m ← block_link free_blocks_list nblock m;
  s ← load m block;
  m ← store nblock (ul (get_clear_size s - offset)) m;
  m ← set_end_size nblock m;
  m ← block_set_size block offset m;
  m ← mark_block block m;
  m ← mark_prev nblock m;
  Some (block, m).

(** 0 is NULL. *)
Definition block_align (free_blocks_list block boundary size : Z) (m : memory) : option (Z * memory) :=
  s ← load m block;
  if Z.land (ul (block + W)) (ul (boundary - 1)) =? 0 then
    Some (if ul (get_clear_size s - W) >=? size then block else 0, m)
  else
    let aligned_addr := binalign_bound (ul (block + FREE_BLOCK + 2 * W)) boundary in
    if aligned_addr >? ul (block + get_clear_size s) then Some (0, m)
    else
      let aligned_block := ul (aligned_addr - W) in
      let aligned_block_size := ul (get_clear_size s - ul (aligned_block - block)) in
      if aligned_block_size <? ul (size + W) then Some (0, m)
      else
        m ← store aligned_block aligned_block_size m;
        m ← set_end_size aligned_block m;
        m ← block_link free_blocks_list aligned_block m;
        m ← block_set_size block (ul (aligned_block - block)) m;
        m ← set_end_size block m;
        Some (aligned_block, m).

(** The end of [bm_memalign] once a block has been chosen. *)
Definition take_block (heap block size : Z) (m : memory) : option (Z * memory) :=
  s ← load m block;
  if ul (size + 2 * W) <? ul (get_clear_size s - FREE_BLOCK) then cut heap block size m
  else
    m ← block_unlink block m;
    m ← mark_block block m;
    m ← mark_next block m;
    Some (block, m).

(** The body of the [for] loop; [None] is [continue]. *)
Definition try_block (heap boundary size block : Z) (m : memory) : option (option Z * memory) :=
  s ← load m block;
  if ul (size + W) >? get_clear_size s then Some (None, m)
  else if negb (boundary =? 0) then
    '(aligned_block, m) ← block_align heap block boundary size m;
    if aligned_block =? 0 then Some (None, m)
    else
      '(block, m) ← take_block heap aligned_block size m;
      Some (Some (block + W), m)
  else
    '(block, m) ← take_block heap block size m;
    Some (Some (block + W), m).

(** The [for] loop over the free list, from [link] on. *)
Fixpoint memalign_loop (fuel : nat) (heap boundary size link : Z) (m : memory)
  : option (option Z * memory) :=
  match fuel with
  | O => None
  | S fuel =>
    if link =? heap_get_free_blocks heap then Some (None, m)
    else
      let block := link - W in
      '(ret_addr, m) ← try_block heap boundary size block m;
      match ret_addr with
      | Some ret_addr => Some (Some ret_addr, m)
      | None => link ← load m (next_at link); memalign_loop fuel heap boundary size link m
      end
  end.

Definition round_size (size : Z) : Z :=
  let size := if size <? FREE_BLOCK then FREE_BLOCK else size in
  Z.land (ul (size + 15)) (wnot LONG_BIT 15).

(** The free list has fewer elements than the memory has words. *)
Definition bm_memalign (heap boundary size : Z) (st : heap_st) : option (Z * heap_st) :=
  if size <=? 0 then Some (0, st)
  else
    let size := round_size size in
    link ← load (mem st) (next_at (heap_get_free_blocks heap));
    '(ret_addr, m) ← memalign_loop (S (base.size (mem st))) heap boundary size link (mem st);
    match ret_addr with
    | None => Some (0, HeapSt m (count st) (bm_free_not_busy st))
    | Some ret_addr => Some (ret_addr, HeapSt m (s32 (count st + 1)) (bm_free_not_busy st))
    end.

Definition afterfree (ptr size : Z) (m : memory) : option memory := Some m.

(** [memset] over whole words: [n] words of the byte [c] repeated. *)
Fixpoint word_fill (k : nat) (c : Z) : Z :=
  match k with O => 0 | S k => c + 256 * word_fill k c end.
Fixpoint memset_words (n : nat) (ptr w : Z) (m : memory) : option memory :=
  match n with O => Some m | S n => m ← store ptr w m; memset_words n (ptr + W) w m end.
Definition afterfree_random (random : Z) (ptr size : Z) (m : memory) : option memory :=
  memset_words (Z.to_nat (size / W)) ptr (word_fill (Z.to_nat W) (u8 random)) m.

Definition bm_free (afterfree : Z -> Z -> memory -> option memory) (heap ptr : Z) (st : heap_st) : option heap_st :=
  assert! negb (ptr =? 0) ;;
  let block := ptr - W in
  b ← block_is_busy block (mem st);
  if negb b then Some (HeapSt (mem st) (count st) ptr)
  else
    s ← load (mem st) block;
    m ← afterfree ptr (ul (get_clear_size s - W)) (mem st);
    m ← block_link heap block m;
    m ← set_end_size block m;
    m ← clear_block block m;
    m ← clear_next block m;
    '(block, m) ← concatenate_prev block m;
    '(_, m) ← concatenate_next block m;
    Some (HeapSt m (s32 (count st - 1)) (bm_free_not_busy st)).

Definition bm_init (heap size not_busy : Z) (m : memory) : option heap_st :=
  m ← store (next_at (heap_get_free_blocks heap)) (heap_get_free_blocks heap) m;
  m ← store (prev_at (heap_get_free_blocks heap)) (heap_get_free_blocks heap) m;
  let block := heap + HEAP_DESC in
  let actual_free_mem := ul (size - (HEAP_DESC + W)) in
  m ← store block actual_free_mem m;
  m ← set_end_size block m;
  m ← mark_prev block m;
  m ← block_link heap block m;
  s ← load m block;
  m ← mark_block (block + get_clear_size s) m;
  Some (HeapSt m 0 not_busy).

Definition bm_heap_is_empty (st : heap_st) : bool := count st =? 0.

(** * The abstract heap: the blocks in order of address, as sizes and busy
      flags, and the addresses of the free ones in the order of the list *)

Context `{!ArchOk A}.

Abbreviation block := (Z * bool)%type.

Definition word_ok (a : Z) : Prop := (W | a).
Definition size_ok (s : Z) : Prop := 4 * W <= s /\ (W | s).

(** The word at the start of a block. *)
Definition header (s : Z) (busy pbusy : bool) : Z := s + b2z busy + 2 * b2z pbusy.

Fixpoint total (bs : list block) : Z :=
  match bs with [] => 0 | (s, _) :: bs => s + total bs end.

Fixpoint frees (a : Z) (bs : list block) : list Z :=
  match bs with
  | [] => []
  | (s, b) :: bs => (if (b : bool) then [] else [a]) ++ frees (a + s) bs
  end.

(** The busy flag of the last block of [bs], [pb] if there is none. *)
Fixpoint last_busy (pb : bool) (bs : list block) : bool :=
  match bs with [] => pb | (_, b) :: bs => last_busy b bs end.

(** The words that describe the blocks from [a] on. *)
Fixpoint layout (a : Z) (pb : bool) (bs : list block) (m : memory) : Prop :=
  match bs with
  | [] => True
  | (s, b) :: bs => size_ok s /\ m !! a = Some (header s b pb) /\
      (b = false -> m !! (a + s - W) = Some s) /\ layout (a + s) b bs m
  end.

(** Where those words are. *)
Fixpoint marks (a : Z) (bs : list block) : list Z :=
  match bs with
  | [] => []
  | (s, b) :: bs => a :: (if (b : bool) then [] else [a + s - W]) ++ marks (a + s) bs
  end.

(** The word after the last block counts as the header of a busy block. *)
Definition sentinel (top : Z) (m : memory) : Prop :=
  exists v, m !! top = Some v /\ Z.testbit v 0 = true /\ 0 <= v < 2 ^ LONG_BIT.

(** The doubly linked list from the link [x] through [l] to [y]. *)
Fixpoint seg (m : memory) (x : Z) (l : list Z) (y : Z) : Prop :=
  match l with
  | [] => m !! next_at x = Some y /\ m !! prev_at y = Some x
  | b :: l => m !! next_at x = Some (link_of b) /\ m !! prev_at (link_of b) = Some x /\ seg m (link_of b) l y
  end.

Definition links (l : list Z) : list Z := l ≫= (fun b => [prev_at (link_of b); next_at (link_of b)]).

(** No two neighbours are both free. *)
Fixpoint merged (pb : bool) (bs : list block) : Prop :=
  match bs with [] => True | (_, b) :: bs => (pb = false -> b = true) /\ merged b bs end.

(** * The bits of a header *)

Lemma W_cases : W = 4 \/ W = 8.
Proof. destruct word_pos as [[E _]|[E _]]; tauto. Qed.

Lemma size_mod4 s : (W | s) -> exists q, s = 4 * q.
Proof. intros [q ->]. destruct W_cases as [->| ->]; [exists q|exists (2 * q)]; lia. Qed.

Lemma header_testbit s b p i : (W | s) -> 0 <= i ->
  Z.testbit (header s b p) i = if i =? 0 then b else if i =? 1 then p else Z.testbit s i.
Proof.
  intros Hs Hi. destruct (size_mod4 s Hs) as [q ->]. unfold header.
  replace (4 * q + b2z b + 2 * b2z p) with (2 * (2 * q + Z.b2z p) + Z.b2z b)
    by (destruct b, p; cbn; lia).
  destruct (Z.eqb_spec i 0) as [->|Hi0]; [apply Z.testbit_0_r|].
  replace i with (Z.succ (i - 1)) at 1 by lia. rewrite Z.testbit_succ_r by lia.
  destruct (Z.eqb_spec i 1) as [->|Hi1]; [apply Z.testbit_0_r|].
  replace (i - 1) with (Z.succ (i - 2)) by lia. rewrite Z.testbit_succ_r by lia.
  replace (4 * q) with (2 * (2 * q)) by lia. replace i with (Z.succ (Z.succ (i - 2))) at 2 by lia.
  by rewrite !Z.double_bits_succ.
Qed.

Lemma size_low s i : (W | s) -> 0 <= i < 2 -> Z.testbit s i = false.
Proof.
  intros Hs Hi. assert (s = header s false false) as -> by (unfold header; cbn; lia).
  rewrite header_testbit by (done || lia). zbool; done || lia.
Qed.

(** Equality of words bit by bit: below 2, and above. *)
Lemma word_ext x y : Z.testbit x 0 = Z.testbit y 0 -> Z.testbit x 1 = Z.testbit y 1 ->
  (forall i, 2 <= i -> Z.testbit x i = Z.testbit y i) -> x = y.
Proof.
  intros H0 H1 H2. apply Z.bits_inj'. intros i Hi.
  destruct (decide (i = 0)) as [->|]; [done|]. destruct (decide (i = 1)) as [->|]; [done|]. apply H2. lia.
Qed.

Lemma small_bits c i : 0 <= c < 4 -> 2 <= i -> Z.testbit c i = false.
Proof. intros Hc Hi. apply (bounded_high_bit 2); lia. Qed.

Section Header.
Context (s : Z) (b p : bool) (Hs : (W | s)) (Hr : 0 <= s < 2 ^ LONG_BIT).

Lemma hdr_high i : 2 <= i -> Z.testbit (header s b p) i = Z.testbit s i.
Proof. intros. rewrite header_testbit by (done || lia). zbool; lia || done. Qed.
Lemma hdr_0 : Z.testbit (header s b p) 0 = b.
Proof. by rewrite header_testbit. Qed.
Lemma hdr_1 : Z.testbit (header s b p) 1 = p.
Proof. by rewrite header_testbit. Qed.

Lemma size_high_mask c i : 0 <= c < 4 -> 2 <= i ->
  Z.testbit s i && Z.testbit (wnot LONG_BIT c) i = Z.testbit s i.
Proof.
  intros Hc Hi. pose proof long_bit_pos. rewrite wnot_testbit, (small_bits c i) by (done || lia).
  destruct (Z.ltb_spec i LONG_BIT); cbn; [apply andb_true_r|].
  by rewrite (bounded_high_bit LONG_BIT s i) by lia.
Qed.

Lemma wnot_low c i : 0 <= i < 2 -> Z.testbit (wnot LONG_BIT c) i = negb (Z.testbit c i).
Proof. intros. pose proof long_bit_ge_32. rewrite wnot_testbit by lia. zbool; done || lia. Qed.

Lemma hdr_clear_size : get_clear_size (header s b p) = s.
Proof.
  unfold get_clear_size. apply word_ext.
  - rewrite Z.land_spec, wnot_low, (size_low s) by (done || lia); apply andb_false_r.
  - rewrite Z.land_spec, wnot_low, (size_low s) by (done || lia); apply andb_false_r.
  - intros i Hi. by rewrite Z.land_spec, hdr_high, size_high_mask by (done || lia).
Qed.

Lemma hdr_flags : get_flags (header s b p) = header 0 b p.
Proof.
  assert (W | 0) as H0 by apply Z.divide_0_r.
  unfold get_flags. apply word_ext.
  - rewrite Z.land_spec, hdr_0, header_testbit by done. apply andb_true_r.
  - rewrite Z.land_spec, hdr_1, header_testbit by done. apply andb_true_r.
  - intros i Hi. rewrite Z.land_spec, (small_bits 3), andb_false_r by lia.
    rewrite header_testbit by (done || lia). zbool; try lia. by rewrite Z.bits_0.
Qed.

Lemma hdr_busy : negb (Z.land (header s b p) 1 =? 0) = b.
Proof.
  change 1 with (Z.ones 1). rewrite Z.land_ones by lia. change (2 ^ 1) with 2.
  rewrite <- Z.bit0_mod, hdr_0. by destruct b.
Qed.

Lemma hdr_pbusy : negb (Z.land (header s b p) 2 =? 0) = p.
Proof.
  assert (Z.land (header s b p) 2 = 2 * Z.b2z p) as ->; [|by destruct p].
  apply word_ext.
  - rewrite Z.land_spec, andb_false_r. by rewrite Z.testbit_even_0.
  - rewrite Z.land_spec, hdr_1, andb_true_r. by destruct p.
  - intros i Hi. rewrite Z.land_spec, (small_bits 2), andb_false_r by lia.
    symmetry. apply small_bits; [destruct p; cbn; lia|done].
Qed.

Lemma hdr_set_busy : Z.lor (header s b p) 1 = header s true p.
Proof.
  apply word_ext; [| |intros i Hi]; rewrite Z.lor_spec, !header_testbit by (done || lia).
  - apply orb_true_r.
  - apply orb_false_r.
  - zbool; try lia. by rewrite (small_bits 1), orb_false_r by lia.
Qed.
Lemma hdr_set_pbusy : Z.lor (header s b p) 2 = header s b true.
Proof.
  apply word_ext; [| |intros i Hi]; rewrite Z.lor_spec, !header_testbit by (done || lia).
  - apply orb_false_r.
  - apply orb_true_r.
  - zbool; try lia. by rewrite (small_bits 2), orb_false_r by lia.
Qed.
Lemma hdr_clear_busy : Z.land (header s b p) (wnot LONG_BIT 1) = header s false p.
Proof.
  apply word_ext; [| |intros i Hi]; rewrite Z.land_spec, !header_testbit by (done || lia).
  - rewrite wnot_low by lia. apply andb_false_r.
  - rewrite wnot_low by lia. apply andb_true_r.
  - zbool; try lia. by rewrite size_high_mask by lia.
Qed.
Lemma hdr_clear_pbusy : Z.land (header s b p) (wnot LONG_BIT 2) = header s b false.
Proof.
  apply word_ext; [| |intros i Hi]; rewrite Z.land_spec, !header_testbit by (done || lia).
  - rewrite wnot_low by lia. apply andb_true_r.
  - rewrite wnot_low by lia. apply andb_false_r.
  - zbool; try lia. by rewrite size_high_mask by lia.
Qed.
Lemma hdr_resize : Z.lor s (header 0 b p) = header s b p.
Proof.
  assert (W | 0) as H0 by apply Z.divide_0_r.
  apply word_ext; [| |intros i Hi]; rewrite Z.lor_spec, !header_testbit by (done || lia).
  - by rewrite (size_low s) by (done || lia).
  - by rewrite (size_low s) by (done || lia).
  - zbool; try lia. by rewrite Z.bits_0, orb_false_r.
Qed.

End Header.

End HeapBm.
