(* ===== verification/HeapList.v ===== *)
(** The free list of a boundary-marker heap: linking and unlinking a block are
    insertion at the front and removal in a doubly linked list. *)
From S2P Require Import Prelude PageAlloc HeapBm.

Local Open Scope Z_scope.
Local Open Scope embox_scope.

Section HeapList.
Context `{A : arch}.
Abbreviation W := (WORD (A := A)).

(** * The free list *)

Lemma store_ok (m : memory) a v : is_Some (m !! a) -> store a v m = Some (<[a := v]> m).
Proof. intros [x Hx]. unfold store. by rewrite Hx. Qed.

Lemma insert_mapped (m : memory) a v x : is_Some (m !! x) -> is_Some (<[a := v]> m !! x).
Proof. intros H. destruct (decide (x = a)) as [->|]; [rewrite lookup_insert_eq|rewrite lookup_insert_ne]; eauto. Qed.

(** The last link of the chain from [x] through [l]. *)
Fixpoint lastn (x : Z) (l : list Z) : Z :=
  match l with [] => x | b :: l => lastn (link_of b) l end.

(** The words of the chain before the last [next]. *)
Fixpoint ocells (x : Z) (l : list Z) : list Z :=
  match l with [] => [] | b :: l => next_at x :: prev_at (link_of b) :: ocells (link_of b) l end.

Lemma links_cons b l : links (b :: l) = prev_at (link_of b) :: next_at (link_of b) :: links l.
Proof. done. Qed.

Lemma links_app l1 l2 : links (l1 ++ l2) = links l1 ++ links l2.
Proof. unfold links. by rewrite bind_app. Qed.

Lemma links_elem x l : x ∈ links l <-> exists b, b ∈ l /\ (x = prev_at (link_of b) \/ x = next_at (link_of b)).
Proof.
  unfold links. rewrite list_elem_of_bind. setoid_rewrite elem_of_cons. setoid_rewrite list_elem_of_singleton.
  naive_solver.
Qed.

Lemma seg_app (m : memory) b y l1 l2 : forall x,
  seg m x (l1 ++ b :: l2) y <-> seg m x l1 (link_of b) /\ seg m (link_of b) l2 y.
Proof. induction l1 as [|c l1 IH]; intros x; cbn; [tauto|]. rewrite IH. tauto. Qed.

Lemma seg_last (m : memory) y l : forall x,
  seg m x l y -> m !! next_at (lastn x l) = Some y /\ m !! prev_at y = Some (lastn x l).
Proof. induction l as [|b l IH]; intros x; cbn; [done|]. intros (_ & _ & H). by apply IH. Qed.

Lemma seg_change (m m' : memory) y y' l : forall x,
  seg m x l y -> m' !! next_at (lastn x l) = Some y' -> m' !! prev_at y' = Some (lastn x l) ->
  (forall a, a ∈ ocells x l -> m' !! a = m !! a) -> seg m' x l y'.
Proof.
  induction l as [|b l IH]; intros x; cbn; [done|]. intros (H1 & H2 & H3) Hn Hp Hf. split_and!.
  - rewrite Hf by left. done.
  - rewrite Hf by (right; left). done.
  - apply IH; try done. intros a Ha. apply Hf. by do 2 right.
Qed.

Lemma seg_frame (m m' : memory) y l x :
  seg m x l y -> (forall a, a ∈ next_at x :: prev_at y :: links l -> m' !! a = m !! a) -> seg m' x l y.
Proof.
  revert x. induction l as [|b l IH]; intros x; cbn [seg].
  - intros [H1 H2] Hf. rewrite !Hf by set_solver. done.
  - intros (H1 & H2 & H3) Hf. rewrite links_cons in Hf. split_and!.
    + rewrite Hf; [done|set_solver].
    + rewrite Hf; [done|set_solver].
    + apply IH; [done|]. intros a Ha. apply Hf. set_solver.
Qed.

Lemma ocells_sub x l : forall a, a ∈ ocells x l -> a = next_at x \/ a ∈ links l.
Proof.
  revert x. induction l as [|b l IH]; intros x a; cbn [ocells]; [by intros ?%elem_of_nil|].
  rewrite links_cons, !elem_of_cons. intros [->|[->|Ha%IH]]; [tauto|tauto|]. destruct Ha; tauto.
Qed.

Lemma last_elem x l : next_at (lastn x l) ∈ next_at x :: links l.
Proof.
  revert x. induction l as [|b l IH]; intros x; cbn [lastn]; [left|]. rewrite links_cons.
  specialize (IH (link_of b)). set_solver.
Qed.

Lemma last_not_open x l : NoDup (next_at x :: links l) -> next_at (lastn x l) ∉ ocells x l.
Proof.
  revert x. induction l as [|b l IH]; intros x; cbn [lastn ocells]; [intros _; apply not_elem_of_nil|].
  rewrite links_cons. intros Hnd. apply NoDup_cons in Hnd as [Hx Hnd]. apply NoDup_cons in Hnd as [Hp Hnd].
  pose proof (last_elem (link_of b) l) as Hl. rewrite !not_elem_of_cons. split_and!.
  - intros E. apply Hx. right. by rewrite <- E.
  - intros E. apply Hp. by rewrite <- E.
  - by apply IH.
Qed.

(** The successor of [x] on the chain [l] to [y]. *)
Definition firstn_link (l : list Z) (y : Z) : Z := match l with [] => y | b :: _ => link_of b end.

(** The words that hold the links of the list [l] with head [h]. *)
Definition ring (h : Z) (l : list Z) : list Z := prev_at h :: next_at h :: links l.

(** The words of the ring, pairwise apart around the element [b]. *)
Lemma ring_apart h b l1 l2 : NoDup (ring h (l1 ++ b :: l2)) ->
  let ph := prev_at h in let nh := next_at h in
  let pb := prev_at (link_of b) in let nb := next_at (link_of b) in
  (ph <> nh /\ ph <> pb /\ ph <> nb /\ nh <> pb /\ nh <> nb /\ pb <> nb) /\
  (NoDup (nh :: links l1) /\ NoDup (links l2)) /\
  (forall x, x ∈ links l1 -> x <> ph /\ x <> nh /\ x <> pb /\ x <> nb /\ x ∉ links l2) /\
  (forall x, x ∈ links l2 -> x <> ph /\ x <> nh /\ x <> pb /\ x <> nb).
Proof.
  unfold ring. rewrite links_app, links_cons. cbn zeta. rewrite !NoDup_cons, NoDup_app, !NoDup_cons.
  rewrite ?not_elem_of_cons, ?not_elem_of_app, ?not_elem_of_cons.
  intros ((? & ? & ? & ? & ?) & (? & ? & ? & ?) & Hl1 & Hd & (? & ?) & ? & ?). split_and!; try done.
  - intros x Hx. specialize (Hd x Hx). rewrite !not_elem_of_cons in Hd. destruct_and!.
    split_and!; try done; by intros ->.
  - intros x Hx. split_and!; by intros ->.
Qed.

Lemma prev_first (m : memory) h x l : seg m x l h ->
  m !! next_at x = Some (firstn_link l h) /\ m !! prev_at (firstn_link l h) = Some x /\
  (prev_at (firstn_link l h) = prev_at h \/ prev_at (firstn_link l h) ∈ links l).
Proof.
  destruct l as [|c l]; cbn [seg firstn_link]; intros H; destruct_and!; split_and!; try done; [by left|].
  right. rewrite links_cons. left.
Qed.

(** The chain from [x], whose first pointers may have been rewritten. *)
Lemma seg_refirst (m m' : memory) h x x' l : seg m x l h -> NoDup (links l) -> prev_at h ∉ links l ->
  (forall a, a = prev_at h \/ a ∈ links l -> a <> prev_at (firstn_link l h) -> m' !! a = m !! a) ->
  m' !! next_at x' = Some (firstn_link l h) -> m' !! prev_at (firstn_link l h) = Some x' -> seg m' x' l h.
Proof.
  destruct l as [|c l]; cbn [seg firstn_link]; [done|]. intros (_ & _ & Hs). rewrite links_cons.
  rewrite !NoDup_cons, !not_elem_of_cons. intros ((Hc1 & Hc2) & _) (Hh1 & Hh2 & Hh3) Hf Hn Hp.
  split_and!; try done. eapply seg_frame; [done|]. intros a Ha. rewrite !elem_of_cons in Ha.
  apply Hf; [rewrite !elem_of_cons; tauto|]. intros ->. destruct Ha as [Ha|[Ha|Ha]]; congruence.
Qed.

Lemma link_ok (m : memory) h b l :
  seg m h l h -> NoDup (ring h (b :: l)) -> is_Some (m !! prev_at (link_of b)) -> is_Some (m !! next_at (link_of b)) ->
  exists m', block_link h b m = Some m' /\ seg m' h (b :: l) h /\
    (forall a, a ∉ ring h (b :: l) -> m' !! a = m !! a) /\ (forall a, is_Some (m !! a) -> is_Some (m' !! a)).
Proof.
  intros Hseg Hnd Hp Hn. destruct (ring_apart h b [] l Hnd) as ((N1 & N2 & N3 & N4 & N5 & N6) & [_ Hnl] & _ & Hl).
  destruct (prev_first m h h l Hseg) as (Hf & Hpf & Hin). set (f := firstn_link l h) in *.
  assert (next_at h <> prev_at f /\ prev_at (link_of b) <> prev_at f /\ next_at (link_of b) <> prev_at f)
    as (N7 & N8 & N9) by (destruct Hin as [->|Hin]; [|destruct (Hl _ Hin) as (?&?&?&?)]; split_and!; congruence).
  unfold block_link, load. rewrite Hf. cbn [mbind option_bind]. rewrite store_ok by done. cbn [mbind option_bind].
  rewrite store_ok by (by apply insert_mapped). cbn [mbind option_bind].
  rewrite (lookup_insert_ne _ _ (next_at h)), (lookup_insert_ne _ _ (next_at h)), Hf by done. cbn [mbind option_bind].
  rewrite store_ok by (do 2 apply insert_mapped; by rewrite Hpf). cbn [mbind option_bind].
  rewrite store_ok by (do 3 apply insert_mapped; by rewrite Hf).
  eexists. split; [done|]. split_and!.
  - cbn [seg]. rewrite lookup_insert_eq. split; [done|].
    rewrite (lookup_insert_ne _ (next_at h)), (lookup_insert_ne _ (prev_at f)), lookup_insert_eq by done.
    split; [done|]. apply (seg_refirst m _ h h); try done.
    + intros Hx. by destruct (Hl _ Hx).
    + intros a Ha Hne. assert (a <> next_at h /\ a <> prev_at (link_of b) /\ a <> next_at (link_of b)) as (?&?&?)
        by (destruct Ha as [->|Ha]; [|destruct (Hl _ Ha) as (?&?&?&?)]; split_and!; congruence).
      fold f in Hne. by rewrite !lookup_insert_ne by congruence.
    + rewrite !lookup_insert_ne, lookup_insert_eq by done. done.
    + rewrite lookup_insert_ne, lookup_insert_eq by done. done.
  - intros a Ha. unfold ring in Ha. rewrite links_cons, !not_elem_of_cons in Ha. destruct Ha as (?&?&?&?&Ha).
    assert (a <> prev_at f) by (intros ->; by destruct Hin as [?|?]).
    by rewrite !lookup_insert_ne by congruence.
  - intros a Ha. by do 4 apply insert_mapped.
Qed.

Lemma unlink_ok (m : memory) h b l1 l2 :
  seg m h (l1 ++ b :: l2) h -> NoDup (ring h (l1 ++ b :: l2)) ->
  exists m', block_unlink b m = Some m' /\ seg m' h (l1 ++ l2) h /\
    (forall a, a ∉ ring h (l1 ++ l2) -> m' !! a = m !! a) /\ (forall a, is_Some (m !! a) -> is_Some (m' !! a)).
Proof.
  intros Hseg Hnd. apply seg_app in Hseg as [Hs1 Hs2]. destruct (seg_last _ _ _ _ Hs1) as [Hn1 Hp1].
  destruct (ring_apart h b l1 l2 Hnd) as ((N1 & N2 & N3 & N4 & N5 & N6) & [Hnd1 Hnl] & Hl1 & Hl2).
  destruct (prev_first m h (link_of b) l2 Hs2) as (Hn2 & Hp2 & Hnin). set (n := firstn_link l2 h) in *.
  pose proof (last_elem h l1) as Hpin. rewrite elem_of_cons in Hpin. pose proof (last_not_open h l1 Hnd1) as Hopen.
  set (p := lastn h l1) in *.
  assert (prev_at n <> next_at (link_of b) /\ prev_at n <> prev_at (link_of b) /\ prev_at n <> next_at p /\
    prev_at n ∉ links l1) as (N7 & N8 & N9 & N10).
  { destruct Hnin as [->|Hnin]; [|destruct (Hl2 _ Hnin) as (?&?&?&?)];
      (destruct Hpin as [->|Hpin]; [|destruct (Hl1 _ Hpin) as (?&?&?&?&?)]); split_and!; try congruence;
      intros Hx; first [by rewrite Hx in Hnin|by destruct (Hl1 _ Hx) as (?&?&?&?&?)]. }
  unfold block_unlink, load. rewrite Hn2. cbn [mbind option_bind]. rewrite Hp1. cbn [mbind option_bind].
  rewrite store_ok by (by rewrite Hp2). cbn [mbind option_bind].
  rewrite !lookup_insert_ne by done. rewrite Hn2. cbn [mbind option_bind]. rewrite Hp1. cbn [mbind option_bind].
  rewrite store_ok by (apply insert_mapped; by rewrite Hn1).
  set (m' := <[next_at p := n]> (<[prev_at n := p]> m)).
  assert (m' !! next_at p = Some n) as Hm1 by apply lookup_insert_eq.
  assert (m' !! prev_at n = Some p) as Hm2 by (unfold m'; by rewrite lookup_insert_ne, lookup_insert_eq).
  assert (forall a, a <> next_at p -> a <> prev_at n -> m' !! a = m !! a) as Hm3
    by (intros a Ha1 Ha2; unfold m'; by rewrite !lookup_insert_ne by congruence).
  exists m'. split; [done|]. split_and!.
  - assert (seg m' h l1 n) as Hseg1.
    { eapply seg_change; try done. intros a Ha. apply Hm3; [by intros ->|]. intros ->.
      destruct (ocells_sub _ _ _ Ha) as [E|?]; [|done]. destruct Hnin as [E'|Hx]; [congruence|].
      destruct (Hl2 _ Hx) as (?&?&?&?). congruence. }
    destruct l2 as [|c l2]; [by rewrite app_nil_r|]. apply seg_app. split; [done|].
    assert (seg m' p (c :: l2) h) as (_ & _ & ?); [|done].
    apply (seg_refirst m _ h (link_of b)); try done.
    + intros Hx. by destruct (Hl2 _ Hx).
    + intros a Ha Hne. apply Hm3; [|done]. intros ->. destruct Hpin as [E|Hpin].
      * destruct Ha as [Ha|Ha]; [congruence|]. rewrite E in Ha. by destruct (Hl2 _ Ha) as (?&?&?&?).
      * destruct (Hl1 _ Hpin) as (?&?&?&?&?). by destruct Ha.
  - intros a Ha. unfold ring in Ha. rewrite links_app, !not_elem_of_cons, not_elem_of_app in Ha.
    destruct Ha as (?&?&?&?). apply Hm3; intros ->; [by destruct Hpin|by destruct Hnin].
  - intros a Ha. by do 2 apply insert_mapped.
Qed.

End HeapList.
