(* ===== verification/HeapLayout.v ===== *)
(** The blocks of a boundary-marker heap in memory: where their headers and
    footers are, and that the links of the free list are elsewhere. *)
From S2P Require Import Prelude PageAlloc HeapBm HeapList.

Local Open Scope Z_scope.
Local Open Scope embox_scope.

Section HeapLayout.
Context `{A : arch} `{!ArchOk A}.
Abbreviation W := (WORD (A := A)).
Abbreviation block := (Z * bool)%type.

Lemma W_pos : 0 < W.
Proof. destruct W_cases as [->| ->]; lia. Qed.

(** The first block of the heap at [heap]. *)
Definition base (heap : Z) : Z := heap + HEAP_DESC.
Definition top (heap : Z) (bs : list block) : Z := base heap + total bs.
(** All the words that describe the blocks: theirs and the sentinel. *)
Definition tmarks (a : Z) (bs : list block) : list Z := marks a bs ++ [a + total bs].
Definition sizes (bs : list block) : Prop := Forall (fun b => size_ok b.1) bs.

(** * Composition *)

Lemma total_app bs1 bs2 : total (bs1 ++ bs2) = total bs1 + total bs2.
Proof. induction bs1 as [|[s b] bs1 IH]; cbn; lia. Qed.

Lemma frees_app bs1 bs2 : forall a, frees a (bs1 ++ bs2) = frees a bs1 ++ frees (a + total bs1) bs2.
Proof.
  induction bs1 as [|[s b] bs1 IH]; intros a; cbn; [by rewrite Z.add_0_r|].
  rewrite IH, app_assoc. do 2 f_equal. lia.
Qed.

Lemma marks_app bs1 bs2 : forall a, marks a (bs1 ++ bs2) = marks a bs1 ++ marks (a + total bs1) bs2.
Proof.
  induction bs1 as [|[s b] bs1 IH]; intros a; cbn; [by rewrite Z.add_0_r|].
  rewrite IH, app_assoc. do 3 f_equal. lia.
Qed.

Lemma layout_app m bs1 bs2 : forall a pb,
  layout a pb (bs1 ++ bs2) m <->
  layout a pb bs1 m /\ layout (a + total bs1) (last_busy pb bs1) bs2 m.
Proof.
  induction bs1 as [|[s b] bs1 IH]; intros a pb; cbn; [rewrite Z.add_0_r; tauto|].
  rewrite IH. replace (a + s + total bs1) with (a + (s + total bs1)) by lia. tauto.
Qed.

Lemma last_busy_app pb bs1 bs2 : last_busy pb (bs1 ++ bs2) = last_busy (last_busy pb bs1) bs2.
Proof. revert pb. induction bs1 as [|[s b] bs1 IH]; intros pb; cbn; [done|]. apply IH. Qed.

Lemma merged_app bs1 bs2 : forall pb,
  merged pb (bs1 ++ bs2) <-> merged pb bs1 /\ merged (last_busy pb bs1) bs2.
Proof. induction bs1 as [|[s b] bs1 IH]; intros pb; cbn; [tauto|]. rewrite IH. tauto. Qed.

Lemma layout_sizes m bs : forall a pb, layout a pb bs m -> sizes bs.
Proof.
  induction bs as [|[s b] bs IH]; intros a pb; cbn; [constructor|].
  intros (Hs & _ & _ & H). constructor; [done|]. by eapply IH.
Qed.

Lemma layout_frame m m' bs : forall a pb,
  layout a pb bs m -> (forall x, x ∈ marks a bs -> m' !! x = m !! x) -> layout a pb bs m'.
Proof.
  induction bs as [|[s b] bs IH]; intros a pb; cbn; [done|]. intros (Hs & H1 & H2 & H3) Hf. split_and!.
  - done.
  - rewrite Hf; [done|left].
  - intros ->. rewrite Hf; [by apply H2|]. right. left.
  - apply IH; [done|]. intros x Hx. apply Hf. right. apply elem_of_app. by right.
Qed.

Lemma sentinel_frame a m m' : sentinel a m -> m' !! a = m !! a -> sentinel a m'.
Proof. intros (v & Hv & H) E. exists v. by rewrite E. Qed.

(** * Positions *)

Lemma total_nonneg bs : sizes bs -> 0 <= total bs.
Proof.
  pose proof W_pos as HW. induction bs as [|[s b] bs IH]; cbn; [lia|]. intros [[Hs _] H]%Forall_cons. cbn in Hs.
  specialize (IH H). lia.
Qed.

Lemma total_words bs : sizes bs -> (W | total bs).
Proof.
  induction bs as [|[s b] bs IH]; cbn; [intros; apply Z.divide_0_r|]. intros [[_ Hs] H]%Forall_cons.
  apply Z.divide_add_r; [done|by apply IH].
Qed.

Lemma marks_range bs : forall a x, sizes bs -> x ∈ marks a bs -> a <= x < a + total bs.
Proof.
  pose proof W_pos as HW. induction bs as [|[s b] bs IH]; intros a x; cbn; [by intros _ ?%elem_of_nil|].
  intros [[Hs _] H1]%Forall_cons Hx. cbn in Hs. pose proof (total_nonneg bs H1).
  apply elem_of_cons in Hx as [->|Hx]; [lia|]. apply elem_of_app in Hx as [Hx|Hx].
  - destruct b; [by apply elem_of_nil in Hx|]. apply list_elem_of_singleton in Hx as ->. lia.
  - specialize (IH _ _ H1 Hx). lia.
Qed.

(** Inside the block at [y] only the footer of a free block is a mark. *)
Lemma marks_inside a bs1 s b bs2 x :
  sizes (bs1 ++ (s, b) :: bs2) -> x ∈ tmarks a (bs1 ++ (s, b) :: bs2) ->
  a + total bs1 < x < a + total bs1 + s -> b = false /\ x = a + total bs1 + s - W.
Proof.
  intros Hs Hx Hr. apply Forall_app in Hs as [Hs1 Hs2]. apply Forall_cons in Hs2 as [Hss Hs2].
  pose proof (total_nonneg _ Hs2). unfold tmarks in Hx. rewrite marks_app, total_app in Hx.
  rewrite !elem_of_app in Hx. cbn in Hx.
  destruct Hx as [[Hx|Hx]|Hx%list_elem_of_singleton]; [apply (marks_range bs1) in Hx; [lia|done]| |lia].
  apply elem_of_cons in Hx as [->|Hx]; [lia|]. apply elem_of_app in Hx as [Hx|Hx].
  - destruct b; [by apply elem_of_nil in Hx|]. by apply list_elem_of_singleton in Hx.
  - apply (marks_range bs2) in Hx; [lia|done].
Qed.

Lemma frees_elem bs : forall a y, y ∈ frees a bs ->
  exists bs1 s bs2, bs = bs1 ++ (s, false) :: bs2 /\ y = a + total bs1.
Proof.
  induction bs as [|[s b] bs IH]; intros a y; cbn; [by intros ?%elem_of_nil|].
  intros [Hy|Hy]%elem_of_app.
  - destruct b; [by apply elem_of_nil in Hy|]. apply list_elem_of_singleton in Hy as ->.
    exists [], s, bs. cbn. split; [done|lia].
  - destruct (IH _ _ Hy) as (bs1 & s' & bs2 & -> & ->). exists ((s, b) :: bs1), s', bs2. cbn. split; [done|lia].
Qed.

Lemma frees_ge bs a y : sizes bs -> y ∈ frees a bs -> a <= y /\ y + 4 * W <= a + total bs.
Proof.
  intros Hs Hy. destruct (frees_elem _ _ _ Hy) as (bs1 & s & bs2 & -> & ->).
  apply Forall_app in Hs as [Hs1 Hs2]. apply Forall_cons in Hs2 as [[Hs _] Hs2]. cbn in Hs.
  rewrite total_app. cbn. pose proof (total_nonneg _ Hs1). pose proof (total_nonneg _ Hs2). lia.
Qed.

(** * Apart *)

(** Link places: distinct ones are at least four words apart. *)
Definition apart (l : list Z) : Prop := NoDup l /\
  forall x y, x ∈ l -> y ∈ l -> x <> y -> x + 4 * W <= y \/ y + 4 * W <= x.

Lemma apart_frees bs : forall a, sizes bs -> apart (frees a bs).
Proof.
  induction bs as [|[s b] bs IH]; intros a; cbn; [split; [constructor|by intros ?? ?%elem_of_nil]|].
  intros [[Hs _] H]%Forall_cons. cbn in Hs. destruct (IH (a + s) H) as [Hnd Hap].
  destruct b; cbn; [done|]. split.
  - constructor; [|done]. intros Hin. apply frees_ge in Hin; [|done]. pose proof W_pos as HW. lia.
  - intros x y [->|Hx]%elem_of_cons [->|Hy]%elem_of_cons Hne; [done| | |by apply Hap].
    + apply frees_ge in Hy; [lia|done].
    + apply frees_ge in Hx; [lia|done].
Qed.

Lemma apart_perm l l' : l ≡ₚ l' -> apart l -> apart l'.
Proof. intros Hp [Hnd Hap]. split; [by rewrite <- Hp|]. intros x y. rewrite <- Hp. apply Hap. Qed.

Lemma apart_ring heap l : apart l -> (forall y, y ∈ l -> base heap <= y) -> NoDup (ring heap l).
Proof.
  pose proof W_pos as HW. unfold base, HEAP_DESC. intros [Hnd Hap] Hlo. unfold ring, prev_at, next_at.
  assert (forall x, x ∈ links l -> heap + 4 * W <= x) as Hlk.
  { intros x (y & Hy & Hx)%links_elem. specialize (Hlo y Hy). unfold prev_at, next_at, link_of in Hx. lia. }
  apply NoDup_cons. split.
  { rewrite not_elem_of_cons. split; [lia|]. intros Hx%Hlk. lia. }
  apply NoDup_cons. split; [intros Hx%Hlk; lia|]. clear Hlk Hlo.
  induction l as [|y l IH]; [constructor|]. rewrite links_cons. apply NoDup_cons in Hnd as [Hy Hnd].
  assert (forall x, x ∈ links l -> x <> prev_at (link_of y) /\ x <> next_at (link_of y)) as Hne.
  { intros x (z & Hz & Hx)%links_elem. assert (y <> z) as Hyz by (by intros ->).
    destruct (Hap y z ltac:(left) ltac:(by right) Hyz); unfold prev_at, next_at, link_of in *; lia. }
  constructor; [rewrite not_elem_of_cons; split; [unfold prev_at, next_at; lia|]; intros Hx; by destruct (Hne _ Hx)|].
  constructor; [intros Hx; by destruct (Hne _ Hx)|].
  apply IH; [done|]. intros x z Hx Hz. apply Hap; by right.
Qed.

End HeapLayout.
