(* ===== verification/HeapOps.v ===== *)
(** The steps of the boundary-marker heap on well-formed heaps: linking and
    unlinking keep the blocks, rewriting the blocks keeps the free list. *)
From S2P Require Import Prelude PageAlloc HeapBm HeapList HeapLayout.

Local Open Scope Z_scope.
Local Open Scope embox_scope.

Section HeapOps.
Context `{A : arch} `{!ArchOk A}.
Abbreviation W := (WORD (A := A)).
Abbreviation block := (Z * bool)%type.

(** The memory holds the blocks [bs] and the free list [FL]; the list may be
    on its way to matching the free blocks. *)
Record hp (heap : Z) (m : memory) (bs : list block) (FL : list Z) : Prop := {
  hp_lay : layout (base heap) true bs m;
  hp_sen : sentinel (top heap bs) m;
  hp_seg : seg m heap FL heap;
  hp_nd : NoDup (ring heap FL);
  hp_dis : forall x, x ∈ ring heap FL -> x ∉ tmarks (base heap) bs;
  hp_map : forall x, (W | x) -> heap <= x <= top heap bs -> is_Some (m !! x);
  hp_word : (W | heap);
  hp_lo : 0 < heap;
  hp_hi : top heap bs + W < 2 ^ LONG_BIT
}.

Definition grows (m m' : memory) : Prop := forall x, is_Some (m !! x) -> is_Some (m' !! x).
Definition keeps (l : list Z) (m m' : memory) : Prop := forall x, x ∉ l -> m' !! x = m !! x.

Lemma hp_link heap m bs FL b :
  hp heap m bs FL -> NoDup (ring heap (b :: FL)) -> (W | b) -> base heap <= b -> b + 2 * W <= top heap bs ->
  b + W ∉ tmarks (base heap) bs -> b + 2 * W ∉ tmarks (base heap) bs ->
  exists m', block_link heap b m = Some m' /\ hp heap m' bs (b :: FL) /\ grows m m' /\ keeps (ring heap (b :: FL)) m m'.
Proof.
  intros [Hl Hse Hs Hnd Hd Hm Hw Hlo Hhi] Hnd' Hb Hb1 Hb2 Hn1 Hn2. pose proof W_pos as HW.
  unfold base, HEAP_DESC in Hb1. assert (W | W) as HWW by apply Z.divide_refl.
  destruct (link_ok m heap b FL) as (m' & Hbl & Hseg & Hk & Hg); try done.
  { apply Hm; [by apply Z.divide_add_r|]. unfold prev_at, link_of. lia. }
  { apply Hm; [do 2 (apply Z.divide_add_r; [|done]); done|]. unfold next_at, link_of. lia. }
  assert (forall x, x ∈ ring heap (b :: FL) -> x ∉ tmarks (base heap) bs) as Hd'.
  { unfold ring. rewrite links_cons. intros x. rewrite !elem_of_cons. intros [->|[->|[->|[->|Hx]]]].
    - apply Hd. left.
    - apply Hd. right; left.
    - exact Hn1.
    - unfold next_at, link_of. by replace (b + W + W) with (b + 2 * W) by lia.
    - apply Hd. unfold ring. by do 2 right. }
  exists m'. split_and!; try done. split; try done.
  - eapply layout_frame; [done|]. intros x Hx. apply Hk. intros Hr. apply (Hd' x Hr).
    apply elem_of_app. by left.
  - eapply sentinel_frame; [done|]. apply Hk. intros Hr. apply (Hd' _ Hr). apply elem_of_app. right. left.
  - intros x Hx Hr. apply Hg. by apply Hm.
Qed.

Lemma ring_sub heap b l1 l2 x : x ∈ ring heap (l1 ++ l2) -> x ∈ ring heap (l1 ++ b :: l2).
Proof.
  unfold ring. rewrite !links_app, links_cons, !elem_of_cons, !elem_of_app, !elem_of_cons. tauto.
Qed.

Lemma ring_nodup_sub heap b l1 l2 : NoDup (ring heap (l1 ++ b :: l2)) -> NoDup (ring heap (l1 ++ l2)).
Proof.
  intros Hnd. assert (ring heap (l1 ++ b :: l2) ≡ₚ
    prev_at (link_of b) :: next_at (link_of b) :: ring heap (l1 ++ l2)) as Hp
    by (unfold ring; rewrite !links_app, links_cons; solve_Permutation).
  rewrite Hp in Hnd. by apply NoDup_cons in Hnd as [_ [_ Hnd]%NoDup_cons].
Qed.

Lemma hp_unlink heap m bs l1 b l2 :
  hp heap m bs (l1 ++ b :: l2) ->
  exists m', block_unlink b m = Some m' /\ hp heap m' bs (l1 ++ l2) /\ grows m m' /\ keeps (ring heap (l1 ++ l2)) m m'.
Proof.
  intros [Hl Hse Hs Hnd Hd Hm Hw Hlo Hhi].
  destruct (unlink_ok m heap b l1 l2 Hs Hnd) as (m' & Hb & Hseg & Hk & Hg).
  exists m'. split_and!; try done. split; try done.
  - eapply layout_frame; [done|]. intros x Hx. apply Hk. intros Hr. eapply Hd; [by eapply ring_sub|].
    apply elem_of_app. by left.
  - eapply sentinel_frame; [done|]. apply Hk. intros Hr. eapply Hd; [by eapply ring_sub|].
    apply elem_of_app. right. left.
  - by eapply ring_nodup_sub.
  - intros x Hx. apply Hd. by eapply ring_sub.
  - intros x Hx Hr. apply Hg. by apply Hm.
Qed.

(** * A part of the heap *)

Definition tail_ok (a : Z) (pb : bool) (bs : list block) (m : memory) : Prop :=
  layout a pb bs m /\ sentinel (a + total bs) m.

Record mid_at (heap : Z) (m : memory) (bs1 mid bs2 : list block) (y : Z) (pb : bool) : Prop := {
  mid_y : y = base heap + total bs1;
  mid_pb : pb = last_busy true bs1;
  mid_pre : layout (base heap) true bs1 m;
  mid_lay : layout y pb mid m;
  mid_tail : tail_ok (y + total mid) (last_busy pb mid) bs2 m;
  mid_sizes : sizes bs1 /\ sizes mid /\ sizes bs2;
  mid_word : (W | y);
  mid_lo : heap + 3 * W <= y;
  mid_hi : y + total mid + total bs2 + W < 2 ^ LONG_BIT;
  mid_top : y + total mid + total bs2 = top heap (bs1 ++ mid ++ bs2)
}.

Lemma hp_mid heap m bs1 mid bs2 FL :
  hp heap m (bs1 ++ mid ++ bs2) FL ->
  mid_at heap m bs1 mid bs2 (base heap + total bs1) (last_busy true bs1).
Proof.
  intros [Hl Hse Hs Hnd Hd Hm Hw Hlo Hhi]. pose proof (layout_sizes _ _ _ _ Hl) as Hsz.
  apply Forall_app in Hsz as [Hs1 Hsz]. apply Forall_app in Hsz as [Hsm Hs2].
  pose proof (total_nonneg _ Hs1). pose proof (total_words _ Hs1) as Hw1.
  apply layout_app in Hl as [Hl1 Hl]. apply layout_app in Hl as [Hlm Hl2].
  unfold top in *. rewrite !total_app in *. unfold base, HEAP_DESC in *.
  split; try done; try lia.
  - split; [done|]. by replace (heap + 3 * W + total bs1 + total mid + total bs2)
      with (heap + 3 * W + (total bs1 + (total mid + total bs2))) by lia.
  - apply Z.divide_add_r; [|done]. apply Z.divide_add_r; [done|]. apply Z.divide_mul_r, Z.divide_refl.
  - unfold base, top, HEAP_DESC. rewrite !total_app. unfold base, HEAP_DESC. lia.
Qed.

Lemma hp_rebuild heap m m' bs1 mid mid' bs2 FL y pb :
  hp heap m (bs1 ++ mid ++ bs2) FL -> y = base heap + total bs1 -> pb = last_busy true bs1 ->
  total mid' = total mid -> layout y pb mid' m' -> tail_ok (y + total mid) (last_busy pb mid') bs2 m' ->
  (forall x, x ∈ marks (base heap) bs1 -> m' !! x = m !! x) ->
  (forall x, x ∈ ring heap FL -> m' !! x = m !! x) ->
  (forall x, x ∈ ring heap FL -> x ∉ marks y mid') -> grows m m' ->
  hp heap m' (bs1 ++ mid' ++ bs2) FL.
Proof.
  intros Hhp -> -> Ht Hlm [Hl2 Hse2] Hf1 Hfr Hdm Hg. pose proof (hp_mid _ _ _ _ _ _ Hhp) as Hmid.
  destruct Hhp as [Hl Hse Hs Hnd Hd Hm Hw Hlo Hhi].
  assert (top heap (bs1 ++ mid' ++ bs2) = top heap (bs1 ++ mid ++ bs2)) as Htop
    by (unfold top; rewrite !total_app; lia).
  split; try done.
  - apply layout_app. split; [eapply layout_frame; [apply Hmid|done]|]. apply layout_app. split; [done|].
    by rewrite Ht.
  - unfold sentinel, top in *. rewrite !total_app. rewrite Ht.
    by replace (base heap + (total bs1 + (total mid + total bs2)))
      with (base heap + total bs1 + total mid + total bs2) by lia.
  - eapply seg_frame; [done|]. intros x Hx. apply Hfr. unfold ring. rewrite !elem_of_cons in *. tauto.
  - intros x Hx Hin. specialize (Hd x Hx). unfold tmarks in *. rewrite !marks_app, !total_app, Ht in *.
    rewrite !elem_of_app in *. specialize (Hdm x Hx). tauto.
  - intros x Hx Hr. apply Hg, Hm; [done|]. by rewrite <- Htop.
  - by rewrite Htop.
Qed.

(** The flag of the block before, in a header or in the sentinel. *)
Definition with_flag (pb : bool) (v : Z) : Z := if pb then Z.lor v 2 else Z.land v (wnot LONG_BIT 2).

Lemma tail_flag a pb bs m : tail_ok a pb bs m -> total bs < 2 ^ LONG_BIT ->
  exists v, m !! a = Some v /\ forall m' pb', m' !! a = Some (with_flag pb' v) ->
    (forall x, x ∈ tmarks a bs -> x <> a -> m' !! x = m !! x) -> tail_ok a pb' bs m'.
Proof.
  pose proof W_pos as HW. pose proof long_bit_ge_32 as HL. intros [Hl Hse] Ht. destruct bs as [|[s b] bs]; cbn in *.
  - rewrite Z.add_0_r in Hse. destruct Hse as (v & Hv & Hb & Hr). exists v. split; [done|].
    intros m' pb' Hm' _. split; [done|]. cbn. rewrite Z.add_0_r. exists (with_flag pb' v). split; [done|split].
    + destruct pb'; cbn [with_flag]; [by rewrite Z.lor_spec, Hb|]. by rewrite Z.land_spec, Hb, wnot_low by lia.
    + apply bounded_testbit; [lia|]. destruct pb'; cbn [with_flag].
      * split; [apply Z.lor_nonneg; lia|]. intros i Hi.
        rewrite Z.lor_spec, (bounded_high_bit LONG_BIT v) by lia. by rewrite small_bits by lia.
      * split; [apply Z.land_nonneg; lia|].
        intros i Hi. by rewrite Z.land_spec, (bounded_high_bit LONG_BIT v) by lia.
  - destruct Hl as (Hs & Hh & Hft & Hl). exists (header s b pb). split; [done|]. intros m' pb' Hm' Hf.
    pose proof (layout_sizes _ _ _ _ Hl) as Hsz. pose proof (total_nonneg _ Hsz). destruct Hs as [Hs1 Hs2].
    assert (with_flag pb' (header s b pb) = header s b pb') as E.
    { destruct pb'; cbn [with_flag]; [by apply hdr_set_pbusy|apply hdr_clear_pbusy; [done|lia]]. }
    rewrite E in Hm'. unfold tmarks in Hf. cbn in Hf. split; [cbn; split_and!; try done|].
    + intros ->. rewrite Hf; [by apply Hft|set_solver|lia].
    + eapply layout_frame; [done|]. intros x Hx. pose proof (marks_range _ _ _ Hsz Hx). apply Hf; [|lia].
      rewrite elem_of_cons, !elem_of_app. tauto.
    + cbn. eapply sentinel_frame; [done|]. apply Hf; [|lia]. rewrite elem_of_cons, !elem_of_app, list_elem_of_singleton. tauto.
Qed.

End HeapOps.
