(* ===== verification/HeapFree.v ===== *)
(** Freeing on a boundary-marker heap: marking the block free and merging it
    with its neighbours. *)
From S2P Require Import Prelude PageAlloc HeapBm HeapList HeapLayout HeapOps.

Local Open Scope Z_scope.
Local Open Scope embox_scope.

Section HeapFree.
Context `{A : arch} `{!ArchOk A}.
Abbreviation W := (WORD (A := A)).
Abbreviation block := (Z * bool)%type.

(** The address and size of the busy blocks, in order. *)
Fixpoint busies (a : Z) (bs : list block) : list (Z * Z) :=
  match bs with
  | [] => []
  | (s, b) :: bs => (if (b : bool) then [(a, s)] else []) ++ busies (a + s) bs
  end.

(** The heap is well formed, the list holds the free blocks, and no two of
    them are neighbours. *)
Record hinv (heap : Z) (m : memory) (bs : list block) (FL : list Z) : Prop := {
  hi_hp : hp heap m bs FL;
  hi_frees : FL ≡ₚ frees (base heap) bs;
  hi_merged : merged true bs
}.

Lemma busies_app bs1 bs2 : forall a, busies a (bs1 ++ bs2) = busies a bs1 ++ busies (a + total bs1) bs2.
Proof.
  induction bs1 as [|[s b] bs1 IH]; intros a; cbn; [by rewrite Z.add_0_r|].
  rewrite IH, app_assoc. do 2 f_equal. lia.
Qed.

Lemma busies_split bs : forall a B1 y s B2, busies a bs = B1 ++ (y, s) :: B2 ->
  exists bs1 bs2, bs = bs1 ++ (s, true) :: bs2 /\ y = a + total bs1 /\ busies a bs1 = B1 /\ busies (y + s) bs2 = B2.
Proof.
  induction bs as [|[s0 b0] bs IH]; intros a B1 y s B2; cbn; [by destruct B1|]. destruct b0; cbn.
  - destruct B1 as [|[y1 s1] B1]; cbn; intros [=].
    + subst. exists [], bs. cbn. split_and!; try done. lia.
    + destruct (IH (a + s0) B1 y s B2) as (bs1 & bs2 & -> & -> & <- & <-); [done|].
      exists ((s0, true) :: bs1), bs2. cbn. subst. split_and!; try done; lia.
  - intros H. destruct (IH (a + s0) B1 y s B2 H) as (bs1 & bs2 & -> & -> & <- & <-).
    exists ((s0, false) :: bs1), bs2. cbn. split_and!; try done; lia.
Qed.

Lemma busies_range bs : forall a y s, sizes bs -> (y, s) ∈ busies a bs -> a <= y /\ y + s <= a + total bs.
Proof.
  intros a y s Hs Hy. apply list_elem_of_split in Hy as (B1 & B2 & Hb).
  destruct (busies_split _ _ _ _ _ _ Hb) as (bs1 & bs2 & -> & -> & _). apply Forall_app in Hs as [Hs1 Hs2].
  apply Forall_cons in Hs2 as [[Hs _] Hs2]. cbn in Hs. rewrite total_app. cbn.
  pose proof (total_nonneg _ Hs1). pose proof (total_nonneg _ Hs2). lia.
Qed.

(** The payload of a busy block is no word of the allocator. *)
Lemma payload_safe heap bs y s x FL :
  sizes bs -> (y, s) ∈ busies (base heap) bs -> y < x < y + s -> FL ≡ₚ frees (base heap) bs ->
  x ∉ tmarks (base heap) bs /\ x ∉ ring heap FL.
Proof.
  intros Hs Hy Hx HFL. pose proof W_pos as HW. pose proof (busies_range _ _ _ _ Hs Hy) as Hr.
  apply list_elem_of_split in Hy as (B1 & B2 & Hb).
  destruct (busies_split _ _ _ _ _ _ Hb) as (bs1 & bs2 & -> & -> & _). split.
  - intros Hm. destruct (marks_inside _ _ _ _ _ _ Hs Hm Hx) as [? _]. done.
  - unfold ring, prev_at, next_at. unfold base, HEAP_DESC in *. rewrite !not_elem_of_cons. split_and!; [lia|lia|].
    intros (f & Hf & Hxf)%links_elem. rewrite HFL, frees_app in Hf. cbn in Hf.
    apply Forall_app in Hs as [Hs1 Hs2]. apply Forall_cons in Hs2 as [_ Hs2].
    unfold prev_at, next_at, link_of in Hxf. apply elem_of_app in Hf as [Hf|Hf]; apply frees_ge in Hf; try done; lia.
Qed.

(** * Marks *)

Lemma mid_marks a bs1 mid bs2 x : x ∈ marks (a + total bs1) mid \/ x = a + total bs1 + total mid ->
  x ∈ tmarks a (bs1 ++ mid ++ bs2).
Proof.
  unfold tmarks. rewrite !marks_app, !total_app, !elem_of_app, list_elem_of_singleton.
  intros [Hx| ->]; [tauto|]. destruct bs2 as [|[s b] bs2]; [right; cbn; lia|]. left. right. right. left.
Qed.

Lemma tmarks_range a bs x : sizes bs -> x ∈ tmarks a bs -> a <= x <= a + total bs.
Proof.
  intros Hs. unfold tmarks. rewrite elem_of_app, list_elem_of_singleton. pose proof (total_nonneg _ Hs).
  intros [Hx| ->]; [pose proof (marks_range _ _ _ Hs Hx)|]; lia.
Qed.

Lemma lookup_words (m : memory) a v b : a <> b -> <[a := v]> m !! b = m !! b.
Proof. apply lookup_insert_ne. Qed.

Lemma grows_insert m a v : grows m (<[a := v]> m).
Proof. intros x. apply insert_mapped. Qed.

Lemma grows_trans m1 m2 m3 : grows m1 m2 -> grows m2 m3 -> grows m1 m3.
Proof. intros H1 H2 x Hx. by apply H2, H1. Qed.

Lemma mark_free_ok heap m bs1 s bs2 FL y :
  hp heap m (bs1 ++ [(s, true)] ++ bs2) FL -> y = base heap + total bs1 -> y + s - W ∉ ring heap FL ->
  exists m', (m ← set_end_size y m; m ← clear_block y m; clear_next y m) = Some m' /\
    hp heap m' (bs1 ++ [(s, false)] ++ bs2) FL /\ grows m m' /\ keeps [y; y + s - W; y + s] m m'.
Proof.
  intros Hhp -> Hnr. pose proof W_pos as HW. pose proof (hp_mid _ _ _ _ _ _ Hhp) as Hmid.
  pose proof (hp_lo _ _ _ _ Hhp) as Hheap.
  set (y := base heap + total bs1) in *. set (pb := last_busy true bs1) in *.
  destruct Hmid as [_ _ Hpre Hlay Htail [Hz1 [Hzm Hz2]] Hw Hlo Hhi Htop]. cbn in Hlay, Htail, Hhi. cbn [total] in Htop.
  rewrite Z.add_0_r in *. destruct Hlay as ([Hs1 Hs2] & Hh & _ & _). pose proof (total_nonneg _ Hz2) as Ht2.
  destruct (tail_flag _ _ _ _ Htail) as (v & Hv & Hflag); [lia|].
  assert (is_Some (m !! (y + s - W))) as Hfoot.
  { apply (hp_map _ _ _ _ Hhp); [|rewrite <- Htop; lia].
    apply Z.divide_sub_r; [by apply Z.divide_add_r|apply Z.divide_refl]. }
  unfold set_end_size, load. rewrite Hh. cbn [mbind option_bind].
  rewrite hdr_clear_size by (done || lia). rewrite store_ok by done. cbn [mbind option_bind].
  unfold clear_block, load. rewrite lookup_words, Hh by lia. cbn [mbind option_bind].
  rewrite store_ok by (apply insert_mapped; by rewrite Hh). cbn [mbind option_bind].
  rewrite hdr_clear_busy by (done || lia). unfold clear_next, load. rewrite lookup_insert_eq. cbn [mbind option_bind].
  rewrite hdr_clear_size by (done || lia). rewrite !lookup_words, Hv by lia. cbn [mbind option_bind].
  rewrite store_ok by (do 2 apply insert_mapped; by rewrite Hv).
  set (m' := <[y + s := _]> _). exists m'. split; [done|].
  assert (keeps [y; y + s - W; y + s] m m') as Hk.
  { intros x. rewrite !not_elem_of_cons. intros (? & ? & ? & _). unfold m'. by rewrite !lookup_words by done. }
  assert (grows m m') as Hg by (do 2 (eapply grows_trans; [|apply grows_insert]); apply grows_insert).
  assert (forall x, x ∈ ring heap FL -> x <> y /\ x <> y + s - W /\ x <> y + s) as Hring.
  { intros x Hx. pose proof (hp_dis _ _ _ _ Hhp x Hx) as Hd.
    split_and!; intros ->; [|done|]; apply Hd; apply mid_marks; [left; left|right; cbn; lia]. }
  split_and!; try done.
  eapply (hp_rebuild heap m m' bs1 [(s, true)] [(s, false)] bs2 FL y pb Hhp); try done; cbn.
  - split; [done|]. unfold m'. rewrite lookup_words, lookup_insert_eq by lia. split; [done|]. split; [|done].
    intros _. by rewrite !lookup_words, lookup_insert_eq by lia.
  - rewrite Z.add_0_r. apply Hflag; [unfold m'; by rewrite lookup_insert_eq|].
    intros x Hx Hne. apply (tmarks_range _ _ _ Hz2) in Hx.
    apply Hk. rewrite !not_elem_of_cons. split_and!; try apply not_elem_of_nil; lia.
  - intros x Hx. pose proof (marks_range _ _ _ Hz1 Hx) as Hmr. fold y in Hmr. apply Hk.
    rewrite !not_elem_of_cons. split_and!; try apply not_elem_of_nil; lia.
  - intros x Hx. destruct (Hring x Hx) as (?&?&?). apply Hk. rewrite !not_elem_of_cons. split_and!; try done.
    apply not_elem_of_nil.
  - intros x Hx. destruct (Hring x Hx) as (?&?&?). rewrite !not_elem_of_cons. split_and!; try done.
    apply not_elem_of_nil.
Qed.

(** Two free neighbours become one: the header of the first and the footer of
    the second are rewritten, and the second leaves the list. *)
Lemma merge_ok heap m bs1 s1 s2 bs2 l1 l2 y z :
  hp heap m (bs1 ++ [(s1, false); (s2, false)] ++ bs2) (l1 ++ z :: l2) -> y = base heap + total bs1 ->
  exists m', (m ← store y (header (s1 + s2) false (last_busy true bs1)) m;
              m ← set_end_size y m; block_unlink z m) = Some m' /\
    hp heap m' (bs1 ++ [(s1 + s2, false)] ++ bs2) (l1 ++ l2) /\ grows m m' /\
    keeps (y :: (y + s1 + s2 - W) :: ring heap (l1 ++ l2)) m m'.
Proof.
  intros Hhp ->. pose proof W_pos as HW. pose proof (hp_mid _ _ _ _ _ _ Hhp) as Hmid.
  pose proof (hp_lo _ _ _ _ Hhp) as Hheap.
  set (y := base heap + total bs1) in *. set (pb := last_busy true bs1) in *.
  destruct Hmid as [_ _ Hpre Hlay Htail [Hz1 [Hzm Hz2]] Hw Hlo Hhi Htop]. cbn in Hlay, Htail, Hhi. cbn [total] in Htop.
  rewrite Z.add_0_r in *. destruct Hlay as ([Hs1 Hs1'] & Hh1 & Hf1 & ([Hs2 Hs2'] & Hh2 & Hf2 & _)).
  specialize (Hf2 eq_refl). pose proof (total_nonneg _ Hz2) as Ht2.
  assert ((W | s1 + s2)) as Hs12 by (by apply Z.divide_add_r).
  rewrite store_ok by (by rewrite Hh1). cbn [mbind option_bind].
  unfold set_end_size, load. rewrite lookup_insert_eq. cbn [mbind option_bind].
  rewrite hdr_clear_size by (done || lia).
  rewrite store_ok by (apply insert_mapped; replace (y + (s1 + s2) - W) with (y + s1 + s2 - W) by lia; by rewrite Hf2).
  cbn [mbind option_bind]. replace (y + (s1 + s2) - W) with (y + s1 + s2 - W) by lia.
  set (m1 := <[y + s1 + s2 - W := _]> _).
  assert (keeps [y; y + s1 + s2 - W] m m1) as Hk1.
  { intros x. rewrite !not_elem_of_cons. intros (? & ? & _). unfold m1. by rewrite !lookup_words by done. }
  assert (grows m m1) as Hg1 by (eapply grows_trans; apply grows_insert).
  assert (forall x, x ∈ ring heap (l1 ++ z :: l2) -> x <> y /\ x <> y + s1 + s2 - W) as Hring.
  { intros x Hx. pose proof (hp_dis _ _ _ _ Hhp x Hx) as Hd. split; intros ->; apply Hd, mid_marks; left; cbn.
    - left.
    - do 3 right. left. }
  assert (hp heap m1 (bs1 ++ [(s1 + s2, false)] ++ bs2) (l1 ++ z :: l2)) as Hhp1.
  { eapply (hp_rebuild heap m m1 bs1 _ [(s1 + s2, false)] bs2 _ y pb Hhp); try done; cbn.
    - lia.
    - split; [split; [lia|done]|]. unfold m1. rewrite lookup_words, lookup_insert_eq by lia. split; [done|].
      split; [|done]. intros _. replace (y + (s1 + s2) - W) with (y + s1 + s2 - W) by lia. apply lookup_insert_eq.
    - replace (y + (s1 + (s2 + 0))) with (y + (s1 + s2)) by lia. destruct Htail as [Ht1 Hts]. split.
      + eapply layout_frame; [done|]. intros x Hx. pose proof (marks_range _ _ _ Hz2 Hx).
        apply Hk1. rewrite !not_elem_of_cons. split_and!; try apply not_elem_of_nil; lia.
      + eapply sentinel_frame; [done|]. apply Hk1. rewrite !not_elem_of_cons. split_and!; try apply not_elem_of_nil; lia.
    - intros x Hx. pose proof (marks_range _ _ _ Hz1 Hx) as Hmr. fold y in Hmr. apply Hk1.
      rewrite !not_elem_of_cons. split_and!; try apply not_elem_of_nil; lia.
    - intros x Hx. destruct (Hring x Hx). apply Hk1. rewrite !not_elem_of_cons. split_and!; try done. apply not_elem_of_nil.
    - intros x Hx. destruct (Hring x Hx). replace (y + (s1 + s2) - W) with (y + s1 + s2 - W) by lia.
      rewrite !not_elem_of_cons. split_and!; try done. apply not_elem_of_nil. }
  destruct (hp_unlink _ _ _ _ _ _ Hhp1) as (m' & -> & Hhp' & Hg' & Hk').
  exists m'. split; [done|]. split; [done|]. split; [by eapply grows_trans|].
  intros x. rewrite !not_elem_of_cons. intros (Hx1 & Hx2 & Hx3). rewrite Hk' by done. apply Hk1.
  rewrite !not_elem_of_cons. split_and!; try done. apply not_elem_of_nil.
Qed.

Lemma header_free s : header s false false = s.
Proof. unfold header. cbn. lia. Qed.

Lemma clear_free s : (W | s) -> 0 <= s < 2 ^ LONG_BIT -> get_clear_size s = s.
Proof. intros. rewrite <- (header_free s) at 1. by apply hdr_clear_size. Qed.

Lemma set_pbusy_free s : (W | s) -> Z.lor s 2 = header s false true.
Proof. intros. rewrite <- (header_free s) at 1. by apply hdr_set_pbusy. Qed.

Lemma concat_prev_ok heap m bs1 sp s bs2 l1 l2 y :
  hp heap m (bs1 ++ [(sp, false); (s, false)] ++ bs2) (l1 ++ (y + sp) :: l2) -> y = base heap + total bs1 ->
  last_busy true bs1 = true ->
  exists m', concatenate_prev (y + sp) m = Some (y, m') /\ hp heap m' (bs1 ++ [(sp + s, false)] ++ bs2) (l1 ++ l2) /\
    grows m m' /\ keeps (y :: (y + sp + s - W) :: ring heap (l1 ++ l2)) m m'.
Proof.
  intros Hhp -> Hpb. pose proof W_pos as HW. pose proof (hp_mid _ _ _ _ _ _ Hhp) as Hmid.
  destruct (merge_ok _ _ _ _ _ _ _ _ _ _ Hhp eq_refl) as (m' & Hm' & Hhp' & Hg & Hk). rewrite Hpb in Hm'.
  pose proof (hp_lo _ _ _ _ Hhp) as Hheap. set (y := base heap + total bs1) in *.
  destruct Hmid as [_ _ _ Hlay _ [_ [_ Hz2]] Hw Hlo Hhi _]. cbn in Hlay, Hhi. pose proof (total_nonneg _ Hz2).
  destruct Hlay as ([Hs1 Hs1'] & Hh1 & Hf1 & ([Hs2 Hs2'] & Hh2 & Hf2 & _)). specialize (Hf1 eq_refl).
  unfold concatenate_prev, prev_is_busy, load. rewrite Hh2. cbn [mbind option_bind].
  rewrite hdr_pbusy by done. rewrite Hf1. cbn [mbind option_bind].
  rewrite (clear_free sp), hdr_clear_size by (done || lia).
  replace (y + sp - sp) with y by lia. rewrite ul_small by lia.
  rewrite set_pbusy_free by (by apply Z.divide_add_r).
  exists m'. split; [|done]. destruct (store y _ m) as [m1|]; [|done]. cbn [mbind option_bind] in *.
  destruct (set_end_size y m1) as [m2|]; [|done]. cbn [mbind option_bind] in *. by rewrite Hm'.
Qed.

Lemma concat_next_ok heap m bs1 s sn bs2 l1 l2 y :
  hp heap m (bs1 ++ [(s, false); (sn, false)] ++ bs2) (l1 ++ (y + s) :: l2) -> y = base heap + total bs1 ->
  exists m', concatenate_next y m = Some (y, m') /\ hp heap m' (bs1 ++ [(s + sn, false)] ++ bs2) (l1 ++ l2) /\
    grows m m' /\ keeps (y :: (y + s + sn - W) :: ring heap (l1 ++ l2)) m m'.
Proof.
  intros Hhp ->. pose proof W_pos as HW. pose proof (hp_mid _ _ _ _ _ _ Hhp) as Hmid.
  destruct (merge_ok _ _ _ _ _ _ _ _ _ _ Hhp eq_refl) as (m' & Hm' & Hhp' & Hg & Hk).
  pose proof (hp_lo _ _ _ _ Hhp) as Hheap. set (y := base heap + total bs1) in *.
  destruct Hmid as [_ _ _ Hlay _ [_ [_ Hz2]] Hw Hlo Hhi _]. cbn in Hlay, Hhi. pose proof (total_nonneg _ Hz2).
  destruct Hlay as ([Hs1 Hs1'] & Hh1 & Hf1 & ([Hs2 Hs2'] & Hh2 & Hf2 & _)).
  unfold concatenate_next, block_is_busy, load. rewrite Hh1. cbn [mbind option_bind].
  rewrite hdr_clear_size by (done || lia). rewrite Hh2. cbn [mbind option_bind].
  rewrite hdr_busy by done. rewrite !hdr_clear_size by (done || lia). rewrite hdr_flags by done. rewrite ul_small by lia.
  rewrite hdr_resize by (by apply Z.divide_add_r).
  exists m'. split; [|done]. destruct (store y _ m) as [m1|]; [|done]. cbn [mbind option_bind] in *.
  destruct (set_end_size y m1) as [m2|]; [|done]. cbn [mbind option_bind] in *. by rewrite Hm'.
Qed.

(** * The payload of the busy blocks *)

Definition payload_kept (B : list (Z * Z)) (m m' : memory) : Prop :=
  forall y s x, (y, s) ∈ B -> y < x < y + s -> m' !! x = m !! x.

Lemma payload_trans B m1 m2 m3 : payload_kept B m1 m2 -> payload_kept B m2 m3 -> payload_kept B m1 m3.
Proof. intros H1 H2 y s x Hy Hx. by rewrite (H2 y s x), (H1 y s x). Qed.

Lemma keeps_payload heap bs FL L m m' :
  keeps L m m' -> sizes bs -> FL ≡ₚ frees (base heap) bs ->
  (forall x, x ∈ L -> x ∈ tmarks (base heap) bs \/ x ∈ ring heap FL) -> payload_kept (busies (base heap) bs) m m'.
Proof.
  intros Hk Hs HFL HL y s x Hy Hx. apply Hk. intros Hin.
  destruct (payload_safe _ _ _ _ _ _ Hs Hy Hx HFL) as [H1 H2]. destruct (HL x Hin); done.
Qed.

(** The words of the free list are no words that describe blocks. *)
Lemma ring_marks heap bs FL x :
  sizes bs -> FL ≡ₚ frees (base heap) bs -> x ∈ ring heap FL -> x ∉ tmarks (base heap) bs.
Proof.
  intros Hs HFL Hx Hm. pose proof W_pos as HW. pose proof (tmarks_range _ _ _ Hs Hm) as Hr.
  unfold ring, prev_at, next_at in Hx. unfold base, HEAP_DESC in Hr. rewrite !elem_of_cons in Hx.
  destruct Hx as [->|[->|Hx]]; [lia|lia|]. apply links_elem in Hx as (f & Hf & Hx). rewrite HFL in Hf.
  destruct (frees_elem _ _ _ Hf) as (bs1 & s & bs2 & -> & ->). unfold prev_at, next_at, link_of in Hx.
  pose proof Hs as Hs'. apply Forall_app in Hs' as [_ Hs']. apply Forall_cons in Hs' as [[Hs' _] _]. cbn in Hs'.
  destruct (marks_inside _ _ _ _ _ _ Hs Hm) as [_ E]; lia.
Qed.

Lemma frees_mid a bs1 s bs2 : frees a (bs1 ++ [(s, false)] ++ bs2) ≡ₚ (a + total bs1) :: frees a (bs1 ++ [(s, true)] ++ bs2).
Proof. rewrite !frees_app. cbn. by rewrite <- Permutation_middle. Qed.

Lemma frees_nodup heap bs FL : sizes bs -> FL ≡ₚ frees (base heap) bs -> NoDup (ring heap FL).
Proof.
  intros Hs HFL. apply apart_ring.
  - eapply apart_perm; [symmetry; done|]. by apply apart_frees.
  - intros y. rewrite HFL. intros Hy. by destruct (frees_ge _ _ _ Hs Hy).
Qed.

Lemma hp_sizes heap m bs FL : hp heap m bs FL -> sizes bs.
Proof. intros H. eapply layout_sizes, hp_lay, H. Qed.

(** Writing the payload of a busy block leaves the heap as it is. *)
Lemma hp_user heap m m' bs FL y s :
  hp heap m bs FL -> FL ≡ₚ frees (base heap) bs -> (y, s) ∈ busies (base heap) bs ->
  (forall x, ~ y < x < y + s -> m' !! x = m !! x) -> grows m m' -> hp heap m' bs FL.
Proof.
  intros Hhp HFL Hy Hf Hg. pose proof (hp_sizes _ _ _ _ Hhp) as Hs.
  assert (forall x, x ∈ tmarks (base heap) bs \/ x ∈ ring heap FL -> m' !! x = m !! x) as Hk.
  { intros x Hx. apply Hf. intros Hr. destruct (payload_safe _ _ _ _ _ _ Hs Hy Hr HFL). tauto. }
  destruct Hhp as [Hl Hse Hsg Hnd Hd Hm Hw Hlo Hhi]. split; try done.
  - eapply layout_frame; [done|]. intros x Hx. apply Hk. left. unfold tmarks. apply elem_of_app. by left.
  - eapply sentinel_frame; [done|]. apply Hk. left. unfold tmarks. apply elem_of_app. right. left.
  - eapply seg_frame; [done|]. intros x Hx. apply Hk. right. unfold ring. set_solver.
  - intros x Hx Hr. by apply Hg, Hm.
Qed.

Lemma merge_frees a bs1 s1 s2 bs2 l1 l2 :
  l1 ++ (a + total bs1 + s1) :: l2 ≡ₚ frees a (bs1 ++ [(s1, false); (s2, false)] ++ bs2) ->
  l1 ++ l2 ≡ₚ frees a (bs1 ++ [(s1 + s2, false)] ++ bs2).
Proof.
  rewrite !frees_app. cbn. replace (s1 + s2 + 0) with (s1 + (s2 + 0)) by lia.
  rewrite <- Permutation_middle. intros H. apply (Permutation_cons_inv (a := a + total bs1 + s1)).
  rewrite H. solve_Permutation.
Qed.

Lemma merge_busies a bs1 s1 s2 bs2 :
  busies a (bs1 ++ [(s1 + s2, false)] ++ bs2) = busies a (bs1 ++ [(s1, false); (s2, false)] ++ bs2).
Proof. rewrite !busies_app. cbn. do 2 f_equal. lia. Qed.

Lemma merge_words heap bs1 s bs2 FL x : 0 < s ->
  x ∈ (base heap + total bs1) :: (base heap + total bs1 + s - W) :: ring heap FL ->
  x ∈ tmarks (base heap) (bs1 ++ [(s, false)] ++ bs2) \/ x ∈ ring heap FL.
Proof.
  intros Hs. rewrite !elem_of_cons. intros [->|[->|Hx]]; [| |by right]; left; apply mid_marks; left; cbn; [left|right; left].
Qed.

Lemma last_busy_false bs : last_busy true bs = false -> exists bs' s, bs = bs' ++ [(s, false)].
Proof.
  destruct bs as [|[s b] bs' _] using rev_ind; [done|]. rewrite last_busy_app. cbn. intros ->. eauto.
Qed.

Lemma free_prev heap m bs1 s bs2 FL :
  hp heap m (bs1 ++ [(s, false)] ++ bs2) FL -> FL ≡ₚ frees (base heap) (bs1 ++ [(s, false)] ++ bs2) -> merged true bs1 ->
  exists m' bsA s' FL', concatenate_prev (base heap + total bs1) m = Some (base heap + total bsA, m') /\
    hp heap m' (bsA ++ [(s', false)] ++ bs2) FL' /\ FL' ≡ₚ frees (base heap) (bsA ++ [(s', false)] ++ bs2) /\
    merged true bsA /\ last_busy true bsA = true /\ (total bsA + s' = total bs1 + s /\ total bsA <= total bs1) /\
    busies (base heap) bsA = busies (base heap) bs1 /\
    (block_is_busy (base heap + total bs1) m' = Some false /\ base heap + total bs1 ∉ ring heap FL') /\
    payload_kept (busies (base heap) (bs1 ++ [(s, false)] ++ bs2)) m m'.
Proof.
  intros Hhp HFL Hmg. pose proof W_pos as HW. pose proof (hp_mid _ _ _ _ _ _ Hhp) as Hmid.
  destruct Hmid as [_ _ _ Hlay _ _ _ _ _ _]. cbn in Hlay. destruct Hlay as ([Hs4 Hs] & Hh & _).
  assert (base heap + total bs1 ∉ ring heap FL) as Hyr.
  { intros Hr. eapply (hp_dis _ _ _ _ Hhp); [exact Hr|]. apply mid_marks. left. left. }
  assert (block_is_busy (base heap + total bs1) m = Some false) as Hnb
    by (unfold block_is_busy, load; rewrite Hh; cbn [mbind option_bind]; by rewrite hdr_busy).
  destruct (last_busy true bs1) eqn:Hlb.
  - exists m, bs1, s, FL. split_and!; try done; try by intros ?.
    unfold concatenate_prev, prev_is_busy, load. rewrite Hh. cbn [mbind option_bind].
    by rewrite hdr_pbusy.
  - destruct (last_busy_false _ Hlb) as (bsA & sp & ->). rewrite last_busy_app in Hlb. cbn in Hlb.
    apply merged_app in Hmg as [Hmg [Hlast _]]. assert (last_busy true bsA = true) as HlA
      by (destruct (last_busy true bsA); [done|by apply Hlast]).
    rewrite <- app_assoc in Hhp, HFL. cbn [app] in Hhp, HFL. rewrite total_app in *. cbn [total] in *. rewrite Z.add_0_r in *.
    assert (base heap + total bsA + sp ∈ FL) as HzFL.
    { rewrite HFL, frees_app. apply elem_of_app. right. cbn. right. left. }
    apply list_elem_of_split in HzFL as (l1 & l2 & ->).
    destruct (concat_prev_ok heap m bsA sp s bs2 l1 l2 _ Hhp eq_refl HlA) as (m' & Hc & Hhp' & Hg & Hk).
    pose proof (hp_sizes _ _ _ _ Hhp') as Hsz'. rewrite Z.add_assoc. pose proof (merge_frees _ _ _ _ _ _ _ HFL) as HFL'.
    exists m', bsA, (sp + s), (l1 ++ l2).
    assert (base heap + total bsA + sp ∉ ring heap (l1 ++ l2)) as Hyr'
      by (intros Hr; by apply Hyr; rewrite Z.add_assoc; apply ring_sub).
    assert (4 * W <= sp) as Hsp.
    { pose proof (hp_sizes _ _ _ _ Hhp) as Hz. unfold sizes, size_ok in Hz. rewrite Forall_app, Forall_cons in Hz. cbn in Hz. tauto. }
    split_and!; try done; [lia|lia|by rewrite busies_app, app_nil_r| |].
    { rewrite Z.add_assoc in Hnb. unfold block_is_busy, load in *. rewrite Hk; [done|].
      rewrite !not_elem_of_cons. split_and!; [lia|lia|done]. }
    rewrite <- (app_assoc bsA). cbn [app]. change (?a :: ?b :: bs2) with ([a; b] ++ bs2). rewrite <- merge_busies.
    eapply keeps_payload; [done..|]. intros x. rewrite <- !Z.add_assoc, (Z.add_assoc (base heap)). intros Hx.
    apply merge_words; [|by rewrite <- Z.add_sub_assoc, !Z.add_assoc in *]. 
    apply Forall_app in Hsz' as [_ Hsz']. apply Forall_cons in Hsz' as [[Hsz' _] _]. cbn in Hsz'. pose proof W_pos. lia.
Qed.

Lemma tail_busy a pb bs m : tail_ok a pb bs m -> (forall s bs', bs <> (s, false) :: bs') -> block_is_busy a m = Some true.
Proof.
  intros [Hl Hse] Hb. unfold block_is_busy, load. destruct bs as [|[s [|]] bs].
  - cbn in Hse. rewrite Z.add_0_r in Hse. destruct Hse as (v & -> & Hv & _). cbn [mbind option_bind].
    change 1 with (Z.ones 1). rewrite Z.land_ones by lia. change (2 ^ 1) with 2. by rewrite <- Z.bit0_mod, Hv.
  - cbn in Hl. destruct Hl as ([_ Hs] & -> & _). cbn [mbind option_bind]. by rewrite hdr_busy.
  - by destruct (Hb s bs).
Qed.

Lemma free_next heap m bs1 s bs2 FL :
  hp heap m (bs1 ++ [(s, false)] ++ bs2) FL -> FL ≡ₚ frees (base heap) (bs1 ++ [(s, false)] ++ bs2) ->
  merged true bs1 -> last_busy true bs1 = true -> merged true bs2 ->
  exists m' bs' FL', concatenate_next (base heap + total bs1) m = Some (base heap + total bs1, m') /\
    hinv heap m' bs' FL' /\ total bs' = total (bs1 ++ [(s, false)] ++ bs2) /\
    busies (base heap) bs' = busies (base heap) (bs1 ++ [(s, false)] ++ bs2) /\
    (forall x, base heap + total bs1 <= x < base heap + total bs1 + s -> x ∉ ring heap FL ->
      block_is_busy x m = Some false -> block_is_busy x m' = Some false) /\
    payload_kept (busies (base heap) (bs1 ++ [(s, false)] ++ bs2)) m m'.
Proof.
  intros Hhp HFL Hm1 Hlb Hm2. pose proof W_pos as HW. pose proof (hp_mid _ _ _ _ _ _ Hhp) as Hmid.
  assert ((exists sn bs', bs2 = (sn, false) :: bs') \/ (forall sn bs', bs2 <> (sn, false) :: bs')) as [(sn & bs' & ->)|Hnb'].
  { destruct bs2 as [|[sn [|]] bs2]; [by right|by right|left; eauto]. }
  - change ([(s, false)] ++ (sn, false) :: bs') with ([(s, false); (sn, false)] ++ bs') in *.
    assert (base heap + total bs1 + s ∈ FL) as HzFL.
    { rewrite HFL, frees_app. apply elem_of_app. right. cbn. right. left. }
    apply list_elem_of_split in HzFL as (l1 & l2 & ->).
    destruct (concat_next_ok heap m bs1 s sn bs' l1 l2 _ Hhp eq_refl) as (m' & Hc & Hhp' & Hg & Hk).
    pose proof (hp_sizes _ _ _ _ Hhp') as Hsz'. pose proof (merge_frees _ _ _ _ _ _ _ HFL) as HFL'.
    exists m', (bs1 ++ [(s + sn, false)] ++ bs'), (l1 ++ l2). split_and!; try done.
    + split; try done. apply merged_app. split; [done|]. rewrite Hlb. cbn. split; [done|]. apply Hm2.
    + rewrite !total_app. cbn. lia.
    + apply merge_busies.
    + intros x Hx Hr Hnb. destruct (decide (x = base heap + total bs1)) as [->|Hne].
      * pose proof (hp_mid _ _ _ _ _ _ Hhp') as Hmid'. destruct Hmid' as [_ _ _ Hlay _ _ _ _ _ _]. cbn in Hlay.
        destruct Hlay as ([_ Hs] & Hh & _). unfold block_is_busy, load. rewrite Hh. cbn [mbind option_bind]. by rewrite hdr_busy.
      * unfold block_is_busy, load in *. assert (4 * W <= sn) as Hsn.
        { pose proof (hp_sizes _ _ _ _ Hhp) as Hz. unfold sizes, size_ok in Hz. rewrite !Forall_app, !Forall_cons in Hz. cbn in Hz. tauto. }
        rewrite Hk; [done|]. rewrite !not_elem_of_cons. split_and!; [done|lia|]. intros Hr'. by apply Hr, ring_sub.
    + rewrite <- merge_busies. eapply keeps_payload; [done..|]. intros x Hx. apply merge_words.
      * apply Forall_app in Hsz' as [_ Hsz']. apply Forall_cons in Hsz' as [[Hsz' _] _]. cbn in Hsz'. lia.
      * by rewrite Z.add_assoc.
  - exists m, (bs1 ++ [(s, false)] ++ bs2), FL. split_and!; try done; try by intros ?.
    + destruct Hmid as [_ _ _ Hlay Htail [_ [_ Hz2]] _ Hlo Hhi _]. cbn in Hlay, Htail, Hhi. rewrite !Z.add_0_r in *.
      destruct Hlay as ([Hs Hs'] & Hh & _). pose proof (hp_lo _ _ _ _ Hhp). pose proof (total_nonneg _ Hz2).
      unfold concatenate_next, load. rewrite Hh. cbn [mbind option_bind]. rewrite hdr_clear_size by (done || lia).
      by rewrite (tail_busy _ _ _ _ Htail Hnb').
    + split; [done..|]. apply merged_app. split; [done|]. rewrite Hlb. cbn. split; [done|].
      destruct bs2 as [|[sn [|]] bs2]; [done|split; [done|apply Hm2]|by destruct (Hnb' sn bs2)].
Qed.

(** What [bm_free] needs of [afterfree]: it writes nothing but the payload. *)
Class AfterFree (af : Z -> Z -> memory -> option memory) : Prop := after_free p n m :
  (W | n) -> 0 <= n -> (W | p) -> (forall x, (W | x) -> p <= x < p + n -> is_Some (m !! x)) ->
  exists m', af p n m = Some m' /\ grows m m' /\ forall x, ~ p <= x < p + n -> m' !! x = m !! x.

#[global] Instance afterfree_ok : AfterFree afterfree.
Proof. intros p n m _ _ _ _. exists m. split_and!; try done. by intros ?. Qed.

Lemma memset_words_ok w n : forall p m,
  (W | p) -> (forall x, (W | x) -> p <= x < p + Z.of_nat n * W -> is_Some (m !! x)) ->
  exists m', memset_words n p w m = Some m' /\ grows m m' /\
    (forall x, ~ p <= x < p + Z.of_nat n * W -> m' !! x = m !! x).
Proof.
  pose proof W_pos as HW. induction n as [|n IH]; intros p m Hp Hm; cbn [memset_words].
  - exists m. split_and!; try done. by intros ?.
  - rewrite store_ok by (apply Hm; [done|lia]). cbn [mbind option_bind].
    destruct (IH (p + W) (<[p := w]> m)) as (m' & -> & Hg & Hf).
    { apply Z.divide_add_r; [done|apply Z.divide_refl]. }
    { intros x Hx Hr. apply insert_mapped, Hm; [done|lia]. }
    exists m'. split_and!; [done|eapply grows_trans; [apply grows_insert|done]|].
    intros x Hx. rewrite Hf, lookup_words by lia. done.
Qed.

#[global] Instance afterfree_random_ok r : AfterFree (afterfree_random r).
Proof.
  intros p n m [k ->] Hn Hp Hm. pose proof W_pos as HW. unfold afterfree_random. rewrite Z.div_mul by lia.
  assert (0 <= k) as Hk by nia. destruct (memset_words_ok (word_fill (Z.to_nat W) (u8 r)) (Z.to_nat k) p m Hp) as (m' & Hm' & Hf).
  - by rewrite Z2Nat.id.
  - rewrite Z2Nat.id in Hf by done. by exists m'.
Qed.

(** The part of [bm_free] that puts the block on the list and marks it. *)
Lemma release_ok heap m bs1 s bs2 FL :
  hp heap m (bs1 ++ [(s, true)] ++ bs2) FL -> FL ≡ₚ frees (base heap) (bs1 ++ [(s, true)] ++ bs2) ->
  let y := base heap + total bs1 in let bs' := bs1 ++ [(s, false)] ++ bs2 in
  exists m' FL', (m ← block_link heap y m; m ← set_end_size y m; m ← clear_block y m; clear_next y m) = Some m' /\
    hp heap m' bs' FL' /\ FL' ≡ₚ frees (base heap) bs' /\ payload_kept (busies (base heap) bs') m m'.
Proof.
  intros Hhp HFL y bs'. pose proof W_pos as HW. pose proof (hp_sizes _ _ _ _ Hhp) as Hsz.
  pose proof (hp_mid _ _ _ _ _ _ Hhp) as Hmid. destruct Hmid as [_ _ _ Hlay _ [_ [_ Hz2]] Hw Hlo _ Htop].
  fold y in Hlay, Hw, Hlo, Htop. cbn in Hlay. cbn [total] in Htop. destruct Hlay as ([Hs Hsw] & _). pose proof (total_nonneg _ Hz2) as Ht2.
  assert (sizes bs') as Hsz'.
  { unfold bs'. unfold sizes in *. rewrite !Forall_app, !Forall_singleton in *. tauto. }
  assert (y :: FL ≡ₚ frees (base heap) bs') as HFL' by (unfold bs'; by rewrite (frees_mid (base heap) bs1 s bs2), HFL).
  assert (forall x, y < x < y + s -> x ∉ tmarks (base heap) (bs1 ++ [(s, true)] ++ bs2)) as Hin.
  { intros x Hx Hm. by destruct (marks_inside _ _ _ _ _ _ Hsz Hm Hx). }
  destruct (hp_link heap m _ FL y Hhp) as (m1 & -> & Hhp1 & Hg1 & Hk1); try apply Hin; try lia; try done.
  { by eapply frees_nodup. }
  assert (forall x, x ∈ [y; y + s - W; y + s] -> x ∈ tmarks (base heap) bs') as Hmk.
  { intros x. rewrite !elem_of_cons, elem_of_nil. intros [->|[->|[->|[]]]]; apply mid_marks; fold y; cbn.
    - left. left.
    - left. right. left.
    - right. lia. }
  destruct (mark_free_ok heap m1 bs1 s bs2 (y :: FL) y Hhp1 eq_refl) as (m2 & Hm2 & Hhp2 & Hg2 & Hk2).
  { intros Hr. eapply (ring_marks heap bs'); [done|done|exact Hr|]. apply Hmk. set_solver. }
  exists m2, (y :: FL). split_and!; try done. eapply payload_trans; eapply keeps_payload; try done; eauto.
Qed.

Lemma payload_other heap bs1 s bs2 m m' :
  sizes (bs1 ++ [(s, true)] ++ bs2) -> let y := base heap + total bs1 in
  (forall x, ~ y < x < y + s -> m' !! x = m !! x) ->
  payload_kept (busies (base heap) (bs1 ++ [(s, false)] ++ bs2)) m m'.
Proof.
  intros Hs y Hf z t x Hz Hx. apply Hf. unfold sizes in Hs. rewrite !Forall_app in Hs. destruct Hs as (Hs1 & _ & Hs2).
  rewrite busies_app in Hz. cbn in Hz. fold y in Hz.
  apply elem_of_app in Hz as [Hz|Hz]; apply busies_range in Hz; try done; lia.
Qed.

(** Freeing an object of the heap. *)
Lemma bm_free_ok af `{!AfterFree af} heap st bs FL B1 y s B2 :
  hinv heap (mem st) bs FL -> busies (base heap) bs = B1 ++ (y, s) :: B2 ->
  exists st' bs' FL', bm_free af heap (y + W) st = Some st' /\ hinv heap (mem st') bs' FL' /\
    busies (base heap) bs' = B1 ++ B2 /\ total bs' = total bs /\ count st' = s32 (count st - 1) /\
    bm_free_not_busy st' = bm_free_not_busy st /\ block_is_busy y (mem st') = Some false /\
    payload_kept (B1 ++ B2) (mem st) (mem st').
Proof.
  intros [Hhp HFL Hmg] HB. pose proof W_pos as HW. destruct (busies_split _ _ _ _ _ _ HB) as (bs1 & bs2 & -> & -> & <- & <-).
  change ((s, true) :: bs2) with ([(s, true)] ++ bs2) in *. pose proof (hp_sizes _ _ _ _ Hhp) as Hsz.
  pose proof (hp_mid _ _ _ _ _ _ Hhp) as Hmid. destruct Hmid as [_ _ _ Hlay _ [_ [_ Hz2]] Hw Hlo Hhi Htop].
  cbn in Hlay, Hhi. cbn [total] in Htop. destruct Hlay as ([Hs Hsw] & Hh & _). pose proof (total_nonneg _ Hz2) as Ht2.
  pose proof (hp_lo _ _ _ _ Hhp) as Hheap. apply merged_app in Hmg as [Hm1 [_ Hm2]].
  assert (busies (base heap) (bs1 ++ [(s, false)] ++ bs2) = busies (base heap) bs1 ++ busies (base heap + total bs1 + s) bs2) as EB
    by (rewrite !busies_app; cbn; by rewrite Z.add_0_r).
  set (y := base heap + total bs1) in *. unfold bm_free. destruct (Z.eqb_spec (y + W) 0); [lia|]. cbn [negb].
  replace (y + W - W) with y by lia. unfold block_is_busy, load. rewrite Hh. cbn [mbind option_bind]. rewrite hdr_busy by done.
  cbn [negb]. rewrite hdr_clear_size, ul_small by (done || lia).
  destruct (after_free (y + W) (s - W) (mem st)) as (m0 & -> & Hg0 & Hf0).
  { apply Z.divide_sub_r; [done|apply Z.divide_refl]. } { lia. } { apply Z.divide_add_r; [done|apply Z.divide_refl]. }
  { intros x Hx Hr. apply (hp_map _ _ _ _ Hhp); [done|]. rewrite <- Htop. lia. }
  cbn [mbind option_bind].
  assert (hp heap m0 (bs1 ++ [(s, true)] ++ bs2) FL) as Hhp0.
  { eapply hp_user; try done; [rewrite busies_app; apply elem_of_app; right; left|]. intros x Hx. apply Hf0. unfold y in *. lia. }
  destruct (release_ok _ _ _ _ _ _ Hhp0 HFL) as (m1 & FL1 & Hm1' & Hhp1 & HFL1 & Hp1). fold y in Hm1'.
  destruct (free_prev _ _ _ _ _ _ Hhp1 HFL1 Hm1) as (m2 & bsA & s' & FL2 & Hc & Hhp2 & HFL2 & HmA & HlA & [HtA HtA'] & HbA & [Hnb2 Hyr2] & Hp2).
  destruct (free_next _ _ _ _ _ _ Hhp2 HFL2 HmA HlA Hm2) as (m3 & bs' & FL' & Hn & Hinv & Ht' & Hb' & Hnb3 & Hp3).
  assert (busies (base heap) (bsA ++ [(s', false)] ++ bs2) = busies (base heap) (bs1 ++ [(s, false)] ++ bs2)) as EA.
  { rewrite !busies_app, HbA. cbn. do 2 f_equal. lia. }
  rewrite EA in *. rewrite EB in *. fold y in Hc.
  destruct (block_link heap y m0) as [m01|]; [|done]. cbn [mbind option_bind] in *.
  destruct (set_end_size y m01) as [m02|]; [|done]. cbn [mbind option_bind] in *.
  destruct (clear_block y m02) as [m03|]; [|done]. cbn [mbind option_bind] in *. rewrite Hm1'. cbn [mbind option_bind].
  rewrite Hc. cbn [mbind option_bind]. rewrite Hn. cbn [mbind option_bind].
  eexists _, bs', FL'. split; [done|]. cbn. split_and!; try done.
  - rewrite Ht', !total_app. cbn. lia.
  - apply Hnb3; try done. unfold y. lia.
  - do 2 (eapply payload_trans; [|done]). eapply payload_trans; [|done]. rewrite <- EB. apply payload_other; [done|].
    fold y. intros x Hx. apply Hf0. lia.
Qed.

End HeapFree.
