(* ===== verification/HeapAlloc.v ===== *)
(** Allocation on a boundary-marker heap: taking a free block whole, cutting
    it, splitting it at an aligned address, and the search of the free list. *)
From S2P Require Import Prelude PageAlloc HeapBm HeapList HeapLayout HeapOps HeapFree.

Local Open Scope Z_scope.
Local Open Scope embox_scope.

Section HeapAlloc.
Context `{A : arch} `{!ArchOk A}.
Abbreviation W := (WORD (A := A)).
Abbreviation block := (Z * bool)%type.

Lemma not_words (x : Z) l : Forall (fun a => x <> a) l -> x ∉ l.
Proof. induction 1; [apply not_elem_of_nil|by apply not_elem_of_cons]. Qed.

(** * Taking a block whole *)

Lemma mark_taken_ok heap m bs1 s bs2 FL y :
  hp heap m (bs1 ++ [(s, false)] ++ bs2) FL -> y = base heap + total bs1 ->
  exists m', (m ← mark_block y m; mark_next y m) = Some m' /\
    hp heap m' (bs1 ++ [(s, true)] ++ bs2) FL /\ keeps [y; y + s] m m'.
Proof.
  intros Hhp ->. pose proof W_pos as HW. pose proof (hp_mid _ _ _ _ _ _ Hhp) as Hmid.
  pose proof (hp_lo _ _ _ _ Hhp) as Hheap.
  set (y := base heap + total bs1) in *. set (pb := last_busy true bs1) in *.
  destruct Hmid as [_ _ Hpre Hlay Htail [Hz1 [Hzm Hz2]] Hw Hlo Hhi Htop]. cbn in Hlay, Htail, Hhi.
  rewrite Z.add_0_r in *. destruct Hlay as ([Hs1 Hs2] & Hh & _ & _). pose proof (total_nonneg _ Hz2) as Ht2.
  destruct (tail_flag _ _ _ _ Htail) as (v & Hv & Hflag); [lia|].
  unfold mark_block, load. rewrite Hh. cbn [mbind option_bind]. rewrite store_ok by (by rewrite Hh).
  cbn [mbind option_bind]. rewrite hdr_set_busy by done. unfold mark_next, load. rewrite lookup_insert_eq.
  cbn [mbind option_bind]. rewrite hdr_clear_size by (done || lia). rewrite lookup_words, Hv by lia. cbn [mbind option_bind].
  rewrite store_ok by (apply insert_mapped; by rewrite Hv).
  set (m' := <[y + s := _]> _). exists m'. split; [done|].
  assert (keeps [y; y + s] m m') as Hk.
  { intros x. rewrite !not_elem_of_cons. intros (? & ? & _). unfold m'. by rewrite !lookup_words by done. }
  split; [|done]. assert (forall x, x ∈ ring heap FL -> x <> y /\ x <> y + s) as Hring.
  { intros x Hx. pose proof (hp_dis _ _ _ _ Hhp x Hx) as Hd.
    split; intros ->; apply Hd; apply mid_marks; [left; left|right; cbn; lia]. }
  eapply (hp_rebuild heap m m' bs1 [(s, false)] [(s, true)] bs2 FL y pb Hhp); try done; cbn.
  - split; [done|]. unfold m'. by rewrite lookup_words, lookup_insert_eq by lia.
  - rewrite Z.add_0_r. apply Hflag; [unfold m'; by rewrite lookup_insert_eq|].
    intros x Hx Hne. apply (tmarks_range _ _ _ Hz2) in Hx. apply Hk, not_words. repeat constructor; lia.
  - intros x Hx. pose proof (marks_range _ _ _ Hz1 Hx) as Hmr. fold y in Hmr. apply Hk, not_words. repeat constructor; lia.
  - intros x Hx. destruct (Hring x Hx). apply Hk, not_words. by repeat constructor.
  - intros x Hx. destruct (Hring x Hx). apply not_words. by repeat constructor.
  - eapply grows_trans; apply grows_insert.
Qed.

(** * Cutting a block *)

Lemma W_pow : exists k, W = 2 ^ k /\ 0 <= k < LONG_BIT.
Proof.
  pose proof long_bit_ge_32 as HL. destruct W_cases as [->| ->]; [exists 2|exists 3]; (split; [done|lia]).
Qed.

Lemma align_word x : (W | x) -> 0 <= x -> x + W <= 2 ^ LONG_BIT -> binalign_bound x W = x.
Proof.
  intros [q ->] Hx Hb. pose proof W_pos as HW. destruct W_pow as (k & Hk & Hr).
  destruct (align_ok (q * W) k Hr Hx) as (d & Hd & Hd'); [by rewrite <- Hk|]. rewrite <- Hk in Hd, Hd'. rewrite Hd.
  assert (q <= d) by nia. assert (d < q + 1) by nia. replace d with q by lia. lia.
Qed.

(** What [cut] writes once the list has been updated. *)
Lemma cut_writes heap m bs1 s bs2 FL off y :
  hp heap m (bs1 ++ [(s, false)] ++ bs2) FL -> y = base heap + total bs1 ->
  4 * W <= off -> (W | off) -> 4 * W <= s - off -> y + off ∉ ring heap FL ->
  exists m', (s ← load m y; m ← store (y + off) (ul (get_clear_size s - off)) m; m ← set_end_size (y + off) m;
              m ← block_set_size y off m; m ← mark_block y m; mark_prev (y + off) m) = Some m' /\
    hp heap m' (bs1 ++ [(off, true); (s - off, false)] ++ bs2) FL /\ keeps [y; y + off; y + s - W] m m'.
Proof.
  intros Hhp -> Ho Hoff Hso Hnr. pose proof W_pos as HW. pose proof (hp_mid _ _ _ _ _ _ Hhp) as Hmid.
  pose proof (hp_lo _ _ _ _ Hhp) as Hheap.
  set (y := base heap + total bs1) in *. set (pb := last_busy true bs1) in *.
  destruct Hmid as [_ _ Hpre Hlay [Ht1 Htse] [Hz1 [Hzm Hz2]] Hw Hlo Hhi Htop]. cbn in Hlay, Ht1, Htse, Hhi. cbn [total] in Htop.
  rewrite Z.add_0_r in *. destruct Hlay as ([Hs1 Hs2] & Hh & Hf & _). specialize (Hf eq_refl). pose proof (total_nonneg _ Hz2) as Ht2.
  assert (W | s - off) as Hd by (by apply Z.divide_sub_r).
  assert (is_Some (m !! (y + off))) as Hn.
  { apply (hp_map _ _ _ _ Hhp); [by apply Z.divide_add_r|rewrite <- Htop; lia]. }
  unfold load. rewrite Hh. cbn [mbind option_bind]. rewrite hdr_clear_size, ul_small by (done || lia).
  rewrite store_ok by done. cbn [mbind option_bind]. unfold set_end_size, load. rewrite lookup_insert_eq. cbn [mbind option_bind].
  rewrite clear_free by (done || lia). replace (y + off + (s - off) - W) with (y + s - W) by lia.
  rewrite store_ok by (apply insert_mapped; by rewrite Hf). cbn [mbind option_bind].
  unfold block_set_size, load. rewrite !lookup_words, Hh by lia. cbn [mbind option_bind].
  rewrite store_ok by (do 2 apply insert_mapped; by rewrite Hh). cbn [mbind option_bind].
  rewrite hdr_flags, Z.lor_comm, hdr_resize by done. unfold mark_block, load. rewrite lookup_insert_eq. cbn [mbind option_bind].
  rewrite store_ok by (by rewrite lookup_insert_eq). cbn [mbind option_bind]. rewrite hdr_set_busy by done.
  unfold mark_prev, load. rewrite !lookup_words, lookup_insert_eq by lia. cbn [mbind option_bind]. rewrite set_pbusy_free by done.
  rewrite store_ok by (do 4 apply insert_mapped; done). set (m' := <[y + off := _]> _). exists m'. split; [done|].
  assert (keeps [y; y + off; y + s - W] m m') as Hk.
  { intros x. rewrite !not_elem_of_cons. intros (? & ? & ? & _). unfold m'. by rewrite !lookup_words by done. }
  split; [|done]. assert (forall x, x ∈ ring heap FL -> x <> y /\ x <> y + off /\ x <> y + s - W) as Hring.
  { intros x Hx. pose proof (hp_dis _ _ _ _ Hhp x Hx) as Hdm.
    split_and!; intros ->; [|done|]; apply Hdm; apply mid_marks; left; [left|right; left]. }
  eapply (hp_rebuild heap m m' bs1 [(s, false)] [(off, true); (s - off, false)] bs2 FL y pb Hhp); try done; cbn.
  - lia.
  - split; [done|]. unfold m'. rewrite lookup_words, lookup_insert_eq by lia. split; [done|]. split; [done|].
    rewrite lookup_insert_eq. split_and!; try done; try lia. intros _.
    replace (y + off + (s - off) - W) with (y + s - W) by lia. by rewrite !lookup_words, lookup_insert_eq by lia.
  - rewrite Z.add_0_r. split.
    + eapply layout_frame; [done|]. intros x Hx. pose proof (marks_range _ _ _ Hz2 Hx). apply Hk, not_words. repeat constructor; lia.
    + eapply sentinel_frame; [done|]. apply Hk, not_words. repeat constructor; lia.
  - intros x Hx. pose proof (marks_range _ _ _ Hz1 Hx) as Hmr. fold y in Hmr. apply Hk, not_words. repeat constructor; lia.
  - intros x Hx. destruct (Hring x Hx) as (? & ? & ?). apply Hk, not_words. by repeat constructor.
  - intros x Hx. destruct (Hring x Hx) as (? & ? & ?). replace (y + off + (s - off) - W) with (y + s - W) by lia.
    apply not_words. by repeat constructor.
  - do 4 (eapply grows_trans; [|apply grows_insert]). apply grows_insert.
Qed.

Lemma payload_mono B B' m m' : (forall b, b ∈ B -> b ∈ B') -> payload_kept B' m m' -> payload_kept B m m'.
Proof. intros H Hp y s x Hy. apply Hp. by apply H. Qed.

Lemma busies_mid a bs1 s bs2 b : b ∈ busies a (bs1 ++ [(s, false)] ++ bs2) ->
  forall mid, total mid = s -> b ∈ busies a (bs1 ++ mid ++ bs2).
Proof.
  rewrite !busies_app, !elem_of_app. cbn. intros H mid <-. rewrite !busies_app, !elem_of_app.
  rewrite elem_of_nil, Z.add_0_r in H. tauto.
Qed.

(** * Taking a free block, whole or in part *)

Lemma whole_ok heap m bs1 s bs2 l1 l2 y :
  y = base heap + total bs1 -> hp heap m (bs1 ++ [(s, false)] ++ bs2) (l1 ++ y :: l2) ->
  l1 ++ y :: l2 ≡ₚ frees (base heap) (bs1 ++ [(s, false)] ++ bs2) ->
  exists m', (m ← block_unlink y m; m ← mark_block y m; mark_next y m) = Some m' /\
    hp heap m' (bs1 ++ [(s, true)] ++ bs2) (l1 ++ l2) /\ l1 ++ l2 ≡ₚ frees (base heap) (bs1 ++ [(s, true)] ++ bs2) /\
    payload_kept (busies (base heap) (bs1 ++ [(s, false)] ++ bs2)) m m'.
Proof.
  intros Hy Hhp HFL. pose proof (hp_sizes _ _ _ _ Hhp) as Hsz.
  destruct (hp_unlink _ _ _ _ _ _ Hhp) as (m1 & -> & Hhp1 & Hg1 & Hk1). cbn [mbind option_bind].
  destruct (mark_taken_ok _ _ _ _ _ _ _ Hhp1 Hy) as (m2 & Hm2 & Hhp2 & Hk2). exists m2. split_and!; try done.
  - apply (Permutation_cons_inv (a := y)). rewrite Permutation_middle, HFL, frees_mid. by subst y.
  - eapply payload_trans; eapply keeps_payload; try done.
    + intros x Hx. right. by apply ring_sub.
    + intros x Hx. left. apply mid_marks. rewrite !elem_of_cons, elem_of_nil in Hx. cbn. subst y.
      destruct Hx as [->|[->|[]]]; [left; left|right; lia].
Qed.

Lemma cut_ok heap m bs1 s bs2 l1 l2 y size :
  y = base heap + total bs1 -> hp heap m (bs1 ++ [(s, false)] ++ bs2) (l1 ++ y :: l2) ->
  l1 ++ y :: l2 ≡ₚ frees (base heap) (bs1 ++ [(s, false)] ++ bs2) ->
  3 * W <= size -> (W | size) -> size + 5 * W <= s ->
  let off := size + W in let bs' := bs1 ++ [(off, true); (s - off, false)] ++ bs2 in
  exists m', cut heap y size m = Some (y, m') /\
    hp heap m' bs' ((y + off) :: l1 ++ l2) /\ (y + off) :: l1 ++ l2 ≡ₚ frees (base heap) bs' /\
    payload_kept (busies (base heap) (bs1 ++ [(s, false)] ++ bs2)) m m'.
Proof.
  intros Hy Hhp HFL Hsz1 Hsz2 Hfit off bs'. pose proof W_pos as HW. pose proof (hp_sizes _ _ _ _ Hhp) as Hsz.
  pose proof (hp_mid _ _ _ _ _ _ Hhp) as Hmid. destruct Hmid as [_ _ _ Hlay _ [_ [_ Hz2]] Hw Hlo Hhi Htop].
  rewrite <- Hy in *. cbn in Hlay, Hhi. cbn [total] in Htop. destruct Hlay as ([Hs Hsw] & _). pose proof (total_nonneg _ Hz2) as Ht2.
  assert (W | off) as Hoff by (apply Z.divide_add_r; [done|apply Z.divide_refl]). pose proof (hp_lo _ _ _ _ Hhp) as Hheap.
  assert (sizes bs') as Hsz'.
  { unfold bs', sizes, size_ok in *. rewrite !Forall_app, !Forall_cons in *. cbn in *. destruct_and!. split_and!; try done; try lia.
    by apply Z.divide_sub_r. }
  assert ((y + off) :: l1 ++ l2 ≡ₚ frees (base heap) bs') as HFL'.
  { apply (Permutation_cons_inv (a := y)). rewrite perm_swap, Permutation_middle, HFL, frees_mid, <- Hy. unfold bs'. rewrite !frees_app. cbn.
    rewrite <- Hy. replace (y + (off + (s - off + 0))) with (y + (s + 0)) by lia. solve_Permutation. }
  unfold cut. rewrite ul_small by lia. fold off. rewrite align_word by (done || lia).
  destruct (hp_unlink _ _ _ _ _ _ Hhp) as (m1 & -> & Hhp1 & Hg1 & Hk1). cbn [mbind option_bind].
  assert (forall x, y < x < y + s - W -> x ∉ tmarks (base heap) (bs1 ++ [(s, false)] ++ bs2)) as Hin.
  { intros x Hx Hm. rewrite Hy in Hx. destruct (marks_inside _ _ _ _ _ _ Hsz Hm) as [_ E]; lia. }
  destruct (hp_link heap m1 _ (l1 ++ l2) (y + off) Hhp1) as (m2 & -> & Hhp2 & Hg2 & Hk2); try (apply Hin; lia).
  { by eapply frees_nodup. } { by apply Z.divide_add_r. } { unfold base, HEAP_DESC. lia. } { rewrite <- Htop. lia. }
  cbn [mbind option_bind].
  destruct (cut_writes heap m2 bs1 s bs2 _ off y Hhp2 Hy) as (m3 & Hm3 & Hhp3 & Hk3); try done; try lia.
  { intros Hr. eapply (ring_marks heap bs'); [done|done|exact Hr|]. unfold bs'. rewrite Hy.
    change [(off, true); (s - off, false)] with ([(off, true)] ++ [(s - off, false)]). rewrite <- app_assoc. apply mid_marks. right. cbn. lia. }
  exists m3. split.
  { revert Hm3. destruct (load m2 y) as [v|]; [|done]. cbn [mbind option_bind].
    repeat (match goal with |- context [mbind _ ?x] => destruct x; [|done] end; cbn [mbind option_bind]). by intros [= ->]. }
  split_and!; try done.
  eapply payload_mono; [intros b Hb; apply (busies_mid _ _ _ _ _ Hb [(off, true); (s - off, false)]); cbn; lia|].
  fold bs'. eapply payload_trans; [|eapply payload_trans]; eapply keeps_payload; try done.
  - intros x Hx. right. apply (ring_sub heap (y + off) [] (l1 ++ l2)). exact Hx.
  - intros x Hx. by right.
  - intros x Hx. left. apply mid_marks. rewrite !elem_of_cons, elem_of_nil in Hx. rewrite <- Hy. left. cbn.
    destruct Hx as [->|[->|[->|[]]]]; [left|right; left|]. replace (y + s - W) with (y + off + (s - off) - W) by lia. do 2 right. left.
Qed.

Lemma take_ok heap m bs1 s bs2 FL size :
  let y := base heap + total bs1 in
  hp heap m (bs1 ++ [(s, false)] ++ bs2) FL -> FL ≡ₚ frees (base heap) (bs1 ++ [(s, false)] ++ bs2) ->
  3 * W <= size -> (W | size) -> size + W <= s ->
  exists m' s' rest FL', take_block heap y size m = Some (y, m') /\
    hp heap m' (bs1 ++ ((s', true) :: rest) ++ bs2) FL' /\ FL' ≡ₚ frees (base heap) (bs1 ++ ((s', true) :: rest) ++ bs2) /\
    size + W <= s' /\ s' + total rest = s /\ (rest = [] \/ exists r, rest = [(r, false)]) /\
    payload_kept (busies (base heap) (bs1 ++ [(s, false)] ++ bs2)) m m'.
Proof.
  intros y Hhp HFL H1 H2 H3. pose proof W_pos as HW. pose proof (hp_lo _ _ _ _ Hhp) as Hheap.
  pose proof (hp_mid _ _ _ _ _ _ Hhp) as Hmid. destruct Hmid as [_ _ _ Hlay _ [_ [_ Hz2]] _ Hlo Hhi _].
  fold y in Hlay, Hlo, Hhi. cbn in Hlay, Hhi. destruct Hlay as ([Hs Hsw] & Hh & _). pose proof (total_nonneg _ Hz2) as Ht2.
  assert (y ∈ FL) as Hy by (rewrite HFL, frees_mid; left). apply list_elem_of_split in Hy as (l1 & l2 & ->).
  unfold take_block, load. rewrite Hh. cbn [mbind option_bind]. rewrite hdr_clear_size by (done || lia).
  unfold FREE_BLOCK. rewrite !ul_small by lia. destruct (Z.ltb_spec (size + 2 * W) (s - 3 * W)).
  - destruct (cut_ok heap m bs1 s bs2 l1 l2 y size eq_refl Hhp HFL) as (m' & Hc & Hhp' & HFL' & Hp); try done; try lia.
    exists m', (size + W), [(s - (size + W), false)], (y + (size + W) :: l1 ++ l2). split_and!; try done; try lia; [cbn; lia|eauto].
  - destruct (whole_ok heap m bs1 s bs2 l1 l2 y eq_refl Hhp HFL) as (m' & Hc & Hhp' & HFL' & Hp).
    exists m', s, [], (l1 ++ l2). split_and!; try done; [|cbn; lia|by left].
    destruct (block_unlink y m) as [m1|]; [|done]. cbn [mbind option_bind] in *.
    destruct (mark_block y m1) as [m2|]; [|done]. cbn [mbind option_bind] in *. by rewrite Hc.
Qed.

(** * Splitting a block at an aligned address *)

(** As [hp_rebuild], with a new free list. *)
Lemma hp_remake heap m m' bs1 mid mid' bs2 FL FL' y pb :
  hp heap m (bs1 ++ mid ++ bs2) FL -> y = base heap + total bs1 -> pb = last_busy true bs1 ->
  total mid' = total mid -> layout y pb mid' m' -> tail_ok (y + total mid) (last_busy pb mid') bs2 m' ->
  (forall x, x ∈ marks (base heap) bs1 -> m' !! x = m !! x) ->
  seg m' heap FL' heap -> FL' ≡ₚ frees (base heap) (bs1 ++ mid' ++ bs2) -> grows m m' ->
  hp heap m' (bs1 ++ mid' ++ bs2) FL'.
Proof.
  intros Hhp -> -> Ht Hlm [Hl2 Hse2] Hf1 Hseg HFL' Hg. pose proof (hp_mid _ _ _ _ _ _ Hhp) as Hmid.
  destruct Hhp as [Hl Hse Hs Hnd Hd Hm Hw Hlo Hhi].
  assert (top heap (bs1 ++ mid' ++ bs2) = top heap (bs1 ++ mid ++ bs2)) as Htop
    by (unfold top; rewrite !total_app; lia).
  assert (layout (base heap) true (bs1 ++ mid' ++ bs2) m') as Hlay.
  { apply layout_app. split; [eapply layout_frame; [apply Hmid|done]|]. apply layout_app. split; [done|]. by rewrite Ht. }
  pose proof (layout_sizes _ _ _ _ Hlay) as Hsz. split; try done.
  - unfold sentinel, top in *. rewrite !total_app. rewrite Ht.
    by replace (base heap + (total bs1 + (total mid + total bs2)))
      with (base heap + total bs1 + total mid + total bs2) by lia.
  - by eapply frees_nodup.
  - intros x Hx. by eapply ring_marks.
  - intros x Hx Hr. apply Hg, Hm; [done|]. by rewrite <- Htop.
  - by rewrite Htop.
Qed.

Lemma set_end_eq m y v s : m !! y = Some v -> get_clear_size v = s -> is_Some (m !! (y + s - W)) ->
  set_end_size y m = Some (<[y + s - W := s]> m).
Proof. intros Hv <- Hm. unfold set_end_size, load. rewrite Hv. cbn [mbind option_bind]. by apply store_ok. Qed.

(** The words that describe the two halves. *)
Definition split_marks (y d s : Z) : list Z := [y; y + d - W; y + d; y + s - W].

Lemma split_writes heap m s FL d y pb :
  m !! y = Some (header s false pb) -> seg m heap FL heap -> NoDup (ring heap ((y + d) :: FL)) ->
  (forall x, x ∈ ring heap ((y + d) :: FL) -> x ∉ split_marks y d s) ->
  (forall x, (W | x) -> y <= x < y + s -> is_Some (m !! x)) -> (W | y) -> 0 < s < 2 ^ LONG_BIT -> (W | s) ->
  4 * W <= d -> (W | d) -> 4 * W <= s - d ->
  exists m', (m ← store (y + d) (s - d) m; m ← set_end_size (y + d) m; m ← block_link heap (y + d) m;
              m ← block_set_size y d m; set_end_size y m) = Some m' /\
    seg m' heap ((y + d) :: FL) heap /\ layout y pb [(d, false); (s - d, false)] m' /\ grows m m' /\
    keeps (split_marks y d s ++ ring heap ((y + d) :: FL)) m m'.
Proof.
  intros Hh Hseg Hnd Hring Hmap Hy Hs Hsw Hd1 Hd2 Hd3. pose proof W_pos as HW.
  assert (W | s - d) as Hsd by (by apply Z.divide_sub_r). assert (W | W) as HWW by apply Z.divide_refl.
  rewrite store_ok by (apply Hmap; [by apply Z.divide_add_r|lia]). cbn [mbind option_bind].
  rewrite (set_end_eq _ _ (s - d) (s - d)); [|apply lookup_insert_eq|apply clear_free; [done|lia]|].
  2: { apply insert_mapped, Hmap; [apply Z.divide_sub_r; [by do 2 (apply Z.divide_add_r; [|done])|done]|lia]. }
  cbn [mbind option_bind]. replace (y + d + (s - d) - W) with (y + s - W) by lia. set (m1 := <[y + s - W := _]> _).
  assert (grows m m1) as Hg1 by (eapply grows_trans; apply grows_insert).
  assert (keeps (split_marks y d s) m m1) as Hk1.
  { intros x. unfold split_marks. rewrite !not_elem_of_cons. intros (? & ? & ? & ? & _). unfold m1. by rewrite !lookup_words by done. }
  assert (forall x, x ∈ split_marks y d s -> x ∉ ring heap ((y + d) :: FL)) as Hring' by (intros x Hx Hr; by eapply Hring).
  destruct (link_ok m1 heap (y + d) FL) as (m2 & -> & Hseg2 & Hk2 & Hg2); try done.
  { eapply seg_frame; [done|]. intros x Hx. apply Hk1, Hring. apply (ring_sub heap (y + d) [] FL). unfold ring. set_solver. }
  { apply Hg1, Hmap; [by do 2 (apply Z.divide_add_r; [|done])|unfold prev_at, link_of; lia]. }
  { apply Hg1, Hmap; [by do 3 (apply Z.divide_add_r; [|done])|unfold next_at, link_of; lia]. }
  assert (forall x, x ∈ split_marks y d s -> m2 !! x = m1 !! x) as Hm2 by (intros x Hx; by apply Hk2, Hring').
  unfold split_marks in Hm2. cbn [mbind option_bind].
  assert (m2 !! y = Some (header s false pb)) as Hh2.
  { rewrite Hm2 by left. unfold m1. by rewrite !lookup_words by lia. }
  unfold block_set_size, load. rewrite Hh2. cbn [mbind option_bind]. rewrite hdr_flags, Z.lor_comm, hdr_resize by done.
  rewrite store_ok by (by rewrite Hh2). cbn [mbind option_bind].
  rewrite (set_end_eq _ _ (header d false pb) d); [|apply lookup_insert_eq|by apply hdr_clear_size; [|lia]|].
  2: { apply insert_mapped, Hg2, Hg1, Hmap; [apply Z.divide_sub_r; [by apply Z.divide_add_r|done]|lia]. }
  set (m3 := <[y + d - W := d]> _). exists m3.
  assert (keeps (split_marks y d s) m2 m3) as Hk3.
  { intros x. unfold split_marks. rewrite !not_elem_of_cons. intros (? & ? & ? & ? & _). unfold m3. by rewrite !lookup_words by done. }
  split_and!; [done| | | |].
  - eapply seg_frame; [done|]. intros x Hx. apply Hk3, Hring. unfold ring. rewrite !elem_of_cons in *. tauto.
  - cbn. replace (y + d + (s - d) - W) with (y + s - W) by lia. unfold m3.
    rewrite lookup_words, lookup_insert_eq, lookup_insert_eq, !lookup_words, !Hm2 by (lia || set_solver).
    unfold m1. rewrite lookup_insert_eq, lookup_words, lookup_insert_eq by lia. by rewrite header_free.
  - eapply grows_trans; [done|]. eapply grows_trans; [done|]. eapply grows_trans; apply grows_insert.
  - intros x. rewrite not_elem_of_app. intros [Hx1 Hx2]. rewrite Hk3, Hk2, Hk1 by done. done.
Qed.

Lemma split_ok heap m bs1 s bs2 FL d :
  let y := base heap + total bs1 in let bs' := bs1 ++ [(d, false); (s - d, false)] ++ bs2 in
  hp heap m (bs1 ++ [(s, false)] ++ bs2) FL -> FL ≡ₚ frees (base heap) (bs1 ++ [(s, false)] ++ bs2) ->
  4 * W <= d -> (W | d) -> 4 * W <= s - d ->
  exists m', (m ← store (y + d) (s - d) m; m ← set_end_size (y + d) m; m ← block_link heap (y + d) m;
              m ← block_set_size y d m; set_end_size y m) = Some m' /\
    hp heap m' bs' ((y + d) :: FL) /\ (y + d) :: FL ≡ₚ frees (base heap) bs' /\
    payload_kept (busies (base heap) (bs1 ++ [(s, false)] ++ bs2)) m m'.
Proof.
  intros y bs' Hhp HFL Hd1 Hd2 Hd3. pose proof W_pos as HW. pose proof (hp_lo _ _ _ _ Hhp) as Hheap.
  pose proof (hp_sizes _ _ _ _ Hhp) as Hsz. pose proof (hp_mid _ _ _ _ _ _ Hhp) as Hmid.
  destruct Hmid as [_ _ _ Hlay [Ht1 Htse] [Hz1 [_ Hz2]] Hw Hlo Hhi Htop].
  fold y in Hlay, Hlo, Hhi, Hw, Ht1, Htse, Htop. cbn in Hlay, Hhi, Ht1, Htse. cbn [total] in Htop.
  rewrite Z.add_0_r in *. destruct Hlay as ([Hs Hsw] & Hh & _). pose proof (total_nonneg _ Hz2) as Ht2.
  assert (sizes bs') as Hsz'.
  { unfold bs', sizes, size_ok in *. rewrite !Forall_app, !Forall_cons in *. cbn in *. destruct_and!. split_and!; try done; try lia.
    by apply Z.divide_sub_r. }
  assert ((y + d) :: FL ≡ₚ frees (base heap) bs') as HFL'.
  { rewrite HFL. unfold bs'. rewrite !frees_app. cbn. fold y. replace (y + (d + (s - d + 0))) with (y + (s + 0)) by lia. solve_Permutation. }
  assert (forall x, x ∈ split_marks y d s -> x ∈ tmarks (base heap) bs') as Hmk.
  { intros x Hx. apply mid_marks. left. fold y. cbn. replace (y + d + (s - d) - W) with (y + s - W) by lia. exact Hx. }
  destruct (split_writes heap m s FL d y (last_busy true bs1) Hh) as (m' & Hm' & Hseg & Hl & Hg & Hk); try done; try lia.
  { apply Hhp. } { by eapply frees_nodup. }
  { intros x Hx Hm. by eapply ring_marks; [..|apply Hmk]. }
  { intros x Hx Hr. apply (hp_map _ _ _ _ Hhp); [done|rewrite <- Htop; lia]. }
  assert (forall x, x < y \/ y + s <= x -> x ∈ tmarks (base heap) (bs1 ++ [(s, false)] ++ bs2) -> m' !! x = m !! x) as Hout.
  { intros x Hx Hm. apply Hk. rewrite not_elem_of_app. split.
    - apply not_words. repeat constructor; lia.
    - intros Hr. unfold ring in Hr. rewrite links_cons in Hr. unfold prev_at, next_at, link_of in *.
      assert (x ∈ ring heap FL) as Hr'; [|by eapply hp_dis]. unfold ring. rewrite !elem_of_cons in *.
      destruct Hr as [?|[?|[?|[?|?]]]]; tauto || lia. }
  exists m'. split_and!; try done.
  - eapply (hp_remake heap m m' bs1 [(s, false)] [(d, false); (s - d, false)] bs2 FL); try done; cbn.
    + lia.
    + rewrite Z.add_0_r. fold y. split.
      * eapply layout_frame; [done|]. intros x Hx. pose proof (marks_range _ _ _ Hz2 Hx). apply Hout; [lia|].
        unfold tmarks. rewrite !marks_app, !elem_of_app. left. right. right. fold y. cbn. by rewrite Z.add_0_r.
      * eapply sentinel_frame; [done|]. apply Hout; [lia|]. unfold tmarks. apply elem_of_app. right.
        rewrite !total_app. cbn. apply list_elem_of_singleton. unfold y. lia.
    + intros x Hx. pose proof (marks_range _ _ _ Hz1 Hx) as Hmr. fold y in Hmr. apply Hout; [lia|].
      unfold tmarks. rewrite marks_app, !elem_of_app. tauto.
  - eapply payload_mono; [intros b Hb; apply (busies_mid _ _ _ _ _ Hb [(d, false); (s - d, false)]); cbn; lia|].
    eapply keeps_payload; try done. intros x [Hx|Hx]%elem_of_app; [left; by apply Hmk|by right].
Qed.

End HeapAlloc.
