(* ===== verification/HeapSearch.v ===== *)
(** Allocation on a boundary-marker heap: the aligned address of a free block,
    the first fit of [bm_memalign], and [bm_init]. *)
From S2P Require Import Prelude PageAlloc HeapBm HeapList HeapLayout HeapOps HeapFree HeapAlloc.

Local Open Scope Z_scope.
Local Open Scope embox_scope.

Section HeapSearch.
Context `{A : arch} `{!ArchOk A}.
Abbreviation W := (WORD (A := A)).
Abbreviation block := (Z * bool)%type.

(** Where [bm_memalign] starts the block it takes out of the free block [y]:
    at [y] if the address after the header is aligned, else before the first
    aligned address that leaves a free block in front. *)
Definition place (boundary y : Z) : Z :=
  if boundary =? 0 then y
  else if (y + W) mod boundary =? 0 then y
  else boundary * ((y + 5 * W + boundary - 1) / boundary) - W.

Definition fits (boundary size y s : Z) : bool := place boundary y - y + size + W <=? s.

(** No boundary, or a power of two that does not wrap past the heap. *)
Definition boundary_ok (heap boundary : Z) (bs : list block) : Prop :=
  boundary = 0 \/ exists k, boundary = 2 ^ k /\ 0 <= k < LONG_BIT /\ top heap bs + W + boundary <= 2 ^ LONG_BIT.

Lemma align_exact x k : 0 <= k < LONG_BIT -> 0 <= x -> x + 2 ^ k <= 2 ^ LONG_BIT ->
  binalign_bound x (2 ^ k) = 2 ^ k * ((x + 2 ^ k - 1) / 2 ^ k).
Proof.
  intros Hk Hx Hb. destruct (align_ok x k Hk Hx Hb) as (d & -> & Hd). f_equal.
  apply (Z.div_unique _ _ _ (x + 2 ^ k - 1 - 2 ^ k * d)); [left|]; lia.
Qed.

Lemma check_bound x k : 0 <= k < LONG_BIT -> Z.land x (ul (2 ^ k - 1)) = x mod 2 ^ k.
Proof.
  intros Hk. assert (0 < 2 ^ k < 2 ^ LONG_BIT) by (split; [apply Z.pow_pos_nonneg|apply Z.pow_lt_mono_r]; lia).
  rewrite ul_small by lia. rewrite <- Z.land_ones, Z.ones_equiv by lia. done.
Qed.

Lemma pow_word k x : 0 <= k -> (W | x) -> x mod 2 ^ k <> 0 -> (W | 2 ^ k).
Proof.
  intros Hk Hx Hm. destruct W_pow as (j & HWj & Hj). destruct (Z.le_gt_cases j k) as [Hle|Hgt].
  - rewrite HWj. exists (2 ^ (k - j)). rewrite <- Z.pow_add_r by lia. f_equal. lia.
  - exfalso. apply Hm. apply Z.mod_divide; [apply Z.pow_nonzero; lia|]. etransitivity; [|exact Hx].
    rewrite HWj. exists (2 ^ (j - k)). rewrite <- Z.pow_add_r by lia. f_equal. lia.
Qed.

(** The shape of [place]. *)
Lemma place_ok boundary y : boundary = 0 \/ (exists k, boundary = 2 ^ k /\ 0 <= k) -> (W | y) ->
  place boundary y = y \/ (4 * W <= place boundary y - y /\ (W | place boundary y - y)).
Proof.
  intros Hb Hy. pose proof W_pos as HW. unfold place. destruct (Z.eqb_spec boundary 0) as [|Hb0]; [by left|].
  destruct (Z.eqb_spec ((y + W) mod boundary) 0) as [|Hm]; [by left|]. right.
  destruct Hb as [?|(k & -> & Hk)]; [done|]. assert (0 < 2 ^ k) as Hp by (apply Z.pow_pos_nonneg; lia).
  assert (W | W) as HWW by apply Z.divide_refl. split.
  - pose proof (Z.div_mod (y + 5 * W + 2 ^ k - 1) (2 ^ k) ltac:(lia)).
    pose proof (Z.mod_pos_bound (y + 5 * W + 2 ^ k - 1) (2 ^ k) Hp). lia.
  - apply Z.divide_sub_r; [|done]. apply Z.divide_sub_r; [|done]. apply Z.divide_mul_l.
    eapply (pow_word k (y + W)); [done|by apply Z.divide_add_r|done].
Qed.

Lemma place_aligned boundary y : 0 < boundary -> (place boundary y + W) mod boundary = 0.
Proof.
  intros Hb. unfold place. destruct (Z.eqb_spec boundary 0); [lia|].
  destruct (Z.eqb_spec ((y + W) mod boundary) 0) as [|Hm]; [done|].
  rewrite Z.sub_add, Z.mul_comm. by apply Z.mod_mul.
Qed.

(** * [block_align] *)

Lemma block_align_ok heap m bs1 s bs2 FL boundary size :
  let y := base heap + total bs1 in let d := place boundary y - y in
  hp heap m (bs1 ++ [(s, false)] ++ bs2) FL -> FL ≡ₚ frees (base heap) (bs1 ++ [(s, false)] ++ bs2) ->
  boundary <> 0 -> boundary_ok heap boundary (bs1 ++ [(s, false)] ++ bs2) -> 3 * W <= size -> size + W <= s ->
  if fits boundary size y s then
    exists m' pre FL', block_align heap y boundary size m = Some (place boundary y, m') /\
      pre = (if d =? 0 then [] else [(d, false)]) /\
      hp heap m' ((bs1 ++ pre) ++ [(s - d, false)] ++ bs2) FL' /\
      FL' ≡ₚ frees (base heap) ((bs1 ++ pre) ++ [(s - d, false)] ++ bs2) /\
      payload_kept (busies (base heap) (bs1 ++ [(s, false)] ++ bs2)) m m'
  else block_align heap y boundary size m = Some (0, m).
Proof.
  intros y d Hhp HFL Hb0 Hb Hsz Hfit. pose proof W_pos as HW. pose proof (hp_lo _ _ _ _ Hhp) as Hheap.
  pose proof (hp_mid _ _ _ _ _ _ Hhp) as Hmid. destruct Hmid as [_ _ _ Hlay _ [_ [_ Hz2]] Hw Hlo Hhi Htop].
  fold y in Hlay, Hlo, Hhi, Hw, Htop. cbn in Hlay, Hhi. cbn [total] in Htop. destruct Hlay as ([Hs Hsw] & Hh & _).
  pose proof (total_nonneg _ Hz2) as Ht2. destruct Hb as [?|(k & Hbk & Hk & Hbb)]; [done|].
  unfold block_align, load. rewrite Hh. cbn [mbind option_bind]. rewrite hdr_clear_size by (done || lia).
  rewrite (ul_small (y + W)), Hbk, check_bound by (done || lia). rewrite <- Hbk.
  destruct (Z.eqb_spec ((y + W) mod boundary) 0) as [Hm|Hm].
  - assert (place boundary y = y) as Hpl by (unfold place; by rewrite Hm; destruct (boundary =? 0)).
    unfold fits. rewrite Hpl, Z.sub_diag. destruct (Z.leb_spec (0 + size + W) s); [|lia]. rewrite ul_small by lia.
    assert (d = 0) as -> by (unfold d; lia). exists m, [], FL. rewrite app_nil_r, Z.sub_0_r. split_and!; try done; try by intros ?.
    by destruct (Z.geb_spec (s - W) size); [|lia].
  - assert (place boundary y = binalign_bound (y + 5 * W) boundary - W) as Hpl.
    { rewrite Hbk, align_exact, <- Hbk by lia. unfold place. rewrite (proj2 (Z.eqb_neq _ _) Hm).
      by rewrite (proj2 (Z.eqb_neq _ _) Hb0). }
    assert (place boundary y + W < y + 5 * W + boundary) as Hup.
    { rewrite Hpl, Hbk. destruct (align_ok (y + 5 * W) k) as (q & -> & Hq); lia. }
    destruct (place_ok boundary y) as [Hpe|[Hd1 Hd2]]; [right; exists k; lia|done| |].
    { exfalso. apply Hm. rewrite <- Hpe. apply place_aligned. subst boundary. lia. }
    fold d in Hd1, Hd2. assert (place boundary y = y + d) as Hyd by (unfold d; lia).
    replace (ul (y + FREE_BLOCK + 2 * W)) with (y + 5 * W) by (unfold FREE_BLOCK; rewrite ul_small; lia).
    assert (binalign_bound (y + 5 * W) boundary = y + d + W) as -> by lia.
    rewrite (ul_small (y + s)), (ul_small (y + d + W - W)) by lia. replace (y + d + W - W) with (y + d) by lia.
    unfold fits. rewrite Hyd. replace (y + d - y) with d by lia. rewrite (ul_small d) by lia.
    destruct (Z.leb_spec (d + size + W) s) as [Hf|Hf].
    + destruct (Z.gtb_spec (y + d + W) (y + s)); [lia|]. rewrite (ul_small (s - d)), (ul_small (size + W)) by lia.
      destruct (Z.ltb_spec (s - d) (size + W)); [lia|].
      destruct (split_ok heap m bs1 s bs2 FL d Hhp HFL) as (m' & Hm' & Hhp' & HFL' & Hp); [lia|done|lia|]. fold y in Hm', Hhp', HFL'.
      exists m', [(d, false)], (y + d :: FL). destruct (Z.eqb_spec d 0); [lia|]. rewrite <- app_assoc. cbn [app] in *.
      split_and!; try done. revert Hm'.
      repeat (match goal with |- context [mbind _ ?x] => destruct x; [|done] end; cbn [mbind option_bind]). by intros [= ->].
    + destruct (Z.gtb_spec (y + d + W) (y + s)); [done|]. rewrite (ul_small (s - d)), (ul_small (size + W)) by lia.
      by destruct (Z.ltb_spec (s - d) (size + W)); [|lia].
Qed.

(** * The search *)

(** The free blocks, with their sizes. *)
Fixpoint fblocks (a : Z) (bs : list block) : list (Z * Z) :=
  match bs with
  | [] => []
  | (s, b) :: bs => (if (b : bool) then [] else [(a, s)]) ++ fblocks (a + s) bs
  end.

Lemma fblocks_split bs : forall a y s, (y, s) ∈ fblocks a bs ->
  exists bs1 bs2, bs = bs1 ++ [(s, false)] ++ bs2 /\ y = a + total bs1.
Proof.
  induction bs as [|[t b] bs IH]; intros a y s; cbn; [by intros ?%elem_of_nil|]. intros [H|H]%elem_of_app.
  - destruct b; [by apply elem_of_nil in H|]. apply list_elem_of_singleton in H as [= -> ->].
    exists [], bs. split; [done|cbn; lia].
  - destruct (IH _ _ _ H) as (bs1 & bs2 & -> & ->). exists ((t, b) :: bs1), bs2. split; [done|cbn; lia].
Qed.

Lemma fblocks_elem a bs1 s bs2 : (a + total bs1, s) ∈ fblocks a (bs1 ++ [(s, false)] ++ bs2).
Proof.
  revert a. induction bs1 as [|[t b] bs1 IH]; intros a; cbn; [rewrite Z.add_0_r; left|]. apply elem_of_app. right.
  rewrite Z.add_assoc. apply IH.
Qed.

(** The free blocks of [bs'] are cut out of those of [bs]. *)
Definition carved (a : Z) (bs bs' : list block) : Prop :=
  forall y' s', (y', s') ∈ fblocks a bs' ->
    exists y s, (y, s) ∈ fblocks a bs /\ y' + s' <= y + s /\ (y' = y \/ y + 4 * W <= y').

Lemma fblocks_app bs1 bs2 : forall a, fblocks a (bs1 ++ bs2) = fblocks a bs1 ++ fblocks (a + total bs1) bs2.
Proof.
  induction bs1 as [|[s b] bs1 IH]; intros a; cbn; [by rewrite Z.add_0_r|].
  rewrite IH, app_assoc. do 2 f_equal. lia.
Qed.

(** What an allocation of [size] bytes at [ptr] does to the heap: one busy
    block more, large enough, and nothing else. *)
Definition allocated (heap : Z) (m : memory) (bs : list block) (size ptr : Z) (m' : memory) (bs' : list block) : Prop :=
  (exists FL', hinv heap m' bs' FL') /\ total bs' = total bs /\
  (exists B1 B2 s', busies (base heap) bs = B1 ++ B2 /\ busies (base heap) bs' = B1 ++ (ptr - W, s') :: B2 /\ size + W <= s') /\
  payload_kept (busies (base heap) bs) m m' /\ carved (base heap) bs bs'.

(** Allocating [s'] bytes after the first [d] of a free block. *)
Lemma carve_ok a bs1 pre d s s' rest bs2 : 4 * W <= s' -> d = 0 \/ 4 * W <= d -> pre = (if d =? 0 then [] else [(d, false)]) ->
  s' + total rest = s - d -> 0 <= total rest -> rest = [] \/ (exists r, rest = [(r, false)]) ->
  carved a (bs1 ++ [(s, false)] ++ bs2) ((bs1 ++ pre) ++ ((s', true) :: rest) ++ bs2).
Proof.
  intros Hs' Hd Hpre Hrest Hr0 Hr y' t Hy. pose proof W_pos as HW.
  assert (total pre = d) as Htp by (rewrite Hpre; destruct (Z.eqb_spec d 0); cbn; lia).
  assert (forall x, x ∈ fblocks a (bs1 ++ [(s, false)] ++ bs2) <->
    x ∈ fblocks a bs1 \/ x = (a + total bs1, s) \/ x ∈ fblocks (a + total bs1 + s) bs2) as Hold.
  { intros x. rewrite !fblocks_app, !elem_of_app. cbn. by rewrite list_elem_of_singleton, Z.add_0_r. }
  setoid_rewrite Hold. rewrite !fblocks_app, !elem_of_app, total_app, Htp in Hy. cbn in Hy.
  replace (a + (total bs1 + d) + (s' + total rest)) with (a + total bs1 + s) in Hy by lia.
  destruct Hy as [[Hy|Hy]|[Hy|Hy]].
  - exists y', t. split_and!; [tauto|lia|by left].
  - rewrite Hpre in Hy. destruct (Z.eqb_spec d 0); cbn in Hy; [by apply elem_of_nil in Hy|].
    apply list_elem_of_singleton in Hy as [= -> ->]. exists (a + total bs1), s. split_and!; [tauto|lia|by left].
  - destruct Hr as [->|[r ->]]; cbn in Hy, Hrest; [by apply elem_of_nil in Hy|]. apply list_elem_of_singleton in Hy as [= -> ->].
    exists (a + total bs1), s. split_and!; [tauto|lia|right; lia].
  - exists y', t. split_and!; [tauto|lia|by left].
Qed.

Lemma merged_weaken bs : merged false bs -> merged true bs.
Proof. destruct bs as [|[s b] bs]; [done|]. cbn. intros [_ H]. by split. Qed.

(** Taking a block out of the free block [y], in which it fits. *)
Lemma alloc_at heap m bs1 s bs2 FL boundary size :
  let y := base heap + total bs1 in let bs := bs1 ++ [(s, false)] ++ bs2 in
  hinv heap m bs FL -> boundary_ok heap boundary bs -> 3 * W <= size -> (W | size) -> fits boundary size y s = true ->
  exists m0 m' bs', (if boundary =? 0 then Some (y, m) else block_align heap y boundary size m) = Some (place boundary y, m0) /\
    take_block heap (place boundary y) size m0 = Some (place boundary y, m') /\
    allocated heap m bs size (place boundary y + W) m' bs'.
Proof.
  intros y bs [Hhp HFL Hmg] Hb H1 H2 Hf. pose proof W_pos as HW. set (d := place boundary y - y).
  pose proof (hp_mid _ _ _ _ _ _ Hhp) as Hmid. destruct Hmid as [_ _ _ _ _ _ Hw _ _ _]. fold y in Hw.
  assert (d = 0 \/ 4 * W <= d) as Hd.
  { destruct (place_ok boundary y) as [Hp|[Hp _]]; try done; unfold d; [|lia|lia]. destruct Hb as [?|(k & ? & ? & _)]; [by left|right; exists k; lia]. }
  assert (size + W <= s - d) as Hsd. { unfold fits in Hf. apply Z.leb_le in Hf. unfold d. lia. }
  assert (exists m0 pre FL0, (if boundary =? 0 then Some (y, m) else block_align heap y boundary size m) = Some (place boundary y, m0) /\
    pre = (if d =? 0 then [] else [(d, false)]) /\ hp heap m0 ((bs1 ++ pre) ++ [(s - d, false)] ++ bs2) FL0 /\
    FL0 ≡ₚ frees (base heap) ((bs1 ++ pre) ++ [(s - d, false)] ++ bs2) /\ payload_kept (busies (base heap) bs) m m0)
    as (m0 & pre & FL0 & Hal & Hpre & Hhp0 & HFL0 & Hp0).
  { destruct (Z.eqb_spec boundary 0) as [Hb0|Hb0].
    - assert (place boundary y = y) as Hpl by (by unfold place; rewrite Hb0). assert (d = 0) as -> by (unfold d; lia).
      exists m, [], FL. rewrite Hpl, app_nil_r, Z.sub_0_r. by split_and!.
    - pose proof (block_align_ok heap m bs1 s bs2 FL boundary size Hhp HFL Hb0 Hb H1) as Hba. fold y in Hba. rewrite Hf in Hba.
      fold d in Hba. apply Hba. lia. }
  assert (total pre = d) as Htp by (rewrite Hpre; destruct (Z.eqb_spec d 0); cbn; lia).
  assert (busies (base heap) ((bs1 ++ pre) ++ [(s - d, false)] ++ bs2) = busies (base heap) bs) as EB.
  { unfold bs. rewrite !busies_app, total_app, Htp. assert (busies (base heap + total bs1) pre = []) as ->
      by (rewrite Hpre; by destruct (d =? 0)). rewrite app_nil_r. cbn. do 2 f_equal. lia. }
  destruct (take_ok heap m0 (bs1 ++ pre) (s - d) bs2 FL0 size Hhp0 HFL0 H1 H2 Hsd)
    as (m' & s' & rest & FL' & Ht & Hhp' & HFL' & Hs' & Htot & Hrest & Hp').
  rewrite total_app, Htp in Ht. replace (base heap + (total bs1 + d)) with (place boundary y) in Ht by (unfold d; lia).
  exists m0, m', ((bs1 ++ pre) ++ ((s', true) :: rest) ++ bs2). split_and!; try done.
  unfold bs in Hmg. apply merged_app in Hmg as [Hm1 [Hlb Hm2]]. cbn in Hlb, Hm2.
  assert (last_busy true bs1 = true) as Hlb1 by (destruct (last_busy true bs1); [done|by apply Hlb]).
  split_and!.
  - exists FL'. split; try done. rewrite !merged_app, Hlb1. split_and!; try done.
    + rewrite Hpre. by destruct (d =? 0).
    + cbn. by destruct Hrest as [->|[r ->]].
    + destruct Hrest as [->|[r ->]]; cbn; [by apply merged_weaken|done].
  - unfold bs. rewrite !total_app. cbn. lia.
  - exists (busies (base heap) bs1), (busies (y + s) bs2), s'. replace (place boundary y + W - W) with (y + d) by (unfold d; lia).
    unfold bs. rewrite !busies_app, !total_app, Htp. cbn. fold y. rewrite !Z.add_0_r. split_and!; try done.
    assert (busies y pre = []) as -> by (rewrite Hpre; by destruct (d =? 0)).
    assert (forall a, busies a rest = []) as -> by (intros a; by destruct Hrest as [->|[r ->]]).
    rewrite app_nil_r. cbn. replace (base heap + (total bs1 + d)) with (y + d) by (unfold y; lia). do 3 f_equal. lia.
  - eapply payload_trans; [done|]. by rewrite <- EB.
  - apply (carve_ok _ _ pre d); try done; [lia|].
    pose proof (hp_sizes _ _ _ _ Hhp') as Hz. unfold sizes in Hz. rewrite !Forall_app, Forall_cons in Hz. apply total_nonneg. unfold sizes. tauto.
Qed.

(** The header of a free block gives its size. *)
Lemma free_header heap m bs FL y s : hp heap m bs FL -> (y, s) ∈ fblocks (base heap) bs ->
  exists pb, m !! y = Some (header s false pb) /\ (W | s) /\ 4 * W <= s /\ base heap <= y /\ y + s + W < 2 ^ LONG_BIT.
Proof.
  intros Hhp (bs1 & bs2 & -> & ->)%fblocks_split. pose proof (hp_mid _ _ _ _ _ _ Hhp) as Hmid.
  destruct Hmid as [_ _ _ Hlay _ [_ [_ Hz2]] _ Hlo Hhi _]. cbn in Hlay, Hhi. destruct Hlay as ([Hs Hsw] & Hh & _).
  pose proof (total_nonneg _ Hz2). unfold base, HEAP_DESC in *. exists (last_busy true bs1). split_and!; done || lia.
Qed.

Lemma free_unique heap m bs FL y s s' : hp heap m bs FL ->
  (y, s) ∈ fblocks (base heap) bs -> (y, s') ∈ fblocks (base heap) bs -> s = s'.
Proof.
  intros Hhp H1 H2. pose proof W_pos as HW. pose proof (hp_lo _ _ _ _ Hhp) as Hlo.
  destruct (free_header _ _ _ _ _ _ Hhp H1) as (pb & Hh & Hs & Hs4 & Hb & Hr).
  destruct (free_header _ _ _ _ _ _ Hhp H2) as (pb' & Hh' & Hs' & Hs4' & Hb' & Hr'). unfold base, HEAP_DESC in *.
  rewrite Hh in Hh'. injection Hh' as E. rewrite <- (hdr_clear_size s false pb), E, hdr_clear_size by (done || lia). done.
Qed.

(** One free block: taken if the object fits, else left alone. *)
Lemma try_ok heap m bs FL boundary size y s :
  hinv heap m bs FL -> boundary_ok heap boundary bs -> 3 * W <= size -> (W | size) -> size + W < 2 ^ LONG_BIT ->
  (y, s) ∈ fblocks (base heap) bs ->
  if fits boundary size y s then
    exists m' bs', try_block heap boundary size y m = Some (Some (place boundary y + W), m') /\
      allocated heap m bs size (place boundary y + W) m' bs'
  else try_block heap boundary size y m = Some (None, m).
Proof.
  intros Hinv Hb H1 H2 H3 Hy. pose proof W_pos as HW. pose proof (hi_hp _ _ _ _ Hinv) as Hhp. pose proof (hp_lo _ _ _ _ Hhp) as Hlo.
  destruct (free_header _ _ _ _ _ _ Hhp Hy) as (pb & Hh & Hs & Hs4 & Hby & Hr). unfold base, HEAP_DESC in Hby.
  unfold try_block, load. rewrite Hh. cbn [mbind option_bind]. rewrite hdr_clear_size, (ul_small (size + W)) by (done || lia).
  apply fblocks_split in Hy as (bs1 & bs2 & -> & Ey). destruct (fits boundary size y s) eqn:Hf; rewrite Ey in Hf.
  - pose proof Hf as Hf'. unfold fits in Hf'. apply Z.leb_le in Hf'.
    assert (0 <= place boundary y - y) as Hd.
    { destruct (place_ok boundary y) as [->|[? _]]; try lia.
      - destruct Hb as [?|(k & ? & ? & _)]; [by left|right; exists k; lia].
      - rewrite Ey. by apply hp_mid in Hhp as [_ _ _ _ _ _ ? _ _ _]. }
    destruct (alloc_at heap m bs1 s bs2 FL boundary size Hinv Hb H1 H2 Hf) as (m0 & m' & bs' & Hal & Ht & Hpost).
    rewrite <- Ey in *. exists m', bs'. split; [|done].
    destruct (Z.gtb_spec (size + W) s); [lia|]. destruct (Z.eqb_spec boundary 0) as [->|Hb0]; cbn [negb].
    + injection Hal as ->. change (place 0 y) with y in *. by rewrite Ht.
    + rewrite Hal. cbn [mbind option_bind]. destruct (Z.eqb_spec (place boundary y) 0); [lia|]. by rewrite Ht.
  - destruct (Z.gtb_spec (size + W) s) as [|Hle]; [done|]. destruct (Z.eqb_spec boundary 0) as [->|Hb0]; cbn [negb].
    + unfold fits, place in Hf. cbn in Hf. apply Z.leb_gt in Hf. lia.
    + pose proof (block_align_ok heap m bs1 s bs2 FL boundary size Hhp (hi_frees _ _ _ _ Hinv) Hb0 Hb H1 Hle) as Hba.
      rewrite Hf, <- Ey in Hba. by rewrite Hba.
Qed.

Lemma memalign_loop_ok heap m bs FL boundary size :
  hinv heap m bs FL -> boundary_ok heap boundary bs -> 3 * W <= size -> (W | size) -> size + W < 2 ^ LONG_BIT ->
  forall todo front fuel, FL = front ++ todo -> (length todo < fuel)%nat ->
  (memalign_loop fuel heap boundary size (firstn_link todo heap) m = Some (None, m) /\
     forall y s, y ∈ todo -> (y, s) ∈ fblocks (base heap) bs -> fits boundary size y s = false) \/
  (exists y s m' bs', (y, s) ∈ fblocks (base heap) bs /\ fits boundary size y s = true /\
     memalign_loop fuel heap boundary size (firstn_link todo heap) m = Some (Some (place boundary y + W), m') /\
     allocated heap m bs size (place boundary y + W) m' bs').
Proof.
  intros Hinv Hb H1 H2 H3. pose proof W_pos as HW. pose proof (hi_hp _ _ _ _ Hinv) as Hhp.
  induction todo as [|y todo IH]; intros front [|fuel] HFL Hfuel; cbn [length] in Hfuel; try lia; cbn [memalign_loop firstn_link].
  - left. rewrite (proj2 (Z.eqb_eq heap (heap_get_free_blocks heap)) eq_refl). split; [done|]. by intros y s ?%elem_of_nil.
  - assert (y ∈ frees (base heap) bs) as Hy by (rewrite <- (hi_frees _ _ _ _ Hinv), HFL; apply elem_of_app; right; left).
    destruct (frees_elem _ _ _ Hy) as (bs1 & s & bs2 & Ebs & Ey).
    assert ((y, s) ∈ fblocks (base heap) bs) as Hyf by (rewrite Ebs, Ey; apply fblocks_elem).
    destruct (free_header _ _ _ _ _ _ Hhp Hyf) as (pb & Hh & Hs & Hs4 & Hby & Hr).
    unfold heap_get_free_blocks, link_of. unfold base, HEAP_DESC in Hby. destruct (Z.eqb_spec (y + W) heap); [lia|].
    replace (y + W - W) with y by lia. pose proof (try_ok heap m bs FL boundary size y s Hinv Hb H1 H2 H3 Hyf) as Htry.
    destruct (fits boundary size y s) eqn:Hf.
    + right. destruct Htry as (m' & bs' & Ht & Hpost). exists y, s, m', bs'. split_and!; try done. by rewrite Ht.
    + rewrite Htry. cbn [mbind option_bind]. unfold load.
      pose proof (hp_seg _ _ _ _ Hhp) as Hseg. rewrite HFL in Hseg. apply seg_app in Hseg as [_ Hseg].
      apply prev_first in Hseg as [Hnext _]. unfold link_of in Hnext. rewrite Hnext. cbn [mbind option_bind].
      destruct (IH (front ++ [y]) fuel) as [[Hl Hn]|Hp]; [by rewrite <- app_assoc|lia| |by right].
      left. split; [done|]. intros z t [->|Hz]%elem_of_cons Ht; [|by apply Hn].
      by rewrite <- (free_unique _ _ _ _ _ _ _ Hhp Hyf Ht).
Qed.

(** The fuel of [bm_memalign]: the free list has at most as many elements as
    the memory has words. *)
Lemma list_in_memory heap m bs FL : hinv heap m bs FL -> (length FL <= base.size m)%nat.
Proof.
  intros Hinv. pose proof (hi_hp _ _ _ _ Hinv) as Hhp. pose proof (hp_sizes _ _ _ _ Hhp) as Hsz.
  assert (NoDup FL) as Hnd.
  { rewrite (hi_frees _ _ _ _ Hinv). by apply (apart_frees bs (base heap) Hsz). }
  rewrite <- (size_list_to_set (C := gset Z) FL Hnd), <- (size_dom (D := gset Z) m). apply subseteq_size.
  intros y Hy%elem_of_list_to_set. apply elem_of_dom. rewrite (hi_frees _ _ _ _ Hinv) in Hy.
  destruct (frees_elem _ _ _ Hy) as (bs1 & s & bs2 & -> & ->).
  destruct (free_header _ _ _ _ _ _ Hhp (fblocks_elem _ bs1 s bs2)) as (pb & -> & _). done.
Qed.

(** * Less room, larger requests *)

(** No boundary, or a power of two. *)
Definition pow_or_0 (b : Z) : Prop := b = 0 \/ exists k, b = 2 ^ k /\ 0 <= k.

Lemma ceil_le x z b : 0 < b -> (b | z) -> x <= z -> b * ((x + b - 1) / b) <= z.
Proof.
  intros Hb [q ->] Hx. assert ((x + b - 1) / b < q + 1) by (apply Z.div_lt_upper_bound; lia). nia.
Qed.

Lemma ceil_ge x b : 0 < b -> x <= b * ((x + b - 1) / b).
Proof.
  intros Hb. pose proof (Z.div_mod (x + b - 1) b ltac:(lia)). pose proof (Z.mod_pos_bound (x + b - 1) b Hb). lia.
Qed.

Lemma place_ge b y : 0 <= b -> y <= place b y.
Proof.
  intros Hb. pose proof W_pos as HW. unfold place. zbool; try lia. pose proof (ceil_ge (y + 5 * W) b ltac:(lia)). lia.
Qed.

Lemma pow_ge_0 b : pow_or_0 b -> 0 <= b.
Proof. intros [->|(k & -> & Hk)]; [lia|]. apply Z.pow_nonneg. lia. Qed.

Lemma place_mono_addr b y y' : 0 <= b -> y' = y \/ y + 4 * W <= y' -> place b y <= place b y'.
Proof.
  intros Hb [->|Hy]; [lia|]. pose proof W_pos as HW. pose proof (place_ge b y' Hb) as Hge. unfold place at 1.
  destruct (Z.eqb_spec b 0); [lia|]. destruct (Z.eqb_spec ((y + W) mod b) 0); [lia|].
  assert (b * ((y + 5 * W + b - 1) / b) <= place b y' + W); [|lia]. apply ceil_le; [lia| |lia].
  apply Z.mod_divide; [lia|]. apply place_aligned. lia.
Qed.

Lemma place_mono_boundary b b' y : pow_or_0 b -> pow_or_0 b' -> b <= b' -> place b y <= place b' y.
Proof.
  intros Hb Hb' Hle. pose proof W_pos as HW. pose proof (pow_ge_0 b' Hb') as H0'. pose proof (place_ge b' y H0') as Hge.
  unfold place at 1. destruct (Z.eqb_spec b 0) as [|Hb0]; [lia|]. destruct (Z.eqb_spec ((y + W) mod b) 0) as [|Hm]; [lia|].
  destruct Hb as [?|(k & -> & Hk)]; [done|]. assert (0 < 2 ^ k) as Hp by (apply Z.pow_pos_nonneg; lia).
  destruct Hb' as [->|(k' & -> & Hk')]; [lia|].
  assert (2 ^ k | 2 ^ k') as Hdiv.
  { exists (2 ^ (k' - k)). assert (k <= k') by (apply (Z.pow_le_mono_r_iff 2); lia). rewrite <- Z.pow_add_r by lia. f_equal. lia. }
  pose proof (place_aligned (2 ^ k') y ltac:(lia)) as Hal. apply Z.mod_divide in Hal; [|lia].
  assert (2 ^ k | place (2 ^ k') y + W) as Hal' by (etransitivity; done).
  assert (place (2 ^ k') y <> y) as Hne by (intros E; apply Hm, Z.mod_divide; [lia|by rewrite <- E]).
  assert (y + 5 * W <= place (2 ^ k') y + W) as Hfar.
  { revert Hne. unfold place. zbool; try lia. intros _. pose proof (ceil_ge (y + 5 * W) (2 ^ k') ltac:(lia)). lia. }
  assert (2 ^ k * ((y + 5 * W + 2 ^ k - 1) / 2 ^ k) <= place (2 ^ k') y + W) by (by apply ceil_le). lia.
Qed.

(** What does not fit here does not fit in a part of it, nor does more. *)
Lemma fits_less b n y s b' n' y' s' : pow_or_0 b -> pow_or_0 b' -> b <= b' -> n <= n' ->
  y' + s' <= y + s -> y' = y \/ y + 4 * W <= y' -> fits b n y s = false -> fits b' n' y' s' = false.
Proof.
  intros Hb Hb' Hle Hn Hs Hy. unfold fits. rewrite !Z.leb_gt. pose proof (place_mono_boundary b b' y Hb Hb' Hle).
  pose proof (place_mono_addr b' y y' (pow_ge_0 _ Hb') Hy). lia.
Qed.

End HeapSearch.
