(* ===== verification/HeapTheorems.v ===== *)
(** The boundary-marker heap as its clients see it: the live objects, and what
    [bm_init], [bm_memalign] and [bm_free] do to them. *)
From S2P Require Import Prelude PageAlloc HeapBm HeapList HeapLayout HeapOps HeapFree HeapAlloc HeapSearch.

Local Open Scope Z_scope.
Local Open Scope embox_scope.

Section HeapTheorems.
Context `{A : arch} `{!ArchOk A}.
Abbreviation W := (WORD (A := A)).
Abbreviation block := (Z * bool)%type.

(** [B] lists the blocks of the live objects in a heap with [T] bytes of
    blocks. *)
Definition heap_rep (heap T : Z) (st : heap_st) (B : list (Z * Z)) : Prop :=
  exists bs FL, hinv heap (mem st) bs FL /\ busies (base heap) bs = B /\ total bs = T /\
    count st = s32 (Z.of_nat (length B)).

Lemma round_size_eq size : 0 < size -> size + 16 <= 2 ^ LONG_BIT ->
  round_size size = 2 ^ 4 * ((Z.max size (3 * W) + 2 ^ 4 - 1) / 2 ^ 4).
Proof.
  intros Hs Hb. pose proof W_pos as HW. pose proof long_bit_ge_32 as HL.
  assert (2 ^ 32 <= 2 ^ LONG_BIT) as HL2 by (apply Z.pow_le_mono_r; lia).
  rewrite <- align_exact; [|lia|lia|destruct W_cases; lia].
  unfold round_size, binalign_bound, FREE_BLOCK. change (2 ^ 4 - 1) with 15. rewrite (ul_small 15) by lia.
  do 2 f_equal. destruct (Z.ltb_spec size (3 * W)); lia.
Qed.

Lemma round_size_ok size : 0 < size -> size + 16 <= 2 ^ LONG_BIT ->
  size <= round_size size /\ 3 * W <= round_size size /\ (W | round_size size) /\
  round_size size < Z.max size (3 * W) + 16.
Proof.
  intros Hs Hb. rewrite round_size_eq by done. set (n := Z.max size (3 * W)). change (2 ^ 4) with 16.
  pose proof (Z.div_mod (n + 16 - 1) 16 ltac:(lia)). pose proof (Z.mod_pos_bound (n + 16 - 1) 16 ltac:(lia)).
  split_and!; try (unfold n in *; lia). apply Z.divide_mul_l. destruct W_cases as [->| ->]; [exists 4|exists 2]; done.
Qed.

Lemma round_size_mono a b : 0 < a <= b -> b + 16 <= 2 ^ LONG_BIT -> round_size a <= round_size b.
Proof.
  intros Hab Hb. rewrite !round_size_eq by lia. apply Z.mul_le_mono_nonneg_l; [lia|]. apply Z.div_le_mono; lia.
Qed.

Lemma s32_add a b : s32 (s32 a + b) = s32 (a + b).
Proof.
  unfold swrap. f_equal. set (c := 2 ^ (32 - 1)). set (k := 2 ^ 32).
  replace ((a + c) mod k - c + b + c) with ((a + c) mod k + b) by lia. rewrite Zplus_mod_idemp_l. f_equal. lia.
Qed.

(** * [bm_init] *)

Lemma bm_init_ok heap size nb m :
  (W | heap) -> 0 < heap -> (W | size) -> 8 * W <= size -> heap + size < 2 ^ LONG_BIT ->
  (forall x, (W | x) -> heap <= x < heap + size -> exists v, m !! x = Some v /\ 0 <= v < 2 ^ LONG_BIT) ->
  exists st, bm_init heap size nb m = Some st /\ heap_rep heap (size - 4 * W) st [].
Proof.
  intros Hh H0 Hsw Hs8 Hhi Hmap. pose proof W_pos as HW. assert (W | W) as HWW by apply Z.divide_refl.
  assert (forall x, (W | x) -> heap <= x < heap + size -> is_Some (m !! x)) as Hmap' by (intros x Hx Hr; destruct (Hmap x Hx Hr) as (v & -> & _); done).
  set (T := size - 4 * W). set (y := heap + 3 * W). assert (W | T) as HT by (apply Z.divide_sub_r; [done|by apply Z.divide_mul_r]).
  assert (W | y) as Hy by (apply Z.divide_add_r; [done|by apply Z.divide_mul_r]).
  unfold bm_init, heap_get_free_blocks, next_at, prev_at. fold y.
  rewrite store_ok by (apply Hmap'; [by apply Z.divide_add_r|lia]). cbn [mbind option_bind].
  rewrite store_ok by (apply insert_mapped, Hmap'; [done|lia]). cbn [mbind option_bind]. unfold HEAP_DESC. fold y.
  replace (ul (size - (3 * W + W))) with T by (unfold T; rewrite ul_small; lia).
  rewrite store_ok by (do 2 apply insert_mapped; apply Hmap'; [done|lia]). cbn [mbind option_bind].
  rewrite (set_end_eq _ _ T T); [|apply lookup_insert_eq|apply clear_free; [done|lia]|].
  2: { do 3 apply insert_mapped. apply Hmap'; [apply Z.divide_sub_r; [by apply Z.divide_add_r|done]|lia]. }
  cbn [mbind option_bind]. unfold mark_prev, load. rewrite lookup_words, lookup_insert_eq by lia. cbn [mbind option_bind].
  rewrite store_ok by (apply insert_mapped; by rewrite lookup_insert_eq). rewrite set_pbusy_free by done. cbn [mbind option_bind].
  set (m5 := <[y := header T false true]> _).
  assert (grows m m5) as Hg5 by (do 4 (eapply grows_trans; [|apply grows_insert]); apply grows_insert).
  destruct (link_ok m5 heap y []) as (m6 & -> & Hseg & Hk6 & Hg6).
  { cbn [seg]. unfold m5, next_at, prev_at. split; rewrite 3!lookup_words by (unfold y, T; lia); [|apply lookup_insert_eq].
    rewrite lookup_words by lia. apply lookup_insert_eq. }
  { unfold ring, prev_at, next_at. rewrite links_cons. unfold prev_at, next_at, link_of, y. cbn.
    repeat (apply NoDup_cons; split; [apply not_words; repeat constructor; lia|]). apply NoDup_nil_2. }
  { apply Hg5, Hmap'; [by apply Z.divide_add_r|unfold prev_at, link_of, y; lia]. }
  { apply Hg5, Hmap'; [by do 2 (apply Z.divide_add_r; [|done])|unfold next_at, link_of, y; lia]. }
  cbn [mbind option_bind].
  assert (forall x, y + 2 * W < x \/ x = y -> m6 !! x = m5 !! x) as Hm6.
  { intros x Hx. apply Hk6. unfold ring, prev_at, next_at. rewrite links_cons. unfold prev_at, next_at, link_of, y in *. cbn.
    apply not_words; repeat constructor; lia. }
  assert (m5 !! y = Some (header T false true)) as Hy5 by apply lookup_insert_eq.
  rewrite (Hm6 y), Hy5 by tauto. cbn [mbind option_bind].
  rewrite hdr_clear_size by (done || (unfold T; lia)). unfold mark_block, load.
  assert (exists v, m6 !! (y + T) = Some v /\ 0 <= v < 2 ^ LONG_BIT) as (v & Hv & Hvr).
  { rewrite Hm6 by (unfold T; lia). unfold m5. rewrite !lookup_words by (unfold y, T; lia). apply Hmap; [by apply Z.divide_add_r|unfold y, T; lia]. }
  rewrite Hv. cbn [mbind option_bind]. rewrite store_ok by (by rewrite Hv). cbn [mbind option_bind].
  eexists. split; [done|]. exists [(T, false)], [y]. cbn [mem count busies app total]. split_and!; [|done|unfold T; lia|done].
  assert (base heap = y) as Eb by (unfold base, HEAP_DESC; done).
  assert (top heap [(T, false)] = y + T) as Et by (unfold top; rewrite Eb; cbn; lia).
  split; [|by cbn; rewrite Eb|done]. split; rewrite ?Eb, ?Et; try done.
  - cbn. rewrite !lookup_words by (unfold T; lia). rewrite !Hm6 by (unfold T; lia). unfold m5, size_ok.
    rewrite lookup_insert_eq, lookup_words, lookup_insert_eq by (unfold T; lia). split_and!; try done. unfold T; lia.
  - exists (Z.lor v 1). rewrite lookup_insert_eq. split; [done|]. split; [by rewrite Z.lor_spec, orb_true_r|].
    pose proof long_bit_ge_32 as HL. apply bounded_testbit; [lia|]. split; [apply Z.lor_nonneg; lia|].
    intros i Hi. rewrite Z.lor_spec, (bounded_high_bit LONG_BIT v) by lia. by rewrite small_bits by lia.
  - eapply seg_frame; [done|]. intros x Hx. rewrite lookup_words; [done|]. rewrite !elem_of_cons in Hx. unfold links in Hx. cbn in Hx.
    rewrite !elem_of_cons, elem_of_nil in Hx. unfold prev_at, next_at, link_of, y, T in *. lia.
  - unfold ring, prev_at, next_at. rewrite links_cons. unfold prev_at, next_at, link_of, y. cbn.
    repeat (apply NoDup_cons; split; [apply not_words; repeat constructor; lia|]). apply NoDup_nil_2.
  - intros x Hx. unfold ring, tmarks in *. rewrite links_cons in Hx. cbn in Hx |- *. unfold prev_at, next_at, link_of, y, T in *.
    rewrite !elem_of_cons, elem_of_nil in Hx. apply not_words; repeat constructor; lia.
  - intros x Hx Hr. apply insert_mapped, Hg6, Hg5, Hmap'; [done|unfold y, T in *; lia].
  - unfold y, T. lia.
Qed.

(** * [bm_memalign] *)

Lemma bm_memalign_ok heap boundary size st bs FL :
  hinv heap (mem st) bs FL -> boundary_ok heap boundary bs -> 0 < size -> size + 32 + W <= 2 ^ LONG_BIT ->
  let n := round_size size in
  (bm_memalign heap boundary size st = Some (0, st) /\
     forall y s, (y, s) ∈ fblocks (base heap) bs -> fits boundary n y s = false) \/
  (exists y s m' bs', let ptr := place boundary y + W in
     (y, s) ∈ fblocks (base heap) bs /\ fits boundary n y s = true /\
     bm_memalign heap boundary size st = Some (ptr, HeapSt m' (s32 (count st + 1)) (bm_free_not_busy st)) /\
     allocated heap (mem st) bs n ptr m' bs').
Proof.
  intros Hinv Hb Hs Hbig n. pose proof W_pos as HW. destruct (round_size_ok size) as (Hn1 & Hn2 & Hn3 & Hn4); try lia.
  fold n in Hn1, Hn2, Hn3, Hn4.
  pose proof (list_in_memory _ _ _ _ Hinv) as Hlen. pose proof (hp_seg _ _ _ _ (hi_hp _ _ _ _ Hinv)) as Hseg.
  apply prev_first in Hseg as [Hnext _]. assert (n + W < 2 ^ LONG_BIT) as Hnb.
  { pose proof long_bit_ge_32 as HL. assert (2 ^ 32 <= 2 ^ LONG_BIT) by (apply Z.pow_le_mono_r; lia). destruct W_cases; lia. }
  unfold bm_memalign. destruct (Z.leb_spec size 0); [lia|]. fold n. unfold load, heap_get_free_blocks. rewrite Hnext. cbn [mbind option_bind].
  destruct (memalign_loop_ok heap (mem st) bs FL boundary n Hinv Hb Hn2 Hn3 Hnb FL [] (S (base.size (mem st))) eq_refl)
    as [[-> Hno]|(y & s & m' & bs' & Hy & Hf & -> & Hpost)]; [lia| |]; cbn [mbind option_bind].
  - left. split; [by destruct st|]. intros y s Hy. apply (Hno y s); [|done].
    apply fblocks_split in Hy as (bs1 & bs2 & -> & ->). rewrite (hi_frees _ _ _ _ Hinv), frees_mid. left.
  - right. by exists y, s, m', bs'.
Qed.

(** * The heap as an allocator of disjoint blocks *)

Inductive heap_op :=
  | Alloc (boundary size : Z)
  | Free (ptr : Z).

Definition exec (af : Z -> Z -> memory -> option memory) (heap : Z) (op : heap_op) (st : heap_st) : option (Z * heap_st) :=
  match op with
  | Alloc boundary size => bm_memalign heap boundary size st
  | Free ptr => st ← bm_free af heap ptr st; Some (0, st)
  end.

(** The pointers the client has got. *)
Definition ptrs (B : list (Z * Z)) : gset Z := list_to_set ((fun b => b.1 + W) <$> B).

(** The calls a client may make: it frees what it has got, once. *)
Definition valid (heap T : Z) (L : gset Z) (op : heap_op) : Prop :=
  match op with
  | Alloc boundary size => 0 < size /\ size + 32 + W <= 2 ^ LONG_BIT /\
      (boundary = 0 \/ exists k, boundary = 2 ^ k /\ 0 <= k < LONG_BIT /\ base heap + T + W + boundary <= 2 ^ LONG_BIT)
  | Free ptr => ptr ∈ L
  end.

(** What an allocator may do: [NULL], or a block that is large enough and
    aligned; freeing removes the block. *)
Inductive allocator : list (Z * Z) -> heap_op -> Z -> list (Z * Z) -> Prop :=
  | allocator_null B boundary size : allocator B (Alloc boundary size) 0 B
  | allocator_block B1 B2 boundary size ptr s :
      ptr <> 0 -> size + W <= s -> boundary = 0 \/ ptr mod boundary = 0 ->
      allocator (B1 ++ B2) (Alloc boundary size) ptr (B1 ++ (ptr - W, s) :: B2)
  | allocator_free B1 ptr s B2 : allocator (B1 ++ (ptr - W, s) :: B2) (Free ptr) 0 (B1 ++ B2).

Lemma refine_alloc af heap T st B boundary size :
  heap_rep heap T st B -> valid heap T (ptrs B) (Alloc boundary size) ->
  exists r st' B', exec af heap (Alloc boundary size) st = Some (r, st') /\ allocator B (Alloc boundary size) r B' /\
    heap_rep heap T st' B' /\ payload_kept B (mem st) (mem st').
Proof.
  intros (bs & FL & Hinv & HB & HT & Hc) (Hs & Hbig & Hb). pose proof W_pos as HW. cbn [exec].
  assert (boundary_ok heap boundary bs) as Hb' by (unfold boundary_ok, top; by rewrite HT).
  destruct (round_size_ok size) as (Hn1 & Hn2 & Hn3 & Hn4); try lia.
  destruct (bm_memalign_ok heap boundary size st bs FL Hinv Hb' Hs Hbig)
    as [[-> _]|(y & s & m' & bs' & Hy & Hf & -> & (FL' & Hinv') & HT' & (B1 & B2 & s' & EB & EB' & Hs') & Hp & _)].
  - exists 0, st, B. split_and!; [done|constructor|by exists bs, FL|by intros ?].
  - eexists _, _, (B1 ++ _ :: B2). assert (B = B1 ++ B2) as -> by congruence. rewrite HB in Hp. split_and!; [done| | |done].
    + apply (allocator_block B1 B2 boundary size _ s'); [|lia|].
      * destruct (free_header _ _ _ _ _ _ (hi_hp _ _ _ _ Hinv) Hy) as (pb & _ & _ & _ & Hyb & _).
        pose proof (hp_lo _ _ _ _ (hi_hp _ _ _ _ Hinv)). unfold base, HEAP_DESC in Hyb.
        destruct (place_ok boundary y) as [->|[? _]]; [destruct Hb as [?|(k & ? & ? & _)]; [by left|right; exists k; lia]| |lia|lia].
        apply fblocks_split in Hy as (bs1 & bs2 & -> & ->). by apply (hp_mid _ _ _ _ _ _ (hi_hp _ _ _ _ Hinv)).
      * destruct Hb as [?|(k & -> & ? & _)]; [by left|right]. apply place_aligned. apply Z.pow_pos_nonneg; lia.
    + exists bs', FL'. cbn [mem count]. split_and!; try done; [congruence|]. rewrite Hc, s32_add. f_equal.
      rewrite !length_app. cbn. lia.
Qed.

Lemma refine_free af `{!AfterFree af} heap T st B ptr :
  heap_rep heap T st B -> valid heap T (ptrs B) (Free ptr) ->
  exists st' B', exec af heap (Free ptr) st = Some (0, st') /\ allocator B (Free ptr) 0 B' /\
    heap_rep heap T st' B' /\ payload_kept B' (mem st) (mem st').
Proof.
  intros (bs & FL & Hinv & HB & HT & Hc) Hptr. apply elem_of_list_to_set, list_elem_of_fmap in Hptr as ([y s] & -> & Hs). cbn [fst].
  apply list_elem_of_split in Hs as (B1 & B2 & ->).
  destruct (bm_free_ok af heap st bs FL B1 _ s B2 Hinv HB) as (st' & bs' & FL' & Hf & Hinv' & HB' & HT' & Hc' & _ & _ & Hp).
  exists st', (B1 ++ B2). cbn [exec]. rewrite Hf. pose proof (allocator_free B1 (y + W) s B2) as Ha. rewrite Z.add_simpl_r in Ha.
  split_and!; [done|done| |done].
  exists bs', FL'. split_and!; try done; [lia|]. rewrite Hc', Hc. unfold Z.sub at 1. rewrite s32_add. f_equal. rewrite !length_app. cbn. lia.
Qed.

Lemma busies_nodup bs : forall a, sizes bs -> NoDup (fst <$> busies a bs).
Proof.
  pose proof W_pos as HW. induction bs as [|[s b] bs IH]; intros a Hs; cbn; [constructor|].
  apply Forall_cons in Hs as [[Hs _] Hbs]. cbn in Hs. specialize (IH (a + s) Hbs). destruct b; cbn; [|done].
  apply NoDup_cons. split; [|done]. intros ([y t] & E & Hy)%list_elem_of_fmap. cbn in E.
  apply busies_range in Hy; [lia|done].
Qed.

Lemma ptrs_app B1 B2 : ptrs (B1 ++ B2) = ptrs B1 ∪ ptrs B2.
Proof. unfold ptrs. by rewrite fmap_app, list_to_set_app_L. Qed.

Lemma ptrs_cons b B : ptrs (b :: B) = {[b.1 + W]} ∪ ptrs B.
Proof. done. Qed.

(** The pointers a client has got after a call that returned [r]. *)
Definition got (op : heap_op) (r : Z) (L : gset Z) : gset Z :=
  match op with
  | Alloc _ _ => if r =? 0 then L else {[r]} ∪ L
  | Free ptr => L ∖ {[ptr]}
  end.

Lemma got_ptrs B op r B' : allocator B op r B' -> NoDup (fst <$> B) -> ptrs B' = got op r (ptrs B).
Proof.
  intros [] Hnd; cbn [got]; [done| |].
  - rewrite (proj2 (Z.eqb_neq ptr 0)) by done. rewrite !ptrs_app, ptrs_cons. cbn [fst]. rewrite Z.sub_add. set_solver.
  - rewrite !ptrs_app, ptrs_cons. cbn [fst]. rewrite Z.sub_add.
    assert (ptr ∉ ptrs (B1 ++ B2)) as Hn; [|rewrite ptrs_app in Hn; set_solver].
    rewrite fmap_app, fmap_cons in Hnd. cbn [fst] in Hnd. rewrite <- Permutation_middle in Hnd. apply NoDup_cons in Hnd as [Hn _].
    rewrite <- fmap_app in Hn. intros ([y t] & E & Hy)%elem_of_list_to_set%list_elem_of_fmap. apply Hn, list_elem_of_fmap.
    exists (y, t). cbn in *. split; [lia|done].
Qed.

(** Any sequence of valid calls. *)
Inductive run (af : Z -> Z -> memory -> option memory) (heap T : Z) : heap_st -> gset Z -> heap_st -> gset Z -> Prop :=
  | run_nil st L : run af heap T st L st L
  | run_op st L op r st1 st2 L2 :
      valid heap T L op -> exec af heap op st = Some (r, st1) ->
      run af heap T st1 (got op r L) st2 L2 -> run af heap T st L st2 L2.

Lemma run_rep af `{!AfterFree af} heap T st L st' L' : run af heap T st L st' L' ->
  (exists B, heap_rep heap T st B /\ ptrs B = L) -> exists B, heap_rep heap T st' B /\ ptrs B = L'.
Proof.
  induction 1 as [|st L op r st1 st2 L2 Hv He _ IH]; [done|]. intros (B & HB & <-). apply IH.
  assert (NoDup (fst <$> B)) as Hnd.
  { destruct HB as (bs & FL & Hinv & <- & _). apply busies_nodup. eapply hp_sizes, hi_hp, Hinv. }
  destruct op as [boundary size|ptr].
  - destruct (refine_alloc af heap T st B boundary size HB Hv) as (r' & st1' & B' & He' & Ha & HB' & _).
    rewrite He' in He. injection He as -> ->. exists B'. split; [done|]. by apply got_ptrs.
  - destruct (refine_free af heap T st B ptr HB Hv) as (st1' & B' & He' & Ha & HB' & _).
    rewrite He' in He. injection He as <- ->. exists B'. split; [done|]. by apply got_ptrs.
Qed.

(** With nothing live the heap is one free block. *)
Lemma empty_one heap T st : heap_rep heap T st [] -> 0 < T -> exists FL, hinv heap (mem st) [(T, false)] FL.
Proof.
  intros (bs & FL & Hinv & HB & HT & _) HT0. exists FL.
  destruct bs as [|[s b] bs]; [cbn in HT; lia|]. destruct b; [done|]. cbn in HB. destruct (hi_merged _ _ _ _ Hinv) as [_ Hm].
  destruct bs as [|[s' b'] bs]; [cbn in HT; by replace T with s by lia|]. destruct Hm as [Hm _]. rewrite Hm in HB by done. done.
Qed.

(** * Claims *)

(** C2: a heap set up by [bm_init] behaves as an allocator: every valid call
    returns; [bm_memalign] gives [NULL] or a block of its own that is aligned
    and large enough, [bm_free] takes just its block away, and the contents of
    every other live block are kept. *)
Theorem bm_heap_refines af `{!AfterFree af} heap T st B op :
  heap_rep heap T st B -> valid heap T (ptrs B) op ->
  exists r st' B', exec af heap op st = Some (r, st') /\ allocator B op r B' /\ heap_rep heap T st' B' /\
    payload_kept (match op with Alloc _ _ => B | Free _ => B' end) (mem st) (mem st').
Proof.
  intros HB Hv. destruct op as [boundary size|ptr].
  - by apply refine_alloc.
  - destruct (refine_free af heap T st B ptr HB Hv) as (st' & B' & H). by exists 0, st', B'.
Qed.

(** Live blocks lie inside the heap, one after the other: none overlaps
    another, the descriptor or the end mark. *)
Theorem bm_blocks_disjoint heap T st B1 y s B2 y' s' :
  heap_rep heap T st (B1 ++ (y, s) :: B2) -> (y', s') ∈ B2 ->
  base heap <= y /\ y + 4 * W <= y + s /\ y + s <= y' /\ y' + s' <= base heap + T.
Proof.
  intros (bs & FL & Hinv & HB & <- & _) Hy'. pose proof (hp_sizes _ _ _ _ (hi_hp _ _ _ _ Hinv)) as Hs.
  destruct (busies_split _ _ _ _ _ _ HB) as (bs1 & bs2 & -> & -> & _ & <-). unfold sizes in Hs.
  rewrite Forall_app, Forall_cons in Hs. destruct Hs as (Hs1 & [Hs _] & Hs2). cbn in Hs.
  apply busies_range in Hy'; [|done]. pose proof (total_nonneg _ Hs1). rewrite total_app. cbn. lia.
Qed.

(** [bm_memalign] finds a place whenever there is one: it returns [NULL]
    only if no free block has room for the object at its aligned address. *)
Theorem bm_memalign_complete heap boundary size st bs FL y s :
  hinv heap (mem st) bs FL -> boundary_ok heap boundary bs -> 0 < size -> size + 32 + W <= 2 ^ LONG_BIT ->
  (y, s) ∈ fblocks (base heap) bs -> fits boundary (round_size size) y s = true ->
  exists z t st', (z, t) ∈ fblocks (base heap) bs /\ fits boundary (round_size size) z t = true /\
    bm_memalign heap boundary size st = Some (place boundary z + W, st').
Proof.
  intros Hinv Hb Hs Hbig Hy Hf.
  destruct (bm_memalign_ok heap boundary size st bs FL Hinv Hb Hs Hbig) as [[_ Hno]|(z & t & m' & bs' & Hz & Hf' & -> & _)].
  - rewrite (Hno y s Hy) in Hf. done.
  - eauto 6.
Qed.

(** C36: whatever a client does, once it has freed everything the heap is one
    free block again: a request for all of it succeeds. *)
Theorem bm_run_whole af `{!AfterFree af} heap T st st' size :
  heap_rep heap T st [] -> run af heap T st ∅ st' ∅ ->
  0 < size -> size + 32 + W <= 2 ^ LONG_BIT -> round_size size + W <= T ->
  bm_heap_is_empty st' = true /\ exists st'', bm_memalign heap 0 size st' = Some (base heap + W, st'').
Proof.
  intros HB Hrun Hs Hbig Hfit. pose proof W_pos as HW. destruct (round_size_ok size) as (_ & Hn & _); [lia|lia|].
  destruct (run_rep af heap T st ∅ st' ∅ Hrun) as (B & HB' & HL); [by exists []|].
  assert (B = []) as -> by (destruct B as [|b B]; [done|]; rewrite ptrs_cons in HL; set_solver).
  split; [destruct HB' as (_ & _ & _ & _ & _ & Hc); unfold bm_heap_is_empty; by rewrite Hc|].
  destruct (empty_one _ _ _ HB') as [FL Hinv]; [lia|].
  destruct (bm_memalign_ok heap 0 size st' _ FL Hinv) as [[_ Hno]|(z & t & m' & bs' & Hz & _ & -> & _)]; [by left|done|done| |].
  - exfalso. assert (fits 0 (round_size size) (base heap) T = false) as Hf by (apply Hno; left).
    unfold fits, place in Hf. cbn in Hf. apply Z.leb_gt in Hf. lia.
  - apply list_elem_of_singleton in Hz as [= -> ->]. eauto.
Qed.

(** Freeing an object twice is caught: the second call reports the
    pointer and changes nothing. *)
Theorem bm_free_twice af `{!AfterFree af} heap T st B y s :
  heap_rep heap T st B -> (y, s) ∈ B ->
  exists st', bm_free af heap (y + W) st = Some st' /\ count st' = s32 (count st - 1) /\
    bm_free af heap (y + W) st' = Some (HeapSt (mem st') (count st') (y + W)).
Proof.
  intros (bs & FL & Hinv & HB & _) Hy. apply list_elem_of_split in Hy as (B1 & B2 & ->). pose proof W_pos as HW.
  pose proof (hp_lo _ _ _ _ (hi_hp _ _ _ _ Hinv)) as Hlo. pose proof (hp_sizes _ _ _ _ (hi_hp _ _ _ _ Hinv)) as Hsz.
  assert (base heap <= y) as Hby by (eapply busies_range; [done|]; rewrite HB; apply elem_of_app; right; left).
  destruct (bm_free_ok af heap st bs FL B1 y s B2 Hinv HB) as (st' & bs' & FL' & Hf & _ & _ & _ & Hc & _ & Hnb & _).
  exists st'. split_and!; try done. unfold bm_free. unfold base, HEAP_DESC in Hby. destruct (Z.eqb_spec (y + W) 0); [lia|].
  cbn [negb]. rewrite Z.add_simpl_r, Hnb. done.
Qed.

Lemma round_size_wraps size : 2 ^ LONG_BIT - 16 < size < 2 ^ LONG_BIT -> round_size size = 0.
Proof.
  intros Hs. pose proof W_pos as HW. pose proof long_bit_ge_32 as HL.
  assert (2 ^ 32 <= 2 ^ LONG_BIT) as HL2 by (apply Z.pow_le_mono_r; lia).
  unfold round_size, FREE_BLOCK. destruct (Z.ltb_spec size (3 * W)); [destruct W_cases; lia|].
  unfold ul, wrap. replace (size + 15) with (size + 15 - 2 ^ LONG_BIT + 1 * 2 ^ LONG_BIT) by lia.
  rewrite Z.mod_add, Z.mod_small by lia. apply Z.bits_inj'. intros i Hi.
  rewrite Z.land_spec, wnot_testbit, Z.bits_0 by lia. change 15 with (Z.ones 4). rewrite Z.testbit_ones_nonneg by lia.
  destruct (Z.ltb_spec i 4); [by rewrite !andb_false_r|]. change (Z.ones 4) with 15. by rewrite (bounded_high_bit 4) by lia.
Qed.

End HeapTheorems.

(** * Examples *)

(** 64 words of memory at 64, on a 32-bit target. *)
Definition demo_words : memory := list_to_map ((fun k => (64 + 4 * k, 0)) <$> seqZ 0 64).
Definition demo_heap : heap_st := default (HeapSt ∅ 0 0) (bm_init (A := ilp32) 64 256 0 demo_words).
Definition demo_exec (op : heap_op) (st : heap_st) : Z * heap_st :=
  default (0, st) (exec (A := ilp32) afterfree 64 op st).

Lemma demo_words_ok x : (WORD (A := ilp32) | x) -> 64 <= x < 64 + 256 -> exists v, demo_words !! x = Some v /\ 0 <= v < 2 ^ LONG_BIT (arch := ilp32).
Proof.
  intros [q ->] Hx. change (WORD (A := ilp32)) with 4 in *.
  assert (Forall (fun k => demo_words !! (64 + 4 * k) = Some 0) (seqZ 0 64)) as Hall
    by (apply (bool_decide_unpack _); vm_compute; exact I).
  rewrite Forall_forall in Hall. exists 0. replace (q * 4) with (64 + 4 * (q - 16)) by lia. split; [|cbn; lia].
  apply Hall. apply elem_of_seqZ. lia.
Qed.

Lemma demo_heap_rep : heap_rep (A := ilp32) 64 240 demo_heap [].
Proof.
  destruct (bm_init_ok (A := ilp32) 64 256 0 demo_words) as (st & Hst & Hrep).
  - by exists 16.
  - lia.
  - by exists 64.
  - done.
  - done.
  - apply demo_words_ok.
  - unfold demo_heap. by rewrite Hst.
Qed.

Lemma demo_valid n L : 0 < n < 1000 -> valid (A := ilp32) 64 240 L (Alloc 0 n).
Proof. intros Hn. cbn. change (WORD (A := ilp32)) with 4. split_and!; [lia..|by left]. Qed.

(** The heap after one and after two allocations. *)
Definition demo_heap1 : heap_st := (demo_exec (Alloc 0 20) demo_heap).2.
Definition demo_heap2 : heap_st := (demo_exec (Alloc 0 20) demo_heap1).2.

Lemma demo_alloc st B n ptr : heap_rep (A := ilp32) 64 240 st B -> 0 < n < 1000 -> demo_exec (Alloc 0 n) st = (ptr, (demo_exec (Alloc 0 n) st).2) ->
  ptr <> 0 -> exists B1 B2 s, B = B1 ++ B2 /\ heap_rep (A := ilp32) 64 240 (demo_exec (Alloc 0 n) st).2 (B1 ++ (ptr - 4, s) :: B2).
Proof.
  intros HB Hn E Hp. destruct (refine_alloc (A := ilp32) afterfree 64 240 st B 0 n HB (demo_valid n _ Hn)) as (r & st' & B' & He & Ha & HB' & _).
  unfold demo_exec in *. rewrite He in *. cbn [default snd] in *. injection E as ->. inversion Ha; subst; [done|].
  exists B1, B2, s. split; [done|]. exact HB'.
Qed.

Lemma demo_heap1_rep : exists s, heap_rep (A := ilp32) 64 240 demo_heap1 [(76, s)].
Proof.
  destruct (demo_alloc demo_heap [] 20 80 demo_heap_rep) as (B1 & B2 & s & E & H); [lia|vm_compute; reflexivity|done|].
  symmetry in E. apply app_nil in E as [-> ->]. by exists s.
Qed.

Lemma demo_heap2_rep : exists y s y' s', heap_rep (A := ilp32) 64 240 demo_heap2 [(y, s); (y', s')].
Proof.
  destruct demo_heap1_rep as [s Hs].
  destruct (demo_alloc demo_heap1 _ 20 116 Hs) as (B1 & B2 & s' & E & H); [lia|vm_compute; reflexivity|done|].
  destruct B1 as [|b [|b1 B1]]; cbn in E; simplify_eq.
  - by exists 112, s', 76, s.
  - by exists 76, s, 112, s'.
Qed.

Lemma bm_heap_refines_witness :
  exists r st' B', exec (A := ilp32) afterfree 64 (Alloc 16 20) demo_heap = Some (r, st') /\
    allocator (A := ilp32) [] (Alloc 16 20) r B' /\ heap_rep (A := ilp32) 64 240 st' B' /\ payload_kept [] (mem demo_heap) (mem st').
Proof.
  apply (bm_heap_refines (A := ilp32) afterfree 64 240 demo_heap [] (Alloc 16 20)).
  - exact demo_heap_rep.
  - cbn. change (WORD (A := ilp32)) with 4. split; [lia|]. split; [lia|]. right. exists 4.
    split; [reflexivity|]. split; [lia|]. unfold base, HEAP_DESC. change (WORD (A := ilp32)) with 4. lia.
Defined.

Lemma bm_blocks_disjoint_witness : exists y s y' s',
  base (A := ilp32) 64 <= y /\ y + 4 * WORD (A := ilp32) <= y + s /\ y + s <= y' /\ y' + s' <= base (A := ilp32) 64 + 240.
Proof.
  destruct demo_heap2_rep as (y & s & y' & s' & H). exists y, s, y', s'.
  apply (bm_blocks_disjoint (A := ilp32) 64 240 demo_heap2 [] y s [(y', s')] y' s' H). left.
Defined.

Lemma bm_memalign_complete_witness : exists bs FL, hinv (A := ilp32) 64 (mem demo_heap) bs FL /\
  exists z t st', (z, t) ∈ fblocks (base (A := ilp32) 64) bs /\ fits (A := ilp32) 0 (round_size (A := ilp32) 20) z t = true /\
    bm_memalign (A := ilp32) 64 0 20 demo_heap = Some (place (A := ilp32) 0 z + WORD (A := ilp32), st').
Proof.
  destruct (empty_one (A := ilp32) 64 240 demo_heap demo_heap_rep) as [FL H]; [lia|]. exists [(240, false)], FL. split; [exact H|].
  apply (bm_memalign_complete (A := ilp32) 64 0 20 demo_heap [(240, false)] FL 76 240 H).
  - by left.
  - lia.
  - vm_compute; discriminate.
  - left.
  - reflexivity.
Defined.

(** One object allocated and freed. *)
Definition demo_heap3 : heap_st := (demo_exec (Free 80) demo_heap1).2.

Lemma demo_run : run (A := ilp32) afterfree 64 240 demo_heap ∅ demo_heap3 ∅.
Proof.
  apply (run_op (A := ilp32) _ _ _ _ _ (Alloc 0 20) 80 demo_heap1); [apply demo_valid; lia|vm_compute; reflexivity|].
  apply (run_op (A := ilp32) _ _ _ _ _ (Free 80) 0 demo_heap3); [cbn; set_solver|vm_compute; reflexivity|].
  assert (got (Free 80) 0 (got (Alloc 0 20) 80 ∅) = ∅) as -> by (cbn; set_solver). constructor.
Qed.

Lemma bm_run_whole_witness : bm_heap_is_empty demo_heap3 = true /\
  exists st'', bm_memalign (A := ilp32) 64 0 220 demo_heap3 = Some (base (A := ilp32) 64 + WORD (A := ilp32), st'').
Proof.
  apply (bm_run_whole (A := ilp32) afterfree 64 240 demo_heap demo_heap3 220).
  - exact demo_heap_rep.
  - exact demo_run.
  - lia.
  - vm_compute; discriminate.
  - vm_compute; discriminate.
Defined.

Lemma bm_free_twice_witness : exists st', bm_free (A := ilp32) afterfree 64 (76 + WORD (A := ilp32)) demo_heap1 = Some st' /\
  count st' = s32 (count demo_heap1 - 1) /\
  bm_free (A := ilp32) afterfree 64 (76 + WORD (A := ilp32)) st' = Some (HeapSt (mem st') (count st') (76 + WORD (A := ilp32))).
Proof.
  destruct demo_heap1_rep as [s H]. apply (bm_free_twice (A := ilp32) afterfree 64 240 demo_heap1 [(76, s)] 76 s H). left.
Defined.

(** A request within 15 bytes of the largest [size_t] is not refused: its
    size is rounded to 0, and the caller gets a block with no byte of its own;
    the next object starts in the following word. *)
Theorem bm_memalign_wraps :
  (forall `{!ArchOk A} size, 2 ^ LONG_BIT - 16 < size < 2 ^ LONG_BIT -> round_size (A := A) size = 0) /\
  let '(p, st) := demo_exec (Alloc 0 (2 ^ 32 - 1)) demo_heap in
  p = 80 /\ (demo_exec (Alloc 0 20) st).1 = p + 4.
Proof.
  split; [intros A HA size; apply round_size_wraps|]. vm_compute. done.
Qed.
