(* ===== verification/MspacePages.v ===== *)
(** The pages behind the heaps of tasks, [src/mem/heap/mspace_malloc.c]: the
    table of page allocators, the allocation of segments from them, and what a
    heap may rely on.

    An entry of the table is the address of a pointer to an allocator: absent
    when the weak symbol is not linked, and [Some None] when the pointer is
    [NULL]. *)
From S2P Require Import Prelude Bitmap PageAlloc.

Local Open Scope Z_scope.
Local Open Scope embox_scope.

Abbreviation entry := (option (option page_allocator)).

Record mm_pages := MmPages { mm_page_allocs : list entry; mm_cur_allocator : nat }.

(** What the heap of a task asks for: a run of pages, and to give it back. *)
Class Segments (S : Type) := {
  mm_segment_alloc : Z -> S -> option (Z * S);
  mm_segment_free : Z -> Z -> S -> option S
}.

Section Pages.
Context `{A : arch}.

Definition set_entry (i : nat) (al : page_allocator) (s : mm_pages) : mm_pages :=
  MmPages (<[i := Some (Some al)]> (mm_page_allocs s)) (mm_cur_allocator s).

(** The [for] loop over the table. *)
Fixpoint alloc_loop (idx : list nat) (page_cnt : Z) (s : mm_pages) : option (Z * mm_pages) :=
  match idx with
  | [] => Some (0, s)
  | i :: idx =>
    match mm_page_allocs s !! i with
    | Some (Some (Some al)) =>
      '(ret, al) ← page_alloc al (ul page_cnt);
      let s := set_entry i al s in
      if negb (ret =? 0) then Some (ret, MmPages (mm_page_allocs s) i)
      else alloc_loop idx page_cnt s
    | _ => alloc_loop idx page_cnt s
    end
  end.

(** [page_cnt] is an [int]. *)
Definition pages_alloc (page_cnt : Z) (s : mm_pages) : option (Z * mm_pages) :=
  let page_cnt := s32 page_cnt in
  match mm_page_allocs s !! mm_cur_allocator s with
  | Some (Some (Some al)) =>
    '(ret, al) ← page_alloc al (ul page_cnt);
    let s := set_entry (mm_cur_allocator s) al s in
    if negb (ret =? 0) then Some (ret, s)
    else alloc_loop (seq 0 (length (mm_page_allocs s))) page_cnt s
  | _ => None
  end.

Fixpoint free_loop (idx : list nat) (segment page_cnt : Z) (s : mm_pages) : option mm_pages :=
  match idx with
  | [] => Some s
  | i :: idx =>
    match mm_page_allocs s !! i with
    | Some (Some pg) =>
      al ← pg;
      if page_belong al segment
      then al ← page_free al segment (ul page_cnt); Some (set_entry i al s)
      else free_loop idx segment page_cnt s
    | _ => free_loop idx segment page_cnt s
    end
  end.

Definition pages_free (segment page_cnt : Z) (s : mm_pages) : option mm_pages :=
  free_loop (seq 0 (length (mm_page_allocs s))) segment (s32 page_cnt) s.

(** The result, the previous type, and the state; the types are the indices
    of the table. *)
Definition mspace_set_heap (type : Z) (s : mm_pages) : Z * Z * mm_pages :=
  let prev_type := Z.of_nat (mm_cur_allocator s) in
  if (0 <=? type) && (type <=? 2) then
    match mm_page_allocs s !! Z.to_nat type with
    | Some (Some _) => (0, prev_type, MmPages (mm_page_allocs s) (Z.to_nat type))
    | _ => (-1, prev_type, s)
    end
  else (-1, prev_type, s).

#[global] Instance pages_segments : Segments mm_pages := {
  mm_segment_alloc := pages_alloc;
  mm_segment_free := pages_free
}.
End Pages.

(** * The contract *)

(** [disjoint P x y]: the page runs [x] and [y] do not overlap. *)
Definition apart_runs (P : Z) (x y : Z * Z) : Prop :=
  x.1 + x.2 * P <= y.1 \/ y.1 + y.2 * P <= x.1.

(** [seg_held s R]: the runs [R] are out.  A new run is a range of memory
    below [TOP] and apart from them, and a run that is out can be given back. *)
Class SegmentsOk (S : Type) `{!Segments S} (P TOP : Z) := {
  seg_held : S -> list (Z * Z) -> Prop;
  seg_perm s R R' : R ≡ₚ R' -> seg_held s R -> seg_held s R';
  seg_alloc_ok s R n : seg_held s R -> 0 < n < 2 ^ 31 ->
    exists a s', mm_segment_alloc n s = Some (a, s') /\
      ((a = 0 /\ seg_held s' R) \/
       (0 < a /\ (P | a) /\ a + n * P <= TOP /\ seg_held s' ((a, n) :: R) /\ Forall (apart_runs P (a, n)) R));
  seg_free_ok s R a n : seg_held s ((a, n) :: R) ->
    exists s', mm_segment_free a n s = Some s' /\ seg_held s' R
}.

Section Contract.
Context `{A : arch} `{!ArchOk A} (P TOP : Z).

Definition pg_range (al : page_allocator) : Z * Z := (pages_start al, pages_n al).

(** The run [x] lies in the allocator [al], and its pages are taken. *)
Definition run_in (al : page_allocator) (x : Z * Z) : Prop :=
  exists k, x.1 = pages_start al + k * P /\ 0 <= k /\ 0 < x.2 /\ k + x.2 <= pages_n al /\
    forall j, k <= j < k + x.2 -> bm_bit (bitmap al) j = true.

Abbreviation at_ s i al := (mm_page_allocs s !! i = Some (Some (Some al))).

Record held (s : mm_pages) (R : list (Z * Z)) : Prop := {
  held_ok i al : at_ s i al -> pa_ok al /\ page_size al = P /\ (P | pages_start al);
  held_top i al : at_ s i al -> pages_start al + pages_n al * P <= TOP;
  held_cur : exists al, at_ s (mm_cur_allocator s) al;
  held_set i : mm_page_allocs s !! i <> Some (Some None);
  held_dis i j al al' : at_ s i al -> at_ s j al' -> i <> j -> apart_runs P (pg_range al) (pg_range al');
  held_in x : x ∈ R -> exists i al, at_ s i al /\ run_in al x;
  held_runs : NoDup R /\ forall x y, x ∈ R -> y ∈ R -> x <> y -> apart_runs P x y
}.

Lemma held_perm s R R' : R ≡ₚ R' -> held s R -> held s R'.
Proof.
  intros HR [H1 H1' H2 H3 H4 H5 [H6 H7]]. split; try done.
  - intros x. rewrite <- HR. apply H5.
  - split; [by rewrite <- HR|]. intros x y. rewrite <- HR. apply H7.
Qed.

Lemma apart_sym x y : apart_runs P x y -> apart_runs P y x.
Proof. unfold apart_runs. tauto. Qed.

(** An allocator replaced by one with the same pages, for the runs it keeps. *)
Lemma held_entry s R R' i al al' cur :
  held s R -> at_ s i al -> pa_ok al' -> same_pages al al' ->
  (cur = i \/ cur = mm_cur_allocator s) ->
  (forall x, x ∈ R' -> (exists j al1, j <> i /\ at_ s j al1 /\ run_in al1 x) \/ run_in al' x) ->
  (NoDup R' /\ forall x y, x ∈ R' -> y ∈ R' -> x <> y -> apart_runs P x y) ->
  held (MmPages (mm_page_allocs (set_entry i al' s)) cur) R'.
Proof.
  intros Hh Hi Hok' (E1 & E2 & E3) Hcur Hin Hruns. pose proof (lookup_lt_Some _ _ _ Hi) as Hlt.
  assert (forall j al1, at_ (set_entry i al' s) j al1 -> (j = i /\ al1 = al') \/ (j <> i /\ at_ s j al1)) as Hat.
  { intros j al1. cbn. destruct (decide (j = i)) as [->|]; [rewrite list_lookup_insert_eq by done; intros [= ->]; by left|].
    rewrite list_lookup_insert_ne by done. by right. }
  assert (at_ (set_entry i al' s) i al') as Hat' by (cbn; by apply list_lookup_insert_eq).
  split; cbn [mm_page_allocs mm_cur_allocator]; try done.
  - intros j al1 [[-> ->]|[_ H]]%Hat; [|by eapply held_ok]. rewrite E1, E3. split; [done|]. by eapply held_ok.
  - intros j al1 [[-> ->]|[_ H]]%Hat; [|by eapply held_top]. rewrite E1, E2. by eapply held_top.
  - destruct (decide (cur = i)) as [->|Hne]; [by exists al'|]. destruct Hcur as [?| ->]; [done|].
    destruct (held_cur _ _ Hh) as [al1 Hc]. exists al1. cbn. by rewrite list_lookup_insert_ne.
  - intros j. cbn. destruct (decide (j = i)) as [->|]; [by rewrite list_lookup_insert_eq|].
    rewrite list_lookup_insert_ne by done. by eapply held_set.
  - intros j j' al1 al2 [[-> ->]|[Hj H1]]%Hat [[-> ->]|[Hj' H2]]%Hat Hne; [done| | |by eapply (held_dis _ _ Hh)].
    + pose proof (held_dis _ _ Hh i j' al al2 Hi H2 Hne) as H. unfold pg_range, apart_runs in *. cbn in *. lia.
    + pose proof (held_dis _ _ Hh j i al1 al H1 Hi Hne) as H. unfold pg_range, apart_runs in *. cbn in *. lia.
  - intros x Hx. destruct (Hin x Hx) as [(j & al1 & Hj & H1 & H2)|H]; [|by exists i, al'].
    exists j, al1. cbn. by rewrite list_lookup_insert_ne.
Qed.

(** A run of free pages is apart from the runs that are out. *)
Lemma free_apart s R i al k n x : 0 < P -> 0 < n ->
  held s R -> at_ s i al -> PageAlloc.run al k n -> x ∈ R -> apart_runs P (pages_start al + k * P, n) x.
Proof.
  intros HP Hn Hh Hi (Hk & Hkn & Hfree) Hx. destruct (held_in _ _ Hh x Hx) as (j & al1 & Hj & (k1 & E & Hk1 & Hn1 & Hkn1 & Hbusy)).
  unfold apart_runs. cbn [fst snd]. rewrite E. destruct (decide (i = j)) as [->|Hne].
  - rewrite Hi in Hj. injection Hj as <-. destruct (decide (k + n <= k1)) as [|H1]; [left; nia|].
    destruct (decide (k1 + x.2 <= k)) as [|H2]; [right; nia|]. exfalso.
    specialize (Hfree (Z.max k k1)). rewrite Hbusy in Hfree by lia. discriminate Hfree. lia.
  - destruct (held_dis _ _ Hh i j al al1 Hi Hj Hne) as [H|H]; unfold pg_range in H; cbn in H; [left|right]; nia.
Qed.

Lemma entry_alloc s R i al n cur : 0 < P ->
  held s R -> at_ s i al -> 0 < n -> (cur = i \/ cur = mm_cur_allocator s) ->
  exists ret al', page_alloc al n = Some (ret, al') /\
    ((ret = 0 /\ al' = al) \/
     (0 < ret /\ (P | ret) /\ ret + n * P <= TOP /\
      held (MmPages (mm_page_allocs (set_entry i al' s)) cur) ((ret, n) :: R) /\ Forall (apart_runs P (ret, n)) R)).
Proof.
  intros HP Hh Hi Hn Hcur. destruct (held_ok _ _ Hh i al Hi) as (Hok & Eps & Hdiv). pose proof (held_top _ _ Hh i al Hi) as Htop.
  destruct (page_alloc_ok al n Hok Hn) as (ret & al' & -> & Hok' & Hsame & Hres).
  exists ret, al'. split; [done|]. destruct Hres as [(-> & -> & _)|(k & -> & Hrun & _ & Hpaint & _)]; [by left|right].
  rewrite Eps in *. pose proof Hrun as (Hk & Hkn & Hfree). destruct Hok as [Hs Hpn _ Hend _ _ _]. rewrite Eps in Hend.
  assert (Forall (apart_runs P (pages_start al + k * P, n)) R) as Hap.
  { apply Forall_forall. intros x Hx. by eapply free_apart. }
  split_and!; try done; [nia|apply Z.divide_add_r; [done|apply Z.divide_factor_r]|nia|].
  pose proof Hsame as (E1 & E2 & E3). rewrite Forall_forall in Hap.
  assert (forall x, x ∈ R -> (pages_start al + k * P, n) <> x) as Hnew.
  { intros x Hx E. specialize (Hap x Hx). subst x. unfold apart_runs in Hap. cbn in Hap. nia. }
  eapply held_entry; try done.
  - intros x [->|Hx]%elem_of_cons.
    + right. exists k. cbn [fst snd]. rewrite E1, E2. split_and!; try done. intros j Hj.
      rewrite Hpaint by lia. zbool; [done|lia..].
    + destruct (held_in _ _ Hh x Hx) as (j & al1 & Hj & (k1 & E & Hk1 & Hn1 & Hkn1 & Hbusy)).
      destruct (decide (j = i)) as [->|Hne]; [|left; exists j, al1; split_and!; try done; by exists k1].
      rewrite Hi in Hj. injection Hj as <-. right. exists k1. rewrite E1, E2. split_and!; try done.
      intros j Hj. rewrite Hpaint by lia. zbool; [done|by apply Hbusy..].
  - destruct (held_runs _ _ Hh) as [Hnd Hr]. split.
    + apply NoDup_cons. split; [|done]. intros Hx. by apply (Hnew _ Hx).
    + intros x y [->|Hx]%elem_of_cons [->|Hy]%elem_of_cons Hne; [done|by apply Hap|by apply apart_sym, Hap|by apply Hr].
Qed.

Lemma alloc_loop_ok n idx : 0 < P -> forall s R, held s R -> 0 < n < 2 ^ 31 ->
  exists a s', alloc_loop idx n s = Some (a, s') /\
    ((a = 0 /\ held s' R) \/
     (0 < a /\ (P | a) /\ a + n * P <= TOP /\ held s' ((a, n) :: R) /\ Forall (apart_runs P (a, n)) R)).
Proof.
  intros HP. induction idx as [|i idx IH]; intros s R Hh Hn; cbn [alloc_loop]; [exists 0, s; split; [done|by left]|].
  destruct (mm_page_allocs s !! i) as [[[al|]|]|] eqn:Hi; try by apply IH.
  rewrite ul_32 by lia. destruct (entry_alloc s R i al n i HP Hh Hi) as (ret & al' & -> & Hr); [lia|by left|]. cbn [mbind option_bind].
  destruct Hr as [[-> ->]|(Ha & Hr)].
  - assert (set_entry i al s = s) as -> by (unfold set_entry; rewrite list_insert_id by done; by destruct s). by apply IH.
  - destruct (Z.eqb_spec ret 0); [lia|]. cbn [negb]. eexists _, _. split; [done|]. by right.
Qed.

Lemma pages_alloc_ok s R n : 0 < P -> held s R -> 0 < n < 2 ^ 31 ->
  exists a s', pages_alloc n s = Some (a, s') /\
    ((a = 0 /\ held s' R) \/
     (0 < a /\ (P | a) /\ a + n * P <= TOP /\ held s' ((a, n) :: R) /\ Forall (apart_runs P (a, n)) R)).
Proof.
  intros HP Hh Hn. unfold pages_alloc. destruct (held_cur _ _ Hh) as [al Hi]. rewrite Hi, s32_small, ul_32 by lia.
  destruct (entry_alloc s R _ al n (mm_cur_allocator s) HP Hh Hi) as (ret & al' & -> & Hr); [lia|by right|]. cbn [mbind option_bind].
  destruct Hr as [[-> ->]|(Ha & Hr)].
  - assert (set_entry (mm_cur_allocator s) al s = s) as -> by (unfold set_entry; rewrite list_insert_id by done; by destruct s).
    by apply alloc_loop_ok.
  - destruct (Z.eqb_spec ret 0); [lia|]. cbn [negb]. eexists _, _. split; [done|]. by right.
Qed.

(** * Giving a run back *)

Lemma belong_ok al a : pa_ok al -> page_size al = P -> page_belong al a = true <-> pages_start al <= a < pages_start al + pages_n al * P.
Proof.
  intros [Hs Hn Hp He _ _ _] <-. unfold page_belong. rewrite (ul_small (_ * _)), ul_small by nia. zbool; split; done || lia.
Qed.

Lemma pages_free_ok s R a n : 0 < P -> held s ((a, n) :: R) ->
  exists s', pages_free a n s = Some s' /\ held s' R.
Proof.
  intros HP Hh. destruct (held_in _ _ Hh (a, n)) as (i & al & Hi & (k & E & Hk & Hn & Hkn & Hbusy)); [left|]. cbn [fst snd] in *.
  destruct (held_ok _ _ Hh i al Hi) as (Hok & Eps & Hdiv). pose proof (pa_n _ Hok) as Hpn.
  unfold pages_free. rewrite s32_small by lia.
  assert (forall idx, i ∈ idx -> exists al', free_loop idx a n s = Some (set_entry i al' s) /\ page_free al a n = Some al') as Hloop.
  { intros idx. induction idx as [|j idx IH]; intros Hin; [by apply elem_of_nil in Hin|]. cbn [free_loop].
    destruct (decide (j = i)) as [->|Hne].
    - rewrite Hi. cbn [mbind option_bind]. rewrite (proj2 (belong_ok al a Hok Eps)) by nia. rewrite ul_32 by lia.
      rewrite E, <- Eps. destruct (free_ok al k n Hok) as (al' & c & -> & _); [lia..|]. by exists al'.
    - apply elem_of_cons in Hin as [?|Hin]; [done|]. destruct (mm_page_allocs s !! j) as [[[al1|]|]|] eqn:Hj; try by apply IH.
      + destruct (held_ok _ _ Hh j al1 Hj) as (Hok1 & Eps1 & _). cbn [mbind option_bind].
        destruct (page_belong al1 a) eqn:Hb; [|by apply IH]. apply (belong_ok al1 a Hok1 Eps1) in Hb.
        destruct (held_dis _ _ Hh j i al1 al Hj Hi Hne) as [H|H]; unfold pg_range in H; cbn in H; nia.
      + by destruct (held_set _ _ Hh j). }
  destruct (Hloop (seq 0 (length (mm_page_allocs s)))) as (al' & -> & Hf).
  { apply elem_of_seq. pose proof (lookup_lt_Some _ _ _ Hi). lia. }
  eexists. split; [done|]. destruct (held_runs _ _ Hh) as [[Hnin Hnd]%NoDup_cons Hr].
  destruct (free_ok al k n Hok) as (al2 & c & Hf2 & Hok2 & Hsame & Hpaint & _); [lia..|]. rewrite E, <- Eps, Hf2 in Hf. injection Hf as ->.
  pose proof Hsame as (E1 & E2 & E3).
  eapply (held_entry s ((a, n) :: R) R i al al' (mm_cur_allocator s)); try done; [by right| |].
  - intros x Hx. destruct (held_in _ _ Hh x) as (j & al1 & Hj & (k1 & Ex & Hk1 & Hn1 & Hkn1 & Hbusy1)); [by right|].
    destruct (decide (j = i)) as [->|Hne]; [|left; exists j, al1; split_and!; try done; by exists k1].
    rewrite Hi in Hj. injection Hj as <-. right. exists k1. rewrite E1, E2. split_and!; try done.
    intros j Hj. rewrite Hpaint by lia. assert (apart_runs P (a, n) x) as Hap.
    { apply Hr; [left|by right|]. intros <-. done. }
    unfold apart_runs in Hap. cbn [fst snd] in Hap. rewrite Ex, E in Hap. zbool; [nia|by apply Hbusy1..].
  - split; [done|]. intros x y Hx Hy. apply Hr; by right.
Qed.

End Contract.

#[global] Instance pages_ok `{A : arch} `{!ArchOk A} (P TOP : Z) (HP : TCEq (0 <? P) true) : SegmentsOk mm_pages P TOP := {
  seg_held := held P TOP;
  seg_perm := held_perm P TOP;
  seg_alloc_ok s R n Hh := pages_alloc_ok P TOP s R n (proj1 (Z.ltb_lt 0 P) (proj1 (TCEq_eq _ _) HP)) Hh;
  seg_free_ok s R a n := pages_free_ok P TOP s R a n (proj1 (Z.ltb_lt 0 P) (proj1 (TCEq_eq _ _) HP))
}.
