(* ===== verification/Mspace.v ===== *)
(** The heap of a task, [src/mem/heap/mspace_malloc.c], and the interfaces on
    top of it, [malloc.c] and [sysmalloc.c].

    A heap ([mspace]) is a list of segments; a segment is a run of pages that
    starts with its [struct mm_segment] and holds a boundary-marker heap.  The
    segments are kept in a store by address, so that reading one that has been
    given back fails.  A cache remembers the segment of the last [free] and the
    last request that could not be served.  [sched_lock] makes every operation
    one step; [panic] fails. *)
From S2P Require Import Prelude PageAlloc HeapBm MspacePages.

Local Open Scope Z_scope.
Local Open Scope embox_scope.

(** The words of the segment's heap, and the count of its descriptor. *)
Record mm_segment := MmSegment { mm_size : Z; mm_words : memory; mm_count : Z }.

Record cache := Cache {
  cache_owner : Z;
  cache_hint : Z;
  cache_fail_size : Z;
  cache_fail_boundary : Z;
  cache_fail_valid : bool
}.

Record mspace_st (Src : Type) := MspaceSt {
  pages : Src;
  segments : gmap Z mm_segment;
  mspaces : gmap Z (list Z);
  mcache : cache;
  mspace_alloc_steps : Z;
  mspace_free_steps : Z;
  not_busy : Z
}.
Arguments MspaceSt {Src}.
Arguments pages {Src}.
Arguments segments {Src}.
Arguments mspaces {Src}.
Arguments mcache {Src}.
Arguments mspace_alloc_steps {Src}.
Arguments mspace_free_steps {Src}.
Arguments not_busy {Src}.

Section Mspace.
Context `{A : arch} {Src : Type} `{!Segments Src}.
Abbreviation W := (WORD (A := A)).
Abbreviation st_t := (mspace_st Src).

(** [PAGE_SIZE()], the option [task_is_greed], [__alignof__(max_align_t)], the
    contents of pages just allocated, and [afterfree]. *)
Context (PAGE_SIZE : Z) (task_is_greed : bool) (max_align : Z) (junk : Z -> Z)
        (afterfree : Z -> Z -> memory -> option memory).

Definition MM_SEGMENT : Z := 3 * W.

Definition set_pages (p : Src) (st : st_t) : st_t :=
  MspaceSt p (segments st) (mspaces st) (mcache st) (mspace_alloc_steps st) (mspace_free_steps st) (not_busy st).
Definition set_segments (s : gmap Z mm_segment) (st : st_t) : st_t :=
  MspaceSt (pages st) s (mspaces st) (mcache st) (mspace_alloc_steps st) (mspace_free_steps st) (not_busy st).
Definition set_mspaces (m : gmap Z (list Z)) (st : st_t) : st_t :=
  MspaceSt (pages st) (segments st) m (mcache st) (mspace_alloc_steps st) (mspace_free_steps st) (not_busy st).
Definition set_cache (c : cache) (st : st_t) : st_t :=
  MspaceSt (pages st) (segments st) (mspaces st) c (mspace_alloc_steps st) (mspace_free_steps st) (not_busy st).
Definition add_alloc_steps (k : Z) (st : st_t) : st_t :=
  MspaceSt (pages st) (segments st) (mspaces st) (mcache st) (ul (mspace_alloc_steps st + k)) (mspace_free_steps st) (not_busy st).
Definition add_free_steps (k : Z) (st : st_t) : st_t :=
  MspaceSt (pages st) (segments st) (mspaces st) (mcache st) (mspace_alloc_steps st) (ul (mspace_free_steps st + k)) (not_busy st).
Definition set_not_busy (x : Z) (st : st_t) : st_t :=
  MspaceSt (pages st) (segments st) (mspaces st) (mcache st) (mspace_alloc_steps st) (mspace_free_steps st) x.

(** * The cache *)

Definition mspace_cache_select (mspace : Z) (st : st_t) : st_t :=
  let c := mcache st in
  if negb (cache_owner c =? mspace)
  then set_cache (Cache mspace 0 (cache_fail_size c) (cache_fail_boundary c) false) st
  else st.

Definition mspace_cache_grew (st : st_t) : st_t :=
  let c := mcache st in
  set_cache (Cache (cache_owner c) (cache_hint c) (cache_fail_size c) (cache_fail_boundary c) false) st.

Definition mspace_cache_forget (st : st_t) : st_t :=
  let c := mcache st in
  set_cache (Cache 0 0 (cache_fail_size c) (cache_fail_boundary c) false) st.

Definition set_hint (mm : Z) (st : st_t) : st_t :=
  let c := mcache st in
  set_cache (Cache (cache_owner c) mm (cache_fail_size c) (cache_fail_boundary c) (cache_fail_valid c)) st.

(** * Finding the segment of a pointer *)

Definition pointer_inside_segment (segment size pointer : Z) : bool :=
  (pointer >? segment) && (pointer <? ul (segment + size)).

Definition mm_to_segment (mm : Z) : Z := mm + MM_SEGMENT.

(** The [dlist_foreach_entry] of [pointer_to_mm]: the segment, or 0, and the
    number of segments visited. *)
Fixpoint pointer_walk (ptr : Z) (mms : list Z) (segs : gmap Z mm_segment) : option (Z * Z) :=
  match mms with
  | [] => Some (0, 0)
  | mm :: mms =>
    seg ← segs !! mm;
    if pointer_inside_segment (mm_to_segment mm) (mm_size seg) ptr then Some (mm, 1)
    else '(r, k) ← pointer_walk ptr mms segs; Some (r, k + 1)
  end.

Definition pointer_search (ptr mspace : Z) (st : st_t) : option (Z * st_t) :=
  mms ← mspaces st !! mspace;
  '(mm, k) ← pointer_walk ptr mms (segments st);
  let st := add_free_steps k st in
  Some (mm, if negb (mm =? 0) then set_hint mm st else st).

Definition pointer_to_mm (ptr mspace : Z) (st : st_t) : option (Z * st_t) :=
  assert! negb (ptr =? 0) ;;
  let hint := cache_hint (mcache st) in
  if negb (hint =? 0) then
    let st := add_free_steps 1 st in
    seg ← segments st !! hint;
    if pointer_inside_segment (mm_to_segment hint) (mm_size seg) ptr then Some (hint, st)
    else pointer_search ptr mspace st
  else pointer_search ptr mspace st.

(** * Allocation *)

(** The [dlist_foreach_entry] of [mspace_do_alloc]: the block, the segments and
    the number of them visited. *)
Fixpoint alloc_walk (boundary size nb : Z) (mms : list Z) (segs : gmap Z mm_segment)
  : option (Z * gmap Z mm_segment * Z) :=
  match mms with
  | [] => Some (0, segs, 0)
  | mm :: mms =>
    seg ← segs !! mm;
    '(block, h) ← bm_memalign (mm_to_segment mm) boundary size (HeapSt (mm_words seg) (mm_count seg) nb);
    let segs := <[mm := MmSegment (mm_size seg) (mem h) (count h)]> segs in
    if negb (block =? 0) then Some (block, segs, 1)
    else '(block, segs, k) ← alloc_walk boundary size nb mms segs; Some (block, segs, k + 1)
  end.

Definition mspace_do_alloc (boundary size mspace : Z) (st : st_t) : option (Z * st_t) :=
  let c := mcache st in
  if cache_fail_valid c && (size >=? cache_fail_size c) && (boundary >=? cache_fail_boundary c)
  then Some (0, st)
  else
    mms ← mspaces st !! mspace;
    '(block, segs, k) ← alloc_walk boundary size (not_busy st) mms (segments st);
    let st := add_alloc_steps k (set_segments segs st) in
    if negb (block =? 0) then Some (block, st)
    else Some (0, set_cache (Cache (cache_owner c) (cache_hint c) size boundary true) st).

(** The [for] loop of the greedy variant, from [i] pages down. *)
Fixpoint greedy_loop (n : nat) (i : Z) (p : Src) : option (option (Z * Z) * Src) :=
  match n with
  | O => Some (None, p)
  | S n =>
    '(mm, p) ← mm_segment_alloc i p;
    if negb (mm =? 0) then Some (Some (mm, ul (i * PAGE_SIZE)), p)
    else greedy_loop n (i - 1) p
  end.

(** The address and the size of the new segment. *)
Definition mm_try_alloc_segment (size boundary : Z) (p : Src) : option (option (Z * Z) * Src) :=
  if task_is_greed then
    let min_size := ul (size + boundary + PAGE_SIZE) / PAGE_SIZE in
    let max_size := Z.max ((1048576 + PAGE_SIZE) / PAGE_SIZE) (ul (min_size + 1)) in
    greedy_loop (Z.to_nat (max_size - min_size)) max_size p
  else
    let pages_cnt := ul (size / PAGE_SIZE + boundary / PAGE_SIZE) in
    let pages_cnt := ul (pages_cnt + ul (size mod PAGE_SIZE + boundary mod PAGE_SIZE + 2 * PAGE_SIZE) / PAGE_SIZE) in
    '(mm, p) ← mm_segment_alloc pages_cnt p;
    Some (if negb (mm =? 0) then Some (mm, ul (pages_cnt * PAGE_SIZE)) else None, p).

(** The words of [len] bytes of new memory at [a]. *)
Definition fresh_words (a len : Z) : memory :=
  list_to_map ((fun k => (a + W * k, ul (junk (a + W * k)))) <$> seqZ 0 (len / W)).

Definition add_segment (mm size mspace : Z) (st : st_t) : option st_t :=
  mms ← mspaces st !! mspace;
  let seg := mm_to_segment mm in
  let len := ul (size - MM_SEGMENT) in
  h ← bm_init seg len (not_busy st) (fresh_words seg len);
  Some (set_segments (<[mm := MmSegment size (mem h) (count h)]> (segments st))
    (set_mspaces (<[mspace := mm :: mms]> (mspaces st)) st)).

Definition mspace_memalign (boundary size mspace : Z) (st : st_t) : option (Z * st_t) :=
  if size =? 0 then Some (0, st)
  else
    let st := mspace_cache_select mspace st in
    '(block, st) ← mspace_do_alloc boundary size mspace st;
    if negb (block =? 0) then Some (block, st)
    else
      '(r, p) ← mm_try_alloc_segment size boundary (pages st);
      let st := set_pages p st in
      match r with
      | None => Some (0, st)
      | Some (mm, mmsize) =>
        st ← add_segment mm mmsize mspace st;
        let st := mspace_cache_grew st in
        '(block, st) ← mspace_do_alloc boundary size mspace st;
        assert! negb (block =? 0) ;;
        Some (block, st)
      end.

Definition mspace_malloc (size mspace : Z) (st : st_t) : option (Z * st_t) :=
  mspace_memalign (Z.max 8 max_align) size mspace st.

(** * Release *)

(** [dlist_del]: the segment leaves the list it is on. *)
Definition unlink_segment (mm : Z) (st : st_t) : st_t :=
  set_mspaces (filter (fun x => x <> mm) <$> mspaces st) st.

Definition mspace_free (ptr mspace : Z) (st : st_t) : option (Z * st_t) :=
  assert! negb (ptr =? 0) ;;
  let st := mspace_cache_select mspace st in
  '(mm, st) ← pointer_to_mm ptr mspace st;
  if negb (mm =? 0) then
    seg ← segments st !! mm;
    h ← bm_free afterfree (mm_to_segment mm) ptr (HeapSt (mm_words seg) (mm_count seg) (not_busy st));
    let st := set_not_busy (bm_free_not_busy h)
      (set_segments (<[mm := MmSegment (mm_size seg) (mem h) (count h)]> (segments st)) st) in
    let st := mspace_cache_grew st in
    if bm_heap_is_empty h then
      let page_cnt := s32 (mm_size seg / PAGE_SIZE) in
      let st := if cache_hint (mcache st) =? mm then set_hint 0 st else st in
      let st := unlink_segment mm st in
      p ← mm_segment_free mm page_cnt (pages st);
      Some (0, set_pages p (set_segments (delete mm (segments st)) st))
    else Some (0, st)
  else Some (-1, st).

Definition EINVAL : Z := 22.
Definition err2ptr (err_code : Z) : Z := ul (- err_code).
Definition ptr2err (res : Z) : Z := if (sl res <? 0) && (sl res >? -4096) then sl res else 0.

(** The copy [memcpy(ret, ptr, size)] is returned as a value. *)
Definition mspace_realloc (ptr size mspace : Z) (st : st_t) : option (Z * option (Z * Z * Z) * st_t) :=
  assert! negb (size =? 0) || (ptr =? 0) ;;
  '(ret, st) ← mspace_memalign (Z.max 8 max_align) size mspace st;
  if ret =? 0 then Some (0, None, st)
  else if ptr =? 0 then Some (ret, None, st)
  else
    '(r, st) ← mspace_free ptr mspace st;
    if r <? 0 then
      '(_, st) ← mspace_free ret mspace st;
      Some (err2ptr EINVAL, Some (ret, ptr, size), st)
    else Some (ret, Some (ret, ptr, size), st).

(** The range [memset] clears is returned as a value. *)
Definition mspace_calloc (nmemb size mspace : Z) (st : st_t) : option (Z * option (Z * Z) * st_t) :=
  let total_size := ul (nmemb * size) in
  assert! total_size >? 0 ;;
  '(ret, st) ← mspace_malloc total_size mspace st;
  Some (ret, if ret =? 0 then None else Some (ret, total_size), st).

Definition mspace_init (mspace : Z) (st : st_t) : Z * st_t :=
  let st := mspace_cache_forget st in
  (0, set_mspaces (<[mspace := []]> (mspaces st)) st).

(** The pages of the segments go back; the list stays as it is. *)
Fixpoint fini_walk (mms : list Z) (segs : gmap Z mm_segment) (p : Src) : option (gmap Z mm_segment * Src) :=
  match mms with
  | [] => Some (segs, p)
  | mm :: mms =>
    seg ← segs !! mm;
    p ← mm_segment_free mm (s32 (mm_size seg / PAGE_SIZE)) p;
    fini_walk mms (delete mm segs) p
  end.

Definition mspace_fini (mspace : Z) (st : st_t) : option (Z * st_t) :=
  let st := mspace_cache_forget st in
  mms ← mspaces st !! mspace;
  '(segs, p) ← fini_walk mms (segments st) (pages st);
  Some (0, set_pages p (set_segments segs st)).

Fixpoint copy_size (mms : list Z) (segs : gmap Z mm_segment) (ret : Z) : option Z :=
  match mms with
  | [] => Some ret
  | mm :: mms => seg ← segs !! mm; copy_size mms segs (ul (ret + mm_size seg))
  end.

Definition mspace_deep_copy_size (mspace : Z) (st : st_t) : option Z :=
  mms ← mspaces st !! mspace; copy_size mms (segments st) 0.

(** * [malloc.c] and [sysmalloc.c] *)

(** [task_self_mspace()] and [kernel_task_mspace()]. *)
Context (self_mspace kernel_mspace : Z).

Definition ENOMEM : Z := 12.

(** The pointer, and [errno] when it is set. *)
Definition malloc (size : Z) (st : st_t) : option (Z * option Z * st_t) :=
  if size =? 0 then Some (0, None, st)
  else
    '(ptr, st) ← mspace_malloc size self_mspace st;
    Some (ptr, if ptr =? 0 then Some ENOMEM else None, st).

Definition free (ptr : Z) (st : st_t) : option st_t :=
  if ptr =? 0 then Some st
  else
    '(r, st) ← mspace_free ptr self_mspace st;
    if r <? 0 then
      '(r, st) ← mspace_free ptr kernel_mspace st;
      assert! negb (r <? 0) ;; Some st
    else Some st.

Definition memalign (boundary size : Z) (st : st_t) : option (Z * st_t) :=
  mspace_memalign boundary size self_mspace st.

(** The result and [*memptr]. *)
Definition posix_memalign (alignment size : Z) (st : st_t) : option (Z * Z * st_t) :=
  '(memptr, st) ← memalign alignment size st; Some (0, memptr, st).

Definition calloc (nmemb size : Z) (st : st_t) : option (Z * option (Z * Z) * st_t) :=
  if (nmemb =? 0) || (size =? 0) then Some (0, None, st)
  else mspace_calloc nmemb size self_mspace st.

Definition realloc (ptr size : Z) (st : st_t) : option (Z * st_t) :=
  if (size =? 0) && negb (ptr =? 0) then
    '(_, st) ← mspace_free ptr self_mspace st; Some (0, st)
  else if ptr =? 0 then
    '(ret, _, st) ← malloc size st; Some (ret, st)
  else
    '(ret, _, st) ← mspace_realloc ptr size self_mspace st;
    if ptr2err ret <? 0 then
      '(ret, _, st) ← mspace_realloc ptr size kernel_mspace st;
      assert! negb (ptr2err ret <? 0) ;; Some (ret, st)
    else Some (ret, st).

(** The flag says whether a double free was reported. *)
Definition sysfree (ptr : Z) (st : st_t) : option (bool * st_t) :=
  if ptr =? 0 then Some (false, st)
  else
    '(_, st) ← mspace_free ptr kernel_mspace st;
    if not_busy st =? ptr then Some (true, set_not_busy 0 st) else Some (false, st).

Definition sysmemalign (boundary size : Z) (st : st_t) : option (Z * st_t) :=
  mspace_memalign boundary size kernel_mspace st.
Definition sysmalloc (size : Z) (st : st_t) : option (Z * st_t) := mspace_malloc size kernel_mspace st.
Definition sysrealloc (ptr size : Z) (st : st_t) : option (Z * st_t) :=
  '(ret, _, st) ← mspace_realloc ptr size kernel_mspace st;
  Some (if ptr2err ret <? 0 then 0 else ret, st).
Definition syscalloc (nmemb size : Z) (st : st_t) : option (Z * option (Z * Z) * st_t) :=
  mspace_calloc nmemb size kernel_mspace st.

End Mspace.
