(* ===== verification/MspaceSegs.v ===== *)
(** One segment of a task's heap: what it promises, and the cache of the last
    request that failed. *)
From S2P Require Import Prelude PageAlloc HeapBm HeapList HeapLayout HeapOps HeapFree HeapAlloc HeapSearch HeapTheorems MspacePages Mspace.

Local Open Scope Z_scope.
Local Open Scope embox_scope.

Section Segs.
Context `{A : arch} `{!ArchOk A}.
Abbreviation W := (WORD (A := A)).

(** Pages of [P] bytes, all below [TOP]. *)
Context (P TOP : Z).
Hypothesis P_words : (W | P).
Hypothesis P_size : 256 <= P <= 2 ^ 20.
Hypothesis TOP_ok : 0 < TOP /\ TOP + 3 * W < 2 ^ LONG_BIT.

(** The requests considered: a power of two as boundary, and nothing that
    wraps. *)
Record vreq (boundary size : Z) : Prop := {
  vreq_size : 0 < size;
  vreq_pow : pow_or_0 boundary;
  vreq_top : TOP + boundary <= 2 ^ LONG_BIT;
  vreq_sum : size + boundary + 2 * P + 2 ^ 21 <= 2 ^ LONG_BIT;
  vreq_max : size + boundary <= 2 ^ 34
}.

(** The segment [seg] at [mm] holds the live blocks [B]; with [fail], it has no
    room for that request. *)
Definition seg_rep (mm : Z) (seg : mm_segment) (fail : option (Z * Z)) (B : list (Z * Z)) : Prop :=
  ((W | mm) /\ 0 < mm /\ mm + mm_size seg <= TOP /\ 8 * W <= mm_size seg < 2 ^ 35) /\
  exists bs FL, hinv (mm_to_segment mm) (mm_words seg) bs FL /\ busies (base (mm_to_segment mm)) bs = B /\
    total bs = mm_size seg - 7 * W /\ mm_count seg = s32 (Z.of_nat (length B)) /\
    forall b n, fail = Some (b, n) -> forall y s, (y, s) ∈ fblocks (base (mm_to_segment mm)) bs -> fits b (round_size n) y s = false.

Lemma seg_weaken mm seg fail B : seg_rep mm seg fail B -> seg_rep mm seg None B.
Proof. intros (H & bs & FL & H1 & H2 & H3 & H4 & _). split; [done|]. exists bs, FL. by split_and!. Qed.

Lemma vreq_fits boundary size : vreq boundary size -> size + 32 + W <= 2 ^ LONG_BIT.
Proof. intros [H1 H2 H3 H4 H5]. pose proof (pow_ge_0 _ H2). destruct W_cases; lia. Qed.

Lemma seg_boundary mm seg B fail bs boundary size :
  seg_rep mm seg fail B -> total bs = mm_size seg - 7 * W -> vreq boundary size -> boundary_ok (mm_to_segment mm) boundary bs.
Proof.
  intros ((_ & _ & Htop & _) & _) Ht [H1 H2 H3 H4 H5]. pose proof W_pos as HW. destruct H2 as [->|(k & -> & Hk)]; [by left|right].
  exists k. unfold top, base, HEAP_DESC, mm_to_segment, MM_SEGMENT. rewrite Ht. split_and!; try done; [|lia].
  apply (Z.pow_lt_mono_r_iff 2); [lia| |]; [pose proof long_bit_ge_32; lia|].
  assert (0 < 2 ^ k) by (apply Z.pow_pos_nonneg; lia). lia.
Qed.

(** Asking one segment. *)
Lemma seg_alloc mm seg fail B boundary size nb :
  seg_rep mm seg fail B -> vreq boundary size -> (forall b n, fail = Some (b, n) -> pow_or_0 b) ->
  (bm_memalign (mm_to_segment mm) boundary size (HeapSt (mm_words seg) (mm_count seg) nb)
     = Some (0, HeapSt (mm_words seg) (mm_count seg) nb) /\ seg_rep mm seg (Some (boundary, size)) B) \/
  (exists ptr h B1 B2 s, B = B1 ++ B2 /\ ptr <> 0 /\
     bm_memalign (mm_to_segment mm) boundary size (HeapSt (mm_words seg) (mm_count seg) nb) = Some (ptr, h) /\
     seg_rep mm (MmSegment (mm_size seg) (mem h) (count h)) fail (B1 ++ (ptr - W, s) :: B2) /\
     size + W <= s /\ (boundary = 0 \/ ptr mod boundary = 0) /\ payload_kept B (mm_words seg) (mem h)).
Proof.
  intros Hrep Hv Hfp. pose proof Hrep as (Hseg & bs & FL & Hinv & HB & Ht & Hc & Hfail). pose proof W_pos as HW.
  pose proof (vreq_fits _ _ Hv) as Hbig. pose proof (vreq_size _ _ Hv) as Hs. pose proof (vreq_pow _ _ Hv) as Hpow.
  pose proof (seg_boundary _ _ _ _ _ _ _ Hrep Ht Hv) as Hb. destruct (round_size_ok size) as (Hn1 & Hn2 & Hn3 & Hn4); try lia.
  destruct (bm_memalign_ok (mm_to_segment mm) boundary size (HeapSt (mm_words seg) (mm_count seg) nb) bs FL Hinv Hb Hs Hbig)
    as [[Hnull Hno]|(y & s & m' & bs' & Hy & Hf & Hm & (FL' & Hinv') & HT' & (B1 & B2 & s' & EB & EB' & Hs') & Hp & Hcar)]; [left|right].
  - split; [done|]. split; [done|]. exists bs, FL. split_and!; try done. intros b n [= <- <-]. done.
  - eexists _, _, B1, B2, s'. rewrite HB in *. split_and!; try done.
    + destruct (free_header _ _ _ _ _ _ (hi_hp _ _ _ _ Hinv) Hy) as (pb & _ & _ & _ & Hyb & _).
      pose proof (hp_lo _ _ _ _ (hi_hp _ _ _ _ Hinv)). pose proof (place_ge boundary y (pow_ge_0 _ Hpow)).
      unfold base, HEAP_DESC in Hyb. lia.
    + split; [done|]. exists bs', FL'. cbn [mem count mm_size mm_words mm_count]. split_and!; try done; [congruence| |].
      * rewrite Hc, s32_add, EB, !length_app. cbn. f_equal. lia.
      * intros b n Efail y' t' Hy'. destruct (Hcar y' t' Hy') as (y0 & t0 & Hy0 & Hle & Hor).
        pose proof (Hfp b n Efail) as Hbp. apply (fits_less b (round_size n) y0 t0); try done. by apply Hfail.
    + lia.
    + destruct Hpow as [?|(k & -> & Hk)]; [by left|right]. apply place_aligned. apply Z.pow_pos_nonneg; lia.
Qed.

(** A request at least as large as one for which there was no room. *)
Lemma seg_cached mm seg B b n boundary size nb :
  seg_rep mm seg (Some (b, n)) B -> vreq b n -> vreq boundary size -> b <= boundary -> n <= size ->
  bm_memalign (mm_to_segment mm) boundary size (HeapSt (mm_words seg) (mm_count seg) nb)
    = Some (0, HeapSt (mm_words seg) (mm_count seg) nb).
Proof.
  intros Hrep Hv Hv' Hb Hn. pose proof Hrep as (Hseg & bs & FL & Hinv & HB & Ht & Hc & Hfail).
  pose proof (vreq_fits _ _ Hv') as Hbig. pose proof (vreq_size _ _ Hv) as Hs. pose proof (seg_boundary _ _ _ _ _ _ _ Hrep Ht Hv') as Hbd.
  destruct (bm_memalign_ok (mm_to_segment mm) boundary size (HeapSt (mm_words seg) (mm_count seg) nb) bs FL Hinv Hbd)
    as [[Hnull _]|(y & s & m' & bs' & Hy & Hf & _)]; [lia|done|done|].
  rewrite (fits_less b (round_size n) y s boundary (round_size size) y s) in Hf; try done.
  - apply Hv.
  - apply Hv'.
  - pose proof W_pos. apply round_size_mono; lia.
  - by left.
  - by apply Hfail.
Qed.

(** * A new segment *)

Lemma fresh_words_ok junk a len x : (W | a) -> (W | len) -> (W | x) -> a <= x < a + len ->
  exists v, fresh_words junk a len !! x = Some v /\ 0 <= v < 2 ^ LONG_BIT.
Proof.
  intros [qa ->] [ql ->] [q ->] Hx. pose proof W_pos as HW. exists (ul (junk (q * W))). split; [|apply ul_bounds].
  unfold fresh_words. rewrite Z.div_mul by lia. apply elem_of_list_to_map_1.
  - rewrite <- list_fmap_compose. apply NoDup_fmap_2; [|apply NoDup_seqZ]. intros k k' E. cbn in E. nia.
  - apply list_elem_of_fmap. exists (q - qa). split; [cbv beta; by replace (qa * W + W * (q - qa)) with (q * W) by lia|].
    apply elem_of_seqZ. nia.
Qed.

Lemma seg_new junk mm n nb : (P | mm) -> 0 < mm -> 0 < n -> mm + n * P <= TOP -> n * P < 2 ^ 35 ->
  let seg := mm_to_segment mm in let len := ul (n * P - MM_SEGMENT) in
  exists h, bm_init seg len nb (fresh_words junk seg len) = Some h /\
    seg_rep mm (MmSegment (n * P) (mem h) (count h)) None [].
Proof.
  intros Hmm H0 Hn Htop Hmax seg len. pose proof W_pos as HW. assert (W <= 8) as HW8 by (destruct W_cases; lia).
  assert (W | W) as HWW by apply Z.divide_refl. assert (W | mm) as Hw by (by apply (Z.divide_trans _ P)).
  assert (len = n * P - 3 * W) as El by (apply ul_small; nia).
  assert (W | seg) as Hseg by (apply Z.divide_add_r; [done|by apply Z.divide_mul_r]).
  assert (W | len) as Hlen by (rewrite El; apply Z.divide_sub_r; by apply Z.divide_mul_r).
  destruct (bm_init_ok seg len nb (fresh_words junk seg len)) as (h & Hh & (bs & FL & Hinv & HB & HT & Hc)); try done.
  - unfold seg, mm_to_segment, MM_SEGMENT. lia.
  - nia.
  - unfold seg, mm_to_segment, MM_SEGMENT. lia.
  - intros x Hx Hr. by apply fresh_words_ok.
  - exists h. split; [done|]. split; [cbn; split_and!; try done; nia|]. exists bs, FL. cbn. split_and!; try done. lia.
Qed.

Lemma hinv_empty heap m bs FL : hinv heap m bs FL -> busies (base heap) bs = [] -> 0 < total bs -> bs = [(total bs, false)].
Proof.
  intros Hinv HB HT. destruct bs as [|[s b] bs]; [cbn in HT; lia|]. destruct b; [done|]. cbn in HB.
  destruct (hi_merged _ _ _ _ Hinv) as [_ Hm].
  destruct bs as [|[s' b'] bs]; [cbn; do 2 f_equal; lia|]. destruct Hm as [Hm _]. rewrite Hm in HB by done. done.
Qed.

Lemma place_lt b y : 0 <= b -> place b y < y + 4 * W + Z.max b 1.
Proof.
  intros Hb. pose proof W_pos as HW. unfold place. zbool; try lia.
  pose proof (Z.mul_div_le (y + 5 * W + b - 1) b ltac:(lia)). lia.
Qed.

(** A segment sized for the request, with nothing in it, has room for it. *)
Lemma seg_room mm seg boundary size : seg_rep mm seg None [] -> vreq boundary size ->
  size + boundary + P < mm_size seg -> ~ seg_rep mm seg (Some (boundary, size)) [].
Proof.
  intros _ Hv Hbig (_ & bs & FL & Hinv & HB & HT & _ & Hno). pose proof W_pos as HW. pose proof (vreq_size _ _ Hv) as Hs.
  pose proof (pow_ge_0 _ (vreq_pow _ _ Hv)) as Hb0. pose proof (vreq_fits _ _ Hv) as Hbound.
  destruct (round_size_ok size) as (_ & _ & _ & Hn); [lia|lia|].
  assert (bs = [(total bs, false)]) as E by (eapply hinv_empty; [done|done|destruct W_cases; lia]).
  assert (fits boundary (round_size size) (base (mm_to_segment mm)) (total bs) = false) as Hf.
  { apply (Hno boundary size eq_refl). rewrite E. cbn. rewrite Z.add_0_r. left. }
  unfold fits in Hf. apply Z.leb_gt in Hf. pose proof (place_lt boundary (base (mm_to_segment mm)) Hb0). destruct W_cases; lia.
Qed.

(** * Freeing in a segment *)

Lemma busies_length bs : forall a, sizes bs -> 4 * W * Z.of_nat (length (busies a bs)) <= total bs.
Proof.
  pose proof W_pos as HW. induction bs as [|[s b] bs IH]; intros a Hs; cbn; [lia|].
  apply Forall_cons in Hs as [[Hs _] Hbs]. cbn in Hs. specialize (IH (a + s) Hbs). destruct b; cbn; lia.
Qed.

Lemma seg_free af `{!AfterFree af} mm seg fail B1 ptr s B2 nb :
  seg_rep mm seg fail (B1 ++ (ptr - W, s) :: B2) ->
  exists h, bm_free af (mm_to_segment mm) ptr (HeapSt (mm_words seg) (mm_count seg) nb) = Some h /\
    seg_rep mm (MmSegment (mm_size seg) (mem h) (count h)) None (B1 ++ B2) /\ bm_free_not_busy h = nb /\
    bm_heap_is_empty h = bool_decide (B1 ++ B2 = []) /\ payload_kept (B1 ++ B2) (mm_words seg) (mem h).
Proof.
  intros (Hseg & bs & FL & Hinv & HB & HT & Hc & _). pose proof W_pos as HW.
  destruct (bm_free_ok af (mm_to_segment mm) (HeapSt (mm_words seg) (mm_count seg) nb) bs FL B1 _ s B2 Hinv HB)
    as (h & bs' & FL' & Hf & Hinv' & HB' & HT' & Hc' & Hnb & _ & Hp). rewrite Z.sub_add in Hf.
  assert (count h = s32 (Z.of_nat (length (B1 ++ B2)))) as Ec.
  { rewrite Hc'. cbn [count]. rewrite Hc. unfold Z.sub at 1. rewrite s32_add. f_equal. rewrite !length_app. cbn. lia. }
  exists h. split_and!; try done.
  - split; [done|]. exists bs', FL'. cbn. split_and!; try done. lia.
  - unfold bm_heap_is_empty. rewrite Ec. pose proof (busies_length bs' (base (mm_to_segment mm)) (hp_sizes _ _ _ _ (hi_hp _ _ _ _ Hinv'))) as Hlen.
    rewrite HB' in Hlen. assert (Z.of_nat (length (B1 ++ B2)) < 2 ^ 31) as Hl by (destruct W_cases; lia).
    rewrite s32_small by lia. destruct (B1 ++ B2) as [|b B]; [done|]. rewrite bool_decide_eq_false_2 by done. apply Z.eqb_neq. cbn [length]. lia.
Qed.

(** A live block lies in its segment. *)
Lemma seg_inside mm seg fail B ptr s : seg_rep mm seg fail B -> (ptr - W, s) ∈ B ->
  mm_to_segment mm < ptr /\ ptr - W + s <= mm + mm_size seg - W /\ W < s.
Proof.
  intros (Hseg & bs & FL & Hinv & <- & HT & _) Hp. pose proof W_pos as HW.
  pose proof (hp_sizes _ _ _ _ (hi_hp _ _ _ _ Hinv)) as Hsz. pose proof (busies_range _ _ _ _ Hsz Hp) as Hr.
  apply list_elem_of_split in Hp as (B1 & B2 & HB). destruct (busies_split _ _ _ _ _ _ HB) as (bs1 & bs2 & -> & _).
  unfold sizes in Hsz. rewrite Forall_app, Forall_cons in Hsz. destruct Hsz as (_ & [Hs4 _] & _). cbn in Hs4.
  unfold base, HEAP_DESC, mm_to_segment, MM_SEGMENT in *. lia.
Qed.

End Segs.
