(* ===== verification/MspaceFacts.v ===== *)
(** The heap of a task: its invariant, the walk over the segments and what the
    cache may skip, new segments, and the segment of a pointer. *)
From S2P Require Import Prelude PageAlloc HeapBm HeapList HeapLayout HeapOps HeapFree HeapAlloc HeapSearch HeapTheorems MspacePages Mspace MspaceSegs.

Local Open Scope Z_scope.
Local Open Scope embox_scope.

Section Facts.
Context `{A : arch} `{!ArchOk A} {Src : Type} `{!Segments Src}.
Abbreviation W := (WORD (A := A)).
Abbreviation st_t := (mspace_st Src).
Abbreviation objects := (gmap Z (list (Z * Z))).
Context (P TOP : Z).
Hypothesis P_words : (W | P).
Hypothesis P_size : 256 <= P <= 2 ^ 20.
Hypothesis TOP_ok : 0 < TOP /\ TOP + 3 * W < 2 ^ LONG_BIT.
Context `{!SegmentsOk Src P TOP}.

(** The request the segment [mm] is known to have no room for. *)
Definition fail_at (st : st_t) (mm : Z) : option (Z * Z) :=
  let c := mcache st in
  if cache_fail_valid c && bool_decide (mm ∈ default [] (mspaces st !! cache_owner c))
  then Some (cache_fail_boundary c, cache_fail_size c) else None.

(** The runs of pages of the segments. *)
Definition runs (segs : gmap Z mm_segment) : list (Z * Z) := map_to_list ((fun seg => mm_size seg / P) <$> segs).

(** [O] gives the live blocks of every segment. *)
Record mspace_rep (st : st_t) (O : objects) : Prop := {
  mr_dom : dom (segments st) = dom O;
  mr_seg mm seg B : segments st !! mm = Some seg -> O !! mm = Some B -> seg_rep TOP mm seg (fail_at st mm) B;
  mr_in ms l mm : mspaces st !! ms = Some l -> mm ∈ l -> is_Some (segments st !! mm);
  mr_one ms ms' l l' mm : mspaces st !! ms = Some l -> mspaces st !! ms' = Some l' -> mm ∈ l -> mm ∈ l' -> ms = ms';
  mr_div mm seg : segments st !! mm = Some seg -> exists n, mm_size seg = n * P /\ 0 < n;
  mr_apart mm mm' seg seg' : segments st !! mm = Some seg -> segments st !! mm' = Some seg' -> mm <> mm' ->
    mm + mm_size seg <= mm' \/ mm' + mm_size seg' <= mm;
  mr_pages : seg_held (pages st) (runs (segments st));
  mr_hint : cache_hint (mcache st) = 0 \/
    exists l, mspaces st !! cache_owner (mcache st) = Some l /\ cache_hint (mcache st) ∈ l;
  mr_fail : cache_fail_valid (mcache st) = true -> vreq P TOP (cache_fail_boundary (mcache st)) (cache_fail_size (mcache st))
}.

(** The contents of the live blocks [O] are kept. *)
Definition kept (O : objects) (segs segs' : gmap Z mm_segment) : Prop :=
  forall mm B seg seg', O !! mm = Some B -> segs !! mm = Some seg -> segs' !! mm = Some seg' ->
    payload_kept B (mm_words seg) (mm_words seg').

Lemma kept_refl O segs : kept O segs segs.
Proof. intros mm B seg seg' _ -> [= ->]. by intros ?. Qed.

Lemma rep_lookup st O mm seg : mspace_rep st O -> segments st !! mm = Some seg -> exists B, O !! mm = Some B.
Proof.
  intros Hr Hs. assert (mm ∈ dom O) as Hd by (rewrite <- (mr_dom _ _ Hr); by apply elem_of_dom).
  by apply elem_of_dom in Hd.
Qed.

Lemma fail_pow st O mm b n : mspace_rep st O -> fail_at st mm = Some (b, n) -> vreq P TOP b n.
Proof.
  intros Hr. unfold fail_at. destruct (cache_fail_valid (mcache st)) eqn:Hv; [|done]. cbn [andb].
  case_bool_decide; [|done]. intros [= <- <-]. by apply (mr_fail _ _ Hr).
Qed.

(** * The walk *)

Lemma alloc_walk_ok boundary size nb segs (O : objects) F mms :
  (forall mm seg B, segs !! mm = Some seg -> O !! mm = Some B -> seg_rep TOP mm seg (F mm) B) -> dom segs = dom O ->
  (forall mm b n, F mm = Some (b, n) -> pow_or_0 b) -> vreq P TOP boundary size ->
  (forall mm, mm ∈ mms -> is_Some (segs !! mm)) ->
  (exists k, alloc_walk boundary size nb mms segs = Some (0, segs, k) /\
     forall mm seg B, mm ∈ mms -> segs !! mm = Some seg -> O !! mm = Some B -> seg_rep TOP mm seg (Some (boundary, size)) B) \/
  (exists k mm seg seg' B1 B2 ptr s, alloc_walk boundary size nb mms segs = Some (ptr, <[mm := seg']> segs, k) /\
     ptr <> 0 /\ mm ∈ mms /\ segs !! mm = Some seg /\ O !! mm = Some (B1 ++ B2) /\ mm_size seg' = mm_size seg /\
     seg_rep TOP mm seg' (F mm) (B1 ++ (ptr - W, s) :: B2) /\ size + W <= s /\ (boundary = 0 \/ ptr mod boundary = 0) /\
     payload_kept (B1 ++ B2) (mm_words seg) (mm_words seg')).
Proof.
  intros Hrep Hdom HF Hv. induction mms as [|mm mms IH]; intros Hin; cbn [alloc_walk].
  { left. exists 0. split; [done|]. by intros mm seg B ?%elem_of_nil. }
  destruct (Hin mm) as [seg Hseg]; [left|]. rewrite Hseg. cbn [mbind option_bind].
  assert (mm ∈ dom O) as [B HB]%elem_of_dom by (rewrite <- Hdom; by apply elem_of_dom).
  destruct (seg_alloc P TOP P_size mm seg (F mm) B boundary size nb (Hrep _ _ _ Hseg HB) Hv (HF mm))
    as [[-> Hno]|(ptr & h & B1 & B2 & s & -> & Hp & -> & Hrep' & Hs & Hal & Hk)]; cbn [mbind option_bind mem count].
  - destruct seg as [sz wd ct]. cbn [mm_size mm_words mm_count]. rewrite insert_id by done. cbn [negb Z.eqb].
    destruct IH as [(k & -> & Hall)|(k & mm' & seg & seg' & B1 & B2 & ptr & s & -> & H1 & H2 & H)].
    + intros x Hx. apply Hin. by right.
    + left. cbn [mbind option_bind]. exists (k + 1). split; [done|]. intros x seg B' [->|Hx]%elem_of_cons; [|by apply Hall].
      rewrite Hseg, HB. by intros [= <-] [= <-].
    + right. cbn [mbind option_bind]. exists (k + 1), mm', seg, seg', B1, B2, ptr, s. split_and!; try done; try apply H. by right.
  - right. rewrite (proj2 (Z.eqb_neq ptr 0)) by done. cbn [negb].
    eexists 1, mm, seg, _, B1, B2, ptr, s. split_and!; try done. left.
Qed.

(** * Changes that keep the segments where they are *)

Lemma size_lookup (segs segs' : gmap Z mm_segment) mm seg' : mm_size <$> segs' = mm_size <$> segs ->
  segs' !! mm = Some seg' -> exists seg, segs !! mm = Some seg /\ mm_size seg' = mm_size seg.
Proof.
  intros E Hs. assert ((mm_size <$> segs) !! mm = Some (mm_size seg')) as H by (by rewrite <- E, lookup_fmap, Hs).
  rewrite lookup_fmap in H. apply fmap_Some in H as (seg & Hseg & Hsz). by exists seg.
Qed.

Lemma runs_sizes (segs segs' : gmap Z mm_segment) : mm_size <$> segs' = mm_size <$> segs -> runs segs' = runs segs.
Proof.
  intros E. unfold runs. f_equal. change (fun seg => mm_size seg / P) with ((fun x => x / P) ∘ mm_size).
  by rewrite !map_fmap_compose, E.
Qed.

Lemma rep_change st st' O O' : mspace_rep st O -> mspaces st' = mspaces st -> pages st' = pages st ->
  mm_size <$> segments st' = mm_size <$> segments st -> dom O' = dom O ->
  (forall mm seg B, segments st' !! mm = Some seg -> O' !! mm = Some B -> seg_rep TOP mm seg (fail_at st' mm) B) ->
  (cache_hint (mcache st') = 0 \/ exists l, mspaces st !! cache_owner (mcache st') = Some l /\ cache_hint (mcache st') ∈ l) ->
  (cache_fail_valid (mcache st') = true -> vreq P TOP (cache_fail_boundary (mcache st')) (cache_fail_size (mcache st'))) ->
  mspace_rep st' O'.
Proof.
  intros [H1 H2 H3 H4 H5 H6 H7 H8 H9] Em Ep Es Ed Hseg Hh Hf.
  assert (dom (segments st') = dom (segments st)) as Edom by (by rewrite <- (dom_fmap_L mm_size), Es, dom_fmap_L).
  split; rewrite ?Em, ?Ep; try done.
  - congruence.
  - intros ms l mm Hl Hmm. apply elem_of_dom. rewrite Edom. apply elem_of_dom. by eapply H3.
  - intros mm seg Hs. destruct (size_lookup _ _ _ _ Es Hs) as (seg0 & Hs0 & ->). by eapply H5.
  - intros mm mm' seg seg' Hs Hs' Hne. destruct (size_lookup _ _ _ _ Es Hs) as (seg0 & Hs0 & ->).
    destruct (size_lookup _ _ _ _ Es Hs') as (seg1 & Hs1 & ->). by eapply H6.
  - by rewrite (runs_sizes _ _ Es).
Qed.

(** A new value of one segment. *)
Lemma rep_update st st' O mm seg seg' B : mspace_rep st O -> mspaces st' = mspaces st -> pages st' = pages st ->
  mcache st' = mcache st -> segments st' = <[mm := seg']> (segments st) ->
  segments st !! mm = Some seg -> mm_size seg' = mm_size seg -> seg_rep TOP mm seg' (fail_at st mm) B ->
  mspace_rep st' (<[mm := B]> O).
Proof.
  intros Hr Em Ep Ec Es Hseg Hsz Hrep. assert (forall x, fail_at st' x = fail_at st x) as Ef by (intros x; unfold fail_at; by rewrite Em, Ec).
  eapply rep_change; try done.
  - rewrite Es, fmap_insert, Hsz. apply insert_id. by rewrite lookup_fmap, Hseg.
  - rewrite dom_insert_L. assert (mm ∈ dom O) by (rewrite <- (mr_dom _ _ Hr); by apply elem_of_dom). set_solver.
  - intros x sg B' Hx HB'. rewrite Es in Hx. rewrite Ef. destruct (decide (x = mm)) as [->|Hne].
    + rewrite lookup_insert_eq in Hx. rewrite lookup_insert_eq in HB'. by simplify_eq.
    + rewrite lookup_insert_ne in Hx by done. rewrite lookup_insert_ne in HB' by done. by eapply mr_seg.
  - rewrite Ec. apply (mr_hint _ _ Hr).
  - rewrite Ec. apply (mr_fail _ _ Hr).
Qed.

(** The cache records that a request failed, or forgets. *)
Lemma rep_failed st st' O boundary size : mspace_rep st O -> mspaces st' = mspaces st -> pages st' = pages st ->
  segments st' = segments st -> mcache st' = Cache (cache_owner (mcache st)) (cache_hint (mcache st)) size boundary true ->
  vreq P TOP boundary size ->
  (forall l mm seg B, mspaces st !! cache_owner (mcache st) = Some l -> mm ∈ l -> segments st !! mm = Some seg -> O !! mm = Some B ->
     seg_rep TOP mm seg (Some (boundary, size)) B) -> mspace_rep st' O.
Proof.
  intros Hr Em Ep Es Ec Hv Hno. eapply rep_change; try done; try (by rewrite ?Es, ?Ec).
  - intros mm seg B. rewrite Es. intros Hs HB. unfold fail_at. rewrite Ec, Em. cbn [cache_fail_valid cache_owner andb cache_fail_boundary cache_fail_size].
    case_bool_decide as Hin; [|by eapply seg_weaken, mr_seg]. destruct (mspaces st !! cache_owner (mcache st)) as [l|] eqn:Hl; [|by apply elem_of_nil in Hin].
    by eapply Hno.
  - rewrite Ec. apply (mr_hint _ _ Hr).
Qed.

Lemma rep_forgets st st' O hint : mspace_rep st O -> mspaces st' = mspaces st -> pages st' = pages st ->
  segments st' = segments st -> cache_fail_valid (mcache st') = false -> cache_hint (mcache st') = hint ->
  (hint = 0 \/ exists l, mspaces st !! cache_owner (mcache st') = Some l /\ hint ∈ l) -> mspace_rep st' O.
Proof.
  intros Hr Em Ep Es Ef Eh Hh. eapply rep_change; try done.
  - by rewrite Es.
  - intros mm seg B. rewrite Es. intros Hs HB. unfold fail_at. rewrite Ef. cbn [andb]. by eapply seg_weaken, mr_seg.
  - by rewrite Eh.
  - by rewrite Ef.
Qed.

Lemma rep_pages st st' O p : mspace_rep st O -> mspaces st' = mspaces st -> mcache st' = mcache st ->
  segments st' = segments st -> pages st' = p -> seg_held p (runs (segments st)) -> mspace_rep st' O.
Proof.
  intros [H1 H2 H3 H4 H5 H6 H7 H8 H9] Em Ec Es Ep Hp. split; rewrite ?Em, ?Ec, ?Es, ?Ep; try done.
  intros mm seg B Hs HB. unfold fail_at. rewrite Em, Ec. by apply H2.
Qed.

(** * [mspace_do_alloc] *)

(** What the cache remembers is what the walk would find. *)
Lemma cached_walk st O ms l boundary size : mspace_rep st O -> cache_owner (mcache st) = ms -> mspaces st !! ms = Some l ->
  vreq P TOP boundary size -> cache_fail_valid (mcache st) = true ->
  cache_fail_size (mcache st) <= size -> cache_fail_boundary (mcache st) <= boundary ->
  exists k, alloc_walk boundary size (not_busy st) l (segments st) = Some (0, segments st, k).
Proof.
  intros Hr Ho Hl Hv Hf Hs Hb. assert (forall mm, mm ∈ l -> mm ∈ l) as Hsub by done. revert Hsub.
  generalize l at 1 3. intros mms. induction mms as [|mm mms IH]; intros Hsub; cbn [alloc_walk]; [by exists 0|].
  assert (mm ∈ l) as Hmm by (apply Hsub; left). destruct (mr_in _ _ Hr ms l mm Hl Hmm) as [seg Hseg].
  rewrite Hseg. cbn [mbind option_bind]. destruct (rep_lookup _ _ _ _ Hr Hseg) as [B HB].
  pose proof (mr_seg _ _ Hr mm seg B Hseg HB) as Hrep. unfold fail_at in Hrep. rewrite Hf, Ho, Hl in Hrep. cbn [andb default] in Hrep.
  rewrite bool_decide_eq_true_2 in Hrep by done.
  rewrite (seg_cached P TOP P_size _ _ _ _ _ _ _ _ Hrep (mr_fail _ _ Hr Hf) Hv Hb Hs). cbn [mbind option_bind mem count negb Z.eqb].
  destruct seg as [sz wd ct]. cbn [mm_size mm_words mm_count]. rewrite insert_id by done.
  destruct IH as [k ->]; [intros x Hx; apply Hsub; by right|]. cbn [mbind option_bind]. by exists (k + 1).
Qed.

Lemma do_alloc_ok st O ms l boundary size : mspace_rep st O -> cache_owner (mcache st) = ms -> mspaces st !! ms = Some l ->
  vreq P TOP boundary size ->
  (exists st', mspace_do_alloc boundary size ms st = Some (0, st') /\ mspace_rep st' O /\
     segments st' = segments st /\ mspaces st' = mspaces st /\ pages st' = pages st /\ not_busy st' = not_busy st /\
     cache_owner (mcache st') = ms /\
     (cache_fail_valid (mcache st) = false -> forall mm seg B, mm ∈ l -> segments st !! mm = Some seg -> O !! mm = Some B ->
        seg_rep TOP mm seg (Some (boundary, size)) B)) \/
  (exists st' mm B1 B2 ptr s, mspace_do_alloc boundary size ms st = Some (ptr, st') /\ ptr <> 0 /\ mm ∈ l /\
     O !! mm = Some (B1 ++ B2) /\ mspace_rep st' (<[mm := B1 ++ (ptr - W, s) :: B2]> O) /\ mspaces st' = mspaces st /\
     size + W <= s /\ (boundary = 0 \/ ptr mod boundary = 0) /\ kept O (segments st) (segments st')).
Proof.
  intros Hr Ho Hl Hv. unfold mspace_do_alloc.
  destruct (cache_fail_valid (mcache st) && (size >=? cache_fail_size (mcache st)) && (boundary >=? cache_fail_boundary (mcache st))) eqn:Hc.
  { left. exists st. split_and!; try done. intros E. by rewrite E in Hc. }
  rewrite Hl. cbn [mbind option_bind].
  destruct (alloc_walk_ok boundary size (not_busy st) (segments st) O (fail_at st) l)
    as [(k & -> & Hno)|(k & mm & seg & seg' & B1 & B2 & ptr & s & -> & Hp & Hmm & Hseg & HB & Hsz & Hrep & Hs & Hal & Hk)]; try done.
  - apply (mr_seg _ _ Hr).
  - apply (mr_dom _ _ Hr).
  - intros mm b n Hf. apply (fail_pow _ _ _ _ _ Hr Hf).
  - intros mm. by eapply mr_in.
  - left. cbn [mbind option_bind negb Z.eqb]. eexists. split; [done|]. split_and!; try done.
    + eapply (rep_failed st _ O boundary size Hr); try done. rewrite Ho. intros l' mm seg B Hl' Hmm Hs HB. rewrite Hl in Hl'.
      injection Hl' as <-. by apply Hno.
  - right. cbn [mbind option_bind]. rewrite (proj2 (Z.eqb_neq ptr 0)) by done. cbn [negb].
    eexists _, mm, B1, B2, ptr, s. split; [done|]. split_and!; try done.
    + by eapply (rep_update st _ O mm seg seg' _ Hr).
    + intros x B sg sg' HB' Hsg Hsg'. cbn in Hsg'. destruct (decide (x = mm)) as [->|Hne].
      * rewrite lookup_insert_eq in Hsg'. by simplify_eq.
      * rewrite lookup_insert_ne in Hsg' by done. simplify_eq. by intros ?.
Qed.

(** A new segment at the front of the list serves the request it was made for. *)
Lemma do_alloc_front st O ms mm l seg boundary size : mspace_rep st O -> mspaces st !! ms = Some (mm :: l) ->
  vreq P TOP boundary size -> cache_fail_valid (mcache st) = false -> segments st !! mm = Some seg -> O !! mm = Some [] ->
  size + boundary + P < mm_size seg ->
  exists st' ptr s, mspace_do_alloc boundary size ms st = Some (ptr, st') /\ ptr <> 0 /\
    mspace_rep st' (<[mm := [(ptr - W, s)]]> O) /\ mspaces st' = mspaces st /\
    size + W <= s /\ (boundary = 0 \/ ptr mod boundary = 0) /\ (exists seg', segments st' = <[mm := seg']> (segments st)).
Proof.
  intros Hr Hl Hv Hf Hseg HO Hbig. unfold mspace_do_alloc. rewrite Hf, Hl. cbn [andb mbind option_bind alloc_walk]. rewrite Hseg.
  cbn [mbind option_bind]. pose proof (mr_seg _ _ Hr mm seg [] Hseg HO) as Hrep.
  destruct (seg_alloc P TOP P_size mm seg (fail_at st mm) [] boundary size (not_busy st) Hrep Hv)
    as [[_ Hno]|(ptr & h & B1 & B2 & s & EB & Hp & -> & Hrep' & Hs & Hal & _)].
  - intros b n Hfa. apply (fail_pow _ _ _ _ _ Hr Hfa).
  - exfalso. eapply (seg_room P TOP P_size mm seg boundary size); try done. by eapply seg_weaken.
  - cbn [mbind option_bind]. rewrite (proj2 (Z.eqb_neq ptr 0)) by done. cbn [negb mbind option_bind].
    rewrite (proj2 (Z.eqb_neq ptr 0)) by done. cbn [negb].
    symmetry in EB. apply app_nil in EB as [-> ->]. eexists _, ptr, s. split; [done|]. split_and!; try done; [|by eexists].
    by eapply (rep_update st _ O mm seg _ _ Hr).
Qed.

(** * New segments *)

Lemma run_elem mm seg (segs : gmap Z mm_segment) : segs !! mm = Some seg -> (mm, mm_size seg / P) ∈ runs segs.
Proof. intros H. apply elem_of_map_to_list. by rewrite lookup_fmap, H. Qed.

Lemma add_segment_ok junk st O ms l mm n p : mspace_rep st O -> mspaces st !! ms = Some l ->
  0 < mm -> (P | mm) -> 0 < n -> n * P < 2 ^ 35 -> mm + n * P <= TOP -> seg_held p ((mm, n) :: runs (segments st)) ->
  Forall (apart_runs P (mm, n)) (runs (segments st)) -> cache_owner (mcache st) = ms ->
  exists st' seg, add_segment junk mm (n * P) ms (set_pages p st) = Some st' /\ mspace_rep (mspace_cache_grew st') (<[mm := []]> O) /\
    mspaces st' !! ms = Some (mm :: l) /\ segments st' = <[mm := seg]> (segments st) /\ mm_size seg = n * P /\
    O !! mm = None /\ mcache st' = mcache st /\ not_busy st' = not_busy st.
Proof.
  intros Hr Hl H0 Hdiv Hn Hmax Htop Hheld Hap Ho. rewrite Forall_forall in Hap.
  assert (forall x sg, segments st !! x = Some sg -> mm + n * P <= x \/ x + mm_size sg <= mm) as Hfar.
  { intros x sg Hx. destruct (mr_div _ _ Hr x sg Hx) as (q & Eq & Hq). pose proof (Hap _ (run_elem _ _ _ Hx)) as H.
    unfold apart_runs in H. cbn [fst snd] in H. rewrite Eq, Z.div_mul in H by lia. by rewrite Eq. }
  assert (segments st !! mm = None) as Hnew.
  { destruct (segments st !! mm) as [sg|] eqn:Hx; [|done]. destruct (mr_div _ _ Hr mm sg Hx) as (q & Eq & Hq).
    destruct (Hfar mm sg Hx); nia. }
  assert (O !! mm = None) as HO by (apply not_elem_of_dom; rewrite <- (mr_dom _ _ Hr); by apply not_elem_of_dom).
  destruct (seg_new P TOP P_words P_size TOP_ok junk mm n (not_busy st)) as (h & Hh & Hrep); try done.
  unfold add_segment. cbn [mspaces set_pages not_busy segments]. rewrite Hl. cbn [mbind option_bind]. rewrite Hh. cbn [mbind option_bind].
  eexists _, _. split; [done|]. cbn [mspaces segments set_segments set_mspaces mcache not_busy set_pages].
  split; [|split_and!; try done; by rewrite lookup_insert_eq].
  assert (forall ms' l' x, <[ms := mm :: l]> (mspaces st) !! ms' = Some l' -> x ∈ l' ->
    (x = mm /\ ms' = ms) \/ (x <> mm /\ exists l0, mspaces st !! ms' = Some l0 /\ x ∈ l0)) as Hlist.
  { assert (forall ms' l0 x, mspaces st !! ms' = Some l0 -> x ∈ l0 -> x <> mm) as Hne.
    { intros ms' l0 x Hl0 Hx ->. destruct (mr_in _ _ Hr ms' l0 mm Hl0 Hx) as [? E]. by rewrite Hnew in E. }
    intros ms' l' x. destruct (decide (ms' = ms)) as [->|Hms].
    - rewrite lookup_insert_eq. intros [= <-] [->|Hx]%elem_of_cons; [by left|right; split; [by eapply Hne|eauto]].
    - rewrite lookup_insert_ne by done. intros Hl' Hx. right. split; [by eapply Hne|eauto]. }
  split; cbn [mspaces segments set_segments set_mspaces mcache not_busy set_pages pages mspace_cache_grew set_cache cache_hint cache_owner cache_fail_valid].
  - by rewrite !dom_insert_L, (mr_dom _ _ Hr).
  - intros x sg B Hx HB. unfold fail_at. cbn [mcache mspace_cache_grew set_cache cache_fail_valid andb].
    destruct (decide (x = mm)) as [->|Hne].
    + rewrite lookup_insert_eq in Hx. rewrite lookup_insert_eq in HB. by simplify_eq.
    + rewrite lookup_insert_ne in Hx by done. rewrite lookup_insert_ne in HB by done. by eapply seg_weaken, mr_seg.
  - intros ms' l' x Hl' Hx. destruct (Hlist _ _ _ Hl' Hx) as [[-> _]|(Hne & l0 & Hl0 & Hx0)]; [by rewrite lookup_insert_eq|].
    rewrite lookup_insert_ne by done. by eapply mr_in.
  - intros ms1 ms2 l1 l2 x Hl1 Hl2 Hx1 Hx2.
    destruct (Hlist _ _ _ Hl1 Hx1) as [[Hm1 ?]|(Hne & l3 & Hl3 & Hx3)], (Hlist _ _ _ Hl2 Hx2) as [[Hm2 ?]|(Hne' & l4 & Hl4 & Hx4)];
      try congruence. by eapply mr_one.
  - intros x sg. destruct (decide (x = mm)) as [->|Hne]; [rewrite lookup_insert_eq; intros [= <-]; eauto|].
    rewrite lookup_insert_ne by done. by apply (mr_div _ _ Hr).
  - intros x y sx sy. destruct (decide (x = mm)) as [->|Hx], (decide (y = mm)) as [->|Hy]; rewrite ?lookup_insert_eq, ?lookup_insert_ne by done; try done.
    + intros [= <-] Hs _. by apply Hfar.
    + intros Hs [= <-] _. destruct (Hfar x sx Hs); tauto.
    + by apply (mr_apart _ _ Hr).
  - eapply seg_perm; [|exact Hheld]. unfold runs. rewrite fmap_insert. cbn [mm_size]. rewrite Z.div_mul by lia.
    rewrite map_to_list_insert; [done|]. by rewrite lookup_fmap, Hnew.
  - rewrite Ho. rewrite lookup_insert_eq. destruct (mr_hint _ _ Hr) as [?|(l0 & Hl0 & Hx)]; [by left|right].
    exists (mm :: l). split; [done|]. rewrite Ho, Hl in Hl0. injection Hl0 as <-. by right.
  - done.
Qed.

(** * The size of a new segment *)

(** [n] pages hold the request and the bookkeeping. *)
Definition enough (boundary size n : Z) : Prop := 0 < n < 2 ^ 31 /\ n * P < 2 ^ 35 /\ size + boundary + P < n * P.

(** What the allocation of a segment gives: nothing, or enough new pages. *)
Definition new_run (boundary size : Z) (R : list (Z * Z)) (r : option (Z * Z)) (p : Src) : Prop :=
  match r with
  | None => seg_held p R
  | Some (mm, sz) => exists n, sz = n * P /\ enough boundary size n /\ 0 < mm /\ (P | mm) /\ mm + n * P <= TOP /\
      seg_held p ((mm, n) :: R) /\ Forall (apart_runs P (mm, n)) R
  end.

Lemma one_run boundary size R n p : seg_held p R -> enough boundary size n ->
  exists a p', mm_segment_alloc n p = Some (a, p') /\
    new_run boundary size R (if negb (a =? 0) then Some (a, ul (n * P)) else None) p'.
Proof.
  intros Hh Hn. destruct (seg_alloc_ok p R n Hh) as (a & p' & E & Hr); [apply Hn|]. exists a, p'. split; [done|].
  destruct Hr as [[-> Hr]|(Ha & Hd & Ht & Hr & Hap)]; [done|]. rewrite (proj2 (Z.eqb_neq a 0)) by lia. cbn [negb new_run].
  exists n. destruct Hn as (Hn1 & Hn2 & Hn3). pose proof W_pos as HW. rewrite ul_small by lia. by split_and!.
Qed.

Lemma greedy_ok boundary size R k : forall i p, seg_held p R -> (forall j, i - Z.of_nat k < j <= i -> enough boundary size j) ->
  exists r p', greedy_loop P k i p = Some (r, p') /\ new_run boundary size R r p'.
Proof.
  induction k as [|k IH]; intros i p Hh Hen; cbn [greedy_loop]; [by exists None, p|].
  destruct (one_run boundary size R i p Hh) as (a & p' & -> & Hr); [apply Hen; lia|]. cbn [mbind option_bind].
  destruct (negb (a =? 0)); [by eexists _, _|]. apply IH; [done|]. intros j Hj. apply Hen. lia.
Qed.

Lemma try_alloc_ok greed boundary size R p : vreq P TOP boundary size -> seg_held p R ->
  exists r p', mm_try_alloc_segment P greed size boundary p = Some (r, p') /\ new_run boundary size R r p'.
Proof.
  intros [H1 H2 H3 H4 H5] Hh. pose proof (pow_ge_0 _ H2) as Hb. unfold mm_try_alloc_segment. destruct greed.
  - rewrite (ul_small (size + boundary + P)) by lia. set (mn := (size + boundary + P) / P).
    pose proof (Z.div_mod (size + boundary + P) P ltac:(lia)) as Hdm. pose proof (Z.mod_pos_bound (size + boundary + P) P ltac:(lia)) as Hmb.
    fold mn in Hdm. assert (0 < mn) as Hmn by nia. assert (mn + 1 < 2 ^ 31) as Hmn2 by nia.
    rewrite ul_32 by lia. pose proof (Z.mul_div_le (1048576 + P) P ltac:(lia)) as Hmx. set (mb := (1048576 + P) / P) in *.
    assert (mb < 2 ^ 31) as Hmb2 by nia. apply greedy_ok; [done|]. intros j Hj. rewrite Z2Nat.id in Hj by lia.
    assert (mn < j /\ (j <= mb \/ j = mn + 1)) as [Hj1 Hj2] by lia.
    pose proof (Z.mul_le_mono_nonneg_l (mn + 1) j P ltac:(lia) ltac:(lia)) as Hl.
    assert (P * j <= Z.max (1048576 + P) (P * mn + P)) as Hu.
    { destruct Hj2 as [Hj2| ->]; [|lia]. pose proof (Z.mul_le_mono_nonneg_l j mb P ltac:(lia) Hj2). lia. }
    split; lia.
  - pose proof (Z.div_mod size P ltac:(lia)) as Hs. pose proof (Z.mod_pos_bound size P ltac:(lia)) as Hsb.
    pose proof (Z.div_mod boundary P ltac:(lia)) as Hq. pose proof (Z.mod_pos_bound boundary P ltac:(lia)) as Hqb.
    set (a := size / P) in *. set (c := boundary / P) in *. set (x := size mod P + boundary mod P + 2 * P).
    pose proof (Z.div_mod x P ltac:(lia)) as Hx. pose proof (Z.mod_pos_bound x P ltac:(lia)) as Hxb.
    assert (0 <= a) by (apply Z.div_pos; lia). assert (0 <= c) by (apply Z.div_pos; lia).
    assert (2 <= x / P <= 3) as Hx2.
    { split; [apply Z.div_le_lower_bound; lia|]. apply Z.lt_succ_r, Z.div_lt_upper_bound; lia. }
    pose proof (Z.mul_le_mono_nonneg_r 256 P (a + c) ltac:(lia) ltac:(lia)) as Hac0. assert (a + c <= 2 ^ 26) as Hac by lia.
    rewrite (ul_32 (a + c)), (ul_small x) by (unfold x; lia). rewrite (ul_32 (a + c + x / P)) by lia.
    destruct (one_run boundary size R (a + c + x / P) p Hh) as (mm & p' & -> & Hr).
    + pose proof (Z.mul_le_mono_nonneg_l 2 (x / P) P ltac:(lia) ltac:(lia)). split; lia.
    + cbn [mbind option_bind]. by eexists _, _.
Qed.

End Facts.
