(* ===== verification/MspaceTheorems.v ===== *)
(** What [mspace_memalign] and [mspace_free] guarantee, whatever the cache
    holds. *)
From S2P Require Import Prelude PageAlloc HeapBm HeapList HeapLayout HeapOps HeapFree HeapAlloc HeapSearch HeapTheorems MspacePages Mspace MspaceSegs MspaceFacts.

Local Open Scope Z_scope.
Local Open Scope embox_scope.

Section MspaceTheorems.
Context `{A : arch} `{!ArchOk A} {Src : Type} `{!Segments Src}.
Abbreviation W := (WORD (A := A)).
Abbreviation st_t := (mspace_st Src).
Abbreviation objects := (gmap Z (list (Z * Z))).
Context (P TOP : Z).
Hypothesis P_words : (W | P).
Hypothesis P_size : 256 <= P <= 2 ^ 20.
Hypothesis TOP_ok : 0 < TOP /\ TOP + 3 * W < 2 ^ LONG_BIT.
Context `{!SegmentsOk Src P TOP}.

Lemma select_ok st (O : objects) ms l : mspace_rep P TOP st O -> mspaces st !! ms = Some l ->
  let st' := mspace_cache_select ms st in
  mspace_rep P TOP st' O /\ cache_owner (mcache st') = ms /\ segments st' = segments st /\ mspaces st' = mspaces st /\
  pages st' = pages st /\ not_busy st' = not_busy st.
Proof.
  intros Hr Hl. unfold mspace_cache_select. destruct (Z.eqb_spec (cache_owner (mcache st)) ms) as [E|E]; cbn [negb]; [done|].
  split_and!; try done. eapply (rep_forgets P TOP st _ O 0 Hr); try done. by left.
Qed.

Lemma memalign_ok greed junk st (O : objects) ms l boundary size : mspace_rep P TOP st O -> mspaces st !! ms = Some l -> vreq P TOP boundary size ->
  exists r st', mspace_memalign P greed junk boundary size ms st = Some (r, st') /\
    ((r = 0 /\ mspace_rep P TOP st' O /\ segments st' = segments st) \/
     (r <> 0 /\ exists mm B1 B2 s l', default [] (O !! mm) = B1 ++ B2 /\ mspace_rep P TOP st' (<[mm := B1 ++ (r - W, s) :: B2]> O) /\
        mspaces st' !! ms = Some l' /\ mm ∈ l' /\ size + W <= s /\ (boundary = 0 \/ r mod boundary = 0) /\
        kept O (segments st) (segments st'))).
Proof.
  intros Hr Hl Hv. unfold mspace_memalign. pose proof (vreq_size _ _ _ _ Hv) as Hs. destruct (Z.eqb_spec size 0) as [|_]; [lia|].
  destruct (select_ok st O ms l Hr Hl) as (Hr1 & Ho1 & Es1 & Em1 & Ep1 & En1). set (st1 := mspace_cache_select ms st) in *.
  rewrite <- Em1 in Hl. rewrite <- Es1.
  destruct (do_alloc_ok P TOP P_words P_size TOP_ok st1 O ms l boundary size Hr1 Ho1 Hl Hv)
    as [(st2 & -> & Hr2 & Es2 & Em2 & Ep2 & En2 & Ho2 & _)|(st2 & mm & B1 & B2 & ptr & s & -> & Hp & Hmm & HO & Hr2 & Em2 & Hs2 & Hal & Hk)];
    cbn [mbind option_bind].
  2: { rewrite (proj2 (Z.eqb_neq ptr 0)) by done. cbn [negb]. eexists _, _. split; [done|]. right. split; [done|].
       exists mm, B1, B2, s, l. rewrite HO, Em2. by split_and!. }
  cbn [negb Z.eqb]. destruct (try_alloc_ok P TOP P_size TOP_ok greed boundary size (runs P (segments st2)) (pages st2) Hv (mr_pages _ _ _ _ Hr2))
    as (r & p & -> & Hrun). cbn [mbind option_bind]. destruct r as [[mm sz]|].
  2: { eexists _, _. split; [done|]. left. split_and!; try done. eapply (rep_pages P TOP st2 _ O p Hr2); done. }
  destruct Hrun as (n & -> & Hen & H0 & Hd & Ht & Hheld & Hap). rewrite <- Em2 in Hl.
  destruct (add_segment_ok P TOP P_words P_size TOP_ok junk st2 O ms l mm n p Hr2 Hl)
    as (st3 & seg & -> & Hr3 & Hl3 & Es3 & Hsz & HO & Ec3 & En3); try done; [apply Hen..|]. cbn [mbind option_bind].
  assert (segments (mspace_cache_grew st3) !! mm = Some seg) as Hseg by (cbn; rewrite Es3; apply lookup_insert_eq).
  destruct (do_alloc_front P TOP P_words P_size TOP_ok (mspace_cache_grew st3) (<[mm := []]> O) ms mm l seg boundary size Hr3)
    as (st4 & ptr & s & -> & Hp & Hr4 & Em4 & Hs4 & Hal & (seg' & Es4)); try done.
  { apply lookup_insert_eq. } { rewrite Hsz. apply Hen. }
  cbn [mbind option_bind]. rewrite (proj2 (Z.eqb_neq ptr 0)) by done. cbn [negb]. eexists _, _. split; [done|]. right. split; [done|].
  exists mm, [], [], s, (mm :: l). rewrite Em4, HO. rewrite insert_insert_eq in Hr4. split_and!; try done; [left|].
  intros x B sg sg' HB Hsg Hsg'. rewrite Es4 in Hsg'. cbn in Hsg'. rewrite Es3, Es2 in Hsg'.
  destruct (decide (x = mm)) as [->|Hne]; [congruence|]. rewrite !lookup_insert_ne in Hsg' by done. simplify_eq. by intros ?.
Qed.

(** * The segment of a pointer *)

Lemma inside_iff st (O : objects) mm seg ptr : mspace_rep P TOP st O -> segments st !! mm = Some seg ->
  pointer_inside_segment (mm_to_segment mm) (mm_size seg) ptr = true <-> mm + 3 * W < ptr < mm + 3 * W + mm_size seg.
Proof.
  intros Hr Hs. destruct (rep_lookup _ _ _ _ _ _ Hr Hs) as [B HB]. pose proof W_pos as HW.
  pose proof (mr_seg _ _ _ _ Hr _ _ _ Hs HB) as ((_ & H0 & Ht & Hsz) & _).
  unfold pointer_inside_segment, mm_to_segment, MM_SEGMENT. rewrite ul_small by lia. rewrite andb_true_iff, Z.gtb_lt, Z.ltb_lt. lia.
Qed.

(** The live block [ptr - W] of [mm] is in no other segment. *)
Lemma one_segment st (O : objects) mm seg B ptr s : mspace_rep P TOP st O -> segments st !! mm = Some seg -> O !! mm = Some B ->
  (ptr - W, s) ∈ B -> forall mm' seg', segments st !! mm' = Some seg' ->
  pointer_inside_segment (mm_to_segment mm') (mm_size seg') ptr = bool_decide (mm' = mm).
Proof.
  intros Hr Hs HB Hp mm' seg' Hs'. pose proof W_pos as HW.
  pose proof (seg_inside _ _ _ _ _ _ _ (mr_seg _ _ _ _ Hr _ _ _ Hs HB) Hp) as Hin. unfold mm_to_segment, MM_SEGMENT in Hin.
  case_bool_decide as Hm.
  - subst mm'. rewrite Hs in Hs'. injection Hs' as <-. apply (inside_iff st O mm seg ptr Hr Hs). lia.
  - apply not_true_iff_false. rewrite (inside_iff st O mm' seg' ptr Hr Hs'). destruct (mr_apart _ _ _ _ Hr _ _ _ _ Hs Hs'); [done|lia|lia].
Qed.

Lemma pointer_walk_ok st (O : objects) mm seg B ptr s l : mspace_rep P TOP st O -> segments st !! mm = Some seg -> O !! mm = Some B ->
  (ptr - W, s) ∈ B -> (forall x, x ∈ l -> is_Some (segments st !! x)) -> mm ∈ l ->
  exists k, pointer_walk ptr l (segments st) = Some (mm, k).
Proof.
  intros Hr Hs HB Hp. induction l as [|x l IH]; intros Hall Hmm; [by apply elem_of_nil in Hmm|]. cbn [pointer_walk].
  destruct (Hall x) as [sx Hx]; [left|]. rewrite Hx. cbn [mbind option_bind]. rewrite (one_segment _ _ _ _ _ _ _ Hr Hs HB Hp x sx Hx).
  case_bool_decide as E; [subst; by exists 1|]. apply elem_of_cons in Hmm as [?|Hmm]; [done|].
  destruct IH as [k ->]; [intros y Hy; apply Hall; by right|done|]. by exists (k + 1).
Qed.

(** [st'] differs from [st] in the cache and the counters only. *)
Definition same_heap (st st' : st_t) : Prop :=
  segments st' = segments st /\ mspaces st' = mspaces st /\ pages st' = pages st /\ not_busy st' = not_busy st /\
  cache_owner (mcache st') = cache_owner (mcache st).

Lemma pointer_search_ok st (O : objects) ms l mm seg B ptr s : mspace_rep P TOP st O -> cache_owner (mcache st) = ms ->
  mspaces st !! ms = Some l -> mm ∈ l -> segments st !! mm = Some seg -> O !! mm = Some B -> (ptr - W, s) ∈ B ->
  exists st', pointer_search ptr ms st = Some (mm, st') /\ mspace_rep P TOP st' O /\ same_heap st st'.
Proof.
  intros Hr Ho Hl Hmm Hs HB Hp. pose proof (mr_seg _ _ _ _ Hr _ _ _ Hs HB) as ((_ & H0 & _) & _).
  unfold pointer_search. rewrite Hl. cbn [mbind option_bind].
  destruct (pointer_walk_ok st O mm seg B ptr s l Hr Hs HB Hp) as [j ->]; [intros x; by apply (mr_in _ _ _ _ Hr ms)|done|].
  cbn [mbind option_bind]. rewrite (proj2 (Z.eqb_neq mm 0)) by lia. cbn [negb]. eexists. split; [done|]. split; [|done].
  eapply (rep_change P TOP st _ O O Hr); try done.
  - intros x sx B' Hx HB'. change (fail_at _ x) with (fail_at st x). by apply (mr_seg _ _ _ _ Hr).
  - right. exists l. cbn. by rewrite Ho.
  - apply (mr_fail _ _ _ _ Hr).
Qed.

(** The search finds it, with or without a hint. *)
Lemma pointer_to_mm_ok st (O : objects) ms l mm seg B ptr s : mspace_rep P TOP st O -> cache_owner (mcache st) = ms ->
  mspaces st !! ms = Some l -> mm ∈ l -> segments st !! mm = Some seg -> O !! mm = Some B -> (ptr - W, s) ∈ B ->
  exists st', pointer_to_mm ptr ms st = Some (mm, st') /\ mspace_rep P TOP st' O /\ same_heap st st'.
Proof.
  intros Hr Ho Hl Hmm Hs HB Hp. pose proof W_pos as HW. pose proof (mr_seg _ _ _ _ Hr _ _ _ Hs HB) as Hrep.
  pose proof (seg_inside _ _ _ _ _ _ _ Hrep Hp) as Hin. pose proof Hrep as ((_ & H0 & _) & _). unfold mm_to_segment, MM_SEGMENT in Hin.
  assert (mspace_rep P TOP (add_free_steps 1 st) O) as Hr1.
  { eapply (rep_change P TOP st _ O O Hr); try done.
    - intros x sx B' Hx HB'. change (fail_at _ x) with (fail_at st x). by apply (mr_seg _ _ _ _ Hr).
    - apply (mr_hint _ _ _ _ Hr).
    - apply (mr_fail _ _ _ _ Hr). }
  unfold pointer_to_mm. rewrite (proj2 (Z.eqb_neq ptr 0)) by lia. cbn [negb].
  destruct (Z.eqb_spec (cache_hint (mcache st)) 0) as [Eh|Eh]; cbn [negb]; [by eapply pointer_search_ok|].
  destruct (mr_hint _ _ _ _ Hr) as [?|(l' & Hl' & Hh)]; [done|].
  destruct (mr_in _ _ _ _ Hr _ _ _ Hl' Hh) as [sh Hsh]. cbn [segments add_free_steps]. rewrite Hsh. cbn [mbind option_bind].
  rewrite (one_segment _ _ _ _ _ _ _ Hr Hs HB Hp _ _ Hsh). case_bool_decide as E.
  - rewrite E. eexists. by split.
  - destruct (pointer_search_ok (add_free_steps 1 st) O ms l mm seg B ptr s Hr1 Ho Hl Hmm Hs HB Hp) as (st' & H & H'). by exists st'.
Qed.

(** * [mspace_free] *)

(** The live blocks once the last one of a segment is gone. *)
Definition drop_empty (mm : Z) (B : list (Z * Z)) (O : objects) : objects :=
  match B with [] => delete mm O | _ => <[mm := B]> O end.

Lemma rep_remove st st' (O : objects) mm seg p n : mspace_rep P TOP st O -> segments st !! mm = Some seg -> mm_size seg = n * P ->
  seg_held p (runs P (delete mm (segments st))) -> cache_fail_valid (mcache st') = false ->
  (cache_hint (mcache st') = 0 \/ (cache_hint (mcache st') <> mm /\ cache_hint (mcache st') = cache_hint (mcache st))) ->
  cache_owner (mcache st') = cache_owner (mcache st) ->
  pages st' = p -> segments st' = delete mm (segments st) -> mspaces st' = (filter (fun x => x <> mm) <$> mspaces st) ->
  mspace_rep P TOP st' (delete mm O).
Proof.
  intros Hr Hs Hn Hp Hf Hh Ho Ep Es Em.
  assert (forall ms l x, mspaces st' !! ms = Some l -> x ∈ l -> x <> mm /\ exists l0, mspaces st !! ms = Some l0 /\ x ∈ l0) as Hlist.
  { intros ms l x Hl Hx. rewrite Em, lookup_fmap in Hl. apply fmap_Some in Hl as (l0 & Hl0 & ->).
    apply list_elem_of_filter in Hx as [Hne Hx]. eauto. }
  split; rewrite ?Es.
  - by rewrite !dom_delete_L, (mr_dom _ _ _ _ Hr).
  - intros x sx B [Hne Hx]%lookup_delete_Some [_ HB]%lookup_delete_Some. unfold fail_at. rewrite Hf. cbn [andb].
    by eapply seg_weaken, mr_seg.
  - intros ms l x Hl Hx. destruct (Hlist _ _ _ Hl Hx) as (Hne & l0 & Hl0 & Hx0). rewrite lookup_delete_ne by done. by eapply mr_in.
  - intros ms ms' l l' x Hl Hl' Hx Hx'. destruct (Hlist _ _ _ Hl Hx) as (_ & l0 & Hl0 & Hx0), (Hlist _ _ _ Hl' Hx') as (_ & l1 & Hl1 & Hx1).
    by eapply mr_one.
  - intros x sx [_ Hx]%lookup_delete_Some. by eapply mr_div.
  - intros x y sx sy [_ Hx]%lookup_delete_Some [_ Hy]%lookup_delete_Some. by apply (mr_apart _ _ _ _ Hr).
  - by rewrite Ep.
  - destruct Hh as [?|[Hne Eh]]; [by left|]. destruct (mr_hint _ _ _ _ Hr) as [?|(l & Hl & Hx)]; [left; congruence|right].
    exists (filter (fun x => x <> mm) l). rewrite Em, Ho, lookup_fmap, Hl. split; [done|]. apply list_elem_of_filter. by rewrite Eh in *.
  - by rewrite Hf.
Qed.

Lemma runs_delete mm seg n (segs : gmap Z mm_segment) : segs !! mm = Some seg -> mm_size seg = n * P ->
  runs P segs ≡ₚ (mm, n) :: runs P (delete mm segs).
Proof.
  intros Hs Hn. unfold runs. rewrite fmap_delete. symmetry. apply map_to_list_delete.
  rewrite lookup_fmap, Hs. cbn. by rewrite Hn, Z.div_mul by lia.
Qed.

Lemma mspace_free_ok af `{!AfterFree af} st (O : objects) ms l mm B1 ptr s B2 : mspace_rep P TOP st O -> mspaces st !! ms = Some l -> mm ∈ l ->
  O !! mm = Some (B1 ++ (ptr - W, s) :: B2) ->
  exists st', mspace_free P af ptr ms st = Some (0, st') /\ mspace_rep P TOP st' (drop_empty mm (B1 ++ B2) O) /\
    kept (drop_empty mm (B1 ++ B2) O) (segments st) (segments st') /\ not_busy st' = not_busy st.
Proof.
  intros Hr Hl Hmm HO. pose proof W_pos as HW. destruct (select_ok st O ms l Hr Hl) as (Hr1 & Ho1 & Es1 & Em1 & Ep1 & En1).
  destruct (mr_in _ _ _ _ Hr ms l mm Hl Hmm) as [seg Hseg].
  assert ((ptr - W, s) ∈ B1 ++ (ptr - W, s) :: B2) as Hin by (apply elem_of_app; right; left).
  pose proof (seg_inside _ _ _ _ _ _ _ (mr_seg _ _ _ _ Hr _ _ _ Hseg HO) Hin) as Hp.
  pose proof (mr_seg _ _ _ _ Hr _ _ _ Hseg HO) as ((_ & H0 & _ & Hsz) & _). unfold mm_to_segment, MM_SEGMENT in Hp.
  unfold mspace_free. rewrite (proj2 (Z.eqb_neq ptr 0)) by lia. cbn [negb]. set (st1 := mspace_cache_select ms st) in *.
  rewrite <- Em1 in Hl. rewrite <- Es1 in Hseg.
  destruct (pointer_to_mm_ok st1 O ms l mm seg _ ptr s Hr1 Ho1 Hl Hmm Hseg HO Hin) as (st2 & -> & Hr2 & (Es2 & Em2 & Ep2 & En2 & Ho2)).
  cbn [mbind option_bind]. rewrite (proj2 (Z.eqb_neq mm 0)) by lia. cbn [negb]. rewrite Es2, Hseg. cbn [mbind option_bind].
  rewrite <- Es2 in Hseg.
  destruct (seg_free TOP af mm seg (fail_at st2 mm) B1 ptr s B2 (not_busy st2)) as (h & -> & Hrep & Hnb & Hempty & Hk).
  { by apply (mr_seg _ _ _ _ Hr2). }
  cbn [mbind option_bind]. rewrite Hempty. set (seg' := MmSegment (mm_size seg) (mem h) (count h)) in *.
  set (st3 := mspace_cache_grew (set_not_busy (bm_free_not_busy h) (set_segments (<[mm := seg']> (segments st1)) st2))).
  assert (mspace_rep P TOP st3 (<[mm := B1 ++ B2]> O)) as Hr3.
  { eapply (rep_update P TOP P_words P_size TOP_ok (mspace_cache_grew st2) _ O mm seg seg'); try done.
    - eapply (rep_forgets P TOP st2 _ O _ Hr2); try done. apply (mr_hint _ _ _ _ Hr2).
    - cbn. by rewrite Es2. }
  assert (segments st3 = <[mm := seg']> (segments st)) as Es3 by (cbn; by rewrite Es1).
  assert (kept (<[mm := B1 ++ B2]> O) (segments st) (segments st3)) as Hkept.
  { rewrite Es3. intros x B sx sx' HB Hx Hx'. rewrite Es2, Es1 in Hseg. destruct (decide (x = mm)) as [->|Hne].
    - rewrite lookup_insert_eq in HB. rewrite lookup_insert_eq in Hx'. by simplify_eq.
    - rewrite lookup_insert_ne in HB by done. rewrite lookup_insert_ne in Hx' by done. simplify_eq. by intros ?. }
  assert (not_busy st3 = not_busy st) as En3 by (cbn; congruence).
  case_bool_decide as HB.
  2: { exists st3. split; [done|]. unfold drop_empty. by destruct (B1 ++ B2). }
  destruct (mr_div _ _ _ _ Hr2 mm seg Hseg) as (n & Hn & Hn0). rewrite Hn, Z.div_mul, s32_small by nia.
  assert (segments st3 !! mm = Some seg') as Hseg3 by (rewrite Es3; apply lookup_insert_eq).
  pose proof (mr_pages _ _ _ _ Hr3) as Hheld.
  eapply (seg_perm _ _ _ (runs_delete mm seg' n (segments st3) Hseg3 Hn)) in Hheld.
  destruct (seg_free_ok _ _ _ _ Hheld) as (p & Hp' & Hheld'). rewrite HB in *. cbn [drop_empty].
  set (st4 := if cache_hint (mcache st3) =? mm then set_hint 0 st3 else st3).
  assert (pages st4 = pages st3 /\ segments st4 = segments st3 /\ mspaces st4 = mspaces st3 /\ not_busy st4 = not_busy st3 /\
    cache_fail_valid (mcache st4) = false /\ cache_owner (mcache st4) = cache_owner (mcache st3) /\
    (cache_hint (mcache st4) = 0 \/ (cache_hint (mcache st4) <> mm /\ cache_hint (mcache st4) = cache_hint (mcache st3))))
    as (Ep4 & Es4 & Em4 & En4 & Ef4 & Eo4 & Eh4).
  { unfold st4. destruct (Z.eqb_spec (cache_hint (mcache st3)) mm); split_and!; try done; [by left|by right]. }
  cbn [unlink_segment set_mspaces pages]. rewrite Ep4, Hp'. cbn [mbind option_bind]. eexists. split; [done|]. split_and!.
  - rewrite <- (delete_insert_eq O mm []).
    eapply (rep_remove st3 _ _ mm seg' p n Hr3 Hseg3 Hn Hheld'); try done; cbn; [by rewrite Es4|by rewrite Em4].
  - intros x B sx sx' [Hne HB']%lookup_delete_Some Hx Hx'. cbn in Hx'. rewrite Es4 in Hx'. apply lookup_delete_Some in Hx' as [_ Hx'].
    eapply Hkept; [|done|done]. by rewrite lookup_insert_ne.
  - cbn. by rewrite En4.
Qed.

(** * Claims *)

(** C15: the cache of the last failure is transparent: with it or without it
    [mspace_do_alloc] gives the same block and leaves the same segments as the
    plain walk over them, which ends. *)
Theorem mspace_cache_transparent st (O : objects) ms l boundary size :
  mspace_rep P TOP st O -> cache_owner (mcache st) = ms -> mspaces st !! ms = Some l -> vreq P TOP boundary size ->
  exists block segs k st', alloc_walk boundary size (not_busy st) l (segments st) = Some (block, segs, k) /\
    mspace_do_alloc boundary size ms st = Some (block, st') /\ segments st' = segs.
Proof.
  intros Hr Ho Hl Hv. unfold mspace_do_alloc.
  destruct (cache_fail_valid (mcache st) && (size >=? cache_fail_size (mcache st)) && (boundary >=? cache_fail_boundary (mcache st))) eqn:Hc.
  - apply andb_true_iff in Hc as [[Hf Hs]%andb_true_iff Hb]. apply Z.geb_le in Hs. apply Z.geb_le in Hb.
    destruct (cached_walk P TOP P_size st O ms l boundary size Hr Ho Hl Hv Hf Hs Hb) as [k ->]. by exists 0, (segments st), k, st.
  - rewrite Hl. cbn [mbind option_bind].
    destruct (alloc_walk_ok P TOP P_size boundary size (not_busy st) (segments st) O (fail_at st) l)
      as [(k & -> & _)|(k & mm & seg & seg' & B1 & B2 & ptr & s & -> & Hp & _)]; try done.
    + apply (mr_seg _ _ _ _ Hr).
    + apply (mr_dom _ _ _ _ Hr).
    + intros mm b n Hf. apply (fail_pow _ _ _ _ _ _ _ Hr Hf).
    + intros mm. by eapply mr_in.
    + cbn [mbind option_bind negb Z.eqb]. by eexists _, _, _, _.
    + cbn [mbind option_bind]. rewrite (proj2 (Z.eqb_neq ptr 0)) by done. by eexists _, _, _, _.
Qed.

(** C7: [mspace_memalign] always returns, never panics for want of room in a
    new segment, and gives [NULL] with the segments unchanged or a block of its
    own, aligned and large enough; every other live block keeps its contents
    and the invariant holds again, that of the cache included. *)
Theorem mspace_memalign_correct greed junk st (O : objects) ms l boundary size :
  mspace_rep P TOP st O -> mspaces st !! ms = Some l -> vreq P TOP boundary size ->
  exists r st', mspace_memalign P greed junk boundary size ms st = Some (r, st') /\
    ((r = 0 /\ mspace_rep P TOP st' O /\ segments st' = segments st) \/
     (r <> 0 /\ exists mm B1 B2 s l', default [] (O !! mm) = B1 ++ B2 /\ mspace_rep P TOP st' (<[mm := B1 ++ (r - W, s) :: B2]> O) /\
        mspaces st' !! ms = Some l' /\ mm ∈ l' /\ size + W <= s /\ (boundary = 0 \/ r mod boundary = 0) /\
        kept O (segments st) (segments st'))).
Proof. apply memalign_ok. Qed.

(** [mspace_free] of a live block finds its segment whatever the hint, takes
    the block away and nothing else, and gives the pages of a segment back with
    its last block; the hint never outlives its segment. *)
Theorem mspace_free_correct af `{!AfterFree af} st (O : objects) ms l mm B1 ptr s B2 :
  mspace_rep P TOP st O -> mspaces st !! ms = Some l -> mm ∈ l -> O !! mm = Some (B1 ++ (ptr - W, s) :: B2) ->
  exists st', mspace_free P af ptr ms st = Some (0, st') /\ mspace_rep P TOP st' (drop_empty mm (B1 ++ B2) O) /\
    kept (drop_empty mm (B1 ++ B2) O) (segments st) (segments st') /\
    (B1 ++ B2 = [] -> segments st' !! mm = None /\ cache_hint (mcache st') <> mm).
Proof.
  intros Hr Hl Hmm HO. destruct (mspace_free_ok af st O ms l mm B1 ptr s B2 Hr Hl Hmm HO) as (st' & Hf & Hr' & Hk & _).
  exists st'. split_and!; try done. intros E. rewrite E in Hr'. cbn in Hr'.
  destruct (mr_in _ _ _ _ Hr ms l mm Hl Hmm) as [seg Hseg]. pose proof (mr_seg _ _ _ _ Hr _ _ _ Hseg HO) as ((_ & H0 & _) & _).
  assert (segments st' !! mm = None) as Hnone.
  { apply not_elem_of_dom. rewrite (mr_dom _ _ _ _ Hr'). rewrite dom_delete_L. set_solver. }
  split; [done|]. destruct (mr_hint _ _ _ _ Hr') as [E'|(l' & Hl' & Hh)]; [lia|]. intros Eh. rewrite Eh in Hh.
  destruct (mr_in _ _ _ _ Hr' _ _ _ Hl' Hh) as [? Hs]. by rewrite Hnone in Hs.
Qed.

(** [malloc] and [free] undo each other: the pointer [malloc] returns can be
    freed, and then the live blocks are those of before; [errno] is [ENOMEM]
    exactly when there was no memory. *)
Theorem malloc_free_roundtrip greed junk af `{!AfterFree af} max_align self kernel st (O : objects) l size :
  mspace_rep P TOP st O -> mspaces st !! self = Some l -> vreq P TOP (Z.max 8 max_align) size ->
  exists ptr e st', malloc P greed max_align junk self size st = Some (ptr, e, st') /\
    (ptr = 0 <-> e = Some ENOMEM) /\
    (ptr <> 0 -> exists st'' O'', free P af self kernel ptr st' = Some st'' /\ mspace_rep P TOP st'' O'' /\
       forall mm, default [] (O'' !! mm) = default [] (O !! mm)).
Proof.
  intros Hr Hl Hv. unfold malloc, mspace_malloc. pose proof (vreq_size _ _ _ _ Hv) as Hs. destruct (Z.eqb_spec size 0) as [|_]; [lia|].
  destruct (memalign_ok greed junk st O self l _ size Hr Hl Hv) as (r & st' & -> & [(-> & _)|(Hr0 & mm & B1 & B2 & s & l' & HO & Hr' & Hl' & Hmm & _)]);
    cbn [mbind option_bind]; eexists _, _, _; split; try done.
  rewrite (proj2 (Z.eqb_neq r 0)) by done. split; [done|]. intros _. unfold free. rewrite (proj2 (Z.eqb_neq r 0)) by done.
  destruct (mspace_free_ok af st' _ self l' mm B1 r s B2 Hr' Hl' Hmm) as (st'' & -> & Hr'' & _); [apply lookup_insert_eq|].
  cbn [mbind option_bind Z.ltb Z.compare]. eexists _, _. split; [done|]. split; [done|]. intros x.
  destruct (decide (x = mm)) as [->|Hne].
  - rewrite HO. unfold drop_empty. destruct (B1 ++ B2) as [|b B]; [by rewrite lookup_delete_eq|by rewrite lookup_insert_eq].
  - unfold drop_empty. destruct (B1 ++ B2); [rewrite lookup_delete_ne by done|rewrite lookup_insert_ne by done]; by rewrite lookup_insert_ne.
Qed.

End MspaceTheorems.

(** * Examples *)

(** A task with an empty heap, on eight free pages. *)
Definition demo_pages : mm_pages := MmPages [Some (Some demo_pa); None; None] 0.
Definition demo_task : mspace_st mm_pages := MspaceSt demo_pages ∅ {[1 := []]} (Cache 0 0 0 0 false) 0 0 0.
Definition demo_junk (a : Z) : Z := a.
#[local] Instance demo_segments : Segments mm_pages := pages_segments (A := lp64).
#[local] Instance demo_segments_ok : SegmentsOk mm_pages 4096 40960 := pages_ok (A := lp64) 4096 40960 (TCEq_refl _).

Lemma demo_held : held (A := lp64) 4096 40960 demo_pages [].
Proof.
  assert (forall i al, mm_page_allocs demo_pages !! i = Some (Some (Some al)) -> i = 0%nat /\ al = demo_pa) as Hat.
  { intros [|[|[|i]]] al; cbn; intros [=]. split; [reflexivity|congruence]. }
  split.
  - intros i al [_ ->]%Hat. split; [exact demo_pa_ok|]. split; [reflexivity|]. by exists 2.
  - intros i al [_ ->]%Hat. vm_compute. discriminate.
  - by exists demo_pa.
  - intros [|[|[|i]]]; discriminate.
  - intros i j al al' [-> _]%Hat [-> _]%Hat. done.
  - by intros x ?%elem_of_nil.
  - split; [constructor|]. by intros x y ?%elem_of_nil.
Qed.

Lemma demo_task_rep : mspace_rep (A := lp64) 4096 40960 demo_task ∅.
Proof.
  split; try done.
  - intros ms l mm. cbn. intros [_ <-]%lookup_singleton_Some ?%elem_of_nil. done.
  - intros ms ms' l l' mm. cbn. intros [_ <-]%lookup_singleton_Some _ ?%elem_of_nil. done.
  - exact demo_held.
  - by left.
Qed.

Lemma demo_P : (WORD (A := lp64) | 4096) /\ 256 <= 4096 <= 2 ^ 20 /\ 0 < 40960 /\ 40960 + 3 * WORD (A := lp64) < 2 ^ LONG_BIT (arch := lp64).
Proof. split; [by exists 512|]. cbn. split; [lia|]. split; vm_compute; reflexivity. Qed.

Lemma demo_req n : 0 < n < 100000 -> vreq (A := lp64) 4096 40960 16 n.
Proof.
  intros Hn. split; cbn [LONG_BIT lp64]; try lia. right. exists 4. split; [reflexivity|lia].
Qed.

(** The first allocation of the task. *)
Definition demo_alloc_task (n : Z) : option (Z * mspace_st mm_pages) :=
  mspace_memalign (A := lp64) 4096 false demo_junk 16 n 1 demo_task.

Lemma mspace_cache_transparent_witness :
  exists block segs k st', alloc_walk (A := lp64) 16 100 0 [] ∅ = Some (block, segs, k) /\
    mspace_do_alloc (A := lp64) 16 100 1 (mspace_cache_select 1 demo_task) = Some (block, st') /\ segments st' = segs.
Proof.
  destruct demo_P as (H1 & H2 & H3 & H4).
  apply (mspace_cache_transparent (A := lp64) 4096 40960 H2 (mspace_cache_select 1 demo_task) ∅ 1 [] 16 100).
  - apply (select_ok (A := lp64) 4096 40960 demo_task ∅ 1 [] demo_task_rep). reflexivity.
  - reflexivity.
  - reflexivity.
  - apply demo_req. lia.
Defined.

Lemma mspace_memalign_correct_witness :
  exists r st', mspace_memalign (A := lp64) 4096 false demo_junk 16 100 1 demo_task = Some (r, st') /\
    ((r = 0 /\ mspace_rep (A := lp64) 4096 40960 st' ∅ /\ segments st' = ∅) \/
     (r <> 0 /\ exists mm B1 B2 s l', default [] ((∅ : gmap Z (list (Z * Z))) !! mm) = B1 ++ B2 /\
        mspace_rep (A := lp64) 4096 40960 st' (<[mm := B1 ++ (r - WORD (A := lp64), s) :: B2]> ∅) /\
        mspaces st' !! 1 = Some l' /\ mm ∈ l' /\ 100 + WORD (A := lp64) <= s /\ (16 = 0 \/ r mod 16 = 0) /\
        kept ∅ ∅ (segments st'))).
Proof.
  destruct demo_P as (H1 & H2 & H3 & H4).
  apply (mspace_memalign_correct (A := lp64) 4096 40960 H1 H2 (conj H3 H4) false demo_junk demo_task ∅ 1 [] 16 100).
  - exact demo_task_rep.
  - reflexivity.
  - apply demo_req. lia.
Defined.

Lemma demo_alloc_some : match demo_alloc_task 100 with Some (r, _) => negb (r =? 0) | None => false end = true.
Proof. vm_compute. reflexivity. Qed.

Lemma demo_alloc_rep : exists mm ptr s l' st', demo_alloc_task 100 = Some (ptr, st') /\
  mspace_rep (A := lp64) 4096 40960 st' (<[mm := [(ptr - WORD (A := lp64), s)]]> ∅) /\ mspaces st' !! 1 = Some l' /\ mm ∈ l'.
Proof.
  destruct demo_P as (H1 & H2 & H3 & H4). pose proof demo_alloc_some as Hsome.
  pose proof (memalign_ok (A := lp64) 4096 40960 H1 H2 (conj H3 H4) false demo_junk demo_task ∅ 1 [] 16 100 demo_task_rep) as H.
  destruct H as (r & st' & E & Hres); [reflexivity|apply demo_req; lia|]. unfold demo_alloc_task in *. rewrite E in *.
  destruct Hres as [(-> & _)|(Hr0 & mm & B1 & B2 & s & l' & HO & Hr & Hl & Hmm & _)]; [discriminate Hsome|]. clear Hsome.
  rewrite lookup_empty in HO. cbn [default] in HO. symmetry in HO. apply app_nil in HO as [-> ->].
  exists mm, r, s, l', st'. split; [reflexivity|]. split; [exact Hr|]. split; [exact Hl|exact Hmm].
Qed.

Lemma mspace_free_correct_witness : exists st' mm ptr st'',
  demo_alloc_task 100 = Some (ptr, st') /\ mspace_free (A := lp64) 4096 afterfree ptr 1 st' = Some (0, st'') /\
  mspace_rep (A := lp64) 4096 40960 st'' (delete mm (<[mm := []]> ∅)) /\ segments st'' !! mm = None.
Proof.
  destruct demo_P as (H1 & H2 & H3 & H4). destruct demo_alloc_rep as (mm & ptr & s & l' & st' & E & Hr & Hl & Hmm).
  destruct (mspace_free_correct (A := lp64) 4096 40960 H1 H2 (conj H3 H4) afterfree st' _ 1 l' mm [] ptr s [] Hr Hl Hmm) as (st'' & Hf & Hr' & _ & Hg).
  - apply lookup_insert_eq.
  - exists st', mm, ptr, st''. split; [exact E|]. split; [exact Hf|]. split; [|apply Hg; reflexivity].
    unfold drop_empty in Hr'. rewrite delete_insert_eq in *. exact Hr'.
Defined.

Lemma malloc_free_roundtrip_witness : exists ptr e st',
  malloc (A := lp64) 4096 false 16 demo_junk 1 100 demo_task = Some (ptr, e, st') /\ (ptr = 0 <-> e = Some ENOMEM) /\
  (ptr <> 0 -> exists st'' O'', free (A := lp64) 4096 afterfree 1 1 ptr st' = Some st'' /\ mspace_rep (A := lp64) 4096 40960 st'' O'' /\
     forall mm, default [] (O'' !! mm) = default [] ((∅ : gmap Z (list (Z * Z))) !! mm)).
Proof.
  destruct demo_P as (H1 & H2 & H3 & H4).
  apply (malloc_free_roundtrip (A := lp64) 4096 40960 H1 H2 (conj H3 H4) false demo_junk afterfree 16 1 1 demo_task ∅ [] 100).
  - exact demo_task_rep.
  - reflexivity.
  - apply demo_req. lia.
Defined.

(** * What the interfaces do not check *)

(** [calloc] does not notice that [nmemb * size] wraps: a request for more
    than the address space gets, and clears, 16 bytes. *)
Theorem calloc_wraps : exists ptr st', 2 ^ 64 < (2 ^ 61 + 2) * 8 /\ ptr <> 0 /\
  calloc (A := lp64) 4096 false 16 demo_junk 1 (2 ^ 61 + 2) 8 demo_task = Some (ptr, Some (ptr, 16), st').
Proof.
  set (good r := match r : option (Z * option (Z * Z) * mspace_st mm_pages) with
    | Some (ptr, Some (ptr', n), _) => negb (ptr =? 0) && (ptr' =? ptr) && (n =? 16) | _ => false end).
  assert (forall r, good r = true -> exists ptr st', 2 ^ 64 < (2 ^ 61 + 2) * 8 /\ ptr <> 0 /\
    r = Some (ptr, Some (ptr, 16), st')) as Hg; [|apply Hg; vm_compute; reflexivity].
  intros [[[ptr [[ptr' n]|]] st']|]; cbn; try discriminate. intros Hb.
  apply andb_true_iff in Hb as [[Hp Hq]%andb_true_iff Hn]. apply Z.eqb_eq in Hq, Hn. subst.
  apply negb_true_iff, Z.eqb_neq in Hp. by exists ptr, st'.
Qed.

(** [posix_memalign] reports success when there is no memory. *)
Lemma posix_memalign_no_error : exists st',
  posix_memalign (A := lp64) 4096 false demo_junk 1 16 100000 demo_task = Some (0, 0, st').
Proof.
  destruct (posix_memalign (A := lp64) 4096 false demo_junk 1 16 100000 demo_task) as [[[r ptr] st']|] eqn:E;
    vm_compute in E; [|discriminate E].
  injection E as <- <- <-. by eexists.
Qed.

(** [mm_segment_free] reads an allocator that is linked but was not set up. *)
Lemma segment_free_null : pages_free (A := lp64) 8192 1
  (MmPages [Some (Some (PageAllocator 1048576 1 4096 0 8 [1])); Some None; Some (Some demo_pa)] 2) = None.
Proof. reflexivity. Qed.
