(* ===== verification/Smac.v ===== *)
(** Mandatory access control: [src/security/smac/smac.c] and the hooks of
    [smac_security.c].

    [smac_env] is the list of the entries in use.  A label is a string; copying
    one of [SMAC_LABELLEN] characters or more into a [struct smac_entry] or a
    [struct smac_task] overruns it, as does an entry beyond [SMAC_MAX_ENTS]:
    both are [None].  The label of the calling task is part of the state.  The
    audit log does not influence a decision and is left out.  The label of a
    file or socket is what its extended attribute holds, [None] if it has
    none. *)
From S2P Require Import Prelude.
From stdpp Require Import strings.

Local Open Scope string_scope.
Local Open Scope Z_scope.
Local Open Scope embox_scope.

Definition ERANGE : Z := 34.
Definition EACCES : Z := 301.
Definition S_IROTH : Z := 4.
Definition S_IWOTH : Z := 2.
Definition S_IXOTH : Z := 1.

Definition SMAC_LABELLEN : Z := 32.
Definition smac_floor : string := "_".
Definition smac_star : string := "*".
Definition smac_hat : string := "^".
Definition smac_xattrkey : string := "SMAC32LABEL".
Definition smac_admin : string := "smac_admin".

Record smac_entry := SmacEntry { subject : string; object : string; flags : Z }.

Record smac := Smac { smac_env : list smac_entry; label : string }.

Definition strlen (s : string) : Z := Z.of_nat (String.length s).
Definition streq (s t : string) : bool := bool_decide (s = t).

(** [strcpy] to an array of [n] characters. *)
Definition strcpy (n : Z) (s : string) : option string := assert! strlen s <? n ;; Some s.

Definition only_rx (may_access : Z) : bool := Z.land (Z.lnot (Z.lor S_IROTH S_IXOTH)) may_access =? 0.

(** The steps 6 and 7. *)
Fixpoint smac_lookup (s_subject s_object : string) (may_access : Z) (env : list smac_entry) : Z :=
  match env with
  | [] => - EACCES
  | ent :: env =>
    if streq s_subject (subject ent) && streq s_object (object ent) then
      if negb (Z.land (Z.lnot (flags ent)) may_access =? 0) then - EACCES else 0
    else smac_lookup s_subject s_object may_access env
  end.

Definition smac_access (s_subject s_object : string) (may_access : Z) (env : list smac_entry) : Z :=
  if streq s_subject smac_star then - EACCES
  else if streq s_subject smac_hat && only_rx may_access then 0
  else if streq s_object smac_floor && only_rx may_access then 0
  else if streq s_object smac_star then 0
  else if streq s_subject s_object then 0
  else smac_lookup s_subject s_object may_access env.

(** [sizeof] the header and an entry of [struct smac_env]. *)
Definition env_size (n : Z) : Z := 4 + n * (SMAC_LABELLEN + SMAC_LABELLEN + 4).

Definition smac_getenv (buflen : Z) (st : smac) : Z * option (list smac_entry) :=
  let res := smac_access (label st) smac_admin S_IROTH (smac_env st) in
  if negb (res =? 0) then (res, None)
  else if buflen <? env_size (zlen (smac_env st)) then (- ERANGE, None)
  else (0, Some (smac_env st)).

Definition smac_flushenv (st : smac) : Z * smac :=
  let res := smac_access (label st) smac_admin S_IWOTH (smac_env st) in
  if negb (res =? 0) then (res, st) else (0, Smac [] (label st)).

(** The loop of [smac_addenv]: [None] if no entry matches. *)
Fixpoint update_entry (s_subject : string) (f : Z) (env : list smac_entry) : option (list smac_entry) :=
  match env with
  | [] => None
  | ent :: env =>
    if streq (subject ent) s_subject && streq (object ent) s_subject
    then Some (SmacEntry (subject ent) (object ent) f :: env)
    else env ← update_entry s_subject f env; Some (ent :: env)
  end.

Section Smac.
Context (SMAC_MAX_ENTS : Z) (smac_def_file_label : string).

Definition smac_addenv (s_subject s_object : string) (f : Z) (st : smac) : option (Z * smac) :=
  let res := smac_access (label st) smac_admin S_IWOTH (smac_env st) in
  if negb (res =? 0) then Some (res, st)
  else match update_entry s_subject f (smac_env st) with
  | Some env => Some (0, Smac env (label st))
  | None =>
    assert! zlen (smac_env st) <? SMAC_MAX_ENTS ;;
    s ← strcpy SMAC_LABELLEN s_subject;
    o ← strcpy SMAC_LABELLEN s_object;
    Some (0, Smac (smac_env st ++ [SmacEntry s o f]) (label st))
  end.

Fixpoint setenv_loop (entries : list smac_entry) (st : smac) : option smac :=
  match entries with
  | [] => Some st
  | ent :: entries =>
    '(_, st) ← smac_addenv (subject ent) (object ent) (flags ent) st; setenv_loop entries st
  end.

Definition smac_setenv (env : list smac_entry) (st : smac) : option (Z * smac) :=
  let '(res, st) := smac_flushenv st in
  if negb (res =? 0) then Some (res, st) else st ← setenv_loop env st; Some (0, st).

Definition smac_labelset (l : string) (st : smac) : option (Z * smac) :=
  let res := smac_access (label st) smac_admin S_IWOTH (smac_env st) in
  if negb (res =? 0) then Some (res, st)
  else if strlen l >? SMAC_LABELLEN then Some (- ERANGE, st)
  else l ← strcpy SMAC_LABELLEN l; Some (0, Smac (smac_env st) l).

(** The caller's buffer has [len] characters. *)
Definition smac_labelget (len : Z) (st : smac) : option (Z * option string) :=
  let res := smac_access (label st) smac_admin S_IROTH (smac_env st) in
  if negb (res =? 0) then Some (res, None)
  else if len <? strlen (label st) then Some (- ERANGE, None)
  else l ← strcpy len (label st); Some (0, Some l).

Definition smac_init : option smac :=
  '(_, st) ← smac_addenv smac_admin smac_def_file_label (Z.lor (Z.lor S_IROTH S_IWOTH) S_IXOTH) (Smac [] smac_admin);
  Some st.

(** * The hooks: [xattr] is the label stored with the object *)

Definition getlabel (xattr : option string) : string := default smac_def_file_label xattr.

(** 1: not the attribute that holds the label. *)
Definition security_xattr_is_service_access (name : string) (may_access : Z) (st : smac) : Z :=
  if negb (streq name smac_xattrkey) then 1 else smac_access (label st) smac_admin may_access (smac_env st).

Definition security_node_create (dir : option string) (st : smac) : Z :=
  smac_access (label st) (getlabel dir) S_IWOTH (smac_env st).

Definition security_node_permissions (node : option string) (f : Z) (st : smac) : Z :=
  smac_access (label st) (getlabel node) f (smac_env st).

Definition security_xattr_get (node : option string) (name : string) (st : smac) : Z :=
  let res := security_xattr_is_service_access name S_IROTH st in
  if negb (res =? 1) then res else smac_access (label st) (getlabel node) S_IROTH (smac_env st).

Definition security_xattr_set (node : option string) (name : string) (st : smac) : Z :=
  let res := security_xattr_is_service_access name S_IWOTH st in
  if negb (res =? 1) then res else smac_access (label st) (getlabel node) S_IWOTH (smac_env st).

Definition security_xattr_list (node : option string) (st : smac) : Z :=
  smac_access (label st) (getlabel node) S_IROTH (smac_env st).

Definition security_xattr_idesc_get (idesc : option string) (name : string) (st : smac) : Z :=
  let res := security_xattr_is_service_access name S_IROTH st in
  if negb (res =? 1) then res else smac_access (label st) (getlabel idesc) S_IROTH (smac_env st).

Definition security_xattr_idesc_set (idesc : option string) (name : string) (st : smac) : Z :=
  let res := security_xattr_is_service_access name S_IWOTH st in
  if negb (res =? 1) then res else smac_access (label st) (getlabel idesc) S_IROTH (smac_env st).

Definition security_xattr_idesc_list (idesc : option string) (st : smac) : Z :=
  smac_access (label st) (getlabel idesc) S_IROTH (smac_env st).

End Smac.

(** * Decisions *)

(** The first entry for a pair of labels. *)
Definition rule (s o : string) (env : list smac_entry) : option Z :=
  flags <$> head (filter (fun e => subject e = s /\ object e = o) env).

Definition within (m f : Z) : Prop := Z.land (Z.lnot f) m = 0.

Lemma streq_spec s t : streq s t = true <-> s = t.
Proof. apply bool_decide_eq_true. Qed.

Lemma lookup_rule s o m env :
  smac_lookup s o m env = match rule s o env with
    | Some f => if Z.land (Z.lnot f) m =? 0 then 0 else - EACCES
    | None => - EACCES end.
Proof.
  unfold rule, streq. induction env as [|e env IH]; [done|]. cbn [smac_lookup]. unfold streq. rewrite filter_cons.
  case_decide as E.
  - destruct E as [-> ->]. rewrite !bool_decide_true by done. cbn. by destruct (_ =? 0).
  - rewrite IH. destruct (bool_decide (s = subject e) && bool_decide (o = object e)) eqn:Eb; [|done].
    apply andb_true_iff in Eb as [->%bool_decide_eq_true ->%bool_decide_eq_true]. naive_solver.
Qed.

Lemma access_cases s o m env : smac_access s o m env = 0 \/ smac_access s o m env = - EACCES.
Proof. unfold smac_access. rewrite lookup_rule. repeat case_match; auto. Qed.

(** When access is granted. *)
Definition granted (s o : string) (m : Z) (env : list smac_entry) : Prop :=
  s <> smac_star /\
  (within m (Z.lor S_IROTH S_IXOTH) /\ (s = smac_hat \/ o = smac_floor) \/ o = smac_star \/ s = o \/
   exists f, rule s o env = Some f /\ within m f).

Lemma access_granted s o m env : smac_access s o m env = 0 <-> granted s o m env.
Proof.
  unfold smac_access, granted, within, only_rx. rewrite lookup_rule. unfold streq.
  repeat (case_bool_decide; cbn [andb]); destruct (Z.eqb_spec (Z.land (Z.lnot (Z.lor S_IROTH S_IXOTH)) m) 0);
    try (split; [naive_solver|]; done); try (split; [done|]; tauto).
  all: destruct (rule s o env) as [f|]; zbool; split; naive_solver.
Qed.

Lemma within_less m m' f : within m' m -> within m f -> within m' f.
Proof.
  unfold within. intros H1 H2. apply Z.bits_inj'. intros i Hi.
  apply (f_equal (fun z => Z.testbit z i)) in H1, H2. revert H1 H2.
  rewrite !Z.land_spec, !Z.lnot_spec, Z.bits_0 by done.
  destruct (Z.testbit f i), (Z.testbit m i), (Z.testbit m' i); done.
Qed.

(** * The rules *)

Lemma rule_app s o env e : rule s o (env ++ [e]) =
  match rule s o env with
  | Some f => Some f
  | None => if decide (subject e = s /\ object e = o) then Some (flags e) else None
  end.
Proof.
  unfold rule. rewrite filter_app, filter_cons, filter_nil. destruct (filter _ env) as [|x l]; [|done].
  by case_decide.
Qed.

Lemma update_none s f env : update_entry s f env = None <-> rule s s env = None.
Proof.
  unfold rule. induction env as [|e env IH]; [done|]. cbn [update_entry]. unfold streq. rewrite filter_cons.
  case_decide as E.
  - destruct E as [-> ->]. rewrite !bool_decide_true by done. done.
  - destruct (bool_decide (subject e = s) && bool_decide (object e = s)) eqn:Eb.
    + apply andb_true_iff in Eb as [?%bool_decide_eq_true ?%bool_decide_eq_true]. tauto.
    + rewrite <- IH. by destruct (update_entry s f env).
Qed.

Lemma update_rule s f env env' : update_entry s f env = Some env' ->
  forall s' o', rule s' o' env' = if decide (s' = s /\ o' = s) then Some f else rule s' o' env.
Proof.
  revert env'. unfold rule. induction env as [|e env IH]; intros env' E s' o'; [done|]. cbn [update_entry] in E.
  unfold streq in E. destruct (bool_decide (subject e = s) && bool_decide (object e = s)) eqn:Eb.
  - apply andb_true_iff in Eb as [E1%bool_decide_eq_true E2%bool_decide_eq_true]. injection E as <-.
    rewrite !filter_cons. cbn [subject object]. rewrite E1, E2. case_decide as H1; case_decide as H2; try done; naive_solver.
  - destruct (update_entry s f env) as [env1|] eqn:E1; [|done]. cbn in E. injection E as <-. rewrite !filter_cons.
    specialize (IH env1 eq_refl s' o'). destruct (decide (subject e = s' /\ object e = o')) as [[H1 H2]|_]; [|done].
    rewrite decide_False; [done|]. intros [-> ->]. rewrite H1, H2, !bool_decide_true in Eb by done. done.
Qed.

Lemma access_rule s o m env env' : rule s o env = rule s o env' -> smac_access s o m env = smac_access s o m env'.
Proof. intros E. unfold smac_access. by rewrite !lookup_rule, E. Qed.

(** C22: the access decision.  Access is granted or refused with [-EACCES];
    it is granted exactly when the rules of the policy say so: never to the
    subject [*], for reading and executing to [^] or on [_], on [*] and on the
    subject's own label, and otherwise as far as the first rule for the two
    labels allows, so that without a rule it is refused.  What is granted is
    also granted in part, and the attribute that holds a label is changed only
    by a subject that may write the administrator's label. *)
Theorem smac_decides s o m env d node st :
  (smac_access s o m env = 0 <-> granted s o m env) /\
  (~ granted s o m env -> smac_access s o m env = - EACCES) /\
  (forall m', within m' m -> granted s o m env -> granted s o m' env) /\
  (rule s o env = None -> s <> o -> s <> smac_hat -> o <> smac_star -> o <> smac_floor ->
     smac_access s o m env = - EACCES) /\
  (security_xattr_set d node smac_xattrkey st = 0 -> granted (label st) smac_admin S_IWOTH (smac_env st)).
Proof.
  split_and!.
  - apply access_granted.
  - rewrite <- access_granted. destruct (access_cases s o m env); tauto.
  - intros m' Hm [H1 H2]. split; [done|]. destruct H2 as [[H2 H3]|[->|[->|(f & Hf & H2)]]]; auto.
    + left. split; [|done]. by apply (within_less m).
    + right. right. right. exists f. split; [done|]. by apply (within_less m).
  - intros Hr H1 H2 H3 H4. destruct (access_cases s o m env) as [E|]; [|done]. apply access_granted in E as [_ E].
    rewrite Hr in E. naive_solver.
  - unfold security_xattr_set, security_xattr_is_service_access. unfold streq. rewrite bool_decide_true by done. cbn [negb].
    destruct (access_cases (label st) smac_admin S_IWOTH (smac_env st)) as [E|E]; rewrite E; cbn; [|done].
    intros _. by apply access_granted.
Qed.

Lemma smac_decides_witness :
  smac_access "user" "log" S_IWOTH [SmacEntry "user" "web" 7] = - EACCES.
Proof. apply (smac_decides "user" "log" S_IWOTH [SmacEntry "user" "web" 7] "*" None (Smac [] "user")); done. Defined.

(** C38: a rule can be added but not changed.  When the caller may write the
    administrator's label and neither a rule for the pair nor one for the subject
    on itself exists, [smac_addenv] makes the new rule effective for the pair and
    changes no other.  When one of these rules exists it changes nothing for a
    pair of different labels: the loop that looks for the entry to update compares the
    entry's object with the new subject, so that a second rule for a pair is
    appended after the first, which stays in force. *)
Theorem smac_addenv_first_wins MAX s o f st :
  s <> o ->
  (granted (label st) smac_admin S_IWOTH (smac_env st) -> rule s o (smac_env st) = None -> rule s s (smac_env st) = None ->
     zlen (smac_env st) < MAX -> strlen s < SMAC_LABELLEN -> strlen o < SMAC_LABELLEN ->
     exists st', smac_addenv MAX s o f st = Some (0, st') /\ label st' = label st /\
       forall s' o', rule s' o' (smac_env st') = if decide (s' = s /\ o' = o) then Some f else rule s' o' (smac_env st)) /\
  (forall r st', rule s o (smac_env st) <> None \/ rule s s (smac_env st) <> None ->
     smac_addenv MAX s o f st = Some (r, st') ->
     forall m, smac_access s o m (smac_env st') = smac_access s o m (smac_env st)).
Proof.
  intros Hne. split.
  - intros Hg%access_granted Ho Hs Hm Hl1 Hl2. unfold smac_addenv. rewrite Hg. cbn [Z.eqb negb].
    rewrite (proj2 (update_none s f _) Hs). unfold strcpy. zbool; try lia. cbn [mbind option_bind].
    eexists. split; [done|]. split; [done|]. intros s' o'. cbn. rewrite rule_app. cbn.
    destruct (decide (s' = s /\ o' = o)) as [[-> ->]|Hn]; [by rewrite Ho, decide_True|].
    rewrite (decide_False (P := s = s' /\ o = o')) by naive_solver. by destruct (rule s' o' (smac_env st)).
  - intros r st' Hr E m. apply access_rule. unfold smac_addenv in E.
    destruct (negb _); [by injection E as <- <-|].
    destruct (update_entry s f (smac_env st)) as [env|] eqn:Eu.
    + injection E as <- <-. cbn. rewrite (update_rule _ _ _ _ Eu), decide_False; [done|]. naive_solver.
    + apply update_none in Eu. destruct Hr as [Hr|]; [|done]. simplify_option. cbn.
      rewrite rule_app. by destruct (rule s o (smac_env st)).
Qed.

Lemma smac_addenv_first_wins_witness :
  smac_access "user" "log" S_IWOTH [SmacEntry "user" "log" 7; SmacEntry "user" "log" 0] =
    smac_access "user" "log" S_IWOTH [SmacEntry "user" "log" 7].
Proof.
  assert ("user" <> "log") as Hne by done.
  apply (proj2 (smac_addenv_first_wins 64 "user" "log" 0 (Smac [SmacEntry "user" "log" 7] smac_admin) Hne) 0
    (Smac [SmacEntry "user" "log" 7; SmacEntry "user" "log" 0] smac_admin)); [by left|reflexivity].
Defined.

(** * Replacing all rules *)

Definition entry_ok (e : smac_entry) : Prop :=
  subject e <> object e /\ strlen (subject e) < SMAC_LABELLEN /\ strlen (object e) < SMAC_LABELLEN.

Lemma self_rule s env : Forall entry_ok env -> rule s s env = None.
Proof.
  intros HF. unfold rule. induction HF as [|e env (He & _ & _) _ IH]; [done|]. rewrite filter_cons, decide_False; [done|].
  intros [H1 H2]. congruence.
Qed.

Lemma admin_access m env : smac_access smac_admin smac_admin m env = 0.
Proof. apply access_granted. split; [done|]. right. right. by left. Qed.

Lemma setenv_loop_ok MAX env : forall pre, Forall entry_ok (pre ++ env) -> zlen (pre ++ env) <= MAX ->
  setenv_loop MAX env (Smac pre smac_admin) = Some (Smac (pre ++ env) smac_admin).
Proof.
  induction env as [|e env IH]; intros pre HF Hl; cbn [setenv_loop]; [by rewrite app_nil_r|].
  rewrite (cons_middle e) in *. rewrite app_assoc in HF, Hl. pose proof HF as HF0. rewrite !Forall_app in HF.
  destruct HF as [[Hpre He] _]. apply Forall_singleton in He as (_ & H1 & H2).
  rewrite !zlen_app in Hl. change (zlen [e]) with 1 in Hl. pose proof (zlen_nonneg env).
  unfold smac_addenv. cbn [label smac_env]. rewrite admin_access. cbn [Z.eqb negb].
  rewrite (proj2 (update_none _ _ _) (self_rule _ _ Hpre)). unfold strcpy. zbool; try lia. cbn [mbind option_bind].
  destruct e as [s o f]. cbn [subject object flags]. rewrite IH; [|done|rewrite !zlen_app; change (zlen [_]) with 1; lia].
  by rewrite <- app_assoc.
Qed.

(** C29: replacing the rules.  For the administrator, [smac_setenv] with at most
    [SMAC_MAX_ENTS] entries of different labels installs exactly these, and
    [smac_getenv] with a large enough buffer reads them back.  A task that may
    write the administrator's label only because a rule says so loses that right
    when [smac_setenv] flushes the rules first: the call returns 0 and leaves no
    rules at all. *)
Theorem smac_setenv_roundtrip MAX env st :
  (label st = smac_admin -> zlen env <= MAX -> Forall entry_ok env ->
     smac_setenv MAX env st = Some (0, Smac env smac_admin) /\
     forall buflen, smac_getenv buflen (Smac env smac_admin) =
       if buflen <? env_size (zlen env) then (- ERANGE, None) else (0, Some env)) /\
  (granted (label st) smac_admin S_IWOTH (smac_env st) -> label st <> smac_admin ->
     smac_setenv MAX env st = Some (0, Smac [] (label st))).
Proof.
  split.
  - intros Hl Hn HF. unfold smac_setenv, smac_flushenv, smac_getenv. cbn [label smac_env]. rewrite Hl, !admin_access.
    cbn [Z.eqb negb]. rewrite (setenv_loop_ok MAX env []) by done. done.
  - intros Hg Hl. unfold smac_setenv, smac_flushenv. rewrite (proj2 (access_granted _ _ _ _) Hg). cbn [Z.eqb negb].
    assert (smac_access (label st) smac_admin S_IWOTH [] = - EACCES) as E.
    { destruct (access_cases (label st) smac_admin S_IWOTH []) as [E|]; [|done]. apply access_granted in E as [_ E].
      destruct E as [[E _]|[E|[E|(f & E & _)]]]; done. }
    assert (setenv_loop MAX env (Smac [] (label st)) = Some (Smac [] (label st))) as ->; [|done].
    clear Hg. induction env as [|e env IH]; [done|]. cbn [setenv_loop]. unfold smac_addenv. cbn [label smac_env]. rewrite E.
    cbn [Z.eqb negb mbind option_bind]. exact IH.
Qed.

Lemma smac_setenv_roundtrip_witness :
  smac_setenv 64 [SmacEntry "user" "log" 4; SmacEntry "web" "log" 6] (Smac [SmacEntry "a" "b" 1] smac_admin) =
    Some (0, Smac [SmacEntry "user" "log" 4; SmacEntry "web" "log" 6] smac_admin).
Proof.
  apply (smac_setenv_roundtrip 64 [SmacEntry "user" "log" 4; SmacEntry "web" "log" 6] (Smac [SmacEntry "a" "b" 1] smac_admin));
    [done|done|repeat constructor; done].
Defined.

(** [smac_labelset] accepts a label of [SMAC_LABELLEN] characters, one more
    than fits with its terminator. *)
Lemma smac_labelset_overrun st l :
  granted (label st) smac_admin S_IWOTH (smac_env st) -> strlen l = SMAC_LABELLEN -> smac_labelset l st = None.
Proof.
  intros Hg Hl. unfold smac_labelset, strcpy. rewrite (proj2 (access_granted _ _ _ _) Hg), Hl. done.
Qed.

(** Writing an attribute through a descriptor needs only the right to read. *)
Lemma xattr_idesc_set_reads d xattr name st :
  name <> smac_xattrkey -> granted (label st) (getlabel d xattr) S_IROTH (smac_env st) ->
  security_xattr_idesc_set d xattr name st = 0.
Proof.
  intros Hn Hg. unfold security_xattr_idesc_set, security_xattr_is_service_access, streq.
  rewrite bool_decide_false by done. cbn. by apply access_granted.
Qed.
