(* ===== verification/Skb.v ===== *)
(** Packets: the buffers of [src/net/skbuff/skb.c] and [skb_data.c], and the
    queues of [skb_queue.c].

    A [struct sk_buff] and the data it refers to are known by their addresses.
    A pointer into the data is an address too; the code always has the
    [skb->data] it points into at hand, so the byte at [p] is the one at the
    distance of [p] from the start of the bytes of [skb->data].  An access
    outside of them fails.  [skb_pool] is the pool of every buffer, the pools
    of single drivers are not modelled.  What memory holds when a buffer is
    allocated is [stale].

    Buffers too large for the pool come from the heap ([SysHeap]).
    [irq] says whether an interrupt handler is running.  The time stamp and
    the options in [cb] are left out. *)
From S2P Require Import Prelude Pool.

Local Open Scope Z_scope.
Local Open Scope embox_scope.

Class SysHeap (H : Type) := {
  sysmalloc : Z -> H -> Z * H;
  sysfree : Z -> H -> H
}.

(** What is relied on: an address that is handed out is in the heap's area and
    in use by nobody else. *)
Class SysHeapOk (H : Type) `{!SysHeap H} := {
  heap_area : Z -> Prop;
  heap_area_pos p : heap_area p -> 0 < p;
  heap_inv : H -> gset Z -> Prop;
  sysmalloc_ok n h live : heap_inv h live ->
    let '(p, h') := sysmalloc n h in
    p = 0 /\ heap_inv h' live \/
    heap_area p /\ p ∉ live /\ heap_inv h' ({[p]} ∪ live);
  sysfree_ok p h live : heap_inv h live -> p ∈ live -> heap_inv (sysfree p h) (live ∖ {[p]})
}.

(** The options of the module. *)
Class skb_opts := SkbOpts { MODOPS_DATA_SIZE : Z; IP_ALIGN_SIZE : Z }.

Record sk_buff_data := SkbData { links : Z; alloc_type : Z; bytes : list Z }.

Record sk_buff := Skb {
  dev : Z;
  len : Z;
  h : Z;
  nh : Z;
  mac : Z;
  data : Z;
  p_data : Z;
  p_data_end : Z
}.

Section Skb.
Context `{A : arch} `{O : skb_opts} {H : Type} `{!SysHeap H}.

Record skmem := SkMem {
  skbs : gmap Z sk_buff;
  datas : gmap Z sk_buff_data;
  skb_pool : pool;
  skb_data_pool : pool;
  heap : H;
  stale : Z -> Z
}.

Definition put_skb (s : Z) (x : sk_buff) (st : skmem) : skmem :=
  SkMem (<[s := x]> (skbs st)) (datas st) (skb_pool st) (skb_data_pool st) (heap st) (stale st).
Definition put_data (d : Z) (x : sk_buff_data) (st : skmem) : skmem :=
  SkMem (skbs st) (<[d := x]> (datas st)) (skb_pool st) (skb_data_pool st) (heap st) (stale st).
Definition set_skb_pool (p : pool) (st : skmem) : skmem :=
  SkMem (skbs st) (datas st) p (skb_data_pool st) (heap st) (stale st).
Definition set_data_pool (p : pool) (st : skmem) : skmem :=
  SkMem (skbs st) (datas st) (skb_pool st) p (heap st) (stale st).
Definition set_heap (x : H) (st : skmem) : skmem :=
  SkMem (skbs st) (datas st) (skb_pool st) (skb_data_pool st) x (stale st).

(** * [skb_data.c] *)

Definition ALLOCATED_POOL : Z := 0.
Definition ALLOCATED_MALLOC : Z := 1.

(** [offsetof(struct sk_buff_data_fixed, data)] *)
Definition DATA_OFF : Z := 8 + IP_ALIGN_SIZE.

Definition skb_get_data_pointner (d : Z) : Z := d + DATA_OFF.
Definition skb_max_size : Z := MODOPS_DATA_SIZE.
Definition skb_data_is_huge (size : Z) : bool := size >? skb_max_size.
Definition SKB_DATA_SIZE (size : Z) : Z := ul (IP_ALIGN_SIZE + MODOPS_DATA_SIZE + size + LONG_BIT / 8).

(** [n] bytes of memory from the data pointer of [d] on. *)
Definition fresh_bytes (d n : Z) (st : skmem) : list Z :=
  (fun i => stale st (skb_get_data_pointner d + i)) <$> seqZ 0 n.

Definition skb_data_alloc (irq : bool) (size : Z) (st : skmem) : option (Z * skmem) :=
  if skb_data_is_huge size && irq then Some (0, st)
  else if negb (skb_data_is_huge size) then
    '(d, pl) ← pool_alloc (skb_data_pool st);
    let st := set_data_pool pl st in
    match d with
    | None => Some (0, st)
    | Some d => Some (d, put_data d (SkbData 1 ALLOCATED_POOL (fresh_bytes d MODOPS_DATA_SIZE st)) st)
    end
  else
    let '(d, hp) := sysmalloc (SKB_DATA_SIZE size) (heap st) in
    let st := set_heap hp st in
    if d =? 0 then Some (0, st)
    else Some (d, put_data d
           (SkbData 1 ALLOCATED_MALLOC (fresh_bytes d (SKB_DATA_SIZE size - DATA_OFF) st)) st).

Definition skb_data_clone (d : Z) (st : skmem) : option (Z * skmem) :=
  x ← datas st !! d;
  Some (d, put_data d (SkbData (s32 (links x + 1)) (alloc_type x) (bytes x)) st).

Definition skb_data_cloned (d : Z) (st : skmem) : option bool :=
  x ← datas st !! d;
  Some (negb (links x =? 1)).

Definition skb_data_free (d : Z) (st : skmem) : option skmem :=
  x ← datas st !! d;
  let n := links x - 1 in
  assert! 0 <=? n ;;
  if n =? 0 then
    let st' := SkMem (skbs st) (delete d (datas st)) (skb_pool st) (skb_data_pool st) (heap st) (stale st) in
    if alloc_type x =? ALLOCATED_POOL then
      pl ← pool_free (skb_data_pool st) d;
      Some (set_data_pool pl st')
    else if alloc_type x =? ALLOCATED_MALLOC then Some (set_heap (sysfree d (heap st)) st')
    else Some (put_data d (SkbData 0 (alloc_type x) (bytes x)) st)
  else Some (put_data d (SkbData n (alloc_type x) (bytes x)) st).

(** * [skb.c] *)

Definition skb_wrap (size d : Z) (st : skmem) : option (Z * skmem) :=
  assert! negb (size =? 0) ;;
  assert! negb (d =? 0) ;;
  '(s, pl) ← pool_alloc (skb_pool st);
  let st := set_skb_pool pl st in
  match s with
  | None => Some (0, st)
  | Some s => Some (s, put_skb s (Skb 0 size 0 0 (skb_get_data_pointner d) d 0 0) st)
  end.

Definition skb_alloc (irq : bool) (size : Z) (st : skmem) : option (Z * skmem) :=
  '(d, st) ← skb_data_alloc irq size st;
  if d =? 0 then Some (0, st)
  else
    '(s, st) ← skb_wrap size d st;
    if s =? 0 then st ← skb_data_free d st; Some (0, st)
    else Some (s, st).

Definition skb_realloc (irq : bool) (size s : Z) (st : skmem) : option (Z * skmem) :=
  if s =? 0 then skb_alloc irq size st
  else
    x ← skbs st !! s;
    Some (s, put_skb s (Skb 0 size 0 0 (skb_get_data_pointner (data x)) (data x) (p_data x) (p_data_end x)) st).

Definition skb_free (s : Z) (st : skmem) : option skmem :=
  if s =? 0 then Some st
  else
    x ← skbs st !! s;
    st ← skb_data_free (data x) st;
    pl ← pool_free (skb_pool st) s;
    Some (SkMem (delete s (skbs st)) (datas st) pl (skb_data_pool st) (heap st) (stale st)).

Definition shift_ptr (p off : Z) : Z := if negb (p =? 0) then p + off else p.

Definition skb_copy_ref (to from : Z) (st : skmem) : option skmem :=
  t ← skbs st !! to;
  f ← skbs st !! from;
  let offset := skb_get_data_pointner (data t) - skb_get_data_pointner (data f) in
  Some (put_skb to
    (Skb (dev f) (len t)
       (if negb (h f =? 0) then h f + offset else h t)
       (if negb (nh f =? 0) then nh f + offset else nh t)
       (if negb (mac f =? 0) then mac f + offset else mac t) (data t) 0 0) st).

Definition skb_shift_ref (s offset : Z) (st : skmem) : option skmem :=
  x ← skbs st !! s;
  Some (put_skb s (Skb (dev x) (len x) (shift_ptr (h x) offset) (shift_ptr (nh x) offset)
    (shift_ptr (mac x) offset) (data x) 0 0) st).

(** [memcpy] from [from] in the data [fd] to [to] in the data [td]. *)
Definition copy_bytes (td to fd from n : Z) (st : skmem) : option skmem :=
  f ← datas st !! fd;
  x ← zread (bytes f) (from - skb_get_data_pointner fd) n;
  t ← datas st !! td;
  l ← zwrite (bytes t) (to - skb_get_data_pointner td) x;
  Some (put_data td (SkbData (links t) (alloc_type t) l) st).

Definition skb_copy_data (to_data from : Z) (st : skmem) : option skmem :=
  f ← skbs st !! from;
  copy_bytes to_data (skb_get_data_pointner to_data) (data f) (skb_get_data_pointner (data f)) (len f) st.

Definition skb_copy (irq : bool) (s : Z) (st : skmem) : option (Z * skmem) :=
  x ← skbs st !! s;
  '(copied, st) ← skb_alloc irq (len x) st;
  if copied =? 0 then Some (0, st)
  else
    st ← skb_copy_ref copied s st;
    c ← skbs st !! copied;
    st ← skb_copy_data (data c) s st;
    Some (copied, st).

Definition skb_clone (s : Z) (st : skmem) : option (Z * skmem) :=
  x ← skbs st !! s;
  '(d, st) ← skb_data_clone (data x) st;
  '(cloned, st) ← skb_wrap (len x) d st;
  if cloned =? 0 then st ← skb_data_free d st; Some (0, st)
  else
    st ← skb_copy_ref cloned s st;
    Some (cloned, st).

Definition skb_declone (irq : bool) (s : Z) (st : skmem) : option (Z * skmem) :=
  x ← skbs st !! s;
  c ← skb_data_cloned (data x) st;
  if negb c then Some (s, st)
  else
    '(d, st) ← skb_data_alloc irq (len x) st;
    if d =? 0 then Some (0, st)
    else
      st ← skb_shift_ref s (skb_get_data_pointner d - skb_get_data_pointner (data x)) st;
      st ← skb_copy_data d s st;
      st ← skb_data_free (data x) st;
      y ← skbs st !! s;
      Some (s, put_skb s (Skb (dev y) (len y) (h y) (nh y) (mac y) d (p_data y) (p_data_end y)) st).

Definition skb_rshift (s count : Z) (st : skmem) : option skmem :=
  x ← skbs st !! s;
  assert! count <? skb_max_size ;;
  let p := skb_get_data_pointner (data x) in
  st ← copy_bytes (data x) (p + count) (data x) p (Z.min (len x) (skb_max_size - count)) st;
  Some (put_skb s (Skb (dev x) (ul (len x + Z.min count (skb_max_size - count))) (h x) (nh x) (mac x) (data x)
    (p_data x) (p_data_end x)) st).

(** The bytes copied to [buff]. *)
Definition skb_read (s buff_sz : Z) (st : skmem) : option (list Z * skmem) :=
  x ← skbs st !! s;
  assert! p_data x <=? p_data_end x ;;
  let n := Z.min buff_sz (p_data_end x - p_data x) in
  d ← datas st !! data x;
  b ← zread (bytes d) (p_data x - skb_get_data_pointner (data x)) n;
  Some (b, put_skb s (Skb (dev x) (len x) (h x) (nh x) (mac x) (data x) (p_data x + n) (p_data_end x)) st).

(** The buffers of an [iovec] are lists; the result is the count of bytes. *)
Fixpoint skb_iovec_buf (iov : list (list Z)) (buf : list Z) : Z * list (list Z) :=
  match iov with
  | [] => (0, [])
  | base :: iov =>
    if 0 <? zlen buf then
      let to_copy := Nat.min (length base) (length buf) in
      let '(n, iov) := skb_iovec_buf iov (drop to_copy buf) in
      (Z.of_nat to_copy + n, (take to_copy buf ++ drop to_copy base) :: iov)
    else (0, base :: iov)
  end.

Fixpoint skb_buf_iovec (buf : list Z) (iov : list (list Z)) : Z * list Z :=
  match iov with
  | [] => (0, buf)
  | base :: iov =>
    if 0 <? zlen buf then
      let to_copy := Nat.min (length base) (length buf) in
      let '(n, rest) := skb_buf_iovec (drop to_copy buf) iov in
      (Z.of_nat to_copy + n, take to_copy base ++ rest)
    else (0, buf)
  end.

(** * [skb_queue.c]: a queue is the list of its buffers *)

Definition skb_queue_push (queue : list Z) (s : Z) : list Z :=
  if s =? 0 then queue else filter (fun x => x <> s) queue ++ [s].
Definition skb_queue_front (queue : list Z) : Z := match queue with [] => 0 | s :: _ => s end.
Definition skb_queue_pop (queue : list Z) : Z * list Z :=
  match queue with [] => (0, []) | s :: q => (s, q) end.
Definition skb_queue_count (queue : list Z) : Z := zlen queue.
Fixpoint skb_queue_purge (queue : list Z) (st : skmem) : option skmem :=
  match queue with
  | [] => Some st
  | s :: queue => st ← skb_free s st; skb_queue_purge queue st
  end.

End Skb.
