(* ===== verification/SkbTheorems.v ===== *)
(** Packets are shared and freed correctly ([Skb.v]).

    [skmem_ok held] is the invariant: the buffers and their data are what the
    pools and the heap have handed out, and the data has as many links as
    buffers refer to it, with those in [held] that are referred to from
    elsewhere.  [view] is what a client sees of a buffer. *)
From S2P Require Import Prelude Pool Skb.

Local Open Scope Z_scope.
Local Open Scope embox_scope.

Set Default Proof Using "Type".

Section SkbFacts.
Context `{A : arch} `{!ArchOk A} `{O : skb_opts} {H : Type} `{!SysHeap H} `{!SysHeapOk H}.
Context (np nd : Z) (Hopts : 8 <= MODOPS_DATA_SIZE < 2 ^ 30 /\ 0 <= IP_ALIGN_SIZE <= 2).
Implicit Types st : skmem (H := H).

Definition of_type (t : Z) (m : gmap Z sk_buff_data) : gset Z := dom (filter (fun kv => alloc_type kv.2 = t) m).
Definition referring (d : Z) (m : gmap Z sk_buff) : Z := Z.of_nat (size (filter (fun kv => data kv.2 = d) m)).
Definition count (d : Z) (l : list Z) : Z := zlen (filter (fun x => x = d) l).

Record skmem_ok (held : list Z) st : Prop := {
  sm_pool : pool_ok (skb_pool st) np (elements (dom (skbs st)));
  sm_dpool : pool_ok (skb_data_pool st) nd (elements (of_type ALLOCATED_POOL (datas st)));
  sm_heap : heap_inv (heap st) (of_type ALLOCATED_MALLOC (datas st));
  sm_null : 0 < memory (skb_pool st) /\ 0 < memory (skb_data_pool st);
  sm_type : map_Forall (fun d x => alloc_type x = ALLOCATED_POOL \/ alloc_type x = ALLOCATED_MALLOC /\ heap_area d)
    (datas st);
  sm_area : forall p, pool_belong (skb_data_pool st) p = true -> ~ heap_area p;
  sm_links : map_Forall (fun d x => links x = referring d (skbs st) + count d held /\ 0 < links x) (datas st);
  sm_data : map_Forall (fun _ x => is_Some (datas st !! data x)) (skbs st);
  sm_held : Forall (fun d => is_Some (datas st !! d)) held
}.

(** * The parts of the invariant *)

Lemma elements_insert (X : gset Z) s : s ∉ X -> elements ({[s]} ∪ X) ≡ₚ s :: elements X.
Proof. apply elements_union_singleton. Qed.

Lemma of_type_insert t m d x : alloc_type x = t -> of_type t (<[d := x]> m) = {[d]} ∪ of_type t m.
Proof. intros Ht. unfold of_type. rewrite map_filter_insert_True by done. by rewrite dom_insert_L. Qed.

Lemma of_type_insert_ne t m d x : alloc_type x <> t -> m !! d = None -> of_type t (<[d := x]> m) = of_type t m.
Proof.
  intros Ht Hd. unfold of_type. rewrite map_filter_insert_False by done. by rewrite delete_id.
Qed.

(** Changing anything but the type. *)
Lemma of_type_update t m d x y : m !! d = Some x -> alloc_type y = alloc_type x ->
  of_type t (<[d := y]> m) = of_type t m.
Proof.
  intros Hd Hy. apply set_eq. intros e. unfold of_type. rewrite !elem_of_dom. unfold is_Some.
  setoid_rewrite map_lookup_filter_Some. destruct (decide (e = d)) as [->|Hne].
  - rewrite lookup_insert_eq, Hd. split; intros (z & [= <-] & Hz); eexists; split; try done; cbn in *; congruence.
  - by rewrite lookup_insert_ne.
Qed.

Lemma of_type_delete t m d x : m !! d = Some x ->
  of_type t (delete d m) = if bool_decide (alloc_type x = t) then of_type t m ∖ {[d]} else of_type t m.
Proof.
  intros Hd. unfold of_type. rewrite map_filter_delete, dom_delete_L. case_bool_decide as E; [done|].
  apply difference_disjoint_L. apply disjoint_singleton_r. rewrite not_elem_of_dom.
  apply map_lookup_filter_None. right. intros y Hy. cbn. congruence.
Qed.

Lemma elem_of_type t m d x : m !! d = Some x -> alloc_type x = t -> d ∈ of_type t m.
Proof. intros Hd Ht. apply elem_of_dom. exists x. by apply map_lookup_filter_Some. Qed.

Lemma of_type_fresh t m d : m !! d = None -> d ∉ of_type t m.
Proof. unfold of_type. intros Hd [x [Hx _]%map_lookup_filter_Some]%elem_of_dom. congruence. Qed.

Lemma referring_insert d m s x : m !! s = None ->
  referring d (<[s := x]> m) = referring d m + b2z (bool_decide (data x = d)).
Proof.
  intros Hs. unfold referring. case_bool_decide as E.
  - rewrite map_filter_insert_True, map_size_insert_None by (done || apply map_lookup_filter_None; by left). cbn. lia.
  - rewrite map_filter_insert_False, delete_id by done. cbn. lia.
Qed.

Lemma referring_delete d m s x : m !! s = Some x ->
  referring d (delete s m) = referring d m - b2z (bool_decide (data x = d)).
Proof.
  intros Hs. rewrite <- (insert_delete_id m s x Hs) at 2. rewrite referring_insert by apply lookup_delete_eq. lia.
Qed.

Lemma referring_update d m s x y : m !! s = Some x ->
  referring d (<[s := y]> m) = referring d m - b2z (bool_decide (data x = d)) + b2z (bool_decide (data y = d)).
Proof.
  intros Hs. rewrite <- insert_delete_eq, referring_insert by apply lookup_delete_eq.
  by rewrite (referring_delete d m s x).
Qed.

Lemma referring_pos d m s x : m !! s = Some x -> data x = d -> 0 < referring d m.
Proof.
  intros Hs Hd. rewrite <- (insert_delete_id m s x Hs), referring_insert by apply lookup_delete_eq.
  rewrite bool_decide_true by done. unfold referring. cbn. lia.
Qed.

Lemma referring_zero d m : map_Forall (fun _ x => data x <> d) m -> referring d m = 0.
Proof.
  intros Hm. unfold referring. assert (filter (fun kv => data kv.2 = d) m = ∅) as E; [|by rewrite E].
  apply map_empty. intros s. apply map_lookup_filter_None. right. intros x Hx. by apply (Hm s).
Qed.

Lemma count_cons d e l : count d (e :: l) = count d l + b2z (bool_decide (e = d)).
Proof.
  unfold count. rewrite filter_cons. case_decide as E.
  - rewrite bool_decide_true by done. unfold zlen. cbn. lia.
  - rewrite bool_decide_false by done. cbn. lia.
Qed.

Lemma count_nonneg d l : 0 <= count d l.
Proof. apply zlen_nonneg. Qed.

Lemma count_zero d l : d ∉ l -> count d l = 0.
Proof.
  intros Hd. induction l as [|e l IH]; [done|]. apply not_elem_of_cons in Hd as [H1 H2].
  rewrite count_cons, IH, bool_decide_false by done. done.
Qed.

(** A pool with one object more, or one less. *)
Lemma pool_alloc_set pl n (X : gset Z) : pool_ok pl n (elements X) -> 0 < memory pl ->
  exists o pl', pool_alloc pl = Some (o, pl') /\ memory pl' = memory pl /\
    (forall p, pool_belong pl' p = pool_belong pl p) /\
    match o with
    | None => pl' = pl /\ Z.of_nat (size X) = n
    | Some x => 0 < x /\ x ∉ X /\ pool_belong pl x = true /\ pool_ok pl' n (elements ({[x]} ∪ X))
    end.
Proof.
  intros Hok Hm. pose proof (pool_alloc_ok _ _ _ Hok) as Ha. destruct (Z.eqb_spec (zlen (elements X)) n) as [E|_].
  - exists None, pl. split_and!; done.
  - destruct Ha as (x & pl' & Ea & Hx & Hb & Hok'). exists (Some x), pl'. rewrite elem_of_elements in Hx.
    destruct (pool_alloc_shape _ _ _ Ea). split_and!; try done.
    + unfold pool_belong in Hb. zbool_in Hb; [lia|done..].
    + eapply pool_ok_perm; [|done]. by rewrite elements_insert.
Qed.

Lemma pool_free_set pl n (X : gset Z) x : pool_ok pl n (elements X) -> x ∈ X ->
  exists pl', pool_free pl x = Some pl' /\ memory pl' = memory pl /\
    (forall p, pool_belong pl' p = pool_belong pl p) /\ pool_ok pl' n (elements (X ∖ {[x]})).
Proof using ArchOk0 Hopts.
  intros Hok Hx. assert (pool_ok pl n ([] ++ x :: elements (X ∖ {[x]}))) as Hok'.
  { eapply pool_ok_perm; [|done]. rewrite <- elements_insert by set_solver. by rewrite <- union_difference_singleton_L. }
  destruct (pool_free_ok _ _ _ _ _ Hok') as (pl' & E & Hok2 & _). destruct (pool_free_shape _ _ _ E). by exists pl'.
Qed.

Lemma fresh_bytes_len d n st : 0 <= n -> zlen (fresh_bytes d n st) = n.
Proof. intros Hn. unfold fresh_bytes, zlen. rewrite length_fmap, length_seqZ. lia. Qed.

(** New data [d], held by whoever asked for it. *)
Lemma skmem_ok_new_data held st d x pl hp :
  skmem_ok held st -> datas st !! d = None -> links x = 1 ->
  pool_ok pl nd (elements (of_type ALLOCATED_POOL (<[d := x]> (datas st)))) ->
  heap_inv hp (of_type ALLOCATED_MALLOC (<[d := x]> (datas st))) ->
  memory pl = memory (skb_data_pool st) -> (forall p, pool_belong pl p = pool_belong (skb_data_pool st) p) ->
  alloc_type x = ALLOCATED_POOL \/ alloc_type x = ALLOCATED_MALLOC /\ heap_area d ->
  skmem_ok (d :: held) (put_data d x (set_data_pool pl (set_heap hp st))).
Proof.
  intros [Hp Hdp Hhp Hnull Hty Har Hl Hda Hhe] Hd Hx Hpl Hhp' Hm Hb Ht. split; cbn; try done.
  - by rewrite Hm.
  - by apply map_Forall_insert_2.
  - intros p. rewrite Hb. apply Har.
  - apply map_Forall_insert_2.
    + rewrite count_cons, bool_decide_true, referring_zero, count_zero by
        (first [done | intros s y Hy <-; destruct (Hda s y Hy); congruence |
                intros Hin; rewrite Forall_forall in Hhe; destruct (Hhe d Hin); congruence]). cbn. lia.
    + intros e y Hy. rewrite count_cons, bool_decide_false by congruence. destruct (Hl e y Hy). cbn. lia.
  - intros s y Hy. destruct (Hda s y Hy) as [z Hz]. exists z. rewrite lookup_insert_ne; [done|congruence].
  - constructor; [rewrite lookup_insert_eq; eauto|]. eapply Forall_impl; [exact Hhe|]. intros e [z Hz]. exists z.
    rewrite lookup_insert_ne; [done|congruence].
Qed.

Lemma data_fresh held st d : skmem_ok held st ->
  pool_belong (skb_data_pool st) d = true /\ d ∉ of_type ALLOCATED_POOL (datas st) \/
  heap_area d /\ d ∉ of_type ALLOCATED_MALLOC (datas st) -> datas st !! d = None.
Proof.
  intros Hok Hd. destruct (datas st !! d) as [x|] eqn:E; [|done]. exfalso.
  destruct (sm_type _ _ Hok d x E) as [Ht|[Ht Ha]]; destruct Hd as [[Hb Hf]|[Hb Hf]].
  - by eapply Hf, elem_of_type.
  - apply (sm_area _ _ Hok d); [|done]. assert (d ∈ elements (of_type ALLOCATED_POOL (datas st))) as Hin
      by (apply elem_of_elements; by eapply elem_of_type).
    destruct (live_block _ _ _ _ (sm_dpool _ _ Hok) Hin) as (i & Hi & ->). by eapply block_belong; [apply Hok|].
  - by apply (sm_area _ _ Hok d).
  - by eapply Hf, elem_of_type.
Qed.

Lemma huge_room size : 0 < size < 2 ^ 31 -> size <= SKB_DATA_SIZE size - DATA_OFF.
Proof using ArchOk0 Hopts.
  intros Hs. unfold SKB_DATA_SIZE, DATA_OFF. assert (4 <= LONG_BIT / 8 <= 8) as Hl.
  { destruct long_bit_ok as [E|E]; rewrite E; by cbn. }
  rewrite ul_32; lia.
Qed.

(** Why an allocation may fail: every buffer is in use, or all the data is (a
    large packet may find the heap full). *)
Definition no_buffer st : Prop := Z.of_nat (size (dom (skbs st))) = np.
Definition no_data st (n : Z) : Prop :=
  MODOPS_DATA_SIZE < n \/ Z.of_nat (size (of_type ALLOCATED_POOL (datas st))) = nd.

(** What an allocation of data, [r] or NULL, has done to the memory. *)
Definition data_alloc_spec held size st (r : Z) st' : Prop :=
  skbs st' = skbs st /\
  (r = 0 /\ datas st' = datas st /\ skmem_ok held st' /\ no_data st size \/
   0 < r /\ skmem_ok (r :: held) st' /\ datas st !! r = None /\ exists x, datas st' = <[r := x]> (datas st) /\
     links x = 1 /\ size <= zlen (bytes x)).

Lemma data_alloc_ok held st irq size : skmem_ok held st -> 0 < size < 2 ^ 31 ->
  exists r st', skb_data_alloc irq size st = Some (r, st') /\ data_alloc_spec held size st r st'.
Proof using ArchOk0 Hopts.
  intros Hok Hsz. unfold skb_data_alloc, skb_data_is_huge, skb_max_size. rewrite Z.gtb_ltb.
  assert (set_data_pool (skb_data_pool st) st = st) as Ep by by destruct st.
  assert (forall pl, set_data_pool pl st = set_data_pool pl (set_heap (heap st) st)) as Eh by by destruct st.
  destruct (Z.ltb_spec MODOPS_DATA_SIZE size) as [Hh|Hh]; cbn [andb negb].
  - destruct irq; [exists 0, st; split; [done|]; split; [done|]; left; split_and!; by try left|].
    pose proof (sysmalloc_ok (SKB_DATA_SIZE size) _ _ (sm_heap _ _ Hok)) as Hm.
    destruct (sysmalloc _ (heap st)) as [d hp]. destruct Hm as [[-> Hm]|(Ha & Hf & Hm)].
    + eexists _, _. split; [done|]. split; [done|]. left. split_and!; [done|done| |by left]. destruct Hok. by split.
    + pose proof (heap_area_pos d Ha). destruct (Z.eqb_spec d 0); [lia|]. eexists _, _.
      split; [done|]. split; [done|]. right. assert (datas st !! d = None) as Hn by (eapply data_fresh; [done|by right]).
      split_and!; [done| |done|eexists; split_and!; [done|done|]].
      * replace (set_heap hp st) with (set_data_pool (skb_data_pool st) (set_heap hp st)) by done.
        apply skmem_ok_new_data; try done; cbn.
        -- rewrite of_type_insert_ne by done. apply Hok.
        -- by rewrite of_type_insert.
        -- by right.
      * cbn. rewrite fresh_bytes_len; pose proof (huge_room size Hsz); lia.
  - destruct (pool_alloc_set _ _ _ (sm_dpool _ _ Hok)) as (o & pl & Ea & Hm & Hb & Ho); [apply Hok|].
    rewrite Ea. cbn [mbind option_bind]. destruct o as [d|].
    + destruct Ho as (Hd & Hf & Hbe & Hpl). eexists _, _. split; [done|]. split; [done|]. right.
      assert (datas st !! d = None) as Hn by (eapply data_fresh; [done|by left]).
      split_and!; [done| |done|eexists; split_and!; [done|done|]].
      * rewrite Eh at 2. apply skmem_ok_new_data; try done; cbn.
        -- by rewrite of_type_insert.
        -- rewrite of_type_insert_ne by done. apply Hok.
        -- by left.
      * cbn. rewrite fresh_bytes_len; lia.
    + destruct Ho as [-> Ho]. eexists _, _. split; [done|]. rewrite Ep. split; [done|]. left. split_and!; try done. by right.
Qed.

(** Data that is changed in place, or referred to once more or less. *)
Lemma skmem_ok_put_data held held' st d x y : skmem_ok held st -> datas st !! d = Some x ->
  alloc_type y = alloc_type x -> links y = referring d (skbs st) + count d held' -> 0 < links y ->
  (forall e, e <> d -> count e held' = count e held) -> (forall e, e ∈ held' -> e = d \/ e ∈ held) ->
  skmem_ok held' (put_data d y st).
Proof.
  intros [Hp Hdp Hhp Hnull Hty Har Hl Hda Hhe] Hd Ht Hly Hpos Hc Hin. split; cbn; try done.
  - by erewrite of_type_update.
  - by erewrite of_type_update.
  - apply map_Forall_insert_2; [|done]. rewrite Ht. by apply Hty.
  - intros e z Hz. destruct (decide (e = d)) as [->|Hne].
    + rewrite lookup_insert_eq in Hz. by injection Hz as <-.
    + rewrite lookup_insert_ne in Hz by done. rewrite Hc by done. by apply Hl.
  - intros s z Hz. apply lookup_insert_is_Some'. right. by apply (Hda s).
  - apply Forall_forall. intros e He. apply lookup_insert_is_Some'. rewrite Forall_forall in Hhe.
    destruct (Hin e He) as [->|]; [by left|right; by apply Hhe].
Qed.

Lemma skmem_ok_write held st d x l : skmem_ok held st -> datas st !! d = Some x ->
  skmem_ok held (put_data d (SkbData (links x) (alloc_type x) l) st).
Proof.
  intros Hok Hd. destruct (sm_links _ _ Hok d x Hd). eapply skmem_ok_put_data; try done; [by right].
Qed.

Lemma count_elem d l : d ∈ l -> 0 < count d l.
Proof.
  induction l as [|e l IH]; [by intros ?%elem_of_nil|]. rewrite count_cons. pose proof (count_nonneg d l).
  intros [->|He]%elem_of_cons; [rewrite bool_decide_true by done; cbn; lia|].
  specialize (IH He). destruct (bool_decide _); cbn; lia.
Qed.

(** Data that nobody refers to any more. *)
Lemma skmem_ok_drop_data held st d pl hp : skmem_ok (d :: held) st -> links <$> datas st !! d = Some 1 ->
  pool_ok pl nd (elements (of_type ALLOCATED_POOL (delete d (datas st)))) ->
  heap_inv hp (of_type ALLOCATED_MALLOC (delete d (datas st))) -> memory pl = memory (skb_data_pool st) ->
  (forall p, pool_belong pl p = pool_belong (skb_data_pool st) p) ->
  skmem_ok held (SkMem (skbs st) (delete d (datas st)) (skb_pool st) pl hp (stale st)).
Proof.
  intros [Hp Hdp Hhp Hnull Hty Har Hl Hda Hhe] Hd Hpl Hhp' Hm Hb.
  apply fmap_Some in Hd as (x & Hd & Hx). apply Forall_cons in Hhe as [_ Hhe].
  destruct (Hl d x Hd) as [Hlx _]. rewrite count_cons, bool_decide_true in Hlx by done. cbn in Hlx.
  pose proof (count_nonneg d held). assert (0 <= referring d (skbs st)) by (unfold referring; lia).
  split; cbn; rewrite ?Hm; try done.
  - by apply map_Forall_delete.
  - intros p. rewrite Hb. apply Har.
  - intros e y Hy. apply lookup_delete_Some in Hy as [Hne Hy]. destruct (Hl e y Hy) as [Hly ?].
    rewrite count_cons, bool_decide_false in Hly by done. cbn in Hly. lia.
  - intros s y Hy. rewrite lookup_delete_ne; [by apply (Hda s)|]. intros ->.
    pose proof (referring_pos _ _ _ _ Hy eq_refl). lia.
  - apply Forall_forall. intros e He. rewrite Forall_forall in Hhe. rewrite lookup_delete_ne; [by apply Hhe|].
    intros ->. pose proof (count_elem _ _ He). lia.
Qed.

Lemma data_free_ok held st d x : skmem_ok (d :: held) st -> datas st !! d = Some x ->
  exists st', skb_data_free d st = Some st' /\ skmem_ok held st' /\ skbs st' = skbs st /\ skb_pool st' = skb_pool st /\
    datas st' = if links x =? 1 then delete d (datas st)
                else <[d := SkbData (links x - 1) (alloc_type x) (bytes x)]> (datas st).
Proof using ArchOk0 Hopts.
  intros Hok Hd. unfold skb_data_free. rewrite Hd. cbn [mbind option_bind].
  destruct (sm_links _ _ Hok d x Hd) as [Hlx Hpos]. rewrite count_cons, bool_decide_true in Hlx by done. cbn in Hlx.
  destruct (Z.leb_spec 0 (links x - 1)) as [_|]; [|lia].
  destruct (Z.eqb_spec (links x - 1) 0) as [H1|H1], (Z.eqb_spec (links x) 1) as [H2|H2]; try lia.
  - pose proof (of_type_delete ALLOCATED_POOL _ _ _ Hd) as Eo. pose proof (of_type_delete ALLOCATED_MALLOC _ _ _ Hd) as Em.
    assert (links <$> datas st !! d = Some 1) as Hd1 by (rewrite Hd; cbn; by f_equal).
    destruct (sm_type _ _ Hok d x Hd) as [Ht|[Ht Ha]]; rewrite Ht in *.
    + rewrite bool_decide_true in Eo by done. rewrite bool_decide_false in Em by done.
      destruct (pool_free_set _ _ _ d (sm_dpool _ _ Hok)) as (pl & E & Hm & Hb & Hpl); [by eapply elem_of_type|]. rewrite E.
      eexists. split; [done|]. split; [|done].
      apply (skmem_ok_drop_data held st d pl (heap st)); try done; rewrite ?Eo, ?Em; [done|apply Hok].
    + rewrite bool_decide_false in Eo by done. rewrite bool_decide_true in Em by done.
      eexists. split; [done|]. split; [|done].
      apply (skmem_ok_drop_data held st d (skb_data_pool st)); try done; rewrite ?Eo, ?Em; [apply Hok|].
      apply sysfree_ok; [apply Hok|by eapply elem_of_type].
  - eexists. split; [done|]. split; [|done]. eapply skmem_ok_put_data; cbn; try done; try lia.
    + intros e He. rewrite count_cons, bool_decide_false by done. cbn. lia.
    + intros e He. right. by right.
Qed.

Lemma data_clone_ok held st d x : skmem_ok held st -> datas st !! d = Some x -> links x < 2 ^ 31 - 1 ->
  let st' := put_data d (SkbData (links x + 1) (alloc_type x) (bytes x)) st in
  skb_data_clone d st = Some (d, st') /\ skmem_ok (d :: held) st'.
Proof.
  intros Hok Hd Hl. unfold skb_data_clone. rewrite Hd. cbn [mbind option_bind].
  destruct (sm_links _ _ Hok d x Hd) as [Hlx Hpos]. rewrite s32_small by lia. split; [done|].
  eapply skmem_ok_put_data; cbn; try done; try lia.
  - rewrite count_cons, bool_decide_true by done. cbn. lia.
  - intros e He. rewrite count_cons, bool_decide_false by done. cbn. lia.
  - intros e He. by apply elem_of_cons in He.
Qed.

(** * Buffers *)

Lemma skb_nonzero held st s x : skmem_ok held st -> skbs st !! s = Some x -> 0 < s.
Proof.
  intros Hok Hs. destruct (live_block _ _ _ s (sm_pool _ _ Hok)) as (i & Hi & ->).
  { apply elem_of_elements, elem_of_dom. eauto. }
  destruct (sm_null _ _ Hok). pose proof (po_size _ _ _ (sm_pool _ _ Hok)). unfold block. nia.
Qed.

(** A buffer that takes over one of the held references. *)
Lemma skmem_ok_new_skb held st s x pl : skmem_ok (data x :: held) st -> skbs st !! s = None ->
  pool_ok pl np (elements ({[s]} ∪ dom (skbs st))) -> memory pl = memory (skb_pool st) ->
  skmem_ok held (put_skb s x (set_skb_pool pl st)).
Proof.
  intros [Hp Hdp Hhp Hnull Hty Har Hl Hda Hhe] Hs Hpl Hm. apply Forall_cons in Hhe as [Hd Hhe].
  split; cbn; rewrite ?Hm; try done.
  - by rewrite dom_insert_L.
  - intros e y Hy. rewrite referring_insert by done. destruct (Hl e y Hy) as [Hly ?]. rewrite count_cons in Hly.
    destruct (bool_decide (data x = e)); cbn in *; lia.
  - by apply map_Forall_insert_2.
Qed.

(** A buffer whose reference passes to somebody else. *)
Lemma skmem_ok_del_skb held st s x pl : skmem_ok held st -> skbs st !! s = Some x ->
  pool_ok pl np (elements (dom (skbs st) ∖ {[s]})) -> memory pl = memory (skb_pool st) ->
  skmem_ok (data x :: held) (SkMem (delete s (skbs st)) (datas st) pl (skb_data_pool st) (heap st) (stale st)).
Proof.
  intros [Hp Hdp Hhp Hnull Hty Har Hl Hda Hhe] Hs Hpl Hm. split; cbn; rewrite ?Hm; try done.
  - by rewrite dom_delete_L.
  - intros e y Hy. rewrite (referring_delete _ _ _ _ Hs), count_cons. destruct (Hl e y Hy). lia.
  - by apply map_Forall_delete.
  - constructor; [by apply (Hda s)|done].
Qed.

(** A buffer that exchanges its reference for a held one. *)
Lemma skmem_ok_put_skb held st s x y : skmem_ok (data y :: held) st -> skbs st !! s = Some x ->
  skmem_ok (data x :: held) (put_skb s y st).
Proof.
  intros [Hp Hdp Hhp Hnull Hty Har Hl Hda Hhe] Hs. apply Forall_cons in Hhe as [Hd Hhe]. split; cbn; try done.
  - assert (dom (<[s := y]> (skbs st)) = dom (skbs st)) as ->; [|done].
    apply dom_insert_lookup_L. eauto.
  - intros e z Hz. rewrite (referring_update _ _ _ _ _ Hs), count_cons. destruct (Hl e z Hz) as [Hlz ?].
    rewrite count_cons in Hlz. lia.
  - by apply map_Forall_insert_2.
  - constructor; [by apply (Hda s)|done].
Qed.

Lemma skmem_ok_upd_skb held st s x y : skmem_ok held st -> skbs st !! s = Some x -> data y = data x ->
  skmem_ok held (put_skb s y st).
Proof.
  intros [Hp Hdp Hhp Hnull Hty Har Hl Hda Hhe] Hs Hd. split; cbn; try done.
  - assert (dom (<[s := y]> (skbs st)) = dom (skbs st)) as ->; [|done].
    apply dom_insert_lookup_L. eauto.
  - intros e z Hz. rewrite (referring_update _ _ _ _ _ Hs), Hd. destruct (Hl e z Hz). lia.
  - apply map_Forall_insert_2; [|done]. rewrite Hd. by apply (Hda s).
Qed.

Lemma wrap_ok held st size d : skmem_ok (d :: held) st -> 0 < size -> 0 < d ->
  exists s st', skb_wrap size d st = Some (s, st') /\ datas st' = datas st /\
    (s = 0 /\ skbs st' = skbs st /\ skmem_ok (d :: held) st' /\ no_buffer st \/
     0 < s /\ skbs st !! s = None /\ skmem_ok held st' /\
       skbs st' = <[s := Skb 0 size 0 0 (skb_get_data_pointner d) d 0 0]> (skbs st)).
Proof.
  intros Hok Hsz Hd. unfold skb_wrap. destruct (Z.eqb_spec size 0), (Z.eqb_spec d 0); try lia. cbn [negb].
  destruct (pool_alloc_set _ _ _ (sm_pool _ _ Hok)) as (o & pl & Ea & Hm & _ & Ho); [apply Hok|].
  rewrite Ea. cbn [mbind option_bind]. destruct o as [s|].
  - destruct Ho as (Hs & Hf & _ & Hpl). apply not_elem_of_dom in Hf. eexists _, _. split; [done|]. split; [done|]. right.
    split_and!; try done. by apply skmem_ok_new_skb.
  - destruct Ho as [-> Ho]. eexists _, _. split; [done|]. split; [done|]. left. split_and!; try done.
    destruct Hok. by split.
Qed.

Lemma data_free_skbs d m pl st :
  skb_data_free d (SkMem m (datas st) pl (skb_data_pool st) (heap st) (stale st)) =
  (fun st' => SkMem m (datas st') pl (skb_data_pool st') (heap st') (stale st')) <$> skb_data_free d st.
Proof.
  unfold skb_data_free. cbn. destruct (datas st !! d) as [x|]; [|done]. cbn. repeat case_match; try done.
  destruct (pool_free _ _); done.
Qed.

Lemma data_free_same d st st' : skb_data_free d st = Some st' -> skb_pool st' = skb_pool st /\ skbs st' = skbs st.
Proof.
  unfold skb_data_free. intros E. destruct (datas st !! d); [|done]. cbn in E. repeat case_match; simplify_option; done.
Qed.

(** A new buffer [r] with data of its own, or NULL and nothing has changed. *)
Definition skb_alloc_spec held size st (r : Z) st' : Prop :=
  skmem_ok held st' /\
  (r = 0 /\ skbs st' = skbs st /\ datas st' = datas st /\ (no_data st size \/ no_buffer st) \/
   0 < r /\ skbs st !! r = None /\ exists d x, 0 < d /\ datas st !! d = None /\ links x = 1 /\ size <= zlen (bytes x) /\
     skbs st' = <[r := Skb 0 size 0 0 (skb_get_data_pointner d) d 0 0]> (skbs st) /\
     datas st' = <[d := x]> (datas st)).

Lemma skb_alloc_ok held st irq size : skmem_ok held st -> 0 < size < 2 ^ 31 ->
  exists r st', skb_alloc irq size st = Some (r, st') /\ skb_alloc_spec held size st r st'.
Proof using ArchOk0 Hopts.
  intros Hok Hsz. destruct (data_alloc_ok held st irq size Hok Hsz) as (d & st1 & E1 & Hs1 & Hd). unfold skb_alloc. rewrite E1.
  cbn [mbind option_bind]. destruct Hd as [(-> & Hd1 & Hok1 & Hwhy)|(Hd & Hok1 & Hfd & x & Hd1 & Hl & Hx)].
  { exists 0, st1. split; [done|]. split; [done|]. left. split_and!; try done. by left. }
  destruct (Z.eqb_spec d 0); [lia|].
  destruct (wrap_ok _ _ size d Hok1) as (s & st2 & E2 & Hd2 & Hw); [lia|done|]. rewrite E2. cbn [mbind option_bind].
  destruct Hw as [(-> & Hs2 & Hok2 & Hwhy)|(Hs & Hf & Hok2 & Hs2)].
  - destruct (data_free_ok _ _ d x Hok2) as (st3 & E3 & Hok3 & Hs3 & _ & Hd3); [by rewrite Hd2, Hd1, lookup_insert_eq|].
    cbn [Z.eqb]. rewrite E3. exists 0, st3. split; [done|]. split; [done|]. left.
    rewrite Hl in Hd3. cbn [Z.eqb Pos.eqb] in Hd3. rewrite Hd3, Hs3, Hd2, Hd1, Hs2, delete_insert_id by done.
    split_and!; try done. right. unfold no_buffer. by rewrite <- Hs1.
  - destruct (Z.eqb_spec s 0); [lia|]. exists s, st2. split; [done|]. split; [done|]. right. rewrite Hs1 in *.
    split_and!; try done. exists d, x. rewrite Hd2. by split_and!.
Qed.

(** The references of a buffer that is freed. *)
Definition released (d : Z) (x : sk_buff_data) (m : gmap Z sk_buff_data) : gmap Z sk_buff_data :=
  if links x =? 1 then delete d m else <[d := SkbData (links x - 1) (alloc_type x) (bytes x)]> m.

Lemma skb_free_ok held st s x d : skmem_ok held st -> skbs st !! s = Some x -> datas st !! data x = Some d ->
  exists st', skb_free s st = Some st' /\ skmem_ok held st' /\ skbs st' = delete s (skbs st) /\
    datas st' = released (data x) d (datas st).
Proof using ArchOk0 Hopts.
  intros Hok Hs Hd. pose proof (skb_nonzero _ _ _ _ Hok Hs). unfold skb_free. destruct (Z.eqb_spec s 0); [lia|].
  rewrite Hs. cbn [mbind option_bind].
  destruct (pool_free_set _ _ _ s (sm_pool _ _ Hok)) as (pl & Ep & Hm & _ & Hpl); [apply elem_of_dom; eauto|].
  pose proof (skmem_ok_del_skb _ _ _ _ pl Hok Hs Hpl Hm) as Hok1.
  destruct (data_free_ok _ _ _ _ Hok1 Hd) as (st2 & E2 & Hok2 & Hs2 & _ & Hd2).
  rewrite data_free_skbs in E2. apply fmap_Some in E2 as (st1 & E1 & ->). rewrite E1.
  cbn [mbind option_bind].
  destruct (data_free_same _ _ _ E1) as [-> ->].
  rewrite Ep. eexists. split; [done|]. split; [exact Hok2|]. done.
Qed.

(** * What a client sees of a buffer *)

Definition offset_in (d p : Z) : option Z := if p =? 0 then None else Some (p - skb_get_data_pointner d).

Record pkt := Pkt { pk_dev : Z; pk_h : option Z; pk_nh : option Z; pk_mac : option Z; pk_bytes : list Z }.

Definition view st (s : Z) : option pkt :=
  x ← skbs st !! s;
  d ← datas st !! data x;
  Some (Pkt (dev x) (offset_in (data x) (h x)) (offset_in (data x) (nh x)) (offset_in (data x) (mac x))
    (take (Z.to_nat (len x)) (bytes d))).

(** The buffer [s] is what the code keeps it: its bytes are there, and its
    pointers point into them. *)
Record skb_wf st (s : Z) (x : sk_buff) (d : sk_buff_data) : Prop := {
  wf_skb : skbs st !! s = Some x;
  wf_data : datas st !! data x = Some d;
  wf_len : 0 < len x < 2 ^ 31 /\ len x <= zlen (bytes d);
  wf_mac : skb_get_data_pointner (data x) <= mac x;
  wf_nh : nh x = 0 \/ skb_get_data_pointner (data x) <= nh x;
  wf_h : h x = 0 \/ skb_get_data_pointner (data x) <= h x
}.

Lemma data_nonzero held st d x : skmem_ok held st -> datas st !! d = Some x -> 0 < d.
Proof.
  intros Hok Hd. destruct (sm_type _ _ Hok d x Hd) as [Ht|[_ Ha]]; [|by apply heap_area_pos].
  destruct (live_block _ _ _ d (sm_dpool _ _ Hok)) as (i & Hi & ->).
  { apply elem_of_elements. by eapply elem_of_type. }
  destruct (sm_null _ _ Hok). pose proof (po_size _ _ _ (sm_dpool _ _ Hok)). unfold block. nia.
Qed.

Lemma shift_offset d d' p : 0 < d -> 0 < d' -> p = 0 \/ skb_get_data_pointner d <= p ->
  offset_in d' (shift_ptr p (skb_get_data_pointner d' - skb_get_data_pointner d)) = offset_in d p.
Proof using ArchOk0 Hopts.
  unfold offset_in, shift_ptr, skb_get_data_pointner, DATA_OFF. intros Hd Hd' Hp. destruct (Z.eqb_spec p 0) as [->|]; [done|].
  cbn [negb]. destruct (Z.eqb_spec (p + (d' + (8 + IP_ALIGN_SIZE) - (d + (8 + IP_ALIGN_SIZE)))) 0); [lia|]. f_equal. lia.
Qed.

(** Copying the first [n] bytes from one buffer's data to another's. *)
Lemma copy_bytes_start td fd n st f t : datas st !! fd = Some f -> datas st !! td = Some t ->
  0 <= n <= zlen (bytes f) -> n <= zlen (bytes t) ->
  exists l, copy_bytes td (skb_get_data_pointner td) fd (skb_get_data_pointner fd) n st =
    Some (put_data td (SkbData (links t) (alloc_type t) l) st) /\
    take (Z.to_nat n) l = take (Z.to_nat n) (bytes f) /\ zlen l = zlen (bytes t).
Proof.
  intros Hf Ht Hn Hn'. unfold copy_bytes. rewrite Hf. cbn [mbind option_bind]. rewrite !Z.sub_diag.
  destruct (zread_Some (bytes f) 0 n) as (x & Ex & Hx & _); [lia..|]. rewrite Ex. cbn [mbind option_bind]. rewrite Ht.
  cbn [mbind option_bind]. destruct (zwrite_Some (bytes t) 0 x) as (l & El & Hl & _); [lia..|]. rewrite El.
  exists l. split_and!; try done.
  assert (x = take (Z.to_nat n) (bytes f)) as Hxe by (unfold zread in Ex; case_match; [by injection Ex as <-|done]).
  assert (l = x ++ drop (length x) (bytes t)) as -> by (unfold zwrite in El; case_match; [by injection El as <-|done]).
  rewrite <- Hxe, take_app_length'; [done|]. unfold zlen in Hx. lia.
Qed.

Lemma clone_ok st s x d : skmem_ok [] st -> skb_wf st s x d -> np < 2 ^ 31 - 1 ->
  exists r st', skb_clone s st = Some (r, st') /\ skmem_ok [] st' /\
    (r = 0 /\ skbs st' = skbs st /\ datas st' = datas st /\ no_buffer st \/
     0 < r /\ skbs st !! r = None /\
       skbs st' = <[r := Skb (dev x) (len x) (h x) (nh x) (mac x) (data x) 0 0]> (skbs st) /\
       datas st' = <[data x := SkbData (links d + 1) (alloc_type d) (bytes d)]> (datas st)).
Proof using ArchOk0 Hopts.
  intros Hok [Hs Hd [Hlen _] Hmac Hnh Hh] Hnp. unfold skb_clone. rewrite Hs. cbn [mbind option_bind].
  pose proof (data_nonzero _ _ _ _ Hok Hd) as Hd0.
  assert (0 < links d < 2 ^ 31 - 1) as Hl.
  { destruct (sm_links _ _ Hok _ _ Hd) as [Hl ?]. pose proof (pool_count _ _ _ (sm_pool _ _ Hok)).
    pose proof (zlen_nonneg (free_blocks (skb_pool st))).
    assert (referring (data x) (skbs st) <= zlen (elements (dom (skbs st)))); [|change (count _ []) with 0 in Hl; lia].
    unfold referring. change (zlen (elements (dom (skbs st)))) with (Z.of_nat (size (dom (skbs st)))). rewrite size_dom.
    apply inj_le. apply map_subseteq_size, map_filter_subseteq. }
  destruct (data_clone_ok _ _ _ _ Hok Hd) as [E1 Hok1]; [lia|]. rewrite E1. cbn [mbind option_bind].
  destruct (wrap_ok _ _ (len x) _ Hok1) as (r & st2 & E2 & Hd2 & Hr); [lia|done|]. rewrite E2. cbn [mbind option_bind].
  destruct Hr as [(-> & Hs2 & Hok2 & Hwhy)|(Hr & Hf & Hok2 & Hs2)].
  - eapply data_free_ok in Hok2 as (st3 & E3 & Hok3 & Hs3 & _ & Hd3); [|rewrite Hd2; apply lookup_insert_eq].
    cbn [Z.eqb]. rewrite E3. eexists _, _. split; [done|]. split; [done|]. left. rewrite Hs3, Hs2. split_and!; try done.
    rewrite Hd3, Hd2. cbn. destruct (Z.eqb_spec (links d + 1) 1); [lia|]. rewrite insert_insert_eq, insert_id; [done|].
    rewrite Hd. f_equal. destruct d. cbn. f_equal. lia.
  - destruct (Z.eqb_spec r 0); [lia|]. cbn in Hf. assert (r <> s) as Hne by congruence.
    unfold skb_copy_ref. rewrite Hs2. cbn [skbs put_data]. rewrite lookup_insert_eq, lookup_insert_ne, Hs by done.
    cbn [mbind option_bind data h nh mac len]. rewrite Z.sub_diag, !Z.add_0_r.
    eexists _, _. split; [done|]. split; [eapply skmem_ok_upd_skb; [done|by rewrite Hs2; apply lookup_insert_eq|done]|].
    right. split_and!; try done. cbn. rewrite Hs2. cbn. rewrite insert_insert_eq. f_equal.
    unfold skb_get_data_pointner, DATA_OFF in Hmac.
    destruct (Z.eqb_spec (h x) 0) as [->|], (Z.eqb_spec (nh x) 0) as [->|], (Z.eqb_spec (mac x) 0); cbn; try lia; done.
Qed.

(** [x] over the data [d'] instead of its own. *)
Definition moved (x : sk_buff) (d' : Z) : sk_buff :=
  let offset := skb_get_data_pointner d' - skb_get_data_pointner (data x) in
  Skb (dev x) (len x) (shift_ptr (h x) offset) (shift_ptr (nh x) offset) (shift_ptr (mac x) offset) d' 0 0.

Lemma copy_ok held st irq s x d : skmem_ok held st -> skb_wf st s x d ->
  exists r st', skb_copy irq s st = Some (r, st') /\ skmem_ok held st' /\
    (r = 0 /\ skbs st' = skbs st /\ datas st' = datas st /\ (no_data st (len x) \/ no_buffer st) \/
     0 < r /\ skbs st !! r = None /\ exists d' t l, 0 < d' /\ datas st !! d' = None /\
       take (Z.to_nat (len x)) l = take (Z.to_nat (len x)) (bytes d) /\ len x <= zlen l /\
       skbs st' = <[r := moved x d']> (skbs st) /\ datas st' = <[d' := SkbData 1 t l]> (datas st)).
Proof using ArchOk0 Hopts.
  intros Hok [Hs Hd [Hlen Hcap] Hmac Hnh Hh]. unfold skb_copy. rewrite Hs. cbn [mbind option_bind].
  destruct (skb_alloc_ok _ _ irq (len x) Hok Hlen) as (r & st1 & E1 & Hok1 & Hr). rewrite E1. cbn [mbind option_bind].
  destruct Hr as [(-> & Hs1 & Hd1 & Hwhy)|(Hr & Hf & d' & y & Hd' & Hfd & Hl & Hy & Hs1 & Hd1)]; [by eauto 10|].
  destruct (Z.eqb_spec r 0); [lia|]. assert (r <> s) as Hne by congruence. assert (data x <> d') as Hned by congruence.
  unfold skb_copy_ref. rewrite Hs1, lookup_insert_eq, lookup_insert_ne, Hs by done.
  cbn [mbind option_bind skbs put_skb]. rewrite lookup_insert_eq. cbn [mbind option_bind data].
  unfold skb_copy_data. cbn [skbs put_skb]. rewrite Hs1, !lookup_insert_ne, Hs by done. cbn [mbind option_bind].
  edestruct (copy_bytes_start d' (data x) (len x)) as (l & E2 & Hle & Hll); [| | | |rewrite E2].
  - cbn [datas put_skb]. by rewrite Hd1, lookup_insert_ne.
  - cbn [datas put_skb]. rewrite Hd1. apply lookup_insert_eq.
  - lia.
  - lia.
  - eexists _, _. split; [done|]. split.
    + apply skmem_ok_write; [|cbn; rewrite Hd1; apply lookup_insert_eq].
      eapply skmem_ok_upd_skb; [done|rewrite Hs1; apply lookup_insert_eq|done].
    + right. split_and!; try done. exists d', (alloc_type y), l. split_and!; try done; [lia| |].
      * cbn. rewrite Hs1, insert_insert_eq. unfold moved, shift_ptr. cbn. unfold skb_get_data_pointner, DATA_OFF in Hmac.
        pose proof (data_nonzero _ _ _ _ Hok Hd). f_equal.
        destruct (Z.eqb_spec (h x) 0) as [->|], (Z.eqb_spec (nh x) 0) as [->|], (Z.eqb_spec (mac x) 0); cbn; try lia; done.
      * cbn. by rewrite Hd1, insert_insert_eq, Hl.
Qed.

Lemma declone_ok held st irq s x d : skmem_ok held st -> skb_wf st s x d ->
  exists r st', skb_declone irq s st = Some (r, st') /\ skmem_ok held st' /\
    (r = s /\ links d = 1 /\ st' = st \/
     r = 0 /\ links d <> 1 /\ skbs st' = skbs st /\ datas st' = datas st /\ no_data st (len x) \/
     r = s /\ links d <> 1 /\ exists d' t l, 0 < d' /\ datas st !! d' = None /\
       take (Z.to_nat (len x)) l = take (Z.to_nat (len x)) (bytes d) /\ len x <= zlen l /\
       skbs st' = <[s := moved x d']> (skbs st) /\
       datas st' = released (data x) d (<[d' := SkbData 1 t l]> (datas st))).
Proof using ArchOk0 Hopts.
  intros Hok [Hs Hd [Hlen Hcap] Hmac Hnh Hh]. unfold skb_declone. rewrite Hs. cbn [mbind option_bind].
  unfold skb_data_cloned. rewrite Hd. cbn [mbind option_bind]. rewrite negb_involutive.
  destruct (Z.eqb_spec (links d) 1) as [Hl1|Hl1]; [exists s, st; split; [done|]; split; [done|]; by left|].
  destruct (data_alloc_ok _ _ irq (len x) Hok Hlen) as (d' & st1 & E1 & Hs1 & Hr). rewrite E1. cbn [mbind option_bind].
  destruct Hr as [(-> & Hd1 & Hok1 & Hwhy)|(Hd' & Hok1 & Hfd & y & Hd1 & Hl & Hy)]; [exists 0, st1; split; [done|]; split; [done|]; by right; left|].
  destruct (Z.eqb_spec d' 0); [lia|]. assert (data x <> d') as Hned by congruence.
  unfold skb_shift_ref. rewrite Hs1, Hs. cbn [mbind option_bind]. set (x2 := Skb (dev x) _ _ _ _ _ _ _).
  unfold skb_copy_data. cbn [skbs put_skb]. rewrite lookup_insert_eq. cbn [mbind option_bind].
  destruct (copy_bytes_start d' (data x2) (len x2) (put_skb s x2 st1) d y) as (l & E2 & Hle & Hll);
    [cbn; by rewrite Hd1, lookup_insert_ne|cbn; rewrite Hd1; apply lookup_insert_eq|cbn; lia|done|]. rewrite E2.
  cbn [mbind option_bind]. set (st3 := put_data d' _ (put_skb s x2 st1)).
  assert (skmem_ok (d' :: held) st3) as Hok3.
  { apply skmem_ok_write; [|cbn; rewrite Hd1; apply lookup_insert_eq].
    by eapply skmem_ok_upd_skb; [|rewrite Hs1|]. }
  assert (skbs st3 !! s = Some x2) as Hs3 by (cbn; apply lookup_insert_eq).
  pose proof (skmem_ok_put_skb _ _ s x2 (moved x d') Hok3 Hs3) as Hok4.
  edestruct (data_free_ok _ _ (data x) d Hok4) as (st5 & E5 & Hok5 & Hs5 & _ & Hd5).
  { cbn. by rewrite Hd1, insert_insert_eq, lookup_insert_ne. }
  unfold put_skb at 1 in E5. rewrite data_free_skbs in E5. apply fmap_Some in E5 as (st4 & E4 & ->). rewrite E4.
  cbn [mbind option_bind]. destruct (data_free_same _ _ _ E4) as [Ep4 Es4]. rewrite Es4, Hs3. cbn [mbind option_bind].
  eexists _, _. split; [done|]. unfold put_skb. rewrite Ep4, Es4. split; [exact Hok5|]. right. right. split_and!; try done.
  exists d', (alloc_type y), l. split_and!; try done; [cbn in *; lia| |].
  - cbn. by rewrite Hs1, insert_insert_eq.
  - cbn in *. rewrite Hd5, Hd1, Hl. unfold released. by rewrite insert_insert_eq.
Qed.

(** * Sharing *)

(** No other buffer has the data of [s]. *)
Definition alone st (s : Z) : Prop := forall x t y, skbs st !! s = Some x -> t <> s -> skbs st !! t = Some y -> data y <> data x.

Lemma links_alone st s x d : skmem_ok [] st -> skbs st !! s = Some x -> datas st !! data x = Some d ->
  links d = 1 <-> alone st s.
Proof.
  intros Hok Hs Hd. destruct (sm_links _ _ Hok _ _ Hd) as [Hl _]. change (count (data x) []) with 0 in Hl.
  pose proof (referring_delete (data x) _ _ _ Hs) as Hr. rewrite bool_decide_true in Hr by done. cbn in Hr. split.
  - intros H1 x' t y Hs' Hne Ht Hy. simplify_eq.
    enough (0 < referring (data x) (delete s (skbs st))) by lia.
    apply (referring_pos _ _ t y); [|done]. rewrite lookup_delete_ne; [done|congruence].
  - intros Ha. rewrite (referring_zero (data x)) in Hr; [lia|].
    intros t y Ht. apply lookup_delete_Some in Ht as [Hne Ht]. apply (Ha x t y); congruence.
Qed.

Lemma view_ext st st' t : skbs st' !! t = skbs st !! t ->
  (forall y, skbs st !! t = Some y -> bytes <$> datas st' !! data y = bytes <$> datas st !! data y) ->
  view st' t = view st t.
Proof.
  intros Hs Hb. unfold view. rewrite Hs. destruct (skbs st !! t) as [y|]; [|done]. cbn. specialize (Hb y eq_refl).
  destruct (datas st !! data y), (datas st' !! data y); try done. cbn in *. injection Hb as Hb. by rewrite Hb.
Qed.

(** A buffer moved to a copy of its bytes looks the same. *)
Lemma view_moved st st' s r x d d' t l : skmem_ok [] st -> skb_wf st s x d -> 0 < d' ->
  take (Z.to_nat (len x)) l = take (Z.to_nat (len x)) (bytes d) ->
  skbs st' !! r = Some (moved x d') -> datas st' !! d' = Some (SkbData 1 t l) -> view st' r = view st s.
Proof using ArchOk0 Hopts.
  intros Hok [Hs Hd [Hlen Hcap] Hmac Hnh Hh] Hd' Hl Hr Hd2. unfold view. rewrite Hr, Hs. cbn. rewrite Hd, Hd2. cbn.
  pose proof (data_nonzero _ _ _ _ Hok Hd). rewrite !shift_offset, Hl by (done || by right). done.
Qed.

Lemma released_ne d x m e : e <> d -> released d x m !! e = m !! e.
Proof. intros He. unfold released. case_match; [by rewrite lookup_delete_ne|by rewrite lookup_insert_ne]. Qed.

Lemma released_bytes d x m e : m !! d = Some x -> e <> d \/ links x <> 1 -> bytes <$> released d x m !! e = bytes <$> m !! e.
Proof.
  clear Hopts. intros Hd He. destruct (decide (e = d)) as [->|Hne]; [|by rewrite released_ne].
  unfold released. destruct (Z.eqb_spec (links x) 1); [naive_solver|]. by rewrite lookup_insert_eq, Hd.
Qed.

(** New buffers and new data are not those of [t]. *)
Lemma view_fresh held st st' r y d' z t : skmem_ok held st -> skbs st !! r = None -> datas st !! d' = None ->
  skbs st' = <[r := y]> (skbs st) -> datas st' = <[d' := z]> (datas st) -> t <> r -> view st' t = view st t.
Proof.
  intros Hok Hr Hd Es Ed Ht. apply view_ext; [by rewrite Es, lookup_insert_ne|]. intros w Hw.
  destruct (sm_data _ _ Hok t w Hw) as [v Hv]. rewrite Ed, lookup_insert_ne; [done|congruence].
Qed.

Lemma copy_view st irq s x d : skmem_ok [] st -> skb_wf st s x d ->
  exists r st', skb_copy irq s st = Some (r, st') /\ skmem_ok [] st' /\ (forall t, t <> r -> view st' t = view st t) /\
    (r = 0 /\ (no_data st (len x) \/ no_buffer st) \/ skbs st !! r = None /\ view st' r = view st s /\ alone st' r).
Proof using ArchOk0 Hopts.
  intros Hok Hwf. destruct (copy_ok [] st irq s x d Hok Hwf) as (r & st' & E & Hok' & Hr). exists r, st'.
  destruct Hr as [(-> & Hs & Hd & Hwhy)|(Hr & Hf & d' & t & l & Hd' & Hfd & Hl & _ & Hs & Hd)].
  - split_and!; try done; [|by left]. intros t _. apply view_ext; by rewrite ?Hs, ?Hd.
  - split_and!; try done.
    + intros u Hu. by eapply view_fresh.
    + right. split_and!; try done.
      * eapply (view_moved st st' s r); try done; [by rewrite Hs, lookup_insert_eq|by rewrite Hd; apply lookup_insert_eq].
      * eapply links_alone; [done|rewrite Hs; apply lookup_insert_eq|rewrite Hd; apply lookup_insert_eq|done].
Qed.

Lemma clone_view st s x d : skmem_ok [] st -> skb_wf st s x d -> np < 2 ^ 31 - 1 ->
  exists r st', skb_clone s st = Some (r, st') /\ skmem_ok [] st' /\ (forall t, t <> r -> view st' t = view st t) /\
    (r = 0 /\ no_buffer st \/ skbs st !! r = None /\ view st' r = view st s /\ data <$> skbs st' !! r = Some (data x)).
Proof using ArchOk0 Hopts.
  intros Hok Hwf Hnp. destruct (clone_ok st s x d Hok Hwf Hnp) as (r & st' & E & Hok' & Hr). exists r, st'.
  destruct Hwf as [Hs Hd _ _ _ _]. destruct Hr as [(-> & Hs' & Hd' & Hwhy)|(Hr & Hf & Hs' & Hd')].
  - split_and!; try done; [|by left]. intros t _. apply view_ext; by rewrite ?Hs', ?Hd'.
  - split_and!; try done.
    + intros u Hu. apply view_ext; [by rewrite Hs', lookup_insert_ne|]. intros y _. rewrite Hd'.
      destruct (decide (data y = data x)) as [->|]; [by rewrite lookup_insert_eq, Hd|by rewrite lookup_insert_ne].
    + right. split_and!; [done| |by rewrite Hs', lookup_insert_eq].
      unfold view. rewrite Hs', lookup_insert_eq, Hs. cbn. rewrite Hd', lookup_insert_eq, Hd. done.
Qed.

Lemma declone_view st irq s x d : skmem_ok [] st -> skb_wf st s x d ->
  exists r st', skb_declone irq s st = Some (r, st') /\ skmem_ok [] st' /\ (forall t, view st' t = view st t) /\
    (r = 0 /\ no_data st (len x) \/ r = s /\ alone st' s).
Proof using ArchOk0 Hopts.
  intros Hok Hwf. destruct (declone_ok [] st irq s x d Hok Hwf) as (r & st' & E & Hok' & Hr). exists r, st'.
  pose proof Hwf as [Hs Hd _ _ _ _].
  destruct Hr as [(-> & Hl & ->)|[(-> & Hl & Hs' & Hd' & Hwhy)|(-> & Hl & d' & t & l & Hp & Hfd & Hle & _ & Hs' & Hd')]].
  - split_and!; try done. right. split; [done|]. by eapply links_alone.
  - split_and!; try done; [|by left]. intros t. apply view_ext; by rewrite ?Hs', ?Hd'.
  - assert (d' <> data x) as Hne by congruence.
    assert (datas st' !! d' = Some (SkbData 1 t l)) as Hd2 by (rewrite Hd', released_ne by done; apply lookup_insert_eq).
    assert (skbs st' !! s = Some (moved x d')) as Hs2 by (rewrite Hs'; apply lookup_insert_eq).
    split_and!; try done.
    + intros u. destruct (decide (u = s)) as [->|Hu]; [by eapply view_moved|].
      apply view_ext; [by rewrite Hs', lookup_insert_ne|]. intros y Hy. destruct (sm_data _ _ Hok u y Hy) as [v Hv].
      rewrite Hd', released_bytes; [by rewrite lookup_insert_ne by congruence|by rewrite lookup_insert_ne|by right].
    + right. split; [done|]. by eapply links_alone.
Qed.

Lemma free_view st s x d : skmem_ok [] st -> skb_wf st s x d ->
  exists st', skb_free s st = Some st' /\ skmem_ok [] st' /\ view st' s = None /\
    (forall t, t <> s -> view st' t = view st t) /\ (datas st' !! data x = None <-> alone st s).
Proof using ArchOk0 Hopts.
  intros Hok [Hs Hd _ _ _ _]. destruct (skb_free_ok [] st s x d Hok Hs Hd) as (st' & E & Hok' & Hs' & Hd'). exists st'.
  pose proof (links_alone st s x d Hok Hs Hd) as Hal. split_and!; try done.
  - unfold view. by rewrite Hs', lookup_delete_eq.
  - intros t Ht. apply view_ext; [by rewrite Hs', lookup_delete_ne|]. intros y Hy. rewrite Hd'.
    apply released_bytes; [done|]. destruct (decide (links d = 1)) as [H1|]; [left|by right].
    by eapply (proj1 Hal H1).
  - rewrite <- Hal, Hd'. unfold released. destruct (Z.eqb_spec (links d) 1).
    + by rewrite lookup_delete_eq.
    + by rewrite lookup_insert_eq.
Qed.

End SkbFacts.

(** C11: buffers share their data safely.  A copy looks like the buffer and has
    data of its own, a clone looks like it and has the same data, and after
    [skb_declone] a buffer looks as before and no other has its data; no other
    buffer looks different after any of them, also when NULL is returned,
    which is only when the pool is empty or the packet too large for it.  Freeing removes one buffer, and gives its data back
    exactly when no other has it. *)
Theorem skb_sharing `{A : arch} `{!ArchOk A} `{O : skb_opts} {H} `{!SysHeap H} `{!SysHeapOk H} np nd
  (st : skmem (H := H)) irq s x d :
  8 <= MODOPS_DATA_SIZE < 2 ^ 30 /\ 0 <= IP_ALIGN_SIZE <= 2 -> np < 2 ^ 31 - 1 ->
  skmem_ok np nd [] st -> skb_wf st s x d ->
  (exists r st', skb_copy irq s st = Some (r, st') /\ skmem_ok np nd [] st' /\
     (forall t, t <> r -> view st' t = view st t) /\
     (r = 0 /\ (no_data nd st (len x) \/ no_buffer np st) \/
      skbs st !! r = None /\ view st' r = view st s /\ alone st' r)) /\
  (exists r st', skb_clone s st = Some (r, st') /\ skmem_ok np nd [] st' /\
     (forall t, t <> r -> view st' t = view st t) /\
     (r = 0 /\ no_buffer np st \/
      skbs st !! r = None /\ view st' r = view st s /\ data <$> skbs st' !! r = Some (data x))) /\
  (exists r st', skb_declone irq s st = Some (r, st') /\ skmem_ok np nd [] st' /\
     (forall t, view st' t = view st t) /\ (r = 0 /\ no_data nd st (len x) \/ r = s /\ alone st' s)) /\
  (exists st', skb_free s st = Some st' /\ skmem_ok np nd [] st' /\ view st' s = None /\
     (forall t, t <> s -> view st' t = view st t) /\ (datas st' !! data x = None <-> alone st s)).
Proof.
  intros Hopts Hnp Hok Hwf. split_and!.
  - by eapply copy_view.
  - by eapply clone_view.
  - by eapply declone_view.
  - by eapply free_view.
Qed.

(** * A concrete memory *)

(** A heap that is never given back. *)
#[export] Instance bump_heap : SysHeap Z := {|
  sysmalloc n h := (h, h + Z.max 1 n);
  sysfree _ h := h
|}.

#[export] Instance bump_heap_ok : SysHeapOk Z.
Proof.
  refine {| heap_area p := 2 ^ 20 <= p; heap_inv h live := 2 ^ 20 <= h /\ forall p, p ∈ live -> p < h |}.
  - lia.
  - intros n h live [Hh Hl]. right. split_and!; try lia; [intros Hin%Hl; lia|]. intros p Hp. set_unfold.
    destruct Hp as [->|Hp%Hl]; lia.
  - intros p h live [Hh Hl] Hp. split; [done|]. intros q Hq. apply Hl. set_solver.
Defined.

Definition skmem_init `{O : skb_opts} (np nd : Z) : skmem (H := Z) :=
  SkMem ∅ ∅ (POOL_DEF 4096 64 np) (POOL_DEF 65536 (DATA_OFF + MODOPS_DATA_SIZE) nd) (2 ^ 20) (fun _ => 7).

Lemma skmem_init_ok `{O : skb_opts} np nd : 0 <= np -> 0 <= nd -> 0 <= DATA_OFF + MODOPS_DATA_SIZE - 1 ->
  65536 + (DATA_OFF + MODOPS_DATA_SIZE) * nd < 2 ^ 20 -> skmem_ok np nd [] (skmem_init np nd).
Proof.
  intros Hnp Hnd Hsz Har. split; try done.
  - apply pool_def_ok; lia.
  - apply pool_def_ok; lia.
  - intros p. unfold pool_belong. cbn. intros Hp. zbool_in Hp; try done. lia.
Qed.

#[local] Existing Instance lp64.
#[local] Instance demo_opts : skb_opts := SkbOpts 32 0.

Definition demo_skb : skmem (H := Z) := default (skmem_init 2 2) (snd <$> skb_alloc false 20 (skmem_init 2 2)).

Lemma demo_skb_ok : skmem_ok 2 2 [] demo_skb.
Proof.
  assert (8 <= MODOPS_DATA_SIZE < 2 ^ 30 /\ 0 <= IP_ALIGN_SIZE <= 2) as Ho by (cbn; lia).
  destruct (skb_alloc_ok 2 2 Ho [] (skmem_init 2 2) false 20) as (r & st & E & Hok & _); [|lia|].
  - apply skmem_init_ok; unfold DATA_OFF; cbn; lia.
  - unfold demo_skb. by rewrite E.
Qed.

Lemma skb_sharing_witness :
  exists r st', skb_clone 4096 demo_skb = Some (r, st') /\ skmem_ok 2 2 [] st' /\
    (forall t, t <> r -> view st' t = view demo_skb t) /\
    (r = 0 /\ no_buffer 2 demo_skb \/
     skbs demo_skb !! r = None /\ view st' r = view demo_skb 4096 /\ data <$> skbs st' !! r = Some 65536).
Proof.
  apply (skb_sharing 2 2 demo_skb false 4096 (Skb 0 20 0 0 65544 65536 0 0) (SkbData 1 0 (replicate 32 7))).
  - cbn. lia.
  - lia.
  - exact demo_skb_ok.
  - split; [vm_compute; reflexivity|vm_compute; reflexivity|unfold zlen; cbn; lia| |by left|by left].
    unfold skb_get_data_pointner, DATA_OFF. cbn. lia.
Defined.

(** * Scatter and gather *)

(** What is scattered over buffers with enough room is gathered again. *)
Lemma iovec_roundtrip iov buf buf' : length buf' = length buf -> (length buf <= length (concat iov))%nat ->
  let '(n, iov') := skb_iovec_buf iov buf in n = zlen buf /\ skb_buf_iovec buf' iov' = (zlen buf, buf).
Proof.
  revert buf buf'. induction iov as [|base iov IH]; intros buf buf' Hlen Hroom; cbn [skb_iovec_buf concat] in *.
  { destruct buf; [|cbn in Hroom; lia]. destruct buf'; done. }
  destruct (Z.ltb_spec 0 (zlen buf)) as [H0|H0].
  - set (k := Nat.min (length base) (length buf)).
    specialize (IH (drop k buf) (drop k buf')). rewrite !length_drop, length_app in *.
    destruct (skb_iovec_buf iov (drop k buf)) as [n iov'] eqn:E. destruct IH as [-> IH]; [lia|lia|].
    cbn [skb_buf_iovec]. unfold zlen in *. rewrite Hlen. destruct (Z.ltb_spec 0 (Z.of_nat (length buf))); [|lia].
    replace (Nat.min (length (take k buf ++ drop k base)) (length buf)) with k
      by (rewrite length_app, length_take, length_drop; lia).
    rewrite IH, !length_drop, take_app_le, take_take, Nat.min_id, take_drop by (rewrite length_take; lia).
    split; f_equal; lia.
  - unfold zlen in *. destruct buf; [|cbn in H0; lia]. destruct buf'; [|done]. cbn. done.
Qed.
