(* ===== verification/Ip.v ===== *)
(** The IPv4 header: [src/include/net/l3/ipv4/ip.h], the checksum of
    [src/include/net/util/checksum.h], the header functions of
    [src/net/lib/ipv4.c] and the tests a received header has to pass in
    [src/net/l3/ipv4/ip_input.c].

    A header is the list of the bytes from [iph] on.  A field of it is the
    number its bytes spell in network order, which is [ntohs] or [ntohl] of
    the field, and so is an [in_addr_t].  The checksum alone reads the header in
    the byte order of the machine ([little_endian]). *)
From S2P Require Import Prelude.

Local Open Scope Z_scope.
Local Open Scope embox_scope.

Class byteorder := ByteOrder { little_endian : bool }.

(** * Fields *)

Definition get8 (l : list Z) (o : Z) : option Z := znth l o.
Definition get16 (l : list Z) (o : Z) : option Z :=
  a ← znth l o; b ← znth l (o + 1); Some (256 * a + b).
Definition get32 (l : list Z) (o : Z) : option Z :=
  a ← get16 l o; b ← get16 l (o + 2); Some (65536 * a + b).
Definition bytes16 (x : Z) : list Z := [x / 256 mod 256; x mod 256].
Definition bytes32 (x : Z) : list Z := bytes16 (x / 65536) ++ bytes16 x.
Definition put8 (l : list Z) (o x : Z) : option (list Z) := zwrite l o [x mod 256].
Definition put16 (l : list Z) (o x : Z) : option (list Z) := zwrite l o (bytes16 x).
Definition put32 (l : list Z) (o x : Z) : option (list Z) := zwrite l o (bytes32 x).

Definition IP_DF : Z := 0x4000.
Definition IP_MF : Z := 0x2000.
Definition IP_OFFSET : Z := 0x1fff.
Definition IP_MIN_HEADER_SIZE : Z := 20.

Definition ihl (iph : list Z) : option Z := x ← get8 iph 0; Some (Z.land x 15).
Definition version (iph : list Z) : option Z := x ← get8 iph 0; Some (Z.shiftr x 4).
Definition tot_len (iph : list Z) : option Z := get16 iph 2.
Definition ip_id (iph : list Z) : option Z := get16 iph 4.
Definition frag_off (iph : list Z) : option Z := get16 iph 6.
Definition ttl (iph : list Z) : option Z := get8 iph 8.
Definition proto (iph : list Z) : option Z := get8 iph 9.
Definition saddr (iph : list Z) : option Z := get32 iph 12.
Definition daddr (iph : list Z) : option Z := get32 iph 16.

Definition IP_HEADER_SIZE (iph : list Z) : option Z := x ← ihl iph; Some (Z.shiftl x 2).

(** * The checksum *)

Section Checksum.
Context `{A : arch} `{B : byteorder}.

(** An [unsigned short] in memory. *)
Definition short_of (b0 b1 : Z) : Z := if little_endian then b0 + 256 * b1 else 256 * b0 + b1.
Definition short_bytes (x : Z) : list Z :=
  if little_endian then [x mod 256; x / 256 mod 256] else [x / 256 mod 256; x mod 256].

Fixpoint partial_sum_loop (sum : Z) (l : list Z) : Z :=
  match l with
  | b0 :: b1 :: l => partial_sum_loop (ul (sum + short_of b0 b1)) l
  | [b] => ul (sum + short_of b 0)
  | [] => sum
  end.

Definition partial_sum (l : list Z) : Z := partial_sum_loop 0 l.

Definition fold_short (sum : Z) : Z :=
  let sum := ul (Z.shiftr sum 16 + Z.land sum 0xffff) in
  let sum := ul (sum + Z.shiftr sum 16) in
  u16 (Z.land sum 0xffff).

Definition ptclbsum (l : list Z) : Z := wnot 16 (fold_short (partial_sum l)).

(** * [net/lib/ipv4.c] *)

Definition ip_build (iph : list Z) (total_len t p src_ip dst_ip : Z) : option (list Z) :=
  iph ← put8 iph 0 (Z.lor (Z.shiftl 4 4) (IP_MIN_HEADER_SIZE / 4));
  iph ← put8 iph 1 0;
  iph ← put16 iph 2 total_len;
  iph ← put16 iph 4 0;
  iph ← put16 iph 6 0;
  iph ← put8 iph 8 t;
  iph ← put8 iph 9 p;
  iph ← put16 iph 10 0;
  iph ← put32 iph 12 src_ip;
  put32 iph 16 dst_ip.

Definition ip_set_id_field (iph : list Z) (id : Z) : option (list Z) := put16 iph 4 id.

Definition ip_set_check_field (iph : list Z) : option (list Z) :=
  iph ← zwrite iph 10 [0; 0];
  hl ← IP_HEADER_SIZE iph;
  hdr ← zread iph 0 hl;
  zwrite iph 10 (short_bytes (ptclbsum hdr)).

Definition ip_check_version (iph : list Z) : option bool := v ← version iph; Some (v =? 4).

Definition ip_data_length (iph : list Z) : option Z :=
  n ← tot_len iph;
  hl ← IP_HEADER_SIZE iph;
  assert! n >=? hl ;;
  Some (n - hl).

(** * What [ip_rcv] asks of a header

    [len] is [skb->len], [hdr_len] the length of the link-layer header.  The
    result is the header with the checksum in place, or the counter of the
    device that counts the packet as dropped. *)
Inductive rx_error := rx_length_errors | rx_err | rx_crc_errors.

Definition ip_rcv_header (len hdr_len : Z) (iph : list Z) : option (rx_error + list Z) :=
  if len <? ul (hdr_len + IP_MIN_HEADER_SIZE) then Some (inl rx_length_errors)
  else
    hl ← IP_HEADER_SIZE iph;
    if hl <? IP_MIN_HEADER_SIZE then Some (inl rx_length_errors)
    else if len <? ul (hdr_len + hl) then Some (inl rx_length_errors)
    else
      v ← version iph;
      if negb (v =? 4) then Some (inl rx_err)
      else
        old_check ← get16 iph 10;
        iph ← ip_set_check_field iph;
        check ← get16 iph 10;
        if negb (old_check =? check) then Some (inl rx_crc_errors)
        else
          ip_len ← tot_len iph;
          if (ip_len <? hl) || (len <? ul (hdr_len + ip_len)) then Some (inl rx_length_errors)
          else Some (inr iph).

End Checksum.

(** * The ones complement sum

    The reference for the checksum is RFC 1071: the words of the header in
    network order, added modulo 65535.  [rep] is the representative between 1
    and 65535. *)

Definition cong (a b : Z) : Prop := exists q, a = b + 65535 * q.
Definition rep (x : Z) : Z := (x - 1) mod 65535 + 1.

Fixpoint csum (l : list Z) : Z :=
  match l with
  | b0 :: b1 :: l => 256 * b0 + b1 + csum l
  | [b] => 256 * b
  | [] => 0
  end.

Definition is_byte (x : Z) : Prop := 0 <= x < 256.

Lemma rep_range x : 1 <= rep x <= 65535.
Proof. unfold rep. pose proof (Z.mod_pos_bound (x - 1) 65535). lia. Qed.

Lemma rep_cong x : cong (rep x) x.
Proof. exists (- ((x - 1) / 65535)). unfold rep. pose proof (Z.div_mod (x - 1) 65535 ltac:(lia)). lia. Qed.

Lemma rep_unique x y : cong y x -> 1 <= y <= 65535 -> rep x = y.
Proof. intros [q ->] Hy. destruct (rep_cong x) as [q' Hq]. pose proof (rep_range x). lia. Qed.

Lemma rep_eq x y : rep x = rep y <-> cong x y.
Proof.
  split.
  - intros E. destruct (rep_cong x) as [q Hq], (rep_cong y) as [q' Hq']. exists (q' - q). lia.
  - intros [q ->]. apply rep_unique; [|apply rep_range]. destruct (rep_cong y) as [q' Hq']. exists (q' - q). lia.
Qed.

(** Induction over a list by pairs. *)
Lemma list_ind2 {A} (P : list A -> Prop) : P [] -> (forall a, P [a]) -> (forall a b l, P l -> P (a :: b :: l)) ->
  forall l, P l.
Proof.
  intros H0 H1 H2 l. enough (P l /\ forall a, P (a :: l)) by tauto.
  induction l as [|b l [IH1 IH2]]; [by split|]. split; [done|]. intros a. by apply H2.
Qed.

Lemma csum_bounds l : Forall is_byte l -> 0 <= csum l <= 65535 * zlen l.
Proof.
  induction l as [|b|b0 b1 l IH] using list_ind2; intros Hb; cbn [csum].
  - unfold zlen. cbn. lia.
  - apply Forall_cons in Hb as [Hb _]. unfold is_byte in Hb. change (zlen [b]) with 1. lia.
  - apply Forall_cons in Hb as [H0 [H1 Hl]%Forall_cons]. specialize (IH Hl). unfold is_byte, zlen in *. cbn [length]. lia.
Qed.

Section ChecksumFacts.
Context `{A : arch} `{!ArchOk A} `{B : byteorder}.

Lemma short_of_cong b0 b1 : cong (short_of b0 b1) ((if little_endian then 256 else 1) * (256 * b0 + b1)).
Proof. unfold short_of. destruct little_endian; [exists (- b0)|exists 0]; lia. Qed.

Lemma short_of_bounds b0 b1 : is_byte b0 -> is_byte b1 -> 0 <= short_of b0 b1 <= 65535.
Proof. unfold is_byte, short_of. destruct little_endian; lia. Qed.

Lemma partial_sum_loop_ok l sum : Forall is_byte l -> 0 <= sum -> sum + 65535 * zlen l < 2 ^ 32 ->
  cong (partial_sum_loop sum l) (sum + (if little_endian then 256 else 1) * csum l) /\
  sum <= partial_sum_loop sum l <= sum + 65535 * zlen l /\ (0 < csum l -> sum < partial_sum_loop sum l).
Proof.
  revert sum. induction l as [|b|b0 b1 l IH] using list_ind2; intros sum Hb Hs Hl; cbn [partial_sum_loop csum].
  - split; [exists 0; lia|]. unfold zlen. cbn. lia.
  - apply Forall_cons in Hb as [Hb _]. pose proof (short_of_bounds b 0 Hb ltac:(done)) as Hr. change (zlen [b]) with 1 in *.
    rewrite ul_32 by lia. destruct (short_of_cong b 0) as [q Hq]. split; [exists q; lia|]. split; [lia|].
    intros Hp. unfold short_of. destruct little_endian; lia.
  - apply Forall_cons in Hb as [H0 [H1 Hb]%Forall_cons]. pose proof (short_of_bounds b0 b1 H0 H1).
    unfold zlen in *. cbn [length] in *. rewrite ul_32 by lia. destruct (short_of_cong b0 b1) as [q Hq].
    destruct (IH (sum + short_of b0 b1)) as ([q' Hq'] & Hr & Hp); [done|lia|lia|].
    split; [exists (q + q'); lia|]. split; [lia|]. intros Hc.
    unfold short_of, is_byte in *. destruct little_endian; lia.
Qed.

Lemma fold_short_ok s : 0 < s < 2 ^ 32 -> fold_short s = rep s.
Proof.
  intros Hs. unfold fold_short. change 0xffff with (Z.ones 16). rewrite !Z.land_ones, !Z.shiftr_div_pow2 by lia.
  pose proof (Z.div_mod s (2 ^ 16) ltac:(lia)) as Hd. pose proof (Z.mod_pos_bound s (2 ^ 16) ltac:(lia)) as Hm.
  assert (0 <= s / 2 ^ 16 < 2 ^ 16) as Hq by (split; [apply Z.div_pos; lia|apply Z.div_lt_upper_bound; lia]).
  rewrite (ul_32 (s / 2 ^ 16 + s mod 2 ^ 16)) by lia. set (t := s / 2 ^ 16 + s mod 2 ^ 16) in *.
  assert (0 < t) as Ht by lia. symmetry. unfold wrap. rewrite Zmod_mod. destruct (Z.ltb_spec t (2 ^ 16)) as [H1|H1].
  - rewrite (Z.div_small t) by lia. rewrite Z.add_0_r, ul_32, Z.mod_small by lia. apply rep_unique; [|lia].
    exists (- (s / 2 ^ 16)). lia.
  - assert (t / 2 ^ 16 = 1) as -> by (symmetry; apply (Z.div_unique _ _ _ (t - 2 ^ 16)); lia).
    rewrite ul_32 by lia. assert ((t + 1) mod 2 ^ 16 = t + 1 - 2 ^ 16) as ->
      by (symmetry; apply (Z.mod_unique _ _ 1); lia).
    apply rep_unique; [|lia]. exists (- (s / 2 ^ 16) - 1). lia.
Qed.

(** The checksum in memory does not depend on the byte order of the machine. *)
Lemma ptclbsum_bytes l : Forall is_byte l -> zlen l < 2 ^ 15 -> 0 < csum l ->
  short_bytes (ptclbsum l) = bytes16 (65535 - rep (csum l)).
Proof.
  intros Hb Hl Hc. unfold ptclbsum, partial_sum. pose proof (zlen_nonneg l).
  destruct (partial_sum_loop_ok l 0 Hb) as ([q Hq] & Hr & Hp); [lia|lia|]. specialize (Hp Hc).
  rewrite fold_short_ok by lia. unfold wnot, wrap, bytes16, short_bytes.
  set (r := rep (csum l)). set (p := rep (partial_sum_loop 0 l)).
  assert (1 <= r <= 65535 /\ 1 <= p <= 65535) as [Hr1 Hp1] by (split; apply rep_range).
  replace (Z.lnot p mod 2 ^ 16) with (65535 - p)
    by (unfold Z.lnot; apply (Z.mod_unique _ _ (-1)); lia).
  destruct (rep_cong (csum l)) as [q1 Hq1]. fold r in Hq1. destruct little_endian.
  - assert (p = 256 * (r mod 256) + r / 256) as ->.
    { apply rep_unique.
      - exists (-q + 256 * q1 - r / 256). pose proof (Z.div_mod r 256). lia.
      - pose proof (Z.div_mod r 256). pose proof (Z.mod_pos_bound r 256). lia. }
    pose proof (Z.div_mod r 256). pose proof (Z.mod_pos_bound r 256).
    assert (0 <= r / 256 < 256) by (split; [apply Z.div_pos; lia|apply Z.div_lt_upper_bound; lia]).
    assert ((65535 - (256 * (r mod 256) + r / 256)) / 256 = 255 - r mod 256) as ->
      by (symmetry; apply (Z.div_unique _ _ _ (255 - r / 256)); lia).
    assert ((65535 - (256 * (r mod 256) + r / 256)) mod 256 = 255 - r / 256) as ->
      by (symmetry; apply (Z.mod_unique _ _ (255 - r mod 256)); lia).
    assert ((65535 - r) / 256 = 255 - r / 256) as -> by (symmetry; apply (Z.div_unique _ _ _ (255 - r mod 256)); lia).
    assert ((65535 - r) mod 256 = 255 - r mod 256) as -> by (symmetry; apply (Z.mod_unique _ _ (255 - r / 256)); lia).
    by rewrite (Z.mod_small (255 - r / 256)), (Z.mod_small (255 - r mod 256)) by lia.
  - assert (p = r) as ->; [|done]. apply rep_eq. exists q. lia.
Qed.

(** * The checksum of a header *)

Lemma csum_app a b : Nat.Even (length a) -> csum (a ++ b) = csum a + csum b.
Proof.
  induction a as [|x|x y a IH] using list_ind2; intros He; cbn [app csum length] in *; [lia| |].
  - destruct He. lia.
  - rewrite IH; [lia|]. destruct He as [k Hk]. exists (k - 1)%nat. lia.
Qed.

(** A header [l] of [hl] bytes. *)
Record header (l : list Z) (hl : Z) : Prop := {
  hd_bytes : Forall is_byte l;
  hd_size : IP_HEADER_SIZE l = Some hl;
  hd_len : IP_MIN_HEADER_SIZE <= hl <= zlen l
}.

Lemma IP_HEADER_SIZE_Some l hl : IP_HEADER_SIZE l = Some hl <-> exists b, znth l 0 = Some b /\ hl = 4 * (b mod 16).
Proof.
  unfold IP_HEADER_SIZE, ihl, get8. destruct (znth l 0) as [b|]; cbn; [|naive_solver].
  change 15 with (Z.ones 4). rewrite Z.land_ones, Z.shiftl_mul_pow2 by lia. change (2 ^ 4) with 16. change (2 ^ 2) with 4.
  split; [intros [= <-]; exists b; split; [done|lia]|]. intros (? & [= <-] & ->). f_equal. lia.
Qed.

Lemma header_bounds l hl : header l hl -> 20 <= hl <= 60 /\ hl <= zlen l /\ (4 | hl).
Proof.
  intros [_ (b & _ & ->)%IP_HEADER_SIZE_Some Hl]. unfold IP_MIN_HEADER_SIZE in Hl.
  pose proof (Z.mod_pos_bound b 16 ltac:(lia)). split; [lia|]. split; [lia|]. exists (b mod 16). lia.
Qed.

(** The header with [c] for the check field. *)
Definition with_check (l c : list Z) : list Z := take 10 l ++ c ++ drop 12 l.

Lemma zwrite_check l c : length c = 2%nat -> 12 <= zlen l -> zwrite l 10 c = Some (with_check l c).
Proof.
  intros Hc Hl. unfold zwrite, zlen in *. rewrite Hc. destruct (Z.leb_spec (10 + Z.of_nat 2) (Z.of_nat (length l))); [|lia]. done.
Qed.

Lemma with_check_len l c : length c = 2%nat -> 12 <= zlen l -> zlen (with_check l c) = zlen l.
Proof. intros Hc Hl. unfold with_check, zlen in *. rewrite !length_app, length_take, length_drop, Hc. lia. Qed.

Lemma with_check_twice l c c' : length c = 2%nat -> 12 <= zlen l -> with_check (with_check l c) c' = with_check l c'.
Proof.
  intros Hc Hl. unfold with_check, zlen in *. rewrite take_app_length' by (rewrite length_take; lia).
  do 2 f_equal. by rewrite app_assoc, drop_app_length' by (rewrite length_app, length_take; lia).
Qed.

Lemma with_check_self l : 12 <= zlen l -> with_check l (take 2 (drop 10 l)) = l.
Proof.
  intros Hl. unfold with_check. change (drop 12 l) with (drop (10 + 2) l). rewrite <- (drop_drop l 2 10), take_drop.
  by rewrite take_drop.
Qed.

Lemma with_check_znth l c i : length c = 2%nat -> 12 <= zlen l -> i <> 10 -> i <> 11 -> znth (with_check l c) i = znth l i.
Proof.
  intros Hc Hl H0 H1. destruct (Z.leb_spec 0 i); [|unfold znth; zbool; [lia|done]].
  unfold with_check, zlen in *. rewrite !znth_lookup by done. destruct (Z.ltb_spec i 10).
  - rewrite lookup_app_l by (rewrite length_take; lia). apply lookup_take_lt. lia.
  - rewrite lookup_app_r, length_take, lookup_app_r, lookup_drop by (rewrite ?length_take; lia). f_equal. lia.
Qed.

Lemma header_with_check l hl c : header l hl -> length c = 2%nat -> Forall is_byte c -> header (with_check l c) hl.
Proof.
  intros Hh Hc Hb. destruct (header_bounds _ _ Hh) as (Hr & Hl & _). destruct Hh as [Hb' Hs Hz]. split.
  - unfold with_check. rewrite !Forall_app. split; [by apply Forall_take|]. split; [done|by apply Forall_drop].
  - unfold IP_HEADER_SIZE, ihl, get8 in *. by rewrite with_check_znth by lia.
  - by rewrite with_check_len by lia.
Qed.

(** The sum of a header, and the part of it that the check field is. *)
Definition hsum (l : list Z) (hl : Z) : Z := csum (take (Z.to_nat hl) l).

Lemma hsum_with_check l hl c0 c1 : header l hl ->
  hsum (with_check l [c0; c1]) hl = hsum (with_check l [0; 0]) hl + 256 * c0 + c1.
Proof.
  intros Hh. destruct (header_bounds _ _ Hh) as (Hr & Hl & _). unfold hsum, with_check, zlen in *.
  assert (length (take 10 l) = 10%nat) as H10 by (rewrite length_take; lia).
  rewrite !(take_app_ge (take 10 l)), !csum_app by (rewrite H10; (lia || by exists 5%nat)). rewrite H10.
  destruct (Z.to_nat hl - 10)%nat as [|[|n]] eqn:E; [lia|lia|]. cbn [app take csum]. lia.
Qed.

Lemma hsum_pos l hl : header l hl -> 0 < hsum l hl.
Proof.
  intros Hh. destruct (header_bounds _ _ Hh) as (Hr & Hl & _). destruct Hh as [Hb (b & H0 & ->)%IP_HEADER_SIZE_Some _].
  unfold hsum. destruct l as [|b' [|b1 l]]; [done|unfold zlen in Hl; cbn in Hl; lia|]. cbn in H0. injection H0 as ->.
  destruct (Z.to_nat (4 * (b mod 16))) as [|[|n]] eqn:E; [lia|lia|]. cbn [take csum].
  apply Forall_cons in Hb as [Hb0 [Hb1 Hb]%Forall_cons].
  assert (0 <= csum (take n l)) by (apply csum_bounds; by apply Forall_take).
  unfold is_byte in *. destruct (Z.eqb_spec b 0) as [->|]; [change (0 mod 16) with 0 in Hr; lia|]. lia.
Qed.

Lemma bytes16_ok x : length (bytes16 x) = 2%nat /\ Forall is_byte (bytes16 x).
Proof.
  split; [done|]. repeat constructor; pose proof (Z.mod_pos_bound (x / 256) 256); pose proof (Z.mod_pos_bound x 256); lia.
Qed.

(** What [ip_set_check_field] computes, on every machine. *)
Lemma set_check_ok l hl : header l hl ->
  ip_set_check_field l = Some (with_check l (bytes16 (65535 - rep (hsum (with_check l [0; 0]) hl)))).
Proof.
  intros Hh. destruct (header_bounds _ _ Hh) as (Hr & Hl & _). unfold ip_set_check_field.
  rewrite zwrite_check by (done || lia). cbn [mbind option_bind].
  assert (header (with_check l [0; 0]) hl) as Hh0 by (apply header_with_check; [done..|by repeat constructor]).
  rewrite (hd_size _ _ Hh0). cbn [mbind option_bind]. unfold zread. pose proof (hd_len _ _ Hh0) as [_ Hl0].
  destruct (Z.leb_spec 0 hl); [|lia]. destruct (Z.leb_spec (0 + hl) (zlen (with_check l [0; 0]))); [|lia].
  cbn [Z.leb Z.compare andb mbind option_bind Z.to_nat]. rewrite drop_0. rewrite ptclbsum_bytes.
  - rewrite zwrite_check by (apply bytes16_ok || rewrite with_check_len by (done || lia); lia).
    by rewrite with_check_twice by (done || lia).
  - apply Forall_take, Hh0.
  - unfold zlen. rewrite length_take. lia.
  - by apply (hsum_pos _ hl).
Qed.

(** A header passes the test of [ip_rcv] exactly when its sum is 0 modulo
    65535 (and the check field is not the other zero). *)
Lemma set_check_fixed l hl c : header l hl -> get16 l 10 = Some c ->
  ip_set_check_field l = Some l <-> cong (hsum l hl) 0 /\ c <> 65535.
Proof.
  intros Hh Hc. destruct (header_bounds _ _ Hh) as (Hr & Hl & _). rewrite (set_check_ok _ _ Hh).
  pose proof (with_check_self l ltac:(lia)) as Hself.
  unfold get16 in Hc. destruct (znth l 10) as [c0|] eqn:E0; [|done]. destruct (znth l (10 + 1)) as [c1|] eqn:E1; [|done].
  cbn in Hc. injection Hc as <-. rewrite znth_lookup in E0, E1 by lia.
  assert (take 2 (drop 10 l) = [c0; c1]) as Ht.
  { change 10%nat with (Z.to_nat 10). rewrite (drop_S _ c0), (drop_S _ c1) by done. done. }
  rewrite Ht in Hself. pose proof (hsum_with_check l hl c0 c1 Hh) as Hs. rewrite Hself in Hs.
  assert (is_byte c0 /\ is_byte c1) as [Hb0 Hb1].
  { pose proof (hd_bytes _ _ Hh) as Hb. rewrite Forall_lookup in Hb. split; by eapply Hb. }
  set (S0 := hsum (with_check l [0; 0]) hl) in *. pose proof (rep_range S0) as Hrr.
  destruct (rep_cong S0) as [q Hq]. unfold is_byte in *. split.
  - intros [= E]. rewrite <- Hself in E at 2. unfold with_check in E. apply app_inv_head in E. injection E as E0' E1'.
    pose proof (Z.div_mod (65535 - rep S0) 256 ltac:(lia)). rewrite Z.mod_small in E0' by
      (split; [apply Z.div_pos; lia|apply Z.div_lt_upper_bound; lia]).
    split; [exists (1 - q); lia|lia].
  - intros [[k Hk] Hne]. f_equal. rewrite <- Hself at 2. f_equal. assert (rep S0 = 65535 - (256 * c0 + c1)) as ->.
    { apply rep_unique; [exists (1 - k)|]; lia. }
    replace (65535 - (65535 - (256 * c0 + c1))) with (256 * c0 + c1) by lia. unfold bytes16. f_equal; [|f_equal].
    + replace ((256 * c0 + c1) / 256) with c0 by (apply (Z.div_unique _ _ _ c1); lia). apply Z.mod_small. lia.
    + symmetry. apply (Z.mod_unique _ _ c0); lia.
Qed.

Lemma zwrite_split (l : list Z) o x l' : zwrite l o x = Some l' ->
  0 <= o /\ o + zlen x <= zlen l /\ l' = take (Z.to_nat o) l ++ x ++ drop (Z.to_nat o + length x) l.
Proof. unfold zwrite. intros E. case_match eqn:Hb; [|done]. injection E as <-. zbool_in Hb; try done. Qed.

Lemma get16_split l o w : get16 l o = Some w -> 0 <= o -> exists x0 x1,
  l = take (Z.to_nat o) l ++ [x0; x1] ++ drop (Z.to_nat o + 2) l /\ w = 256 * x0 + x1.
Proof.
  unfold get16. intros E Ho. destruct (znth l o) as [x0|] eqn:E0; [|done]. destruct (znth l (o + 1)) as [x1|] eqn:E1; [|done].
  cbn in E. injection E as <-. exists x0, x1. split; [|done]. rewrite znth_lookup in E0, E1 by lia.
  rewrite <- (take_drop (Z.to_nat o) l) at 1. f_equal. rewrite (drop_S _ _ _ E0).
  replace (Z.to_nat (o + 1)) with (S (Z.to_nat o)) in E1 by lia. rewrite (drop_S _ _ _ E1). cbn. do 2 f_equal.
  f_equal. lia.
Qed.

Lemma hsum_put16 l hl o w w0 l' : header l hl -> (2 | o) -> 0 <= o -> o + 2 <= hl ->
  get16 l o = Some w0 -> 0 <= w < 65536 -> put16 l o w = Some l' -> hsum l' hl = hsum l hl - w0 + w.
Proof.
  intros Hh [k Hk] Ho Hol Hw0 Hw El. destruct (header_bounds _ _ Hh) as (Hr & Hl & _). unfold zlen in Hl.
  apply zwrite_split in El as (_ & _ & ->). destruct (get16_split _ _ _ Hw0 Ho) as (x0 & x1 & Hs & ->). unfold hsum.
  assert (length (take (Z.to_nat o) l) = Z.to_nat o) as Hto by (rewrite length_take; lia).
  assert (Nat.Even (Z.to_nat o)) as He by (exists (Z.to_nat k); lia). cbn [length bytes16].
  rewrite Hs at 3. rewrite !(take_app_ge (take _ l)), !csum_app, Hto by (rewrite Hto; (lia || done)).
  destruct (Z.to_nat hl - Z.to_nat o)%nat as [|[|n]] eqn:E; [lia|lia|]. unfold bytes16. cbn [app take csum].
  pose proof (Z.div_mod w 256 ltac:(lia)). rewrite (Z.mod_small (w / 256)); [lia|].
  split; [apply Z.div_pos; lia|apply Z.div_lt_upper_bound; lia].
Qed.

Lemma header_put16 l hl o w l' : header l hl -> 2 <= o -> put16 l o w = Some l' -> header l' hl.
Proof.
  intros [Hb Hs Hl] Ho El. pose proof El as (_ & Hlen & Hl')%zwrite_split. split.
  - rewrite Hl', !Forall_app. split; [by apply Forall_take|]. split; [apply bytes16_ok|by apply Forall_drop].
  - unfold IP_HEADER_SIZE, ihl, get8 in *. destruct (zwrite_Some l o (bytes16 w)) as (l2 & E2 & _ & Hn); [lia|lia|].
    unfold put16 in El. rewrite El in E2. injection E2 as <-. rewrite Hn by lia. destruct (Z.leb_spec o 0); [lia|]. done.
  - destruct (zwrite_Some l o (bytes16 w)) as (l2 & E2 & Hz & _); [lia|lia|].
    unfold put16 in El. rewrite El in E2. injection E2 as <-. by rewrite Hz.
Qed.

End ChecksumFacts.


Definition demo_hdr : list Z := [69; 0; 0; 40; 18; 52; 32; 0; 64; 17; 0; 0; 10; 0; 0; 1; 10; 0; 0; 2].


(** A valid header is accepted. *)
Lemma ip_rcv_accepts `{A : arch} `{!ArchOk A} `{B : byteorder} l hl len hdr_len n :
  header l hl -> version l = Some 4 -> ip_set_check_field l = Some l -> tot_len l = Some n -> hl <= n ->
  0 <= hdr_len < 256 -> hdr_len + n <= len -> ip_rcv_header len hdr_len l = Some (inr l).
Proof.
  intros Hh Hv Hc Hn Hhl Hd Hlen. destruct (header_bounds _ _ Hh) as (Hr & Hl & _).
  assert (n < 65536) as Hn16.
  { unfold tot_len in Hn. destruct (get16_split l 2 n Hn ltac:(lia)) as (x0 & x1 & Hspl & ->). pose proof (hd_bytes _ _ Hh) as Hb.
    rewrite Hspl, !Forall_app in Hb. destruct Hb as (_ & [Hx0 [Hx1 _]%Forall_cons]%Forall_cons & _).
    unfold is_byte in *. lia. }
  unfold ip_rcv_header, IP_MIN_HEADER_SIZE in *. rewrite (hd_size _ _ Hh), Hv, Hc. cbn [mbind option_bind].
  rewrite !(ul_32 (hdr_len + _)) by lia. destruct (Z.ltb_spec len (hdr_len + 20)); [lia|]. destruct (Z.ltb_spec hl 20); [lia|].
  destruct (Z.ltb_spec len (hdr_len + hl)); [lia|]. cbn [Z.eqb Pos.eqb negb].
  destruct (get16 l 10) as [c|] eqn:Ec.
  - cbn [mbind option_bind]. rewrite Z.eqb_refl, Hn. cbn [negb mbind option_bind]. destruct (Z.ltb_spec n hl); [lia|].
    rewrite (ul_32 (hdr_len + n)) by lia.
    destruct (Z.ltb_spec len (hdr_len + n)); [lia|]. done.
  - exfalso. unfold get16 in Ec. destruct (znth_lt l 10) as [a Ea]; [lia|]. destruct (znth_lt l (10 + 1)) as [b Eb]; [lia|].
    by rewrite Ea, Eb in Ec.
Qed.
