(* ===== verification/IpFrag.v ===== *)
(** IP fragmentation: [src/net/l3/ipv4/ip_fragment.c].

    The packets are buffers of [Skb.v]; the header of one is read and written
    where its [nh] points.  The list of the datagrams that are being put
    together is the list of their [struct dgram_buf]s with their addresses in
    the pool.  [hdr_len] is a field of the device, [dev->hdr_len].  Of the timer
    it is only modelled whether it runs. *)
From S2P Require Import Prelude Pool Skb Ip.

Local Open Scope Z_scope.
Local Open Scope embox_scope.

Class ip_opts := IpOpts { IP_FRAGMENTED_SUPP : bool }.

Definition MSL : Z := 1.
Definition ENOMEM : Z := 12.

Record buf_id := BufId { b_saddr : Z; b_daddr : Z; b_id : Z; b_protocol : Z }.
#[export] Instance buf_id_eq_dec : EqDecision buf_id.
Proof. solve_decision. Defined.

Record dgram_buf := DgramBuf {
  fragments : list Z;
  id_of : buf_id;
  is_last_frag_received : bool;
  meat : Z;
  blen : Z;
  buf_ttl : Z;
  is_deleted : bool
}.

Section IpFrag.
Context `{A : arch} `{B : byteorder} `{O : skb_opts} `{I : ip_opts} {H : Type} `{!SysHeap H}.
Context (hdr_len : Z -> Z).

Local Abbreviation skmem := (Skb.skmem (H := H)).

Record frag_state := FragState {
  dgram_buf_list : list (Z * dgram_buf);
  dgram_bufs : pool;
  frag_timer : bool;
  mem : skmem
}.

Definition set_mem (m : skmem) (st : frag_state) : frag_state :=
  FragState (dgram_buf_list st) (dgram_bufs st) (frag_timer st) m.
Definition set_bufs (l : list (Z * dgram_buf)) (st : frag_state) : frag_state :=
  FragState l (dgram_bufs st) (frag_timer st) (mem st).

(** * The header of a packet *)

(** The bytes from [nh.iph] on. *)
Definition iph_of (m : skmem) (s : Z) : option (list Z) :=
  x ← skbs m !! s;
  d ← datas m !! data x;
  let o := nh x - skb_get_data_pointner (data x) in
  zread (bytes d) o (zlen (bytes d) - o).

(** A write of [l] at [nh.raw + o]. *)
Definition write_iph (m : skmem) (s o : Z) (l : list Z) : option skmem :=
  x ← skbs m !! s;
  d ← datas m !! data x;
  b ← zwrite (bytes d) (nh x - skb_get_data_pointner (data x) + o) l;
  Some (put_data (data x) (SkbData (links d) (alloc_type d) b) m).

Definition id_of_iph (iph : list Z) : option buf_id :=
  d ← daddr iph; s ← saddr iph; p ← proto iph; i ← ip_id iph;
  Some (BufId s d i p).

Definition df_flag (iph : list Z) : option Z := f ← frag_off iph; Some (Z.land f IP_DF).

Definition ip_offset (iph : list Z) : option Z :=
  f ← frag_off iph;
  Some (Z.shiftl (Z.land f IP_OFFSET) 3).

(** * Putting datagrams together *)

Definition buf_set_deleted (b : dgram_buf) (m : skmem) : option (dgram_buf * skmem) :=
  m ← skb_queue_purge (fragments b) m;
  Some (DgramBuf [] (id_of b) (is_last_frag_received b) (meat b) (blen b) (buf_ttl b) true, m).

(** One tick of the timer: the loop over the list. *)
Fixpoint ttl_loop (l : list (Z * dgram_buf)) (m : skmem) : option (list (Z * dgram_buf) * skmem) :=
  match l with
  | [] => Some ([], m)
  | (a, b) :: l =>
    '(b, m) ←
      (if is_deleted b then Some (b, m)
       else if buf_ttl b =? 0 then buf_set_deleted b m
       else Some (DgramBuf (fragments b) (id_of b) (is_last_frag_received b) (meat b) (blen b)
                    (buf_ttl b - 1) (is_deleted b), m));
    '(l, m) ← ttl_loop l m;
    Some ((a, b) :: l, m)
  end.

Definition ttl_handler (st : frag_state) : option frag_state :=
  '(l, m) ← ttl_loop (dgram_buf_list st) (mem st);
  Some (FragState l (dgram_bufs st)
    (if zlen (dgram_buf_list st) =? 0 then false else frag_timer st) m).

Definition buf_delete (a : Z) (pl : pool) : option pool := pool_free pl a.

(** The buffer of the datagram [i] or [0], with the buffers that were found
    deleted on the way given back. *)
Fixpoint ip_find (i : buf_id) (l : list (Z * dgram_buf)) (pl : pool) : option (Z * list (Z * dgram_buf) * pool) :=
  match l with
  | [] => Some (0, [], pl)
  | (a, b) :: l =>
    if is_deleted b then
      pl ← buf_delete a pl;
      ip_find i l pl
    else if bool_decide (id_of b = i) then Some (a, (a, b) :: l, pl)
    else
      '(r, l, pl) ← ip_find i l pl;
      Some (r, (a, b) :: l, pl)
  end.

Definition ip_buf_create (i : buf_id) (st : frag_state) : option (Z * frag_state) :=
  '(o, pl) ← pool_alloc (dgram_bufs st);
  match o with
  | None => Some (0, FragState (dgram_buf_list st) pl (frag_timer st) (mem st))
  | Some a =>
    Some (a, FragState (dgram_buf_list st ++ [(a, DgramBuf [] i false 0 0 MSL false)]) pl true (mem st))
  end.

Definition ip_buf_add_skb (b : dgram_buf) (s : Z) (m : skmem) : option dgram_buf :=
  iph ← iph_of m s;
  t ← ttl iph;
  offset ← ip_offset iph;
  x ← skbs m !! s;
  let data_len := s32 (len x - (h x - mac x)) in
  let end_ := offset + data_len in
  Some (DgramBuf (skb_queue_push (fragments b) s) (id_of b) (is_last_frag_received b)
    (s32 (meat b + data_len)) (if end_ >? blen b then end_ else blen b)
    (Z.max (buf_ttl b) (Z.shiftr t 4)) (is_deleted b)).

(** What is copied of the fragment [f] into [s]. *)
Definition copy_fragment (s : Z) (ihlen blen : Z) (f : Z) (m : skmem) : option skmem :=
  iph ← iph_of m f;
  offset ← ip_offset iph;
  x ← skbs m !! s;
  y ← skbs m !! f;
  m ←
    (if offset =? 0 then
       m ← copy_bytes (data x) (mac x) (data y) (mac y) (len y) m;
       let nh' := mac x + (nh y - mac y) in
       hl ← IP_HEADER_SIZE iph;
       let m := put_skb s (Skb (dev y) (len x) (nh' + hl) nh' (mac x) (data x) (p_data x) (p_data_end x)) m in
       write_iph m s 2 (bytes16 (u16 (blen + hl)))
     else Some m);
  copy_bytes (data x) (mac x + ihlen + offset) (data y) (mac y + ihlen) (ul (len y - ihlen)) m.

Fixpoint build_loop (s ihlen blen : Z) (queue : list Z) (m : skmem) : option skmem :=
  match queue with
  | [] => Some m
  | f :: queue =>
    m ← copy_fragment s ihlen blen f m;
    m ← skb_free f m;
    build_loop s ihlen blen queue m
  end.

Definition build_packet (irq : bool) (b : dgram_buf) (m : skmem) : option (Z * dgram_buf * skmem) :=
  let f := skb_queue_front (fragments b) in
  assert! negb (f =? 0) ;;
  x ← skbs m !! f;
  let ihlen := s32 (h x - mac x) in
  '(s, m) ← skb_alloc irq (ul (blen b + ihlen)) m;
  assert! negb (s =? 0) ;;
  m ← build_loop s ihlen (blen b) (fragments b) m;
  y ← skbs m !! s;
  let m := put_skb s (Skb (dev y) (ul (blen b + ihlen)) (h y) (nh y) (mac y) (data y) (p_data y) (p_data_end y)) m in
  '(b, m) ← buf_set_deleted (DgramBuf [] (id_of b) (is_last_frag_received b) (meat b) (blen b) (buf_ttl b)
                               (is_deleted b)) m;
  Some (s, b, m).

(** The buffer at the address [a], and a write to it. *)
Fixpoint get_buf (a : Z) (l : list (Z * dgram_buf)) : option dgram_buf :=
  match l with
  | [] => None
  | (a', b) :: l => if a' =? a then Some b else get_buf a l
  end.
Definition upd_buf (a : Z) (b : dgram_buf) (l : list (Z * dgram_buf)) : list (Z * dgram_buf) :=
  (fun p => if bool_decide (p.1 = a) then (a, b) else p) <$> l.

(** The complete packet, or [0] if fragments are missing. *)
Definition ip_defrag (irq : bool) (s : Z) (st : frag_state) : option (Z * frag_state) :=
  iph ← iph_of (mem st) s;
  df ← df_flag iph;
  if negb IP_FRAGMENTED_SUPP || negb (df =? 0) then
    m ← skb_free s (mem st);
    Some (0, set_mem m st)
  else
    i ← id_of_iph iph;
    '(a, l, pl) ← ip_find i (dgram_buf_list st) (dgram_bufs st);
    let st := FragState l pl (frag_timer st) (mem st) in
    '(a, st) ← (if a =? 0 then ip_buf_create i st else Some (a, st));
    assert! negb (a =? 0) ;;
    b ← get_buf a (dgram_buf_list st);
    b ← ip_buf_add_skb b s (mem st);
    f ← frag_off iph;
    let last := Z.land f IP_MF =? 0 in
    let b := DgramBuf (fragments b) (id_of b) last (meat b) (blen b) (buf_ttl b) (is_deleted b) in
    if last && (meat b =? blen b) then
      '(r, b, m) ← build_packet irq b (mem st);
      Some (r, set_mem m (set_bufs (upd_buf a b (dgram_buf_list st)) st))
    else Some (0, set_bufs (upd_buf a b (dgram_buf_list st)) st).

(** * Taking datagrams apart *)

Definition ip_frag_build (irq : bool) (big frag_offset frag_size mf_flag : Z) (m : skmem) : option (Z * skmem) :=
  x ← skbs m !! big;
  iph ← iph_of m big;
  hl ← IP_HEADER_SIZE iph;
  let n := hdr_len (dev x) + hl in
  '(f, m) ← skb_alloc irq (ul frag_size) m;
  if f =? 0 then Some (0, m)
  else
    y ← skbs m !! f;
    m ← copy_bytes (data y) (mac y) (data x) (mac x) n m;
    m ← copy_bytes (data y) (mac y + n) (data x) (mac x + frag_offset) (ul (frag_size - n)) m;
    let m := put_skb f (Skb (dev y) (len y) (h y) (mac y + hdr_len (dev x)) (mac y) (data y) (p_data y) (p_data_end y)) m in
    m ← write_iph m f 6 (bytes16 (u16 (Z.lor (Z.shiftr (frag_offset - n) 3) mf_flag)));
    m ← write_iph m f 2 (bytes16 (u16 (frag_size - hdr_len (dev x))));
    Some (f, m).

(** The loop of [ip_frag]; [None] when the fuel runs out. *)
Fixpoint frag_loop (fuel : nat) (irq : bool) (s n align_MTU offset : Z) (tx_buf : list Z) (m : skmem)
  : option (Z * Z * list Z * skmem) :=
  match fuel with
  | 0%nat => None
  | S fuel =>
    x ← skbs m !! s;
    if ul offset <? ul (len x - align_MTU + n) then
      '(f, m) ← ip_frag_build irq s offset align_MTU IP_MF m;
      if f =? 0 then
        m ← skb_queue_purge tx_buf m;
        Some (- ENOMEM, offset, [], m)
      else frag_loop fuel irq s n align_MTU (offset + (align_MTU - n)) (skb_queue_push tx_buf f) m
    else Some (0, offset, tx_buf, m)
  end.

Definition ip_frag (fuel : nat) (irq : bool) (s mtu : Z) (m : skmem) : option (Z * list Z * skmem) :=
  x ← skbs m !! s;
  assert! negb (dev x =? 0) ;;
  if negb IP_FRAGMENTED_SUPP then Some (0, skb_queue_push [] s, m)
  else
    iph ← iph_of m s;
    hl ← IP_HEADER_SIZE iph;
    let n := hdr_len (dev x) + hl in
    let align_MTU := s32 (u32 (mtu - u32 (mtu - n) mod 8)) in
    '(r, offset, tx_buf, m) ← frag_loop fuel irq s n align_MTU n [] m;
    if negb (r =? 0) then Some (r, tx_buf, m)
    else if ul offset <? len x then
      '(f, m) ← ip_frag_build irq s offset (s32 (len x - offset + n)) 0 m;
      if f =? 0 then
        m ← skb_queue_purge tx_buf m;
        Some (- ENOMEM, [], m)
      else Some (0, skb_queue_push tx_buf f, m)
    else Some (0, tx_buf, m).

End IpFrag.
