(* ===== verification/IpFragFacts.v ===== *)
(** Putting a datagram together ([IpFrag.v]): the frames that arrive, what
    [copy_fragment] makes of each, and the datagrams that are waiting. *)
From S2P Require Import Prelude Pool Skb SkbTheorems Ip IpFrag.

Local Open Scope Z_scope.
Local Open Scope embox_scope.

(** * Reading fields of a longer list *)

Lemma get8_app a b o : 0 <= o < zlen a -> get8 (a ++ b) o = get8 a o.
Proof. intros Ho. unfold get8. rewrite znth_app by lia. destruct (Z.ltb_spec o (zlen a)); [done|lia]. Qed.

Lemma get16_app a b o : 0 <= o -> o + 2 <= zlen a -> get16 (a ++ b) o = get16 a o.
Proof. intros Ho Hl. unfold get16. rewrite !(get8_app a b) by lia. done. Qed.

Lemma get32_app a b o : 0 <= o -> o + 4 <= zlen a -> get32 (a ++ b) o = get32 a o.
Proof. intros Ho Hl. unfold get32. rewrite !get16_app by lia. done. Qed.

Section FragFacts.
Context `{A : arch} `{!ArchOk A} `{B : byteorder} `{O : skb_opts} `{I : ip_opts} {H : Type} `{!SysHeap H} `{!SysHeapOk H}.
Context (np nd : Z) (Hopts : 8 <= MODOPS_DATA_SIZE < 2 ^ 30 /\ 0 <= IP_ALIGN_SIZE <= 2).
Implicit Types m : skmem (H := H).

(** A copy between the data of two buffers, byte by byte. *)
Lemma copy_bytes_ok td fd o p n m f t : datas m !! fd = Some f -> datas m !! td = Some t ->
  0 <= n -> 0 <= p -> p + n <= zlen (bytes f) -> 0 <= o -> o + n <= zlen (bytes t) ->
  exists l, copy_bytes td (skb_get_data_pointner td + o) fd (skb_get_data_pointner fd + p) n m =
    Some (put_data td (SkbData (links t) (alloc_type t) l) m) /\ zlen l = zlen (bytes t) /\
    forall j, 0 <= j -> znth l j =
      if (o <=? j) && (j <? o + n) then znth (bytes f) (p + (j - o)) else znth (bytes t) j.
Proof.
  intros Hf Ht Hn Hp Hpn Ho Hon. unfold copy_bytes. rewrite Hf. cbn [mbind option_bind].
  replace (skb_get_data_pointner fd + p - skb_get_data_pointner fd) with p by lia.
  replace (skb_get_data_pointner td + o - skb_get_data_pointner td) with o by lia.
  destruct (zread_Some (bytes f) p n Hp Hn Hpn) as (x & Ex & Hx & Hnx). rewrite Ex. cbn [mbind option_bind]. rewrite Ht.
  cbn [mbind option_bind]. destruct (zwrite_Some (bytes t) o x) as (l & El & Hl & Hnl); [lia..|]. rewrite El.
  exists l. split_and!; try done. intros j Hj. rewrite Hnl, Hx by done.
  destruct (Z.leb_spec o j), (Z.ltb_spec j (o + n)); cbn [andb]; try done. apply Hnx. lia.
Qed.

(** * A frame in a buffer *)

(** The buffer [s] holds the frame [fr], with [hlen] bytes of link-layer header
    and [ih] bytes of headers. *)
Record rcv_skb (hlen ih : Z) m (s : Z) (fr : list Z) : Prop := {
  rs_skb : exists x d, skb_wf m s x d /\ mac x = skb_get_data_pointner (data x) /\ nh x = mac x + hlen /\
    h x = mac x + ih /\ take (Z.to_nat (len x)) (bytes d) = fr
}.

Lemma rcv_skb_bytes (l : list Z) n fr : 0 <= n <= zlen l -> take (Z.to_nat n) l = fr -> zlen fr = n /\ exists r, l = fr ++ r.
Proof.
  intros Hn <-. unfold zlen in *. rewrite length_take. split; [lia|]. exists (drop (Z.to_nat n) l). by rewrite take_drop.
Qed.

Lemma iph_of_ok hlen ih m s fr : rcv_skb hlen ih m s fr -> 0 <= hlen <= zlen fr ->
  exists r, iph_of m s = Some (drop (Z.to_nat hlen) fr ++ r).
Proof.
  intros [(x & d & [Hs Hd [Hl Hlen] _ _ _] & Hm & Hn & _ & Hb)] Hh.
  destruct (rcv_skb_bytes (bytes d) (len x) fr ltac:(lia) Hb) as [Hz [r Hr]].
  unfold iph_of. rewrite Hs. cbn [mbind option_bind]. rewrite Hd. cbn [mbind option_bind].
  replace (nh x - skb_get_data_pointner (data x)) with hlen by lia.
  exists r. rewrite Hr. unfold zread. rewrite zlen_app. pose proof (zlen_nonneg r).
  destruct (Z.leb_spec 0 hlen), (Z.leb_spec 0 (zlen fr + zlen r - hlen)),
    (Z.leb_spec (hlen + (zlen fr + zlen r - hlen)) (zlen fr + zlen r)); try lia. cbn [andb].
  rewrite drop_app_le by (unfold zlen in *; lia). rewrite take_ge; [done|].
  rewrite length_app, length_drop. unfold zlen in *. lia.
Qed.

(** * The fragments of a datagram *)

(** [T] is the datagram, with [hlen] bytes of link-layer header and [hl] bytes of
    IP header in front. *)
Record datagram (hlen hl : Z) (T : list Z) : Prop := {
  dg_hlen : 0 <= hlen < 256;
  dg_hl : IP_MIN_HEADER_SIZE <= hl <= 60;
  dg_len : hlen + hl < zlen T < hlen + 65536;
  dg_tot : znth T (hlen + 2) = Some ((zlen T - hlen) / 256) /\ znth T (hlen + 3) = Some ((zlen T - hlen) mod 256)
}.

(** [fr] is the fragment of the [n] bytes at [o] of the data of [T]. *)
Record is_frag (hlen hl : Z) (i : buf_id) (T fr : list Z) (o n : Z) : Prop := {
  fg_len : zlen fr = hlen + hl + n;
  fg_range : 0 <= o /\ (8 | o) /\ 0 < n /\ hlen + hl + o + n <= zlen T;
  fg_id : id_of_iph (drop (Z.to_nat hlen) fr) = Some i;
  fg_size : IP_HEADER_SIZE (drop (Z.to_nat hlen) fr) = Some hl;
  fg_off : frag_off (drop (Z.to_nat hlen) fr) =
    Some (o / 8 + if hlen + hl + o + n =? zlen T then 0 else IP_MF);
  fg_ttl : exists t, ttl (drop (Z.to_nat hlen) fr) = Some t /\ is_byte t;
  fg_data : forall j, 0 <= j < n -> znth fr (hlen + hl + j) = znth T (hlen + hl + o + j);
  fg_head : o = 0 -> forall j, 0 <= j < hlen + hl -> j <> hlen + 2 -> j <> hlen + 3 -> znth fr j = znth T j
}.

Lemma frag_bits o (b : bool) : 0 <= o < 65536 -> (8 | o) -> let f := o / 8 + if b then 0 else IP_MF in
  Z.land f IP_DF = 0 /\ Z.shiftl (Z.land f IP_OFFSET) 3 = o /\ (Z.land f IP_MF =? 0) = b.
Proof.
  intros Ho [k ->]. cbv zeta. rewrite Z.div_mul by lia. assert (0 <= k < 8192) as Hk by lia.
  assert (forall f, 0 <= f < 16384 -> Z.land f IP_DF = 0 /\ Z.land f IP_OFFSET = f mod 8192 /\
    Z.land f IP_MF = 8192 * (f / 8192)) as Hf.
  { intros f Hf. change IP_DF with (2 ^ 14). change IP_OFFSET with (Z.ones 13). change IP_MF with (2 ^ 13). split_and!.
    - apply Z.bits_inj'. intros j Hj. rewrite Z.land_spec, Z.bits_0, Z.pow2_bits_eqb by lia.
      destruct (Z.eqb_spec 14 j) as [<-|]; [|by rewrite andb_false_r]. rewrite (bounded_high_bit 14) by lia. done.
    - by rewrite Z.land_ones by lia.
    - rewrite (Z.div_mod f (2 ^ 13)) at 1 by lia. assert (f / 2 ^ 13 = 0 \/ f / 2 ^ 13 = 1) as Hq.
      { assert (0 <= f / 2 ^ 13 < 2); [|lia]. split; [apply Z.div_pos; lia|apply Z.div_lt_upper_bound; lia]. }
      pose proof (Z.mod_pos_bound f (2 ^ 13) ltac:(lia)) as Hm. set (q := f / 2 ^ 13) in *. change 8192 with (2 ^ 13).
      fold q. apply Z.bits_inj'. intros j Hj. rewrite Z.land_spec, Z.pow2_bits_eqb by lia.
      destruct (Z.eqb_spec 13 j) as [<-|Hne].
      + rewrite andb_true_r. destruct Hq as [->| ->].
        * rewrite Z.mul_0_r, Z.add_0_l. rewrite (bounded_high_bit 13) by lia. done.
        * rewrite Z.mul_1_r. rewrite Z.pow2_bits_true by lia. apply Z.testbit_true; [lia|].
          replace ((2 ^ 13 + f mod 2 ^ 13) / 2 ^ 13) with 1 by (apply (Z.div_unique _ _ _ (f mod 2 ^ 13)); lia). done.
      + rewrite andb_false_r. destruct Hq as [->| ->]; [by rewrite Z.mul_0_r, Z.bits_0|].
        rewrite Z.mul_1_r, Z.pow2_bits_false by lia. done. }
  assert (forall b : bool, 0 <= k + (if b then 0 else IP_MF) < 16384) as Hr by (intros []; unfold IP_MF; lia).
  destruct (Hf _ (Hr b)) as (H1 & H2 & H3). rewrite H1, H2, H3. rewrite Z.shiftl_mul_pow2 by lia. split; [done|].
  destruct b; unfold IP_MF.
  - rewrite Z.add_0_r, Z.mod_small, Z.div_small by lia. split; [lia|done].
  - assert ((k + 8192) mod 8192 = k) as -> by (symmetry; apply (Z.mod_unique _ _ 1); lia).
    assert ((k + 8192) / 8192 = 1) as -> by (symmetry; apply (Z.div_unique _ _ _ k); lia). split; [lia|done].
Qed.

Context (hlen hl : Z) (i : buf_id) (T : list Z) (HT : datagram hlen hl T).

(** What the code reads of a fragment that has arrived. *)
Record read_ok m (s o n : Z) (iph : list Z) : Prop := {
  ro_iph : iph_of m s = Some iph;
  ro_id : id_of_iph iph = Some i;
  ro_size : IP_HEADER_SIZE iph = Some hl;
  ro_df : df_flag iph = Some 0;
  ro_off : ip_offset iph = Some o;
  ro_mf : exists f, frag_off iph = Some f /\ (Z.land f IP_MF =? 0) = (hlen + hl + o + n =? zlen T);
  ro_ttl : exists t, ttl iph = Some t /\ is_byte t
}.

Lemma frag_read m s fr o n : rcv_skb hlen (hlen + hl) m s fr -> is_frag hlen hl i T fr o n -> exists iph, read_ok m s o n iph.
Proof.
  destruct HT as [Hhlen Hhl Hlen _]. unfold IP_MIN_HEADER_SIZE in Hhl.
  intros Hs [Hl (Ho & H8 & Hn & Hon) Hid Hsz Hoff (t & Ht & Htb) _ _].
  destruct (iph_of_ok _ _ _ _ _ Hs) as [r Hr]; [lia|]. exists (drop (Z.to_nat hlen) fr ++ r).
  assert (20 <= zlen (drop (Z.to_nat hlen) fr)) as H20 by (unfold zlen in *; rewrite length_drop; lia).
  assert (frag_off (drop (Z.to_nat hlen) fr ++ r) = frag_off (drop (Z.to_nat hlen) fr)) as Ef
    by (unfold frag_off; apply get16_app; lia).
  destruct (frag_bits o (hlen + hl + o + n =? zlen T) ltac:(lia) H8) as (Hdf & Ho3 & Hmf). split.
  - done.
  - rewrite <- Hid. unfold id_of_iph, daddr, saddr, proto, ip_id. by rewrite !get32_app, get8_app, get16_app by lia.
  - rewrite <- Hsz. unfold IP_HEADER_SIZE, ihl. by rewrite get8_app by lia.
  - unfold df_flag. rewrite Ef, Hoff. cbn. by rewrite Hdf.
  - unfold ip_offset. rewrite Ef, Hoff. cbn. by rewrite Ho3.
  - eexists. by rewrite Ef, Hoff.
  - exists t. split; [|done]. rewrite <- Ht. unfold ttl. apply get8_app. lia.
Qed.

(** * Copying the fragments *)

(** The buffer [s] has the bytes of [T] in the places [C]. *)
Definition building m (s d : Z) (C : Z -> Prop) : Prop :=
  exists x y, skbs m !! s = Some x /\ data x = d /\ datas m !! d = Some y /\ mac x = skb_get_data_pointner d /\
    zlen T <= zlen (bytes y) /\ (forall j, 0 <= j < zlen T -> C j -> znth (bytes y) j = znth T j) /\
    (C 0 -> nh x = mac x + hlen /\ h x = mac x + hlen + hl).

Definition covers (o n j : Z) : Prop := hlen + hl + o <= j < hlen + hl + o + n \/ o = 0 /\ 0 <= j < hlen + hl.

(** Only [s] and its data [d] differ. *)
Definition only_skb (s d : Z) m m' : Prop :=
  (forall t, t <> s -> skbs m' !! t = skbs m !! t) /\ (forall e, e <> d -> datas m' !! e = datas m !! e) /\
  (forall held, skmem_ok np nd held m -> skmem_ok np nd held m') /\ data <$> skbs m' !! s = data <$> skbs m !! s /\
  links <$> datas m' !! d = links <$> datas m !! d.

Lemma only_skb_put_data s m d y l : datas m !! d = Some y -> only_skb s d m (put_data d (SkbData (links y) (alloc_type y) l) m).
Proof.
  intros Hd. split_and!; try done; cbn.
  - intros e He. by rewrite lookup_insert_ne.
  - intros held Hok. by apply skmem_ok_write.
  - by rewrite lookup_insert_eq, Hd.
Qed.

Lemma only_skb_put_skb s m d x x' : skbs m !! s = Some x -> data x' = data x -> only_skb s d m (put_skb s x' m).
Proof.
  intros Hs Hx. split_and!; try done; cbn.
  - intros e He. by rewrite lookup_insert_ne.
  - intros held Hok. by eapply skmem_ok_upd_skb.
  - rewrite lookup_insert_eq, Hs. cbn. by rewrite Hx.
Qed.

Lemma only_skb_trans s d m1 m2 m3 : only_skb s d m1 m2 -> only_skb s d m2 m3 -> only_skb s d m1 m3.
Proof. clear Hopts HT. intros (H1 & H2 & H3 & H4 & H5) (K1 & K2 & K3 & K4 & K5). split_and!; try naive_solver congruence. Qed.

(** The data of a fragment, the frame of which is in the data [e]. *)
Lemma copy_body m s d C fr o n e f : building m s d C -> is_frag hlen hl i T fr o n ->
  datas m !! e = Some f -> take (Z.to_nat (zlen fr)) (bytes f) = fr -> zlen fr <= zlen (bytes f) ->
  exists m', copy_bytes d (skb_get_data_pointner d + (hlen + hl) + o) e (skb_get_data_pointner e + (hlen + hl)) n m = Some m' /\
    building m' s d (fun j => C j \/ hlen + hl + o <= j < hlen + hl + o + n) /\ only_skb s d m m'.
Proof.
  intros (x & y & Hs & Hx & Hy & Hm & Hz & HC & Hnh) [Hl (Ho & H8 & Hn & Hon) _ _ _ _ Hdata _] He Hfr Hcap.
  destruct HT as [Hhlen Hhl Hlen _]. unfold IP_MIN_HEADER_SIZE in Hhl.
  destruct (rcv_skb_bytes (bytes f) (zlen fr) fr) as [_ [r Hr]]; [pose proof (zlen_nonneg fr); lia|done|].
  destruct (copy_bytes_ok d e (hlen + hl + o) (hlen + hl) n m f y) as (l & El & Hll & Hlj); try done; try lia.
  rewrite <- Z.add_assoc. rewrite El. eexists. split; [done|]. split; [|by apply only_skb_put_data].
  exists x, (SkbData (links y) (alloc_type y) l). cbn. rewrite lookup_insert_eq. split_and!; try done; try lia.
  - intros j Hj HCj. rewrite Hlj by lia. destruct (Z.leb_spec (hlen + hl + o) j), (Z.ltb_spec j (hlen + hl + o + n)); cbn [andb].
    + rewrite Hr, znth_app by lia. destruct (Z.ltb_spec (hlen + hl + (j - (hlen + hl + o))) (zlen fr)); [|lia].
      rewrite Hdata by lia. f_equal. lia.
    + apply HC; [done|]. destruct HCj; [done|lia].
    + apply HC; [done|]. destruct HCj; [done|lia].
    + lia.
  - intros [H0|]; [by apply Hnh|lia].
Qed.

Lemma write_iph_ok m s x d o l : skbs m !! s = Some x -> datas m !! data x = Some d ->
  0 <= nh x - skb_get_data_pointner (data x) + o -> nh x - skb_get_data_pointner (data x) + o + zlen l <= zlen (bytes d) ->
  exists b, write_iph m s o l = Some (put_data (data x) (SkbData (links d) (alloc_type d) b) m) /\ zlen b = zlen (bytes d) /\
    forall j, 0 <= j -> znth b j = let p := nh x - skb_get_data_pointner (data x) + o in
      if (p <=? j) && (j <? p + zlen l) then znth l (j - p) else znth (bytes d) j.
Proof.
  intros Hs Hd Hp Hl. unfold write_iph. rewrite Hs. cbn [mbind option_bind]. rewrite Hd. cbn [mbind option_bind].
  destruct (zwrite_Some (bytes d) _ l Hp Hl) as (b & Eb & Hb & Hj). rewrite Eb. by exists b.
Qed.

Lemma bytes16_small v : 0 <= v < 65536 -> bytes16 (u16 v) = [v / 256; v mod 256].
Proof.
  intros Hv. rewrite wrap_small by done. unfold bytes16. rewrite (Z.mod_small (v / 256)); [done|].
  split; [apply Z.div_pos; lia|apply Z.div_lt_upper_bound; lia].
Qed.

(** The first fragment gives the headers. *)
Lemma copy_head m s d C fr n e f x y : building m s d C -> is_frag hlen hl i T fr 0 n ->
  datas m !! e = Some f -> take (Z.to_nat (zlen fr)) (bytes f) = fr -> zlen fr <= zlen (bytes f) ->
  skbs m !! s = Some x -> len y = zlen fr -> nh y = mac y + hlen -> mac y = skb_get_data_pointner e ->
  exists m1 m2, copy_bytes d (mac x) e (mac y) (len y) m = Some m1 /\
    write_iph (put_skb s (Skb (dev y) (len x) (mac x + (nh y - mac y) + hl) (mac x + (nh y - mac y)) (mac x) (data x)
      (p_data x) (p_data_end x)) m1) s 2 (bytes16 (u16 (zlen T - (hlen + hl) + hl))) = Some m2 /\
    building m2 s d (fun j => C j \/ 0 <= j < hlen + hl) /\ only_skb s d m m2.
Proof.
  intros (x' & z & Hs & Hx & Hz & Hm & Hcap & HC & Hnh) [Hl (_ & _ & Hn & Hon) _ _ _ _ Hdata Hhead] He Hfr Hfc Hsx Hly Hny Hmy.
  destruct HT as [Hhlen Hhl Hlen [Ht0 Ht1]]. unfold IP_MIN_HEADER_SIZE in Hhl.
  rewrite Hs in Hsx. injection Hsx as <-. rewrite Hm, Hmy, Hly, <- Hx in *.
  destruct (rcv_skb_bytes (bytes f) (zlen fr) fr) as [_ [r Hr]]; [pose proof (zlen_nonneg fr); lia|done|].
  destruct (copy_bytes_ok (data x') e 0 0 (zlen fr) m f z) as (l & El & Hll & Hlj); try done; try lia.
  rewrite !Z.add_0_r in El. rewrite El. eexists. set (m1 := put_data _ _ m).
  assert (only_skb s (data x') m m1) as H1 by by apply only_skb_put_data.
  replace (nh y - skb_get_data_pointner e) with hlen by lia. set (x2 := Skb (dev y) _ _ _ _ _ _ _).
  assert (only_skb s (data x') m1 (put_skb s x2 m1)) as H2 by by apply (only_skb_put_skb s m1 _ x' x2).
  destruct (write_iph_ok (put_skb s x2 m1) s x2 (SkbData (links z) (alloc_type z) l) 2
    (bytes16 (u16 (zlen T - (hlen + hl) + hl)))) as (b & Eb & Hb & Hbj); cbn [nh data x2 bytes].
  { cbn. apply lookup_insert_eq. }
  { cbn. apply lookup_insert_eq. }
  { lia. }
  { change (zlen (bytes16 _)) with 2. cbn [nh data bytes x2]. lia. }
  exists (put_data (data x2) (SkbData (links z) (alloc_type z) b) (put_skb s x2 m1)). rewrite Eb. split_and!; try done.
  - exists x2, (SkbData (links z) (alloc_type z) b). cbn. rewrite !lookup_insert_eq. cbn in Hb.
    split_and!; try done; try lia. intros j Hj HCj. rewrite Hbj by lia. cbn [nh data x2 bytes].
    replace (skb_get_data_pointner (data x') + hlen - skb_get_data_pointner (data x') + 2) with (hlen + 2) by lia.
    rewrite bytes16_small by lia. replace (zlen T - (hlen + hl) + hl) with (zlen T - hlen) by lia.
    change (zlen [_; _]) with 2. cbn zeta.
    destruct (Z.leb_spec (hlen + 2) j), (Z.ltb_spec j (hlen + 2 + 2)); cbn [andb].
    1: { assert (j = hlen + 2 \/ j = hlen + 3) as [->| ->] by lia.
         - by rewrite Ht0, Z.sub_diag.
         - rewrite Ht1. by replace (hlen + 3 - (hlen + 2)) with 1 by lia. }
    all: rewrite Hlj by lia; destruct (Z.leb_spec 0 j), (Z.ltb_spec j (0 + zlen fr)); cbn [andb]; try lia.
    all: try (apply HC; [done|]; destruct HCj; [done|lia]).
    all: rewrite Hr, znth_app by lia; destruct (Z.ltb_spec (0 + (j - 0)) (zlen fr)); [|lia];
      replace (0 + (j - 0)) with j by lia; destruct (Z.ltb_spec j (hlen + hl)); [apply Hhead; lia|].
    all: replace j with (hlen + hl + (j - (hlen + hl))) at 1 by lia; rewrite Hdata by lia; f_equal; lia.
  - eapply only_skb_trans; [exact H1|]. eapply only_skb_trans; [exact H2|].
    apply (only_skb_put_data s (put_skb s x2 m1) (data x') (SkbData (links z) (alloc_type z) l) b). cbn. apply lookup_insert_eq.
Qed.

Lemma building_weaken m s d (C C' : Z -> Prop) : building m s d C -> (forall j, 0 <= j < zlen T -> C' j -> C j) -> building m s d C'.
Proof.
  intros (x & y & Hs & Hx & Hy & Hm & Hz & HC & Hnh) Hsub. exists x, y. split_and!; auto.
  intros H0. apply Hnh, Hsub; [|done]. destruct HT. unfold IP_MIN_HEADER_SIZE in *. lia.
Qed.

Lemma copy_fragment_ok m s d C f fr o n : building m s d C -> rcv_skb hlen (hlen + hl) m f fr -> is_frag hlen hl i T fr o n ->
  (forall y, skbs m !! f = Some y -> data y <> d) ->
  exists m', copy_fragment s (hlen + hl) (zlen T - (hlen + hl)) f m = Some m' /\
    building m' s d (fun j => C j \/ covers o n j) /\ only_skb s d m m'.
Proof.
  intros Hb Hrcv Hfg Hne. destruct (frag_read _ _ _ _ _ Hrcv Hfg) as [iph [Hiph _ Hsz _ Hoff _ _]].
  pose proof Hrcv as [(y & f' & [Hy Hf' [Hly Hlc] _ _ _] & Hmy & Hny & Hhy & Htk)]. specialize (Hne y Hy).
  destruct (rcv_skb_bytes (bytes f') (len y) fr ltac:(lia) Htk) as [Hzf _]. rewrite <- Hzf in Htk, Hlc.
  pose proof Hb as (x & z & Hs & Hx & Hz & Hm & _). pose proof Hfg as [Hl (Ho & H8 & Hn & Hon) _ _ _ _ _ _].
  destruct HT as [Hhlen Hhl Hlen _]. unfold IP_MIN_HEADER_SIZE in Hhl.
  unfold copy_fragment. rewrite Hiph. cbn [mbind option_bind]. rewrite Hoff. cbn [mbind option_bind]. rewrite Hs.
  cbn [mbind option_bind]. rewrite Hy. cbn [mbind option_bind].
  rewrite (ul_32 (len y - (hlen + hl))) by lia. replace (len y - (hlen + hl)) with n by lia.
  destruct (Z.eqb_spec o 0) as [->|Hne0].
  - destruct (copy_head m s d C fr n (data y) f' x y Hb Hfg Hf' Htk Hlc Hs) as (m1 & m2 & E1 & E2 & Hb2 & Ho2);
      [done|lia|done|]. rewrite Hx in *. rewrite E1. cbn [mbind option_bind]. rewrite Hsz. cbn [mbind option_bind]. rewrite E2.
    cbn [mbind option_bind]. destruct (copy_body m2 s d _ fr 0 n (data y) f' Hb2 Hfg) as (m3 & E3 & Hb3 & Ho3);
      [by rewrite (proj1 (proj2 Ho2))|done|done|]. rewrite Hm, Hmy, E3. exists m3. split; [done|].
    split; [|by eapply only_skb_trans]. eapply building_weaken; [exact Hb3|]. unfold covers. intros j Hj. tauto.
  - cbn [mbind option_bind]. destruct (copy_body m s d _ fr o n (data y) f' Hb Hfg) as (m3 & E3 & Hb3 & Ho3);
      [done|done|done|]. rewrite Hx, Hm, Hmy, E3. exists m3. split; [done|]. split; [|done].
    eapply building_weaken; [exact Hb3|]. unfold covers. intros j Hj. tauto.
Qed.

(** * The loop *)

Record piece := Piece { p_skb : Z; p_frame : list Z; p_off : Z; p_len : Z }.

Definition piece_ok m (p : piece) : Prop :=
  rcv_skb hlen (hlen + hl) m (p_skb p) (p_frame p) /\ is_frag hlen hl i T (p_frame p) (p_off p) (p_len p).

Lemma rcv_skb_same m m' t fr : rcv_skb hlen (hlen + hl) m t fr -> skbs m' !! t = skbs m !! t ->
  (forall y, skbs m !! t = Some y -> bytes <$> datas m' !! data y = bytes <$> datas m !! data y) ->
  rcv_skb hlen (hlen + hl) m' t fr.
Proof.
  intros [(x & d & [Hs Hd Hl Hm Hn Hh] & H1 & H2 & H3 & H4)] Hss Hb. specialize (Hb x Hs). rewrite Hd in Hb. cbn in Hb.
  destruct (datas m' !! data x) as [d'|] eqn:Ed; [|done]. cbn in Hb. injection Hb as Hb.
  split. exists x, d'. rewrite Hb. split_and!; try done. split; try done; [by rewrite Hss|by rewrite Hb].
Qed.

(** Freeing one buffer leaves every other as it is. *)
Lemma skb_free_others m f x : skmem_ok np nd [] m -> skbs m !! f = Some x ->
  exists m', skb_free f m = Some m' /\ skmem_ok np nd [] m' /\ skbs m' = delete f (skbs m) /\
    (forall e, e <> data x -> datas m' !! e = datas m !! e) /\
    forall t y, t <> f -> skbs m !! t = Some y -> bytes <$> datas m' !! data y = bytes <$> datas m !! data y.
Proof.
  intros Hok Hf. destruct (sm_data _ _ _ _ Hok f x Hf) as [d Hd].
  destruct (skb_free_ok np nd Hopts [] m f x d Hok Hf Hd) as (m' & E & Hok' & Hs & Hdd). exists m'. split_and!; try done.
  - intros e He. rewrite Hdd. by apply released_ne.
  - intros t y Hne Ht. rewrite Hdd. apply released_bytes; [done|].
    destruct (decide (links d = 1)) as [H1|]; [left|by right].
    apply (proj1 (links_alone np nd m f x d Hok Hf Hd) H1 x t y); done.
Qed.

(** The buffer [s] is the only one with the data [d]. *)
Definition sole m (s d : Z) : Prop := data <$> skbs m !! s = Some d /\ links <$> datas m !! d = Some 1.

Lemma sole_ne m s d t y : skmem_ok np nd [] m -> sole m s d -> t <> s -> skbs m !! t = Some y -> data y <> d.
Proof.
  intros Hok [Hs Hd] Hne Ht. apply fmap_Some in Hs as (x & Hs & ->). apply fmap_Some in Hd as (z & Hz & Hl).
  by eapply (proj1 (links_alone np nd m s x z Hok Hs Hz) (eq_sym Hl)).
Qed.

Lemma only_skb_view s d m m' t : skmem_ok np nd [] m -> sole m s d -> only_skb s d m m' -> t <> s -> view m' t = view m t.
Proof.
  intros Hok Hso (H1 & H2 & _) Hne. apply view_ext; [by apply H1|]. intros y Hy.
  rewrite H2; [done|]. by eapply sole_ne.
Qed.

Lemma building_same m m' s d C : building m s d C -> skbs m' !! s = skbs m !! s -> datas m' !! d = datas m !! d ->
  building m' s d C.
Proof. intros (x & y & H1 & H2 & H3 & H4) Hs Hd. exists x, y. by rewrite Hs, Hd. Qed.

Lemma build_loop_ok l m s d C : skmem_ok np nd [] m -> building m s d C -> sole m s d ->
  NoDup (p_skb <$> l) -> s ∉ p_skb <$> l -> Forall (piece_ok m) l ->
  exists m', build_loop s (hlen + hl) (zlen T - (hlen + hl)) (p_skb <$> l) m = Some m' /\ skmem_ok np nd [] m' /\
    building m' s d (fun j => C j \/ Exists (fun p => covers (p_off p) (p_len p) j) l) /\ sole m' s d /\
    (forall t, t ∈ p_skb <$> l -> skbs m' !! t = None) /\
    (forall t, t <> s -> t ∉ p_skb <$> l -> view m' t = view m t /\ skbs m' !! t = skbs m !! t).
Proof.
  revert m C. induction l as [|p l IH]; intros m C Hok Hb Hso Hnd Hs Hl.
  { exists m. split_and!; try done.
    - eapply building_weaken; [exact Hb|]. intros j _ [|Hj]; [done|]. by apply Exists_nil in Hj.
    - intros t Ht. by apply elem_of_nil in Ht. }
  rewrite fmap_cons in *. apply NoDup_cons in Hnd as [Hp Hnd]. apply not_elem_of_cons in Hs as [Hsp Hs].
  apply Forall_cons in Hl as [[Hrcv Hfg] Hl].
  destruct (copy_fragment_ok m s d C (p_skb p) _ _ _ Hb Hrcv Hfg) as (m1 & E1 & Hb1 & Hon);
    [intros y Hy; by eapply (sole_ne m s d)|].
  pose proof Hon as (Hon1 & Hon2 & Hon3 & Hon4 & Hon5). specialize (Hon3 [] Hok).
  pose proof Hrcv as [(y & f & Hwf & _)]. destruct Hwf as [Hy Hf _ _ _ _].
  assert (sole m1 s d) as Hso1 by (destruct Hso; split; congruence).
  assert (skbs m1 !! p_skb p = Some y) as Hy1 by (by rewrite Hon1).
  destruct (skb_free_others m1 (p_skb p) y Hon3 Hy1) as (m2 & E2 & Hok2 & Hs2 & Hd2 & Hb2).
  assert (data y <> d) as Hyd by by eapply (sole_ne m s d).
  assert (datas m2 !! d = datas m1 !! d) as Hdd by (apply Hd2; congruence).
  assert (skbs m2 !! s = skbs m1 !! s) as Hss by (rewrite Hs2; by rewrite lookup_delete_ne by congruence).
  destruct (IH m2 (fun j => C j \/ covers (p_off p) (p_len p) j)) as (m3 & E3 & Hok3 & Hb3 & Hso3 & Hfr3 & Hot3); try done.
  - by eapply building_same.
  - split; [by rewrite Hss; apply Hso1|by rewrite Hdd; apply Hso1].
  - apply Forall_forall. intros q Hq. rewrite Forall_forall in Hl. destruct (Hl q Hq) as [Hq1 Hq2]. split; [|done].
    assert (p_skb q <> p_skb p) as Hqp by (intros E; apply Hp; rewrite <- E; by apply list_elem_of_fmap_2).
    assert (p_skb q <> s) as Hqs by (intros E; apply Hs; rewrite <- E; by apply list_elem_of_fmap_2).
    eapply (rcv_skb_same m1); [eapply (rcv_skb_same m); [done|by apply Hon1|]| |].
    + intros z Hz. rewrite Hon2; [done|]. by eapply (sole_ne m s d).
    + by rewrite Hs2, lookup_delete_ne.
    + intros z Hz. by eapply Hb2.
  - exists m3. cbn [build_loop]. rewrite E1. cbn [mbind option_bind]. rewrite E2. cbn [mbind option_bind]. split_and!; try done.
    + eapply building_weaken; [exact Hb3|]. intros j _ [Hj|Hj]; [by left; left|].
      apply Exists_cons in Hj as [Hj|Hj]; [by left; right|by right].
    + intros t [->|Ht]%elem_of_cons; [|by apply Hfr3].
      destruct (decide (p_skb p ∈ p_skb <$> l)) as [Hin|Hin]; [done|].
      destruct (Hot3 (p_skb p)) as [_ ->]; [congruence|done|]. rewrite Hs2. apply lookup_delete_eq.
    + intros t Hts Htl. apply not_elem_of_cons in Htl as [Htp Htl]. destruct (Hot3 t Hts Htl) as [-> ->]. split.
      * rewrite <- (only_skb_view s d m m1 t Hok Hso Hon Hts). apply view_ext; [by rewrite Hs2, lookup_delete_ne|].
        intros z Hz. by eapply Hb2.
      * rewrite Hs2, lookup_delete_ne by congruence. by apply Hon1.
Qed.

(** The pieces [l] have every byte of the data of [T]. *)
Definition complete (l : list piece) : Prop :=
  forall j, 0 <= j < zlen T - (hlen + hl) -> Exists (fun p => p_off p <= j < p_off p + p_len p) l.

Lemma complete_covers l m : Forall (piece_ok m) l -> complete l ->
  forall j, 0 <= j < zlen T -> Exists (fun p => covers (p_off p) (p_len p) j) l.
Proof.
  intros Hl Hc j Hj. destruct HT as [Hhlen Hhl Hlen _]. unfold IP_MIN_HEADER_SIZE in Hhl. unfold covers.
  destruct (Z.ltb_spec j (hlen + hl)) as [Hlt|Hge].
  - destruct (proj1 (Exists_exists _ _) (Hc 0 ltac:(lia))) as (p & Hp & Hr). apply Exists_exists. exists p. split; [done|].
    right. rewrite Forall_forall in Hl. destruct (Hl p Hp) as [_ [_ (Ho & _) _ _ _ _ _ _]]. lia.
  - eapply Exists_impl; [apply (Hc (j - (hlen + hl))); lia|]. intros p Hp. cbv beta in Hp. left. lia.
Qed.

Lemma rcv_skb_of_building m s d C x y : building m s d C -> (forall j, 0 <= j < zlen T -> C j) -> skbs m !! s = Some x ->
  datas m !! d = Some y -> 0 < d -> rcv_skb hlen (hlen + hl)
    (put_skb s (Skb (dev x) (zlen T) (h x) (nh x) (mac x) (data x) (p_data x) (p_data_end x)) m) s T.
Proof.
  intros (x' & y' & Hs & Hx & Hy & Hm & Hz & HC & Hnh) Hall Hsx Hyd Hd0. rewrite Hs in Hsx. injection Hsx as <-.
  subst d. rewrite Hy in Hyd. injection Hyd as <-. destruct HT as [Hhlen Hhl Hlen _].
  unfold IP_MIN_HEADER_SIZE in Hhl. destruct Hnh as [Hn Hh]; [apply Hall; lia|]. split.
  eexists (Skb (dev x') (zlen T) (h x') (nh x') (mac x') (data x') (p_data x') (p_data_end x')), y'.
  split_and!; cbn; try done; [|lia|].
  - split; cbn; try done; try lia. apply lookup_insert_eq.
  - apply znth_ext.
    + unfold zlen in *. rewrite length_take. lia.
    + intros j Hj. unfold zlen in *. rewrite length_take in Hj. rewrite <- HC by (lia || apply Hall; lia).
      rewrite !znth_lookup by lia. apply lookup_take_lt. lia.
Qed.

Lemma build_packet_ok irq b m l s m0 : skmem_ok np nd [] m -> Forall (piece_ok m) l -> NoDup (p_skb <$> l) -> complete l ->
  fragments b = p_skb <$> l -> blen b = zlen T - (hlen + hl) -> skb_alloc irq (zlen T) m = Some (s, m0) -> s <> 0 ->
  exists m', build_packet irq b m =
      Some (s, DgramBuf [] (id_of b) (is_last_frag_received b) (meat b) (blen b) (buf_ttl b) true, m') /\
    skmem_ok np nd [] m' /\ rcv_skb hlen (hlen + hl) m' s T /\ skbs m !! s = None /\
    (forall t, t ∈ p_skb <$> l -> skbs m' !! t = None) /\
    (forall t, t <> s -> t ∉ p_skb <$> l -> view m' t = view m t).
Proof.
  intros Hok Hl Hnd Hc Hfr Hbl Ea Hs0. destruct HT as [Hhlen Hhl Hlen _]. unfold IP_MIN_HEADER_SIZE in Hhl.
  destruct l as [|p l]; [destruct (proj1 (Exists_nil _) (Hc 0 ltac:(lia)))|]. set (L := p :: l) in *.
  assert (piece_ok m p) as [[(y & f & [Hy Hf Hly _ _ _] & Hmy & Hny & Hhy & _)] _] by by apply Forall_cons in Hl as [? _].
  unfold build_packet. rewrite Hfr. cbn [skb_queue_front fmap list_fmap L].
  pose proof (skb_nonzero _ _ _ _ _ _ Hok Hy) as Hp0. destruct (Z.eqb_spec (p_skb p) 0); [lia|]. cbn [negb].
  rewrite Hy. cbn [mbind option_bind]. replace (h y - mac y) with (hlen + hl) by lia. rewrite s32_small by lia.
  rewrite Hbl. replace (zlen T - (hlen + hl) + (hlen + hl)) with (zlen T) by lia. rewrite (ul_32 (zlen T)) by lia.
  rewrite Ea. cbn [mbind option_bind]. destruct (Z.eqb_spec s 0); [done|]. cbn [negb].
  destruct (skb_alloc_ok np nd Hopts [] m irq (zlen T) Hok) as (s' & m0' & Ea' & Hok0 & Hr); [lia|].
  rewrite Ea in Ea'. injection Ea' as <- <-. destruct Hr as [(-> & _)|(_ & Hfs & d & z & Hd & Hfd & Hlz & Hcz & Hs' & Hd')]; [done|].
  change (p_skb p :: (p_skb <$> l)) with (p_skb <$> L).
  assert (s ∉ p_skb <$> L) as Hsl.
  { intros (q & -> & Hq)%list_elem_of_fmap. rewrite Forall_forall in Hl. destruct (Hl q Hq) as [[(w & v & [Hw _ _ _ _ _] & _)] _].
    congruence. }
  destruct (build_loop_ok L m0 s d (fun _ => False)) as (m1 & E1 & Hok1 & Hb1 & Hso1 & Hgone & Hothers); try done.
  - eexists _, z. rewrite Hs', Hd', !lookup_insert_eq. split_and!; try done.
  - split; [by rewrite Hs', lookup_insert_eq|]. rewrite Hd', lookup_insert_eq. cbn. by rewrite Hlz.
  - eapply Forall_impl; [exact Hl|]. intros q [Hq1 Hq2]. split; [|done].
    pose proof Hq1 as [(w & v & [Hw Hv _ _ _ _] & _)]. eapply rcv_skb_same; [done|..].
    + rewrite Hs', lookup_insert_ne; [done|congruence].
    + intros w' Hw'. simplify_eq. rewrite Hd', lookup_insert_ne; [done|congruence].
  - rewrite E1. cbn [mbind option_bind]. pose proof Hb1 as (x1 & y1 & Hs1 & Hx1 & Hrest). rewrite Hs1. cbn [mbind option_bind].
    eexists. split; [done|]. split_and!.
    + by eapply skmem_ok_upd_skb.
    + eapply (rcv_skb_of_building m1 s d); [exact Hb1| |done|apply Hrest|done].
      intros j Hj. right. by eapply complete_covers.
    + done.
    + intros t Ht. cbn. rewrite lookup_insert_ne; [by apply Hgone|]. intros <-. done.
    + intros t Hts Htl. transitivity (view m0 t); [transitivity (view m1 t)|].
      * apply view_ext; [cbn; by rewrite lookup_insert_ne|done].
      * by apply Hothers.
      * by eapply view_fresh.
Qed.

End FragFacts.

(** * Frames in memory *)

Section Frames.
Context `{A : arch} `{!ArchOk A} `{O : skb_opts} {H : Type} `{!SysHeap H} `{!SysHeapOk H}.
Context (np nd : Z) (Hopts : 8 <= MODOPS_DATA_SIZE < 2 ^ 30 /\ 0 <= IP_ALIGN_SIZE <= 2).

(** A buffer for the device [dv] with the frame [l] in it. *)
Definition frame_skb (dv hlen ih : Z) (l : list Z) (m : skmem (H := H)) : option (Z * skmem (H := H)) :=
  '(s, m) ← skb_alloc false (zlen l) m;
  x ← skbs m !! s;
  d ← datas m !! data x;
  b ← zwrite (bytes d) 0 l;
  let m := put_data (data x) (SkbData (links d) (alloc_type d) b) m in
  Some (s, put_skb s (Skb dv (len x) (mac x + ih) (mac x + hlen) (mac x) (data x) 0 0) m).

Fixpoint frame_skbs (dv hlen ih : Z) (ls : list (list Z)) (m : skmem (H := H)) : option (list Z * skmem (H := H)) :=
  match ls with
  | [] => Some ([], m)
  | l :: ls =>
    '(s, m) ← frame_skb dv hlen ih l m;
    '(q, m) ← frame_skbs dv hlen ih ls m;
    Some (s :: q, m)
  end.

Lemma frame_skb_ok dv hlen ih l m s m' : skmem_ok np nd [] m -> 0 < zlen l < 2 ^ 31 ->
  frame_skb dv hlen ih l m = Some (s, m') -> skmem_ok np nd [] m'.
Proof.
  intros Hok Hl. unfold frame_skb. destruct (skb_alloc_ok np nd Hopts [] m false (zlen l) Hok Hl) as (r & m1 & E & Hok1 & _).
  rewrite E. cbn [mbind option_bind]. destruct (skbs m1 !! r) as [x|] eqn:Hx; [|done]. cbn [mbind option_bind].
  destruct (datas m1 !! data x) as [d|] eqn:Hd; [|done]. cbn [mbind option_bind].
  destruct (zwrite (bytes d) 0 l) as [b|]; [|done]. cbn [mbind option_bind]. intros [= <- <-].
  eapply skmem_ok_upd_skb; [by apply skmem_ok_write|done|done].
Qed.

Lemma frame_skbs_ok dv hlen ih ls : forall m q m', skmem_ok np nd [] m -> Forall (fun l => 0 < zlen l < 2 ^ 31) ls ->
  frame_skbs dv hlen ih ls m = Some (q, m') -> skmem_ok np nd [] m'.
Proof.
  induction ls as [|l ls IH]; cbn; intros m q m' Hok Hls; [by intros [= _ <-]|]. apply Forall_cons in Hls as [Hl Hls].
  destruct (frame_skb dv hlen ih l m) as [[s m1]|] eqn:E1; [|done]. cbn.
  destruct (frame_skbs dv hlen ih ls m1) as [[q1 m2]|] eqn:E2; [|done]. cbn. intros [= _ <-].
  eapply IH; [|done..]. by eapply frame_skb_ok.
Qed.

(** Whether the buffer [s] holds the frame [fr], by evaluation. *)
Definition holds_frame (hlen ih : Z) (m : skmem (H := H)) (s : Z) (fr : list Z) : bool :=
  match x ← skbs m !! s; d ← datas m !! data x; Some (x, d) with
  | Some (x, d) =>
    bool_decide (0 < len x < 2 ^ 31 /\ len x <= zlen (bytes d) /\ mac x = skb_get_data_pointner (data x) /\
      nh x = mac x + hlen /\ h x = mac x + ih /\ 0 <= hlen <= ih /\ take (Z.to_nat (len x)) (bytes d) = fr)
  | None => false
  end.

Lemma holds_frame_ok hlen ih m s fr : holds_frame hlen ih m s fr = true -> rcv_skb hlen ih m s fr.
Proof.
  unfold holds_frame. destruct (skbs m !! s) as [x|] eqn:Hx; [|done]. cbn.
  destruct (datas m !! data x) as [d|] eqn:Hd; [|done]. cbn. intros (? & ? & Hm & Hn & Hh & ? & <-)%bool_decide_eq_true_1.
  split. exists x, d. split; [split; (done || lia)|done].
Qed.

End Frames.
