(* ===== verification/IpFragList.v ===== *)
(** The list of the datagrams that wait for fragments ([IpFrag.v]). *)
From S2P Require Import Prelude Pool Skb Ip IpFrag.

Local Open Scope Z_scope.
Local Open Scope embox_scope.

Abbreviation buf_list := (list (Z * dgram_buf)).

(** The datagram [i], if it waits: deleted buffers are on the list until
    [ip_find] comes across them. *)
Fixpoint pending (i : buf_id) (l : buf_list) : option (Z * dgram_buf) :=
  match l with
  | [] => None
  | (a, b) :: l => if is_deleted b then pending i l else if bool_decide (id_of b = i) then Some (a, b) else pending i l
  end.

Definition live (l : buf_list) : buf_list := filter (fun p => is_deleted p.2 = false) l.

Definition live_ids (l : buf_list) : list buf_id := id_of <$> (live l).*2.

Lemma live_cons a b l : live ((a, b) :: l) = if is_deleted b then live l else (a, b) :: live l.
Proof. unfold live. rewrite filter_cons. cbn [snd]. destruct (is_deleted b); by case_decide. Qed.

Lemma pending_live i l : pending i l = pending i (live l).
Proof.
  induction l as [|[a b] l IH]; [done|]. rewrite live_cons. cbn [pending]. destruct (is_deleted b) eqn:E; [done|].
  cbn [pending]. rewrite E. by case_bool_decide.
Qed.

Lemma pending_Some i l a b : pending i l = Some (a, b) -> (a, b) ∈ l /\ id_of b = i /\ is_deleted b = false.
Proof.
  induction l as [|[a' b'] l IH]; [done|]. cbn [pending]. destruct (is_deleted b') eqn:E.
  - intros (? & ? & ?)%IH. split; [by right|done].
  - case_bool_decide.
    + intros [= -> ->]. split; [by left|done].
    + intros (? & ? & ?)%IH. split; [by right|done].
Qed.

Lemma pending_None i l : pending i l = None -> i ∉ live_ids l.
Proof.
  unfold live_ids. induction l as [|[a b] l IH]; [intros _; apply not_elem_of_nil|]. rewrite live_cons. cbn [pending].
  destruct (is_deleted b); [done|]. case_bool_decide; [done|]. intros Hp. rewrite fmap_cons. cbn [snd fmap list_fmap].
  rewrite not_elem_of_cons. split; [done|by apply IH].
Qed.

Lemma get_buf_elem a b l : NoDup (l.*1) -> (a, b) ∈ l -> get_buf a l = Some b.
Proof.
  induction l as [|[a' b'] l IH]; [by intros _ ?%elem_of_nil|]. intros Hnd. rewrite fmap_cons in Hnd.
  apply NoDup_cons in Hnd as [Hni Hnd]. intros [[= -> ->]|Hin]%elem_of_cons; cbn [get_buf].
  - by rewrite Z.eqb_refl.
  - destruct (Z.eqb_spec a' a) as [->|]; [|by apply IH]. exfalso. apply Hni. cbn [fst].
    change a with ((a, b).1). by apply list_elem_of_fmap_2.
Qed.

Lemma zlen_fmap {X Y} (f : X -> Y) (l : list X) : zlen (f <$> l) = zlen l.
Proof. unfold zlen. by rewrite length_fmap. Qed.

Lemma pool_live_nodup pl n l : pool_ok pl n l -> NoDup l.
Proof. intros Hok. pose proof (pool_nodup _ _ _ Hok) as Hnd. apply NoDup_app in Hnd. apply Hnd. Qed.

(** [ip_find] finds the datagram, and forgets deleted ones only. *)
Lemma ip_find_ok i l pre pl n : pool_ok pl n (pre ++ l.*1) ->
  exists l' pl', ip_find i l pl = Some (from_option fst 0 (pending i l), l', pl') /\ pool_ok pl' n (pre ++ l'.*1) /\
    memory pl' = memory pl /\ live l' = live l /\ (pending i l = None -> l' = live l) /\
    (forall ab, pending i l = Some ab -> ab ∈ l').
Proof.
  revert pre pl. induction l as [|[a b] l IH]; intros pre pl Hok; cbn [ip_find pending].
  { exists [], pl. split_and!; try done. }
  destruct (is_deleted b) eqn:Eb.
  - destruct (pool_free_ok pl n pre a (l.*1)) as (pl1 & E1 & Hok1 & _ & Hm1); [done|]. unfold buf_delete. rewrite E1.
    cbn [mbind option_bind]. destruct (IH pre pl1 Hok1) as (l' & pl' & E & Hok' & Hm' & Hl & Hn & Hs).
    exists l', pl'. rewrite live_cons, Eb. split_and!; try done. congruence.
  - case_bool_decide as Ei.
    + exists ((a, b) :: l), pl. split_and!; try done. intros ab [= <-]. by left.
    + destruct (IH (pre ++ [a]) pl) as (l' & pl' & E & Hok' & Hm' & Hl & Hn & Hs); [by rewrite <- app_assoc|].
      rewrite E. cbn [mbind option_bind]. exists ((a, b) :: l'), pl'. rewrite !live_cons, Eb, Hl. split_and!; try done.
      * by rewrite <- app_assoc in Hok'.
      * intros Hp. by rewrite Hn.
      * intros ab Hab. right. by apply Hs.
Qed.

(** Writing to one of the buffers. *)
Lemma upd_buf_fst a b l : (upd_buf a b l).*1 = l.*1.
Proof.
  unfold upd_buf. induction l as [|[a' b'] l IH]; [done|]. rewrite !fmap_cons, IH. f_equal. cbn.
  case_bool_decide as E; cbn in *; done.
Qed.

Lemma upd_buf_notin a b l : a ∉ l.*1 -> upd_buf a b l = l.
Proof.
  induction l as [|[a' b'] l IH]; [done|]. rewrite fmap_cons, not_elem_of_cons. intros [Hne Hni]. unfold upd_buf in *.
  rewrite fmap_cons, IH by done. cbn in *. rewrite bool_decide_false by congruence. done.
Qed.

Lemma upd_buf_split a b b' l1 l2 : NoDup ((l1 ++ (a, b) :: l2).*1) -> upd_buf a b' (l1 ++ (a, b) :: l2) = l1 ++ (a, b') :: l2.
Proof.
  rewrite fmap_app, fmap_cons. intros (Hnd1 & Hd & Hnd2)%NoDup_app. cbn in *. apply NoDup_cons in Hnd2 as [Hni Hnd2].
  unfold upd_buf. rewrite fmap_app, fmap_cons. cbn. rewrite bool_decide_true by done.
  fold (upd_buf a b' l1) (upd_buf a b' l2). rewrite !upd_buf_notin; [done|done|].
  intros Hin. apply (Hd a Hin). by left.
Qed.

Lemma live_app l1 l2 : live (l1 ++ l2) = live l1 ++ live l2.
Proof. apply filter_app. Qed.

Lemma pending_app i l1 l2 : pending i (l1 ++ l2) = match pending i l1 with Some x => Some x | None => pending i l2 end.
Proof.
  induction l1 as [|[a b] l1 IH]; [done|]. cbn [app pending]. destruct (is_deleted b); [done|]. by case_bool_decide.
Qed.

Lemma pending_notin i l : i ∉ live_ids l -> pending i l = None.
Proof.
  unfold live_ids. induction l as [|[a b] l IH]; [done|]. rewrite live_cons. cbn [pending].
  destruct (is_deleted b); [done|]. rewrite !fmap_cons, not_elem_of_cons. cbn. intros [Hne Hni].
  rewrite bool_decide_false by congruence. by apply IH.
Qed.

Lemma pending_upd i l a b b' : NoDup (l.*1) -> NoDup (live_ids l) -> pending i l = Some (a, b) -> id_of b' = i ->
  pending i (upd_buf a b' l) = (if is_deleted b' then None else Some (a, b')) /\
  (forall k, k <> i -> pending k (upd_buf a b' l) = pending k l) /\
  NoDup (live_ids (upd_buf a b' l)) /\ (is_deleted b' = false -> live_ids (upd_buf a b' l) = live_ids l).
Proof.
  intros Hnd Hids Hp Hi'. destruct (pending_Some _ _ _ _ Hp) as (Hin & Hi & Hdel).
  apply list_elem_of_split in Hin as (l1 & l2 & ->). rewrite upd_buf_split by done.
  unfold live_ids in *. rewrite !live_app, !live_cons, Hdel in *. rewrite !fmap_app, !fmap_cons in *.
  cbn [snd fmap list_fmap] in *. fold (live_ids l1) (live_ids l2) in *.
  apply NoDup_app in Hids as (Hn1 & Hd & [Hni Hn2]%NoDup_cons). rewrite Hi in *.
  assert (i ∉ live_ids l1) as Hi1 by (intros Hx; apply (Hd i Hx); by left).
  split_and!.
  - rewrite pending_app, (pending_notin i l1 Hi1). cbn [pending]. destruct (is_deleted b'); [by apply pending_notin|].
    by rewrite bool_decide_true.
  - intros k Hk. rewrite !pending_app. cbn [pending]. rewrite Hdel. rewrite (bool_decide_false (id_of b = k)) by congruence.
    destruct (is_deleted b'); [done|]. by rewrite bool_decide_false by congruence.
  - destruct (is_deleted b'); rewrite ?fmap_cons; cbn [snd fmap list_fmap]; rewrite ?Hi'; fold (live_ids l2).
    + apply NoDup_app. split_and!; try done. intros x Hx Hx2. apply (Hd x Hx). by right.
    + apply NoDup_app. split_and!; try done. by apply NoDup_cons.
  - intros ->. rewrite fmap_cons. cbn [snd fmap list_fmap]. by rewrite Hi'.
Qed.
