(* ===== verification/IpFragTheorems.v ===== *)
(** Datagrams are put together again: [ip_defrag] of [IpFrag.v] on the
    fragments of a datagram, in any order that ends with the last one. *)
From S2P Require Import Prelude Pool Skb SkbTheorems Ip IpFrag IpFragFacts IpFragList.

Local Open Scope Z_scope.
Local Open Scope embox_scope.

Definition sum_len (l : list piece) : Z := foldr (fun p a => p_len p + a) 0 l.
Definition max_end (l : list piece) : Z := foldr (fun p a => Z.max (p_off p + p_len p) a) 0 l.

Lemma sum_len_app l1 l2 : sum_len (l1 ++ l2) = sum_len l1 + sum_len l2.
Proof. unfold sum_len. induction l1 as [|p l1 IH]; cbn; [done|]. rewrite IH. lia. Qed.

Lemma max_end_app l p : 0 <= p_off p + p_len p -> max_end (l ++ [p]) = Z.max (max_end l) (p_off p + p_len p).
Proof. unfold max_end. intros Hp. induction l as [|q l IH]; cbn; [lia|]. rewrite IH. lia. Qed.

Lemma max_end_nonneg l : 0 <= max_end l.
Proof. unfold max_end. induction l as [|q l IH]; cbn; lia. Qed.

Section FragTheorems.
Context `{A : arch} `{!ArchOk A} `{B : byteorder} `{O : skb_opts} `{I : ip_opts} {H : Type} `{!SysHeap H} `{!SysHeapOk H}.
Context (np nd nb : Z) (Hopts : 8 <= MODOPS_DATA_SIZE < 2 ^ 30 /\ 0 <= IP_ALIGN_SIZE <= 2).
Context (Hsupp : IP_FRAGMENTED_SUPP = true).
Context (hlen hl : Z) (i : buf_id) (T : list Z) (HT : datagram hlen hl T).
Implicit Types st : frag_state (H := H).

Record frag_ok st : Prop := {
  fo_mem : skmem_ok np nd [] (mem st);
  fo_pool : pool_ok (dgram_bufs st) nb (dgram_buf_list st).*1;
  fo_null : 0 < memory (dgram_bufs st);
  fo_ids : NoDup (live_ids (dgram_buf_list st))
}.

(** The pieces [l] of the datagram have arrived. *)
Definition waiting st (l : list piece) : Prop :=
  match l with
  | [] => pending i (dgram_buf_list st) = None
  | _ => exists a b, pending i (dgram_buf_list st) = Some (a, b) /\ fragments b = p_skb <$> l /\
           meat b = sum_len l /\ blen b = max_end l
  end.

Lemma add_skb_ok (m : skmem (H := H)) p b l : piece_ok hlen hl i T m p -> skmem_ok np nd [] m -> p_skb p ∉ p_skb <$> l ->
  fragments b = p_skb <$> l -> meat b = sum_len l -> blen b = max_end l -> 0 <= sum_len l < 2 ^ 31 - 65536 ->
  exists t, ip_buf_add_skb b (p_skb p) m =
    Some (DgramBuf (p_skb <$> (l ++ [p])) (id_of b) (is_last_frag_received b) (sum_len (l ++ [p])) (max_end (l ++ [p])) t
      (is_deleted b)).
Proof.
  intros [Hrcv Hfg] Hok Hni Hfr Hm Hbl Hsum. destruct (frag_read hlen hl i T HT _ _ _ _ _ Hrcv Hfg) as [iph [Hi _ _ _ Hoff _ (t & Ht & _)]].
  destruct Hrcv as [(x & d & [Hs Hd [Hl Hlc] _ _ _] & Hmx & Hnx & Hhx & Htk)].
  destruct (rcv_skb_bytes (bytes d) (len x) (p_frame p) ltac:(lia) Htk) as [Hz _].
  destruct Hfg as [Hfl (Ho & _ & Hn & Hon) _ _ _ _ _ _]. destruct HT as [Hhlen Hhl Hlen _]. unfold IP_MIN_HEADER_SIZE in Hhl.
  exists (Z.max (buf_ttl b) (Z.shiftr t 4)). unfold ip_buf_add_skb. rewrite Hi. cbn [mbind option_bind]. rewrite Ht.
  cbn [mbind option_bind]. rewrite Hoff. cbn [mbind option_bind]. rewrite Hs. cbn [mbind option_bind].
  replace (len x - (h x - mac x)) with (p_len p) by lia. rewrite (s32_small (p_len p)) by lia.
  rewrite Hm, Hbl, Hfr, s32_small by lia. rewrite max_end_app, sum_len_app, fmap_app by lia. do 2 f_equal.
  - unfold skb_queue_push. pose proof (skb_nonzero _ _ _ _ _ _ Hok Hs). destruct (Z.eqb_spec (p_skb p) 0); [lia|].
    f_equal. apply filter_all. intros y Hy ->. done.
  - cbn. lia.
  - rewrite Z.gtb_ltb. destruct (Z.ltb_spec (max_end l) (p_off p + p_len p)); lia.
Qed.

(** The buffer that a fragment is put into: the one of its datagram, or a new
    one. *)
Lemma find_or_create st l : frag_ok st -> waiting st l -> (l = [] -> zlen (live (dgram_buf_list st)) < nb) ->
  exists a0 bl0 pl0, ip_find i (dgram_buf_list st) (dgram_bufs st) = Some (a0, bl0, pl0) /\
  exists a b bl pl tm, (if a0 =? 0 then ip_buf_create i (FragState bl0 pl0 (frag_timer st) (mem st))
      else Some (a0, FragState bl0 pl0 (frag_timer st) (mem st))) = Some (a, FragState bl pl tm (mem st)) /\ a <> 0 /\
    frag_ok (FragState bl pl tm (mem st)) /\ pending i bl = Some (a, b) /\ get_buf a bl = Some b /\
    (forall k, k <> i -> pending k bl = pending k (dgram_buf_list st)) /\
    fragments b = p_skb <$> l /\ meat b = sum_len l /\ blen b = max_end l.
Proof.
  intros [Hmem Hpool Hnull Hids] Hw Hroom.
  destruct (ip_find_ok i (dgram_buf_list st) [] (dgram_bufs st) nb Hpool) as (bl0 & pl0 & E & Hok0 & Hm0 & Hl0 & Hn0 & Hs0).
  eexists _, bl0, pl0. split; [exact E|]. cbn [app] in Hok0.
  assert (NoDup (live_ids bl0)) as Hids0 by (unfold live_ids in *; by rewrite Hl0).
  destruct l as [|p l].
  - cbn in Hw. rewrite Hw. cbn [from_option Z.eqb]. specialize (Hn0 Hw). subst bl0. specialize (Hroom eq_refl).
    unfold ip_buf_create. cbn [dgram_bufs dgram_buf_list].
    pose proof (pool_alloc_ok _ _ _ Hok0) as Ha. rewrite zlen_fmap in Ha.
    destruct (Z.eqb_spec (zlen (live (dgram_buf_list st))) nb); [lia|]. destruct Ha as (a & pl & Ea & Hna & Hbe & Hok).
    rewrite Ea. cbn [mbind option_bind]. set (b := DgramBuf [] i false 0 0 MSL false).
    assert (0 < a) as Ha0.
    { unfold pool_belong in Hbe. zbool_in Hbe; try done. lia. }
    assert (pool_ok pl nb ((live (dgram_buf_list st) ++ [(a, b)]).*1)) as Hok'.
    { eapply pool_ok_perm; [|exact Hok]. rewrite fmap_app. cbn. by rewrite Permutation_app_comm. }
    assert (pending i (live (dgram_buf_list st)) = None) as Hpi by by rewrite <- pending_live.
    eexists a, b, _, _, _. split; [done|]. split; [lia|]. split_and!; try done.
    + split; cbn; try done.
      * rewrite (pool_alloc_memory _ _ _ Ea). lia.
      * unfold live_ids. rewrite live_app, Hl0, !fmap_app. cbn. apply NoDup_app. split_and!; [done| |apply NoDup_singleton].
        intros x Hx ->%list_elem_of_singleton. by apply (pending_None i (dgram_buf_list st)).
    + rewrite pending_app, Hpi. cbn. by rewrite bool_decide_true.
    + apply get_buf_elem; [|set_solver]. by eapply pool_live_nodup.
    + intros k Hk. rewrite pending_app, <- pending_live. destruct (pending k _); [done|]. cbn. by rewrite bool_decide_false.
  - destruct Hw as (a & b & Hp & Hfr & Hme & Hbl). rewrite Hp. cbn [from_option fst].
    assert (0 < a) as Ha0.
    { destruct (pending_Some _ _ _ _ Hp) as (Hin & _). destruct (live_block _ _ _ a Hpool) as (k & Hk & ->).
      - change a with ((a, b).1). by apply list_elem_of_fmap_2.
      - pose proof (po_size _ _ _ Hpool). unfold block. nia. }
    destruct (Z.eqb_spec a 0); [lia|]. eexists a, b, bl0, pl0, _. split; [done|]. split; [done|].
    assert (forall k, pending k bl0 = pending k (dgram_buf_list st)) as Hpk
      by (intros k; by rewrite pending_live, Hl0, <- pending_live).
    split_and!; try done.
    + split; cbn; try done. lia.
    + by rewrite Hpk.
    + apply get_buf_elem; [|by apply Hs0]. by eapply pool_live_nodup.
Qed.

(** One fragment more: what is left to do once it is in the buffer. *)
Lemma defrag_prefix irq st p l : frag_ok st -> waiting st l -> (l = [] -> zlen (live (dgram_buf_list st)) < nb) ->
  piece_ok hlen hl i T (mem st) p -> p_skb p ∉ p_skb <$> l -> 0 <= sum_len l < 2 ^ 31 - 65536 ->
  exists a b bl pl tm t, frag_ok (FragState bl pl tm (mem st)) /\ pending i bl = Some (a, b) /\
    (forall k, k <> i -> pending k bl = pending k (dgram_buf_list st)) /\
    let last := hlen + hl + p_off p + p_len p =? zlen T in
    let b' := DgramBuf (p_skb <$> (l ++ [p])) i last (sum_len (l ++ [p])) (max_end (l ++ [p])) t false in
    ip_defrag irq (p_skb p) st =
      if last && (sum_len (l ++ [p]) =? max_end (l ++ [p])) then
        '(r, b, m) ← build_packet irq b' (mem st);
        Some (r, FragState (upd_buf a b bl) pl tm m)
      else Some (0, FragState (upd_buf a b' bl) pl tm (mem st)).
Proof.
  intros Hok Hw Hroom Hp Hni Hsum. destruct (find_or_create st l Hok Hw Hroom) as (a0 & bl0 & pl0 & E0 & a & b & bl & pl & tm &
    E1 & Ha & Hok' & Hpe & Hget & Hoth & Hfr & Hme & Hbl).
  destruct (add_skb_ok (mem st) p b l Hp (fo_mem _ Hok) Hni Hfr Hme Hbl Hsum) as [t Et].
  destruct (pending_Some _ _ _ _ Hpe) as (_ & Hid & Hdel).
  destruct Hp as [Hrcv Hfg]. destruct (frag_read hlen hl i T HT _ _ _ _ _ Hrcv Hfg) as [iph [Hi Hii _ Hdf _ (f & Hf & Hmf) _]].
  exists a, b, bl, pl, tm, t. split_and!; try done. cbv zeta. unfold ip_defrag. rewrite Hi. cbn [mbind option_bind]. rewrite Hdf.
  cbn [mbind option_bind]. rewrite Hsupp. cbn [negb orb Z.eqb]. rewrite Hii. cbn [mbind option_bind]. rewrite E0.
  cbn [mbind option_bind]. rewrite E1. cbn [mbind option_bind]. destruct (Z.eqb_spec a 0); [done|]. cbn [negb dgram_buf_list mem].
  rewrite Hget. cbn [mbind option_bind]. rewrite Et. cbn [mbind option_bind]. rewrite Hf. cbn [mbind option_bind meat blen fragments id_of buf_ttl is_deleted].
  rewrite Hmf, Hid, Hdel. done.
Qed.

(** A fragment that does not complete the datagram is kept. *)
Lemma defrag_keeps irq st p l : frag_ok st -> waiting st l -> (l = [] -> zlen (live (dgram_buf_list st)) < nb) ->
  piece_ok hlen hl i T (mem st) p -> p_skb p ∉ p_skb <$> l -> 0 <= sum_len l < 2 ^ 31 - 65536 ->
  hlen + hl + p_off p + p_len p <> zlen T \/ sum_len (l ++ [p]) <> max_end (l ++ [p]) ->
  exists st', ip_defrag irq (p_skb p) st = Some (0, st') /\ frag_ok st' /\ waiting st' (l ++ [p]) /\ mem st' = mem st /\
    forall k, k <> i -> pending k (dgram_buf_list st') = pending k (dgram_buf_list st).
Proof.
  intros Hok Hw Hroom Hp Hni Hsum Hnot.
  destruct (defrag_prefix irq st p l Hok Hw Hroom Hp Hni Hsum) as (a & b & bl & pl & tm & t & Hok' & Hpe & Hoth & E).
  cbv zeta in E. set (b' := DgramBuf _ i _ _ _ t false) in E.
  destruct (pending_upd i bl a b b') as (Hp' & Hk' & Hnd' & _); [by eapply pool_live_nodup, Hok'|apply Hok'|done|done|].
  exists (FragState (upd_buf a b' bl) pl tm (mem st)). rewrite E.
  destruct (Z.eqb_spec (hlen + hl + p_off p + p_len p) (zlen T)), (Z.eqb_spec (sum_len (l ++ [p])) (max_end (l ++ [p])));
    cbn [andb]; try (exfalso; tauto).
  all: split_and!; try done.
  all: try (split; cbn; [apply Hok'|rewrite upd_buf_fst; apply Hok'|apply Hok'|done]).
  all: try (intros k Hk; cbn; rewrite Hk' by done; by apply Hoth).
  all: destruct l; cbn; exists a, b'; done.
Qed.

(** The last fragment completes it. *)
Lemma defrag_completes irq st p l s m0 : frag_ok st -> waiting st l -> (l = [] -> zlen (live (dgram_buf_list st)) < nb) ->
  Forall (piece_ok hlen hl i T (mem st)) (l ++ [p]) -> NoDup (p_skb <$> (l ++ [p])) -> 0 <= sum_len l < 2 ^ 31 - 65536 ->
  hlen + hl + p_off p + p_len p = zlen T -> sum_len (l ++ [p]) = zlen T - (hlen + hl) ->
  max_end (l ++ [p]) = zlen T - (hlen + hl) -> complete hlen hl T (l ++ [p]) ->
  skb_alloc irq (zlen T) (mem st) = Some (s, m0) -> s <> 0 ->
  exists st', ip_defrag irq (p_skb p) st = Some (s, st') /\ frag_ok st' /\ waiting st' [] /\
    rcv_skb hlen (hlen + hl) (mem st') s T /\ (forall t, t ∈ p_skb <$> (l ++ [p]) -> skbs (mem st') !! t = None) /\
    (forall t, t <> s -> t ∉ p_skb <$> (l ++ [p]) -> view (mem st') t = view (mem st) t) /\
    forall k, k <> i -> pending k (dgram_buf_list st') = pending k (dgram_buf_list st).
Proof.
  intros Hok Hw Hroom Hps Hnd Hsum Hend Hs1 Hs2 Hc Ea Hs0.
  assert (piece_ok hlen hl i T (mem st) p) as Hp by (apply Forall_app in Hps as [_ [? _]%Forall_cons]; done).
  assert (p_skb p ∉ p_skb <$> l) as Hni.
  { rewrite fmap_app in Hnd. apply NoDup_app in Hnd as (_ & Hd & _). intros Hin. apply (Hd _ Hin). by left. }
  destruct (defrag_prefix irq st p l Hok Hw Hroom Hp Hni Hsum) as (a & b & bl & pl & tm & t & Hok' & Hpe & Hoth & E).
  cbv zeta in E. rewrite Hend, Hs1, Hs2, !Z.eqb_refl in E. cbn [andb] in E.
  set (b' := DgramBuf _ i _ _ _ t false) in E.
  destruct (build_packet_ok np nd Hopts hlen hl i T HT irq b' (mem st) (l ++ [p]) s m0) as (m' & Eb & Hmok & Hrcv & Hfs & Hgone & Hview);
    try done; [apply Hok|].
  rewrite Eb in E. cbn [mbind option_bind] in E. set (b2 := DgramBuf [] _ _ _ _ _ true) in E.
  destruct (pending_upd i bl a b b2) as (Hp' & Hk' & Hnd' & _); [by eapply pool_live_nodup, Hok'|apply Hok'|done|done|].
  eexists. split; [exact E|]. split_and!; try done.
  - split; cbn; [done|rewrite upd_buf_fst; apply Hok'|apply Hok'|done].
  - intros k Hk. cbn. rewrite Hk' by done. by apply Hoth.
Qed.

(** [ip_defrag] on one buffer after the other. *)
Fixpoint defrag_all (irq : bool) (ss : list Z) st : option (list Z * frag_state (H := H)) :=
  match ss with
  | [] => Some ([], st)
  | s :: ss => '(r, st) ← ip_defrag irq s st; '(rs, st) ← defrag_all irq ss st; Some (r :: rs, st)
  end.

Lemma defrag_all_app irq s1 s2 st : defrag_all irq (s1 ++ s2) st =
  '(r1, st) ← defrag_all irq s1 st; '(r2, st) ← defrag_all irq s2 st; Some (r1 ++ r2, st).
Proof.
  revert st. induction s1 as [|s s1 IH]; intros st; cbn [app defrag_all].
  - cbn. destruct (defrag_all irq s2 st) as [[? ?]|]; done.
  - destruct (ip_defrag irq s st) as [[r st1]|]; [|done]. cbn [mbind option_bind]. rewrite IH.
    destruct (defrag_all irq s1 st1) as [[r1 st2]|]; [|done]. cbn [mbind option_bind].
    destruct (defrag_all irq s2 st2) as [[r2 st3]|]; done.
Qed.

Lemma sum_len_nonneg (m : skmem (H := H)) l : Forall (piece_ok hlen hl i T m) l -> 0 <= sum_len l.
Proof.
  induction 1 as [|p l [_ [_ (_ & _ & Hn & _) _ _ _ _ _ _]] _ IH]; [done|]. unfold sum_len in *. cbn. lia.
Qed.

Lemma max_end_le (m : skmem (H := H)) l : Forall (piece_ok hlen hl i T m) l -> max_end l <= zlen T - (hlen + hl).
Proof.
  induction 1 as [|p l [_ [_ (_ & _ & Hn & Hon) _ _ _ _ _ _]] _ IH]; unfold max_end in *; cbn; [|lia].
  destruct HT. unfold IP_MIN_HEADER_SIZE in *. lia.
Qed.

(** As long as no piece completes the datagram, all are kept. *)
Lemma defrag_all_keeps irq l2 : forall st l1, frag_ok st -> waiting st l1 -> zlen (live (dgram_buf_list st)) < nb \/ l1 <> [] ->
  Forall (piece_ok hlen hl i T (mem st)) (l1 ++ l2) -> NoDup (p_skb <$> (l1 ++ l2)) ->
  sum_len (l1 ++ l2) < 65536 ->
  (forall k q k', l2 = k ++ q :: k' -> hlen + hl + p_off q + p_len q <> zlen T \/
     sum_len (l1 ++ k ++ [q]) <> max_end (l1 ++ k ++ [q])) ->
  exists st', defrag_all irq (p_skb <$> l2) st = Some (replicate (length l2) 0, st') /\ frag_ok st' /\ waiting st' (l1 ++ l2) /\
    mem st' = mem st /\ (l1 ++ l2 = [] -> st' = st) /\
    forall k, k <> i -> pending k (dgram_buf_list st') = pending k (dgram_buf_list st).
Proof.
  induction l2 as [|p l2 IH]; intros st l1 Hok Hw Hroom Hps Hnd Hsum Hne.
  { rewrite app_nil_r in *. by exists st. }
  rewrite cons_middle, app_assoc in Hps, Hnd, Hsum. pose proof (Hne [] p l2 eq_refl) as Hp. cbn [app] in Hp.
  pose proof (proj1 (Forall_app _ _ _) Hps) as [Hps1 Hps2]. pose proof (sum_len_nonneg _ _ Hps2) as H2.
  pose proof (proj1 (Forall_app _ _ _) Hps1) as [Hl1 [Hpok _]%Forall_cons]. pose proof (sum_len_nonneg _ _ Hl1) as H1.
  rewrite !sum_len_app in Hsum. assert (0 < p_len p) as Hpl by (destruct Hpok as [_ [_ (_ & _ & ? & _) _ _ _ _ _ _]]; done).
  unfold sum_len at 2 in Hsum. cbn in Hsum.
  destruct (defrag_keeps irq st p l1 Hok Hw) as (st1 & E1 & Hok1 & Hw1 & Hm1 & Hk1); try done; try lia.
  - intros ->. by destruct Hroom.
  - rewrite <- app_assoc, fmap_app in Hnd. apply NoDup_app in Hnd as (_ & Hd & _). intros Hin. apply (Hd _ Hin). by left.
  - destruct (IH st1 (l1 ++ [p])) as (st2 & E2 & Hok2 & Hw2 & Hm2 & _ & Hk2); try done.
    + right. by destruct l1.
    + by rewrite Hm1.
    + rewrite !sum_len_app. cbn. lia.
    + intros k q k' ->. rewrite <- app_assoc. by apply (Hne (p :: k) q k').
    + rewrite <- app_assoc in Hw2. exists st2. rewrite fmap_cons. cbn [defrag_all length replicate]. rewrite E1.
      cbn [mbind option_bind]. rewrite E2. split_and!; try done; [congruence|by destruct l1|].
      intros k Hk. rewrite Hk2 by done. by apply Hk1.
Qed.

(** The datagram is complete when its last fragment comes last. *)
Lemma defrag_run irq st l p s m0 : frag_ok st -> waiting st [] -> zlen (live (dgram_buf_list st)) < nb ->
  Forall (piece_ok hlen hl i T (mem st)) (l ++ [p]) -> NoDup (p_skb <$> (l ++ [p])) ->
  Forall (fun q => hlen + hl + p_off q + p_len q <> zlen T) l -> hlen + hl + p_off p + p_len p = zlen T ->
  sum_len (l ++ [p]) = zlen T - (hlen + hl) -> complete hlen hl T (l ++ [p]) ->
  skb_alloc irq (zlen T) (mem st) = Some (s, m0) -> s <> 0 ->
  exists st', defrag_all irq (p_skb <$> (l ++ [p])) st = Some (replicate (length l) 0 ++ [s], st') /\ frag_ok st' /\
    waiting st' [] /\ rcv_skb hlen (hlen + hl) (mem st') s T /\
    (forall t, t ∈ p_skb <$> (l ++ [p]) -> skbs (mem st') !! t = None) /\
    (forall t, t <> s -> t ∉ p_skb <$> (l ++ [p]) -> view (mem st') t = view (mem st) t) /\
    forall k, k <> i -> pending k (dgram_buf_list st') = pending k (dgram_buf_list st).
Proof.
  intros Hok Hw Hroom Hps Hnd Hne Hend Hsum Hc Ea Hs0. pose proof HT as [Hhlen Hhl Hlen _]. unfold IP_MIN_HEADER_SIZE in Hhl.
  pose proof (proj1 (Forall_app _ _ _) Hps) as [Hl [Hp _]%Forall_cons].
  pose proof (sum_len_nonneg _ _ Hl). assert (0 <= p_off p /\ 0 < p_len p) as [Hpo Hpl]
    by (destruct Hp as [_ [_ (? & _ & ? & _) _ _ _ _ _ _]]; done).
  pose proof Hsum as Hsum'. rewrite sum_len_app in Hsum'. unfold sum_len at 2 in Hsum'. cbn in Hsum'.
  destruct (defrag_all_keeps irq l st [] Hok Hw) as (st1 & E1 & Hok1 & Hw1 & Hm1 & Hst1 & Hk1); try done.
  - by left.
  - rewrite fmap_app in Hnd. by apply NoDup_app in Hnd as [? _].
  - cbn [app]. lia.
  - intros k q k' ->. left. apply Forall_app in Hne as [_ [Hq _]%Forall_cons]. done.
  - cbn [app] in *.
    destruct (defrag_completes irq st1 p l s m0) as (st2 & E2 & Hok2 & Hw2 & Hr2 & Hg2 & Hv2 & Hk2); try done; try lia;
      try (rewrite Hm1; done).
    + intros ->. by rewrite (Hst1 eq_refl).
    + pose proof (max_end_le _ _ Hps). rewrite max_end_app in * by lia. pose proof (max_end_nonneg l). lia.
    + exists st2. rewrite fmap_app in *. rewrite defrag_all_app, E1. cbn [mbind option_bind fmap list_fmap defrag_all].
      rewrite E2. rewrite Hm1 in Hv2. split_and!; try done.
      intros k Hk. rewrite Hk2 by done. by apply Hk1.
Qed.

End FragTheorems.

(** C40: fragments that arrive after the last one of their datagram are
    collected in vain.  [ip_defrag] notes whether the fragment at hand is the last, not
    whether the last has been received: if any fragment comes later than it,
    every call answers that fragments are missing, and the datagram goes on
    waiting with all of them. *)
Theorem defrag_misses_reordered `{A : arch} `{!ArchOk A} `{O : skb_opts} `{I : ip_opts} {H} `{!SysHeap H} `{!SysHeapOk H}
  np nd nb hlen hl i T irq (st : frag_state (H := H)) l1 e l2 :
  8 <= MODOPS_DATA_SIZE < 2 ^ 30 /\ 0 <= IP_ALIGN_SIZE <= 2 -> IP_FRAGMENTED_SUPP = true -> datagram hlen hl T ->
  frag_ok np nd nb st -> waiting i st [] -> zlen (live (dgram_buf_list st)) < nb ->
  Forall (piece_ok hlen hl i T (mem st)) (l1 ++ e :: l2) -> NoDup (p_skb <$> (l1 ++ e :: l2)) ->
  hlen + hl + p_off e + p_len e = zlen T -> Forall (fun q => hlen + hl + p_off q + p_len q <> zlen T) (l1 ++ l2) ->
  sum_len (l1 ++ e :: l2) = zlen T - (hlen + hl) -> complete hlen hl T (l1 ++ e :: l2) -> l2 <> [] ->
  exists st', defrag_all irq (p_skb <$> (l1 ++ e :: l2)) st = Some (replicate (length (l1 ++ e :: l2)) 0, st') /\
    frag_ok np nd nb st' /\ waiting i st' (l1 ++ e :: l2).
Proof.
  intros Hopts Hsupp HT Hok Hw Hroom Hps Hnd He Hne Hsum _ Hl2. pose proof HT as [Hhlen Hhl Hlen _].
  unfold IP_MIN_HEADER_SIZE in Hhl.
  destruct (defrag_all_keeps np nd nb Hopts Hsupp hlen hl i T HT irq (l1 ++ e :: l2) st [] Hok Hw)
    as (st1 & E1 & Hok1 & Hw1 & _); try done; [by left|cbn [app]; lia| |by exists st1].
  intros k q k' Hk. cbn [app]. destruct (decide (hlen + hl + p_off q + p_len q = zlen T)) as [Hq|]; [right|by left].
  destruct k' as [|r k'].
  - (* the last to arrive is not the end *)
    exfalso. destruct (exists_last Hl2) as (l2' & r & ->). rewrite app_comm_cons, app_assoc in Hk.
    apply app_inj_tail in Hk as [_ ->]. apply Forall_app in Hne as [_ [_ [Hr _]%Forall_cons]%Forall_app]. done.
  - (* something is missing *)
    rewrite Hk in Hps, Hsum. rewrite cons_middle, app_assoc in Hps, Hsum.
    pose proof (proj1 (Forall_app _ _ _) Hps) as [Hps1 [Hr Hps2]%Forall_cons].
    pose proof (sum_len_nonneg _ _ _ _ _ _ Hps2). rewrite sum_len_app in Hsum. unfold sum_len at 2 in Hsum. cbn in Hsum.
    fold (sum_len k') in Hsum. destruct Hr as [_ [_ (_ & _ & Hrl & _) _ _ _ _ _ _]].
    pose proof (proj1 (Forall_app _ _ _) Hps1) as [_ [[_ [_ (Hqo & _ & Hql & _) _ _ _ _ _ _]] _]%Forall_cons].
    rewrite max_end_app by lia. lia.
Qed.

(** ** An example: 50 bytes of data in three fragments *)

#[local] Existing Instance lp64.
#[local] Instance demo_skb_opts : skb_opts := SkbOpts 64 0.
#[local] Instance demo_ip_opts : ip_opts := IpOpts true.

Definition demo_id : buf_id := BufId 0x0a000001 0x0a000002 0x1234 17.

(** The [n] bytes at [o] of the data, behind the headers. *)
Definition demo_frame (tot off o n : Z) : list Z :=
  replicate 14 1 ++ [69; 0; 0; tot; 0x12; 0x34] ++ bytes16 off ++ [64; 17; 0; 0; 10; 0; 0; 1; 10; 0; 0; 2] ++
  ((fun k => 100 + k) <$> seqZ o n).

Definition demo_frames : list (list Z) := [demo_frame 44 0x2000 0 24; demo_frame 22 6 48 2; demo_frame 44 0x2003 24 24].

Definition demo_rx (ls : list (list Z)) : frag_state (H := Z) :=
  FragState [] (POOL_DEF 300000 64 4) false (default (skmem_init 8 8) (snd <$> frame_skbs 5 14 34 ls (skmem_init 8 8))).

Lemma demo_rx_ok ls q m : frame_skbs 5 14 34 ls (skmem_init 8 8) = Some (q, m) -> Forall (fun l => 0 < zlen l < 2 ^ 31) ls ->
  frag_ok 8 8 4 (demo_rx ls) /\ waiting demo_id (demo_rx ls) [] /\ zlen (live (dgram_buf_list (demo_rx ls))) < 4.
Proof.
  intros E Hls. split_and!; [split|done|done]; try done.
  - unfold demo_rx. rewrite E. cbn. eapply frame_skbs_ok; [cbn; lia| |done..]. apply skmem_init_ok; vm_compute; congruence.
  - by apply pool_def_ok.
  - apply NoDup_nil_2.
Qed.

(** The fragment in the buffer [s], checked by evaluation. *)
Lemma demo_piece s o n ls : o = 0 /\ n = 24 \/ o = 24 /\ n = 24 \/ o = 48 /\ n = 2 ->
  let fr := demo_frame (20 + n) (o / 8 + if o + n =? 50 then 0 else IP_MF) o n in
  rcv_skb 14 34 (mem (demo_rx ls)) s fr ->
  piece_ok 14 20 demo_id (demo_frame 70 0x2000 0 50) (mem (demo_rx ls)) (Piece s fr o n).
Proof.
  intros Hon fr Hr. split; [done|]. cbn [p_frame p_off p_len]. unfold fr.
  assert (forall n, 0 <= n -> zlen (demo_frame 70 0x2000 0 n) = 34 + n) as Hz.
  { intros k Hk. unfold demo_frame, zlen. cbn. rewrite length_fmap, length_seqZ. lia. }
  assert (forall tot off o n j, 0 <= j < n -> znth (demo_frame tot off o n) (34 + j) = Some (100 + (o + j))) as Hd.
  { intros tot off o' n' j Hj. unfold demo_frame. rewrite !app_assoc. rewrite znth_app by lia.
    match goal with |- context [zlen ?a] => change (zlen a) with 34 end.
    destruct (Z.ltb_spec (34 + j) 34); [lia|]. rewrite znth_lookup, list_lookup_fmap, lookup_seqZ_lt by lia.
    cbn. f_equal. lia. }
  split.
  - unfold demo_frame, zlen. cbn. rewrite length_fmap, length_seqZ. lia.
  - rewrite Hz by lia. split; [lia|]. split; [|lia]. destruct Hon as [[-> _]|[[-> _]|[-> _]]]; [by exists 0|by exists 3|by exists 6].
  - done.
  - done.
  - rewrite Hz by lia. by destruct Hon as [[-> ->]|[[-> ->]|[-> ->]]].
  - by exists 64.
  - intros j Hj. change (14 + 20) with 34. rewrite <- Z.add_assoc, !Hd by lia. done.
  - intros -> j Hj H2 H3. destruct Hon as [[_ ->]|[[? _]|[? _]]]; [|done..].
    assert (Forall (fun j => j = 16 \/ j = 17 \/ znth (demo_frame (20 + 24) (0 / 8 + (if 0 + 24 =? 50 then 0 else IP_MF)) 0 24) j =
      znth (demo_frame 70 0x2000 0 50) j) (seqZ 0 34)) as Hall by (apply (bool_decide_unpack _); vm_compute; exact I).
    rewrite Forall_forall in Hall. destruct (Hall j) as [->|[->|?]]; [apply elem_of_seqZ; lia|lia|lia|done].
Qed.

Lemma defrag_misses_reordered_witness :
  exists st', defrag_all false [4096; 4160; 4224] (demo_rx demo_frames) = Some ([0; 0; 0], st') /\ frag_ok 8 8 4 st' /\
    exists a b, pending demo_id (dgram_buf_list st') = Some (a, b) /\ fragments b = [4096; 4160; 4224] /\ meat b = 50.
Proof.
  destruct (defrag_misses_reordered 8 8 4 14 20 demo_id (demo_frame 70 0x2000 0 50) false (demo_rx demo_frames)
    [Piece 4096 (demo_frame 44 0x2000 0 24) 0 24] (Piece 4160 (demo_frame 22 6 48 2) 48 2)
    [Piece 4224 (demo_frame 44 0x2003 24 24) 24 24]) as (st' & E & Hok & a & b & Hb & Hf & Hm & _).
  - cbn. lia.
  - done.
  - split; try done; unfold IP_MIN_HEADER_SIZE; try lia; vm_compute; done.
  - eapply demo_rx_ok; [vm_compute; reflexivity|by repeat constructor].
  - done.
  - done.
  - repeat apply Forall_cons_2; [apply (demo_piece 4096 0 24)|apply (demo_piece 4160 48 2)|apply (demo_piece 4224 24 24)|apply Forall_nil_2].
    all: try lia; apply holds_frame_ok; vm_compute; reflexivity.
  - apply (bool_decide_unpack _). vm_compute. exact I.
  - done.
  - apply (bool_decide_unpack _). vm_compute. exact I.
  - done.
  - intros j Hj. change (zlen (demo_frame 70 0x2000 0 50) - (14 + 20)) with 50 in Hj. apply Exists_cons. cbn.
    destruct (Z.ltb_spec j 24); [left; lia|right]. apply Exists_cons. cbn. destruct (Z.ltb_spec j 48); [right|left; lia].
    apply Exists_cons. left. cbn. lia.
  - done.
  - exists st'. split; [exact E|]. split; [exact Hok|]. exists a, b. split; [exact Hb|]. split; [exact Hf|exact Hm].
Defined.
