(* ===== verification/IpFragSend.v ===== *)
(** Taking a datagram apart: [ip_frag] of [IpFrag.v]. *)
From S2P Require Import Prelude Pool Skb SkbTheorems Ip IpFrag IpFragFacts.

Local Open Scope Z_scope.
Local Open Scope embox_scope.

Section FragSend.
Context `{A : arch} `{!ArchOk A} `{B : byteorder} `{O : skb_opts} `{I : ip_opts} {H : Type} `{!SysHeap H} `{!SysHeapOk H}.
Context (np nd : Z) (Hopts : 8 <= MODOPS_DATA_SIZE < 2 ^ 30 /\ 0 <= IP_ALIGN_SIZE <= 2).
Context (hdr_len : Z -> Z) (hlen hl : Z) (P : list Z).
Implicit Types m : skmem (H := H).

(** The buffer [s] of a packet [fr] to be sent, for the device [dv]. *)
Definition sent m (s : Z) (fr : list Z) : Prop :=
  exists x d, skb_wf m s x d /\ mac x = skb_get_data_pointner (data x) /\ nh x = mac x + hlen /\
    take (Z.to_nat (len x)) (bytes d) = fr.

(** The packet [P] to be taken apart. *)
Context (Hhlen : 0 <= hlen < 256) (Hhl : IP_MIN_HEADER_SIZE <= hl <= 60) (HP : hlen + hl < zlen P < hlen + 65536).
Context (Hsize : IP_HEADER_SIZE (drop (Z.to_nat hlen) P) = Some hl).

(** The frame [fr] has the [n] bytes at [o] of the data, behind the headers of [P]
    with the length and the fragment offset changed. *)
Record frame_of (fr : list Z) (o n mf : Z) : Prop := {
  fr_len : zlen fr = hlen + hl + n;
  fr_head : forall j, 0 <= j < hlen + hl -> j <> hlen + 2 -> j <> hlen + 3 -> j <> hlen + 6 -> j <> hlen + 7 ->
    znth fr j = znth P j;
  fr_tot : znth fr (hlen + 2) = Some ((hl + n) / 256) /\ znth fr (hlen + 3) = Some ((hl + n) mod 256);
  fr_off : znth fr (hlen + 6) = Some ((o / 8 + mf) / 256) /\ znth fr (hlen + 7) = Some ((o / 8 + mf) mod 256);
  fr_data : forall j, 0 <= j < n -> znth fr (hlen + hl + j) = znth P (hlen + hl + o + j)
}.

Lemma lor_mf k mf : 0 <= k < 8192 -> mf = 0 \/ mf = IP_MF -> Z.lor k mf = k + mf.
Proof.
  intros Hk [->| ->]; [by rewrite Z.lor_0_r, Z.add_0_r|]. rewrite <- Z.lxor_lor, <- Z.add_nocarry_lxor; [done|..].
  all: change IP_MF with (2 ^ 13); apply Z.bits_inj'; intros j Hj; rewrite Z.land_spec, Z.bits_0, Z.pow2_bits_eqb by lia;
    destruct (Z.eqb_spec 13 j) as [<-|]; [rewrite (bounded_high_bit 13) by lia; done|by rewrite andb_false_r].
Qed.

(** The bytes of a new fragment, from the four writes to its data. *)
Lemma frame_bytes z l1 l2 l3 l4 o n mf : 0 <= o -> 0 < n -> hlen + hl + o + n <= zlen P -> (8 | o) -> mf = 0 \/ mf = IP_MF ->
  hlen + hl + n <= zlen z -> zlen l1 = zlen z -> zlen l2 = zlen z -> zlen l3 = zlen z -> zlen l4 = zlen z ->
  (forall j, 0 <= j -> znth l1 j = if (0 <=? j) && (j <? 0 + (hlen + hl)) then znth P (0 + (j - 0)) else znth z j) ->
  (forall j, 0 <= j -> znth l2 j =
     if (hlen + hl <=? j) && (j <? hlen + hl + n) then znth P (hlen + hl + o + (j - (hlen + hl))) else znth l1 j) ->
  (forall j, 0 <= j -> znth l3 j =
     if (hlen + 6 <=? j) && (j <? hlen + 6 + 2) then znth [(o / 8 + mf) / 256; (o / 8 + mf) mod 256] (j - (hlen + 6)) else znth l2 j) ->
  (forall j, 0 <= j -> znth l4 j =
     if (hlen + 2 <=? j) && (j <? hlen + 2 + 2) then znth [(hl + n) / 256; (hl + n) mod 256] (j - (hlen + 2)) else znth l3 j) ->
  frame_of (take (Z.to_nat (hlen + hl + n)) l4) o n mf.
Proof.
  intros Ho Hn Hon H8 Hmf Hz H1 H2 H3 H4 E1 E2 E3 E4. unfold IP_MIN_HEADER_SIZE in Hhl.
  assert (forall j, 0 <= j < hlen + hl + n -> znth (take (Z.to_nat (hlen + hl + n)) l4) j = znth l4 j) as Et.
  { intros j Hj. rewrite !znth_lookup by lia. apply lookup_take_lt. lia. }
  split.
  - unfold zlen in *. rewrite length_take. lia.
  - intros j Hj Hj2 Hj3 Hj6 Hj7. rewrite Et, E4 by lia.
    destruct (Z.leb_spec (hlen + 2) j), (Z.ltb_spec j (hlen + 2 + 2)); cbn [andb]; try lia.
    all: rewrite E3 by lia; destruct (Z.leb_spec (hlen + 6) j), (Z.ltb_spec j (hlen + 6 + 2)); cbn [andb]; try lia.
    all: rewrite E2 by lia; destruct (Z.leb_spec (hlen + hl) j); cbn [andb]; try lia.
    all: rewrite E1 by lia; destruct (Z.leb_spec 0 j), (Z.ltb_spec j (0 + (hlen + hl))); cbn [andb]; try lia; f_equal; lia.
  - rewrite !Et, !E4 by lia. replace (hlen + 2 - (hlen + 2)) with 0 by lia. replace (hlen + 3 - (hlen + 2)) with 1 by lia.
    destruct (Z.leb_spec (hlen + 2) (hlen + 2)), (Z.ltb_spec (hlen + 2) (hlen + 2 + 2)), (Z.leb_spec (hlen + 2) (hlen + 3)),
      (Z.ltb_spec (hlen + 3) (hlen + 2 + 2)); cbn [andb]; try lia. done.
  - rewrite !Et, !E4 by lia. destruct (Z.ltb_spec (hlen + 6) (hlen + 2 + 2)), (Z.ltb_spec (hlen + 7) (hlen + 2 + 2)); try lia.
    rewrite !andb_false_r, !E3 by lia. replace (hlen + 6 - (hlen + 6)) with 0 by lia. replace (hlen + 7 - (hlen + 6)) with 1 by lia.
    destruct (Z.leb_spec (hlen + 6) (hlen + 6)), (Z.ltb_spec (hlen + 6) (hlen + 6 + 2)), (Z.leb_spec (hlen + 6) (hlen + 7)),
      (Z.ltb_spec (hlen + 7) (hlen + 6 + 2)); cbn [andb]; try lia. done.
  - intros j Hj. rewrite Et, E4 by lia.
    destruct (Z.leb_spec (hlen + 2) (hlen + hl + j)), (Z.ltb_spec (hlen + hl + j) (hlen + 2 + 2)); cbn [andb]; try lia.
    rewrite E3 by lia. destruct (Z.leb_spec (hlen + 6) (hlen + hl + j)), (Z.ltb_spec (hlen + hl + j) (hlen + 6 + 2)); cbn [andb]; try lia.
    rewrite E2 by lia. destruct (Z.leb_spec (hlen + hl) (hlen + hl + j)), (Z.ltb_spec (hlen + hl + j) (hlen + hl + n)); cbn [andb]; try lia.
    f_equal. lia.
Qed.

Definition source m (s : Z) : Prop :=
  exists x d, skb_wf m s x d /\ mac x = skb_get_data_pointner (data x) /\ nh x = mac x + hlen /\
    take (Z.to_nat (len x)) (bytes d) = P /\ hdr_len (dev x) = hlen /\ dev x <> 0.

(** [m'] has the buffers of [m], with more besides. *)
Definition extends m m' : Prop :=
  (forall t, is_Some (skbs m !! t) -> skbs m' !! t = skbs m !! t) /\
  (forall e, is_Some (datas m !! e) -> datas m' !! e = datas m !! e).

Lemma source_size m s x d : skb_wf m s x d -> nh x = mac x + hlen -> mac x = skb_get_data_pointner (data x) ->
  take (Z.to_nat (len x)) (bytes d) = P -> exists iph, iph_of m s = Some iph /\ IP_HEADER_SIZE iph = Some hl.
Proof.
  intros [Hs Hd [Hl Hlen] _ _ _] Hn Hm Hb. unfold IP_MIN_HEADER_SIZE in Hhl.
  destruct (rcv_skb_bytes (bytes d) (len x) P ltac:(lia) Hb) as [Hz [r Hr]].
  exists (drop (Z.to_nat hlen) P ++ r). split.
  - unfold iph_of. rewrite Hs. cbn [mbind option_bind]. rewrite Hd. cbn [mbind option_bind].
    replace (nh x - skb_get_data_pointner (data x)) with hlen by lia. unfold zread. rewrite Hr, zlen_app.
    pose proof (zlen_nonneg r). destruct (Z.leb_spec 0 hlen), (Z.leb_spec 0 (zlen P + zlen r - hlen)),
      (Z.leb_spec (hlen + (zlen P + zlen r - hlen)) (zlen P + zlen r)); try lia. cbn [andb].
    rewrite drop_app_le by (unfold zlen in *; lia). rewrite take_ge; [done|].
    rewrite length_app, length_drop. unfold zlen in *. lia.
  - rewrite <- Hsize. unfold IP_HEADER_SIZE, ihl. rewrite get8_app; [done|]. unfold zlen in *. rewrite length_drop. lia.
Qed.

(** Filling the new buffer [f] with the data [z] at [d']. *)
Lemma frag_fill m0 f d' z e d o n mf : let y := Skb 0 (hlen + hl + n) 0 0 (skb_get_data_pointner d') d' 0 0 in
  skbs m0 !! f = Some y -> datas m0 !! d' = Some z -> 0 < d' -> hlen + hl + n <= zlen (bytes z) ->
  datas m0 !! e = Some d -> (exists r, bytes d = P ++ r) -> e <> d' ->
  0 <= o -> 0 < n -> hlen + hl + o + n <= zlen P -> (8 | o) -> mf = 0 \/ mf = IP_MF ->
  exists m1 m2 m4 m', copy_bytes d' (skb_get_data_pointner d') e (skb_get_data_pointner e) (hlen + hl) m0 = Some m1 /\
    copy_bytes d' (skb_get_data_pointner d' + (hlen + hl)) e (skb_get_data_pointner e + (hlen + hl + o)) n m1 = Some m2 /\
    write_iph (put_skb f (Skb 0 (hlen + hl + n) 0 (skb_get_data_pointner d' + hlen) (skb_get_data_pointner d') d' 0 0) m2) f 6
      (bytes16 (u16 (Z.lor (Z.shiftr (hlen + hl + o - (hlen + hl)) 3) mf))) = Some m4 /\
    write_iph m4 f 2 (bytes16 (u16 (hlen + hl + n - hlen))) = Some m' /\ only_skb np nd f d' m0 m' /\
    exists fr, sent m' f fr /\ frame_of fr o n mf.
Proof.
  intros y Hf Hz Hd' Hcz He [r Hr] Hne Ho Hn0 Hon H8 Hmf. unfold IP_MIN_HEADER_SIZE in Hhl.
  pose proof (zlen_nonneg r). pose proof (zlen_app P r) as Hza. rewrite <- Hr in Hza.
  destruct (copy_bytes_ok d' e 0 0 (hlen + hl) m0 d z) as (l1 & E1 & Hl1 & Hj1); try done; try lia.
  rewrite !Z.add_0_r in E1. set (m1 := put_data d' _ m0) in E1.
  destruct (copy_bytes_ok d' e (hlen + hl) (hlen + hl + o) n m1 d (SkbData (links z) (alloc_type z) l1))
    as (l2 & E2 & Hl2 & Hj2); cbn [bytes]; try lia; [by cbn; rewrite lookup_insert_ne|by cbn; rewrite lookup_insert_eq|].
  cbn [links alloc_type] in *. set (m2 := put_data d' _ m1) in E2.
  set (y2 := Skb 0 (hlen + hl + n) 0 (skb_get_data_pointner d' + hlen) (skb_get_data_pointner d') d' 0 0). set (m3 := put_skb f y2 m2).
  destruct (write_iph_ok m3 f y2 (SkbData (links z) (alloc_type z) l2) 6
    (bytes16 (u16 (Z.lor (Z.shiftr (hlen + hl + o - (hlen + hl)) 3) mf)))) as (l3 & E3 & Hl3 & Hj3); cbn [nh data bytes y2 y];
    [cbn; apply lookup_insert_eq|cbn; apply lookup_insert_eq|lia|change (zlen (bytes16 _)) with 2; cbn in *; lia|].
  cbn [links alloc_type data y2 y bytes nh] in *. set (m4 := put_data d' _ m3) in E3.
  destruct (write_iph_ok m4 f y2 (SkbData (links z) (alloc_type z) l3) 2
    (bytes16 (u16 (hlen + hl + n - hlen)))) as (l4 & E4 & Hl4 & Hj4); cbn [nh data bytes y2 y];
    [cbn; apply lookup_insert_eq|cbn; apply lookup_insert_eq|lia|change (zlen (bytes16 _)) with 2; cbn in *; lia|].
  cbn [links alloc_type data y2 y bytes nh] in *. set (m5 := put_data d' _ m4) in E4. exists m1, m2, m4, m5.
  do 4 (split; [done|]). split.
  - eapply only_skb_trans; [by apply (only_skb_put_data np nd f m0 d' z l1)|].
    eapply only_skb_trans; [apply (only_skb_put_data np nd f m1 d' (SkbData (links z) (alloc_type z) l1) l2); cbn; apply lookup_insert_eq|].
    eapply only_skb_trans; [apply (only_skb_put_skb np nd f m2 d' y y2); [done|done]|].
    eapply only_skb_trans; [apply (only_skb_put_data np nd f m3 d' (SkbData (links z) (alloc_type z) l2) l3); cbn; apply lookup_insert_eq|].
    apply (only_skb_put_data np nd f m4 d' (SkbData (links z) (alloc_type z) l3) l4). cbn. apply lookup_insert_eq.
  - exists (take (Z.to_nat (hlen + hl + n)) l4). split.
    + exists y2, (SkbData (links z) (alloc_type z) l4). split_and!; try done. split; cbn; try lia.
      * apply lookup_insert_eq.
      * apply lookup_insert_eq.
    + assert (0 <= o / 8 + mf < 65536 /\ 0 <= hl + n < 65536) as [Hv Hw].
      { destruct H8 as [k ->]. rewrite Z.div_mul by lia. unfold IP_MF in Hmf. lia. }
      replace (hlen + hl + o - (hlen + hl)) with o in Hj3 by lia. rewrite Z.shiftr_div_pow2 in Hj3 by lia. change (2 ^ 3) with 8 in Hj3.
      rewrite lor_mf, bytes16_small in Hj3; [|done| |done].
      2: { split; [apply Z.div_pos; lia|apply Z.div_lt_upper_bound; lia]. }
      replace (hlen + hl + n - hlen) with (hl + n) in Hj4 by lia. rewrite bytes16_small in Hj4 by done.
      assert (forall j, 0 <= j < zlen P -> znth (bytes d) j = znth P j) as HPj.
      { intros j Hj. rewrite Hr, znth_app by lia. destruct (Z.ltb_spec j (zlen P)); [done|lia]. }
      apply (frame_bytes (bytes z) l1 l2 l3 l4); try done; try lia.
      * intros j Hj. rewrite Hj1 by done. destruct (Z.leb_spec 0 j), (Z.ltb_spec j (0 + (hlen + hl))); cbn [andb]; try done.
        apply HPj. lia.
      * intros j Hj. rewrite Hj2 by done. destruct (Z.leb_spec (hlen + hl) j), (Z.ltb_spec j (hlen + hl + n)); cbn [andb]; try done.
        apply HPj. lia.
      * intros j Hj. rewrite Hj3 by done. change (zlen [_; _]) with 2.
        by replace (skb_get_data_pointner d' + hlen - skb_get_data_pointner d' + 6) with (hlen + 6) by lia.
      * intros j Hj. rewrite Hj4 by done. change (zlen [_; _]) with 2.
        by replace (skb_get_data_pointner d' + hlen - skb_get_data_pointner d' + 2) with (hlen + 2) by lia.
Qed.

Lemma frag_build_ok irq m s o n mf : skmem_ok np nd [] m -> source m s -> 0 <= o -> 0 < n -> hlen + hl + o + n <= zlen P ->
  (8 | o) -> mf = 0 \/ mf = IP_MF ->
  exists f m', ip_frag_build hdr_len irq s (hlen + hl + o) (hlen + hl + n) mf m = Some (f, m') /\ skmem_ok np nd [] m' /\
    extends m m' /\
    (f = 0 /\ skbs m' = skbs m /\ (no_data nd m (hlen + hl + n) \/ no_buffer np m) \/
     0 < f /\ skbs m !! f = None /\ (forall t, t <> f -> skbs m' !! t = skbs m !! t) /\
       (forall y, skbs m' !! f = Some y -> datas m !! data y = None) /\
       exists fr, sent m' f fr /\ frame_of fr o n mf).
Proof.
  intros Hok (x & d & Hwf & Hm & Hn & Hb & Hdv & Hd0) Ho Hn0 Hon H8 Hmf. unfold IP_MIN_HEADER_SIZE in Hhl.
  destruct (source_size m s x d Hwf Hn Hm Hb) as (iph & Ei & Es). destruct Hwf as [Hs Hd [Hl Hlc] _ _ _].
  destruct (rcv_skb_bytes (bytes d) (len x) P ltac:(lia) Hb) as [Hz Hr].
  unfold ip_frag_build. rewrite Hs. cbn [mbind option_bind]. rewrite Ei. cbn [mbind option_bind]. rewrite Es.
  cbn [mbind option_bind]. rewrite (ul_32 (hlen + hl + n)) by lia.
  destruct (skb_alloc_ok np nd Hopts [] m irq (hlen + hl + n) Hok) as (f & m0 & E0 & Hok0 & Hr0); [lia|]. rewrite E0.
  cbn [mbind option_bind]. destruct Hr0 as [(-> & Hs0 & Hdd & Hwhy)|(Hf & Hfs & d' & z & Hd' & Hfd & Hlz & Hcz & Hs0 & Hdd)].
  { exists 0, m0. split; [done|]. split; [done|]. split; [|by left]. split; intros; by rewrite ?Hs0, ?Hdd. }
  assert (data x <> d') as Hne by congruence.
  destruct (frag_fill m0 f d' z (data x) d o n mf) as (m1 & m2 & m4 & m' & E1 & E2 & E4 & E5 & Honly & Hfr); try done;
    [by rewrite Hs0, lookup_insert_eq|by rewrite Hdd, lookup_insert_eq|by rewrite Hdd, lookup_insert_ne|].
  destruct (Z.eqb_spec f 0); [lia|]. rewrite Hs0, lookup_insert_eq. cbn [mbind option_bind data mac dev len h nh p_data p_data_end].
  rewrite Hdv, Hm, E1. cbn [mbind option_bind].
  replace (ul (hlen + hl + n - (hlen + hl))) with n by (rewrite ul_32; lia). rewrite E2. cbn [mbind option_bind]. rewrite E4.
  cbn [mbind option_bind]. rewrite E5. cbn [mbind option_bind]. exists f, m'. destruct Honly as (Ho1 & Ho2 & Ho3 & Ho4 & _).
  split; [done|]. split; [by apply Ho3|].
  assert (forall t, t <> f -> skbs m' !! t = skbs m !! t) as Hot.
  { intros t Ht. by rewrite Ho1, Hs0, lookup_insert_ne. }
  split; [|right; split_and!; try done].
  2: { intros y Hy. rewrite Hs0, Hy, lookup_insert_eq in Ho4. cbn in Ho4. by injection Ho4 as ->. }
  split.
  - intros t [w Hw]. apply Hot. congruence.
  - intros e [w Hw]. rewrite Ho2, Hdd, lookup_insert_ne; congruence.
Qed.

(** * The queue of fragments *)

(** The pieces from [o] to [e], one after the other. *)
Fixpoint tiled (o : Z) (l : list piece) (e : Z) : Prop :=
  match l with [] => o = e | p :: l => p_off p = o /\ 0 < p_len p /\ tiled (o + p_len p) l e end.

Lemma tiled_app o l1 l2 e e' : tiled o l1 e -> tiled e l2 e' -> tiled o (l1 ++ l2) e'.
Proof. revert o. induction l1 as [|p l1 IH]; intros o; cbn; [by intros ->|]. intros (? & ? & ?) ?. auto. Qed.

Definition spiece m (mf : Z) (p : piece) : Prop :=
  sent m (p_skb p) (p_frame p) /\ frame_of (p_frame p) (p_off p) (p_len p) mf.

(** The buffers [q] are new since [mi], with data of their own. *)
Record queued mi m (q : list Z) : Prop := {
  qu_ok : skmem_ok np nd [] m;
  qu_ext : extends mi m;
  qu_nodup : NoDup q;
  qu_in : forall t, t ∈ q -> is_Some (skbs m !! t) /\ skbs mi !! t = None;
  qu_only : forall t, skbs mi !! t = None -> t ∉ q -> skbs m !! t = None;
  qu_data : forall t y, t ∈ q -> skbs m !! t = Some y -> datas mi !! data y = None;
  qu_alone : forall t, t ∈ q -> alone m t
}.

Lemma sent_same m m' t fr : sent m t fr -> skbs m' !! t = skbs m !! t ->
  (forall y, skbs m !! t = Some y -> bytes <$> datas m' !! data y = bytes <$> datas m !! data y) -> sent m' t fr.
Proof.
  intros (x & d & [Hs Hd Hl Hm Hn Hh] & H1 & H2 & H3) Hss Hb. specialize (Hb x Hs). rewrite Hd in Hb. cbn in Hb.
  destruct (datas m' !! data x) as [d'|] eqn:Ed; [|done]. cbn in Hb. injection Hb as Hb.
  exists x, d'. rewrite Hb. split_and!; try done. split; try done; [by rewrite Hss|by rewrite Hb].
Qed.

Lemma extends_sent m m' t fr : extends m m' -> sent m t fr -> sent m' t fr.
Proof.
  intros [He1 He2] Hs. pose proof Hs as (x & d & [Hx Hd _ _ _ _] & _). eapply sent_same; [done|by apply He1; eauto|].
  intros y Hy. simplify_eq. rewrite He2; [done|]. by rewrite Hd.
Qed.

Lemma extends_source m m' s : extends m m' -> source m s -> source m' s.
Proof.
  intros He (x & d & [Hs Hd Hl H1 H2 H3] & Hr). exists x, d. split; [|done]. destruct He as [He1 He2].
  split; try done; [by rewrite He1|by rewrite He2].
Qed.

Lemma queued_push mi m m' q f : queued mi m q -> skmem_ok np nd [] m' -> extends m m' -> 0 < f -> skbs m !! f = None ->
  (forall t, t <> f -> skbs m' !! t = skbs m !! t) -> (forall y, skbs m' !! f = Some y -> datas m !! data y = None) ->
  is_Some (skbs m' !! f) -> skb_queue_push q f = q ++ [f] /\ queued mi m' (q ++ [f]).
Proof.
  intros [Hok [He1 He2] Hnd Hin Hon Hda Hal] Hok' [Hx1 Hx2] Hf Hfn Hot Hfd Hfs.
  assert (f ∉ q) as Hfq by (intros Hq; destruct (Hin f Hq) as [[y Hy] _]; congruence).
  assert (skbs mi !! f = None) as Hfi.
  { destruct (skbs mi !! f) as [y|] eqn:E; [|done]. rewrite He1 in Hfn by (by rewrite E). congruence. }
  split.
  - unfold skb_queue_push. destruct (Z.eqb_spec f 0); [lia|]. f_equal. apply filter_all. intros y Hy ->. done.
  - split; try done.
    + split; intros t Ht; [rewrite Hx1, He1|rewrite Hx2, He2]; try done; [by rewrite He1|by rewrite He2].
    + apply NoDup_app. split_and!; [done| |apply NoDup_singleton]. by intros t Ht ->%list_elem_of_singleton.
    + intros t [Ht| ->%list_elem_of_singleton]%elem_of_app; [|done]. rewrite Hot by (by intros ->). by apply Hin.
    + intros t Hti [Htq Htf]%not_elem_of_app. apply not_elem_of_cons in Htf as [Htf _]. rewrite Hot by done. by apply Hon.
    + intros t y [Ht| ->%list_elem_of_singleton]%elem_of_app Hy.
      * rewrite Hot in Hy by (by intros ->). by eapply Hda.
      * specialize (Hfd y Hy). destruct (datas mi !! data y) eqn:E; [|done]. rewrite He2 in Hfd by (by rewrite E). congruence.
    + assert (forall u z y, u <> f -> skbs m' !! u = Some z -> skbs m' !! f = Some y -> data z <> data y) as Hne.
      { intros u z y Hu Hz Hy Heq. rewrite Hot in Hz by done. destruct (sm_data _ _ _ _ Hok u z Hz) as [? Hd].
        rewrite Heq, (Hfd y Hy) in Hd. done. }
      intros t [Ht| ->%list_elem_of_singleton]%elem_of_app y u z Hy Hu Hz; [|by eapply Hne].
      destruct (decide (u = f)) as [->|]; [intros Heq; by eapply (Hne t); [intros ->|..]|].
      rewrite Hot in Hy, Hz by (done || by intros ->). by eapply Hal.
Qed.

Lemma queued_ext mi m m' q : queued mi m q -> skmem_ok np nd [] m' -> extends m m' -> skbs m' = skbs m -> queued mi m' q.
Proof.
  intros [_ [He1 He2] Hnd Hin Hon Hda Hal] Hok [Hx1 Hx2] Hs. split; try done; try (by rewrite Hs); [|by unfold alone in *; rewrite Hs].
  split; intros t Hi; [rewrite Hx1, He1|rewrite Hx2, He2]; try done; [by rewrite He1|by rewrite He2].
Qed.

Lemma queued_purge mi q : forall m, queued mi m q -> exists m', skb_queue_purge q m = Some m' /\ queued mi m' [].
Proof.
  induction q as [|f q IH]; intros m [Hok [He1 He2] Hnd Hin Hon Hda Hal]; [by exists m|].
  apply NoDup_cons in Hnd as [Hf Hnd]. destruct (Hin f) as [[x Hx] Hfi]; [by left|].
  destruct (skb_free_others np nd Hopts m f x Hok Hx) as (m1 & E1 & Hok1 & Hs1 & Hd1 & _). cbn [skb_queue_purge]. rewrite E1.
  cbn [mbind option_bind]. apply IH. split; try done.
  - split.
    + intros t Ht. rewrite Hs1, lookup_delete_ne; [by apply He1|]. intros <-. rewrite Hfi in Ht. by destruct Ht.
    + intros e He. rewrite Hd1; [by apply He2|]. intros ->. rewrite (Hda f x) in He by (done || by left). by destruct He.
  - intros t Ht. rewrite Hs1, lookup_delete_ne by congruence. apply Hin. by right.
  - intros t Hti Ht. rewrite Hs1. destruct (decide (t = f)) as [->|]; [apply lookup_delete_eq|].
    rewrite lookup_delete_ne by done. apply Hon; [done|]. by apply not_elem_of_cons.
  - intros t y Ht Hy. rewrite Hs1, lookup_delete_ne in Hy by congruence. eapply Hda; [by right|done].
  - intros t Ht y u z Hy Hu Hz. rewrite Hs1 in Hy, Hz. apply lookup_delete_Some in Hy as [_ Hy], Hz as [_ Hz].
    eapply Hal; [by right|done..].
Qed.

(** * [ip_frag] *)

(** What the loop leaves: the pieces up to [o], or nothing when memory runs
    out. *)
Definition loop_result mi (c : Z) (r o : Z) (q : list Z) m : Prop :=
  (r = - ENOMEM /\ q = [] /\ queued mi m []) \/
  (r = 0 /\ hlen + hl + o < zlen P <= hlen + hl + o + c /\ (8 | o) /\ 0 <= o /\ exists l, q = p_skb <$> l /\ queued mi m q /\
     tiled 0 l o /\ Forall (spiece m IP_MF) l /\ Forall (fun p => p_len p = c) l).

Lemma frag_loop_ok irq mi s c fuel : (8 | c) -> 0 < c -> hlen + hl + c <= zlen P -> source mi s ->
  forall m l o, queued mi m (p_skb <$> l) -> tiled 0 l o -> Forall (spiece m IP_MF) l -> Forall (fun p => p_len p = c) l ->
    (8 | o) -> 0 <= o -> hlen + hl + o < zlen P -> zlen P - (hlen + hl + o) < Z.of_nat fuel ->
  exists r o' q m', frag_loop hdr_len fuel irq s (hlen + hl) (hlen + hl + c) (hlen + hl + o) (p_skb <$> l) m =
    Some (r, hlen + hl + o', q, m') /\ loop_result mi c r o' q m'.
Proof.
  intros H8 Hc HcP Hsrc. unfold IP_MIN_HEADER_SIZE in Hhl. induction fuel as [|fuel IH]; intros m l o Hq Ht Hl Hcl Ho8 Ho HoP Hfuel.
  { lia. }
  pose proof (extends_source _ _ s (qu_ext _ _ _ Hq) Hsrc) as Hsm. pose proof Hsm as (x & d & Hwf & _ & _ & Htk & _).
  pose proof Hwf as [Hs _ [Hlen Hlc] _ _ _]. destruct (rcv_skb_bytes (bytes d) (len x) P ltac:(lia) Htk) as [Hz _].
  cbn [frag_loop]. rewrite Hs. cbn [mbind option_bind]. rewrite (ul_32 (hlen + hl + o)) by lia.
  rewrite (ul_32 (len x - (hlen + hl + c) + (hlen + hl))) by lia.
  destruct (Z.ltb_spec (hlen + hl + o) (len x - (hlen + hl + c) + (hlen + hl))) as [Hlt|Hge].
  - destruct (frag_build_ok irq m s o c IP_MF (qu_ok _ _ _ Hq) Hsm) as (f & m1 & E1 & Hok1 & Hx1 & Hf); try done; try lia.
    rewrite E1. cbn [mbind option_bind]. destruct Hf as [(-> & Hs1 & _)|(Hf & Hfn & Hot & Hfd & fr & Hsf & Hfr)].
    + cbn [Z.eqb]. destruct (queued_purge mi (p_skb <$> l) m1) as (m2 & E2 & Hq2).
      { by eapply queued_ext. }
      rewrite E2. cbn [mbind option_bind]. exists (- ENOMEM), o, [], m2. split; [done|]. by left.
    + destruct (Z.eqb_spec f 0); [lia|].
      destruct (queued_push mi m m1 (p_skb <$> l) f Hq Hok1 Hx1 Hf Hfn Hot Hfd) as [Ep Hq1].
      { pose proof Hsf as (y & ? & [Hy _ _ _ _ _] & _). eauto. }
      rewrite Ep. replace (hlen + hl + o + (hlen + hl + c - (hlen + hl))) with (hlen + hl + (o + c)) by lia.
      change [f] with (p_skb <$> [Piece f fr o c]). rewrite <- fmap_app. apply IH; try lia.
      * by rewrite fmap_app.
      * eapply tiled_app; [done|]. cbn. split_and!; (done || lia).
      * apply Forall_app. split; [|by apply Forall_singleton; split]. eapply Forall_impl; [exact Hl|]. intros p [Hp1 Hp2].
        split; [by eapply extends_sent|done].
      * apply Forall_app. split; [done|]. by apply Forall_singleton.
      * by apply Z.divide_add_r.
  - exists 0, o, (p_skb <$> l), m. split; [done|]. right. split_and!; try done; try lia. by exists l.
Qed.

Lemma ip_frag_ok irq fuel m s mtu : IP_FRAGMENTED_SUPP = true -> skmem_ok np nd [] m -> source m s ->
  hlen + hl + 8 <= mtu < zlen P -> zlen P <= Z.of_nat fuel ->
  exists r q m', ip_frag hdr_len fuel irq s mtu m = Some (r, q, m') /\
    (r = - ENOMEM /\ q = [] /\ queued m m' [] \/
     r = 0 /\ exists l p, q = p_skb <$> (l ++ [p]) /\ queued m m' q /\ tiled 0 (l ++ [p]) (zlen P - (hlen + hl)) /\
       Forall (spiece m' IP_MF) l /\ spiece m' 0 p /\
       Forall (fun p => 0 < p_len p <= mtu - (hlen + hl) /\ (8 | p_off p)) (l ++ [p])).
Proof.
  intros Hsupp Hok Hsrc Hmtu Hfuel. unfold IP_MIN_HEADER_SIZE in Hhl.
  pose proof Hsrc as (x & d & Hwf & Hm & Hn & Htk & Hdv & Hd0).
  destruct (source_size m s x d Hwf Hn Hm Htk) as (iph & Ei & Es). pose proof Hwf as [Hs _ [Hlen Hlc] _ _ _].
  destruct (rcv_skb_bytes (bytes d) (len x) P ltac:(lia) Htk) as [Hz _].
  unfold ip_frag. rewrite Hs. cbn [mbind option_bind]. destruct (Z.eqb_spec (dev x) 0); [done|]. rewrite Hsupp. cbn [negb].
  rewrite Ei. cbn [mbind option_bind]. rewrite Es. cbn [mbind option_bind]. rewrite Hdv.
  rewrite (wrap_small 32 (mtu - (hlen + hl))) by lia.
  pose proof (Z.div_mod (mtu - (hlen + hl)) 8 ltac:(lia)) as Hdm. pose proof (Z.mod_pos_bound (mtu - (hlen + hl)) 8 ltac:(lia)) as Hmb.
  set (c := 8 * ((mtu - (hlen + hl)) / 8)) in *.
  replace (mtu - (mtu - (hlen + hl)) mod 8) with (hlen + hl + c) by lia. rewrite wrap_small, s32_small by lia.
  assert (0 < c) as Hc by lia. assert (8 | c) as H8c by (unfold c; apply Z.divide_factor_l).
  assert (queued m m []) as Hq0 by (split; (done || apply NoDup_nil_2 || by intros ? ?%elem_of_nil) || by intros ? ? ?%elem_of_nil).
  destruct (frag_loop_ok irq m s c fuel H8c Hc) with (m := m) (l := @nil piece) (o := 0) as (r & o & q & m1 & E1 & Hr1); try done; try lia.
  { apply Z.divide_0_r. }
  rewrite Z.add_0_r in E1. cbn [fmap list_fmap] in E1. rewrite E1. cbn [mbind option_bind].
  destruct Hr1 as [(-> & -> & Hq)|(-> & Ho & Ho8 & Ho0 & l & -> & Hq & Ht & Hl & Hcl)].
  { eexists _, _, _. split; [done|]. by left. }
  cbn [Z.eqb negb]. rewrite (ul_32 (hlen + hl + o)) by lia. destruct (Z.ltb_spec (hlen + hl + o) (len x)); [|lia].
  replace (len x - (hlen + hl + o) + (hlen + hl)) with (hlen + hl + (zlen P - (hlen + hl) - o)) by lia. rewrite s32_small by lia.
  set (k := zlen P - (hlen + hl) - o). pose proof (extends_source _ _ s (qu_ext _ _ _ Hq) Hsrc) as Hsm.
  destruct (frag_build_ok irq m1 s o k 0 (qu_ok _ _ _ Hq) Hsm) as (f & m2 & E2 & Hok2 & Hx2 & Hf); try done; try lia.
  rewrite E2. cbn [mbind option_bind]. destruct Hf as [(-> & Hs2 & _)|(Hf & Hfn & Hot & Hfd & fr & Hsf & Hfr)].
  - cbn [Z.eqb]. destruct (queued_purge m (p_skb <$> l) m2) as (m3 & E3 & Hq3).
    { by eapply queued_ext. }
    rewrite E3. eexists _, _, _. split; [done|]. by left.
  - destruct (Z.eqb_spec f 0); [lia|].
    destruct (queued_push m m1 m2 (p_skb <$> l) f Hq Hok2 Hx2 Hf Hfn Hot Hfd) as [Ep Hq2].
    { pose proof Hsf as (y & ? & [Hy _ _ _ _ _] & _). eauto. }
    rewrite Ep. eexists _, _, _. split; [done|]. right. split; [done|]. exists l, (Piece f fr o k). rewrite fmap_app.
    split_and!; try done.
    + eapply tiled_app; [done|]. cbn. split_and!; lia.
    + eapply Forall_impl; [exact Hl|]. intros p [Hp1 Hp2]. split; [by eapply extends_sent|done].
    + apply Forall_app. split; [|apply Forall_singleton; cbn; split; [lia|done]].
      clear - Hcl Ht Hc Hdm Hmb H8c. assert (8 | 0) as H80 by apply Z.divide_0_r. revert H80 Ht. generalize 0 at 1 2 as b.
      induction Hcl as [|p l Hp Hcl IH]; intros b Hb Ht; [done|]. cbn in Ht. destruct Ht as (Ho & Hpl & Ht).
      cbv beta in Hp. constructor; [split; [lia|by rewrite Ho]|]. eapply IH; [|done]. rewrite Hp. by apply Z.divide_add_r.
Qed.

End FragSend.
