(* ===== verification/IpFragRoundtrip.v ===== *)
(** A datagram through [ip_frag], the checksum, and [ip_defrag]: the frames that
    are sent are accepted, and the receiver has the datagram again. *)
From S2P Require Import Prelude Pool Skb SkbTheorems Ip IpFrag IpFragFacts IpFragList IpFragTheorems IpFragSend.

Local Open Scope Z_scope.
Local Open Scope embox_scope.

Lemma znth_drop {X} (l : list X) k j : 0 <= k -> 0 <= j -> znth (drop (Z.to_nat k) l) j = znth l (k + j).
Proof. intros Hk Hj. rewrite !znth_lookup, lookup_drop by lia. f_equal. lia. Qed.

Lemma znth_fmap_seqZ {X} (f : Z -> X) n j : 0 <= j < n -> znth (f <$> seqZ 0 n) j = Some (f j).
Proof. intros Hj. rewrite znth_lookup, list_lookup_fmap, lookup_seqZ_lt by lia. cbn. f_equal. f_equal. lia. Qed.

Lemma word_bytes x : 0 <= x < 65536 -> is_byte (x / 256) /\ is_byte (x mod 256).
Proof.
  intros Hx. unfold is_byte. pose proof (Z.mod_pos_bound x 256). pose proof (Z.div_pos x 256).
  pose proof (Z.div_lt_upper_bound x 256 256). lia.
Qed.

(** * The tiles of a datagram *)

Lemma tiled_sum l : forall o e, tiled o l e -> sum_len l = e - o.
Proof.
  induction l as [|p l IH]; intros o e; cbn; [intros ->; lia|]. intros (Ho & _ & Ht).
  specialize (IH _ _ Ht). unfold sum_len in IH. lia.
Qed.

Lemma tiled_covers l : forall o e j, tiled o l e -> o <= j < e -> Exists (fun p => p_off p <= j < p_off p + p_len p) l.
Proof.
  induction l as [|p l IH]; intros o e j; cbn; [intros -> ?; lia|]. intros (Ho & Hl & Ht) Hj.
  destruct (Z.ltb_spec j (o + p_len p)); [left; lia|right]. eapply IH; [done|lia].
Qed.

Lemma tiled_range l : forall o e p, tiled o l e -> p ∈ l -> o <= p_off p /\ 0 < p_len p /\ p_off p + p_len p <= e.
Proof.
  induction l as [|q l IH]; intros o e p; cbn; [by intros _ ?%elem_of_nil|]. intros (Ho & Hl & Ht) [->|Hp]%elem_of_cons.
  - assert (o + p_len q <= e); [|lia]. clear -Ht. revert Ht. generalize (o + p_len q). induction l as [|r l IH]; intros z; cbn; [lia|].
    intros (? & ? & Hz%IH). lia.
  - specialize (IH _ _ _ Ht Hp). lia.
Qed.

Lemma tiled_snoc l p : forall o e, tiled o (l ++ [p]) e -> p_off p + p_len p = e /\ Forall (fun q => p_off q + p_len q < e) l.
Proof.
  induction l as [|q l IH]; intros o e; cbn.
  - intros (Ho & _ & He). split; [lia|done].
  - intros (Ho & Hl & Ht). destruct (IH _ _ Ht) as [H1 H2]. split; [done|]. constructor; [|done].
    pose proof (tiled_range _ _ _ p Ht ltac:(apply elem_of_app; right; by left)). lia.
Qed.

Lemma tiled_head p l o e q : tiled o (p :: l) e -> q ∈ p :: l -> p_off q = o -> q = p.
Proof.
  cbn. intros (Ho & Hl & Ht) [->|Hq]%elem_of_cons Hqo; [done|]. pose proof (tiled_range _ _ _ q Ht Hq). lia.
Qed.

(** * The frames on the wire *)

Section Wire.
Context `{A : arch} `{!ArchOk A} `{B : byteorder}.

(** The checksum is set in every fragment before it is sent. *)
Definition wire (hlen : Z) (fr : list Z) : option (list Z) :=
  iph ← ip_set_check_field (drop (Z.to_nat hlen) fr);
  Some (take (Z.to_nat hlen) fr ++ iph).

Lemma wire_spec hlen hl fr : 0 <= hlen <= zlen fr -> header (drop (Z.to_nat hlen) fr) hl ->
  exists w, wire hlen fr = Some w /\ zlen w = zlen fr /\ (forall j, j <> hlen + 10 -> j <> hlen + 11 -> znth w j = znth fr j) /\
    header (drop (Z.to_nat hlen) w) hl /\ ip_set_check_field (drop (Z.to_nat hlen) w) = Some (drop (Z.to_nat hlen) w).
Proof.
  intros Hhlen Hh. destruct (header_bounds _ _ Hh) as (Hr & Hl & _). unfold wire. rewrite (set_check_ok _ hl Hh). cbn [mbind option_bind].
  set (c := bytes16 _). assert (length c = 2%nat /\ Forall is_byte c) as [Hc Hcb] by apply bytes16_ok.
  set (d := drop (Z.to_nat hlen) fr) in *. assert (zlen d = zlen fr - hlen) as Hd by (unfold d, zlen in *; rewrite length_drop; lia).
  assert (length (take (Z.to_nat hlen) fr) = Z.to_nat hlen) as Htk by (rewrite length_take; unfold zlen in *; lia).
  assert (drop (Z.to_nat hlen) (take (Z.to_nat hlen) fr ++ with_check d c) = with_check d c) as Hdr by (by apply drop_app_length').
  eexists. split; [done|]. rewrite Hdr. split_and!.
  - rewrite zlen_app, with_check_len by (done || lia). unfold zlen at 1. rewrite Htk. lia.
  - intros j H10 H11. destruct (Z.leb_spec 0 j); [|unfold znth; zbool; [lia|done]]. rewrite znth_app by done.
    replace (zlen (take (Z.to_nat hlen) fr)) with hlen by (unfold zlen; lia). destruct (Z.ltb_spec j hlen).
    + rewrite !znth_lookup by done. apply lookup_take_lt. lia.
    + rewrite with_check_znth by (done || lia). unfold d. rewrite znth_drop by lia. f_equal. lia.
  - by apply header_with_check.
  - rewrite (set_check_ok _ hl) by (by apply header_with_check). by rewrite !with_check_twice by (done || lia).
Qed.

(** A datagram to be sent. *)
Record packet (hlen hl : Z) (i : buf_id) (P : list Z) : Prop := {
  pk_hlen : 0 <= hlen < 256;
  pk_hdr : header (drop (Z.to_nat hlen) P) hl;
  pk_version : version (drop (Z.to_nat hlen) P) = Some 4;
  pk_len : hlen + hl < zlen P < hlen + 65536;
  pk_tot : tot_len (drop (Z.to_nat hlen) P) = Some (zlen P - hlen);
  pk_id : id_of_iph (drop (Z.to_nat hlen) P) = Some i
}.

Context (hlen hl : Z) (i : buf_id) (P : list Z) (HP : packet hlen hl i P).

Lemma packet_hl : 20 <= hl <= 60.
Proof. pose proof (header_bounds _ _ (pk_hdr _ _ _ _ HP)). lia. Qed.

Lemma packet_byte j b : znth P j = Some b -> hlen <= j -> is_byte b.
Proof.
  intros E Hj. pose proof (hd_bytes _ _ (pk_hdr _ _ _ _ HP)) as Hb. pose proof (pk_hlen _ _ _ _ HP).
  replace j with (hlen + (j - hlen)) in E by lia. rewrite <- znth_drop, znth_lookup in E by lia.
  rewrite Forall_lookup in Hb. by eapply Hb.
Qed.

(** A frame has the bytes of [P] in its header, up to the fields that differ. *)
Lemma frame_header fr o n mf : frame_of hlen hl P fr o n mf -> 0 <= o -> 0 < n -> hlen + hl + o + n <= zlen P -> mf = 0 \/ mf = IP_MF ->
  header (drop (Z.to_nat hlen) fr) hl /\ version (drop (Z.to_nat hlen) fr) = Some 4 /\
  tot_len (drop (Z.to_nat hlen) fr) = Some (hl + n).
Proof.
  intros [Hl Hh [Ht1 Ht2] [Hf1 Hf2] Hd] Ho Hn Hon Hmf. pose proof packet_hl as Hhl. pose proof HP as [Hhlen [_ Hsz _] Hv Hlen _ _].
  unfold IP_HEADER_SIZE, ihl, version, tot_len, get8, get16 in *. rewrite znth_drop, Z.add_0_r in * by lia.
  rewrite (Hh hlen) by lia. split; [split|split].
  - apply Forall_lookup. intros k b Hk. assert (znth fr (hlen + Z.of_nat k) = Some b) as E.
    { rewrite <- znth_drop, znth_lookup by lia. by rewrite Nat2Z.id. }
    assert (0 <= o / 8 + mf < 65536) as Hw.
    { pose proof (Z.div_le_upper_bound o 8 8191). pose proof (Z.div_pos o 8). destruct Hmf as [->| ->]; unfold IP_MF; lia. }
    assert (0 <= hl + n < 65536) as Hw' by lia.
    pose proof (znth_Some _ _ _ E). destruct (Z.ltb_spec (Z.of_nat k) hl).
    + destruct (decide (Z.of_nat k = 2)) as [Ek|]; [rewrite Ek, Ht1 in E|destruct (decide (Z.of_nat k = 3)) as [Ek|];
        [rewrite Ek, Ht2 in E|destruct (decide (Z.of_nat k = 6)) as [Ek|]; [rewrite Ek, Hf1 in E|destruct (decide (Z.of_nat k = 7)) as [Ek|];
        [rewrite Ek, Hf2 in E|rewrite Hh in E by lia; eapply packet_byte; [done|lia]]]]]; injection E as <-; by apply word_bytes.
    + replace (hlen + Z.of_nat k) with (hlen + hl + (Z.of_nat k - hl)) in E by lia. rewrite Hd in E by lia.
      eapply packet_byte; [done|lia].
  - unfold IP_HEADER_SIZE, ihl, get8. rewrite znth_drop, Z.add_0_r by lia. by rewrite (Hh hlen) by lia.
  - unfold IP_MIN_HEADER_SIZE, zlen in *. rewrite length_drop. lia.
  - done.
  - change (2 + 1) with 3. rewrite !znth_drop by lia. rewrite Ht1, Ht2. cbn. f_equal. pose proof (Z.div_mod (hl + n) 256 ltac:(lia)). lia.
Qed.

Lemma wire_ok fr o n mf : frame_of hlen hl P fr o n mf -> 0 <= o -> 0 < n -> hlen + hl + o + n <= zlen P -> mf = 0 \/ mf = IP_MF ->
  exists w, wire hlen fr = Some w /\ zlen w = hlen + hl + n /\
    (forall j, j <> hlen + 10 -> j <> hlen + 11 -> znth w j = znth fr j) /\
    ip_rcv_header (zlen w) hlen (drop (Z.to_nat hlen) w) = Some (inr (drop (Z.to_nat hlen) w)).
Proof.
  intros Hf Ho Hn Hon Hmf. pose proof packet_hl as Hhl. pose proof HP as [Hhlen _ _ Hlen _ _].
  destruct (frame_header fr o n mf Hf Ho Hn Hon Hmf) as (Hh & Hv & Ht). pose proof (fr_len _ _ _ _ _ _ _ Hf) as Hl.
  destruct (wire_spec hlen hl fr ltac:(lia) Hh) as (w & Ew & Hz & Hsame & Hhw & Hfix). exists w. split_and!; try done; [lia|].
  unfold version, tot_len, get16, get8 in Hv, Ht. rewrite !znth_drop in Hv by lia. rewrite !znth_drop in Ht by lia.
  apply (ip_rcv_accepts _ hl _ _ (hl + n)); try done; try lia.
  - unfold version, get8. by rewrite znth_drop, Hsame by lia.
  - unfold tot_len, get16. by rewrite !znth_drop, !Hsame by lia.
Qed.

(** What is put together from the frames, [w0] the one with offset 0. *)
Definition reassembled (w0 : list Z) : list Z :=
  (fun j => default 0 (if (j <? hlen + hl) && negb (j =? hlen + 2) && negb (j =? hlen + 3) then znth w0 j else znth P j))
    <$> seqZ 0 (zlen P).

Lemma reassembled_znth w0 j : hlen + hl <= zlen w0 -> 0 <= j < zlen P -> znth (reassembled w0) j =
  if (j <? hlen + hl) && negb (j =? hlen + 2) && negb (j =? hlen + 3) then znth w0 j else znth P j.
Proof.
  intros Hw Hj. unfold reassembled. rewrite znth_fmap_seqZ by done.
  case_match eqn:E; [destruct (znth_lt w0 j) as [b ->]; [zbool_in E; try done; lia|done]|].
  destruct (znth_lt P j) as [b ->]; [lia|done].
Qed.

Lemma reassembled_len w0 : zlen (reassembled w0) = zlen P.
Proof. unfold reassembled, zlen. rewrite length_fmap, length_seqZ. lia. Qed.

Lemma reassembled_datagram w0 : hlen + hl <= zlen w0 -> datagram hlen hl (reassembled w0).
Proof.
  intros Hw. pose proof packet_hl as Hhl. pose proof HP as [Hhlen _ _ Hlen Ht _]. split; rewrite ?reassembled_len; try done.
  rewrite !reassembled_znth by lia. rewrite !Z.eqb_refl. cbn [negb]. rewrite !andb_false_r. cbn [andb].
  unfold tot_len, get16 in Ht. change (2 + 1) with 3 in Ht. rewrite !znth_drop in Ht by lia.
  destruct (znth P (hlen + 2)) as [a|] eqn:Ea; [|done]. destruct (znth P (hlen + 3)) as [b|] eqn:Eb; [|done]. cbn in Ht.
  injection Ht as <-. pose proof (packet_byte _ _ Ea ltac:(lia)). pose proof (packet_byte _ _ Eb ltac:(lia)). unfold is_byte in *.
  split; f_equal; [apply (Z.div_unique _ _ _ b)|apply (Z.mod_unique _ _ a)]; lia.
Qed.

(** Every frame is a fragment of what is put together. *)
Lemma wire_is_frag fr w w0 o n : let mf := if hlen + hl + o + n =? zlen P then 0 else IP_MF in
  frame_of hlen hl P fr o n mf -> 0 <= o -> (8 | o) -> 0 < n -> hlen + hl + o + n <= zlen P ->
  wire hlen fr = Some w -> hlen + hl <= zlen w0 -> (o = 0 -> w = w0) -> is_frag hlen hl i (reassembled w0) w o n.
Proof.
  intros mf Hf Ho H8 Hn Hon Ew Hw0 Hfirst. assert (mf = 0 \/ mf = IP_MF) as Hmf by (unfold mf; case_match; tauto).
  destruct (wire_ok fr o n mf Hf Ho Hn Hon Hmf) as (w' & Ew' & Hz & Hsame & _). rewrite Ew in Ew'. injection Ew' as <-.
  destruct (frame_header fr o n mf Hf Ho Hn Hon Hmf) as ([Hb Hs _] & _ & _). pose proof packet_hl as Hhl.
  pose proof HP as [Hhlen _ _ Hlen _ Hid]. pose proof Hf as [Hl Hh _ [Hf1 Hf2] Hd].
  assert (forall k, 0 <= k < hl -> k <> 10 -> k <> 11 -> znth (drop (Z.to_nat hlen) w) k = znth fr (hlen + k)) as Hk.
  { intros k Hk H10 H11. rewrite znth_drop by lia. apply Hsame; lia. }
  assert (forall k, 0 <= k < hl -> k <> 10 -> k <> 11 -> k <> 2 -> k <> 3 -> k <> 6 -> k <> 7 ->
    znth (drop (Z.to_nat hlen) w) k = znth P (hlen + k)) as HkP by (intros; rewrite Hk, Hh by lia; done).
  split; rewrite ?reassembled_len; try done.
  - unfold id_of_iph, daddr, saddr, proto, ip_id, get32, get16, get8 in *. rewrite !HkP by lia. rewrite !znth_drop in Hid by lia. done.
  - unfold IP_HEADER_SIZE, ihl, get8 in *. rewrite Hk by lia. rewrite znth_drop in Hs by lia. done.
  - unfold frag_off, get16. change (6 + 1) with 7. rewrite !Hk, Hf1, Hf2 by lia. cbn. f_equal. fold mf.
    pose proof (Z.div_mod (o / 8 + mf) 256 ltac:(lia)). lia.
  - unfold ttl, get8. rewrite HkP by lia. destruct (znth_lt P (hlen + 8)) as [t Et]; [lia|]. exists t. split; [done|].
    eapply packet_byte; [done|lia].
  - intros j Hj. rewrite Hsame, Hd, reassembled_znth by lia. destruct (Z.ltb_spec (hlen + hl + o + j) (hlen + hl)); [lia|done].
  - intros H0 j Hj H2 H3. rewrite (Hfirst H0), reassembled_znth by lia. destruct (Z.ltb_spec j (hlen + hl)); [|lia].
    destruct (Z.eqb_spec j (hlen + 2)), (Z.eqb_spec j (hlen + 3)); done.
Qed.

Lemma reassembled_same fr w0 n mf j : frame_of hlen hl P fr 0 n mf -> wire hlen fr = Some w0 -> 0 < n -> hlen + hl + n <= zlen P ->
  mf = 0 \/ mf = IP_MF -> j <> hlen + 6 -> j <> hlen + 7 -> j <> hlen + 10 -> j <> hlen + 11 ->
  znth (reassembled w0) j = znth P j.
Proof.
  intros Hf Ew Hn Hon Hmf H6 H7 H10 H11.
  destruct (wire_ok fr 0 n mf Hf) as (w' & Ew' & Hz & Hsame & _); [lia..|done|]. rewrite Ew in Ew'. injection Ew' as <-.
  destruct (decide (0 <= j < zlen P)) as [Hj|Hj].
  - rewrite reassembled_znth by lia. case_match eqn:E; [|done]. rewrite Hsame by done. zbool_in E; try done.
    apply (fr_head _ _ _ _ _ _ _ Hf); lia.
  - transitivity (@None Z); [|symmetry]; apply znth_None; rewrite ?reassembled_len; lia.
Qed.

End Wire.

(** * The receiver *)

Section Receive.
Set Default Proof Using "Type".
Context `{A : arch} `{!ArchOk A} `{B : byteorder} `{O : skb_opts} `{I : ip_opts} {H : Type} `{!SysHeap H} `{!SysHeapOk H}.
Context (np nd nb : Z) (Hopts : 8 <= MODOPS_DATA_SIZE < 2 ^ 30 /\ 0 <= IP_ALIGN_SIZE <= 2) (Hsupp : IP_FRAGMENTED_SUPP = true).
Context (hlen hl : Z) (i : buf_id) (P : list Z) (HP : packet hlen hl i P).

(** A piece that is sent: its frame, with the flag that says whether more follow. *)
Definition tile_ok (p : piece) : Prop :=
  frame_of hlen hl P (p_frame p) (p_off p) (p_len p) (if hlen + hl + p_off p + p_len p =? zlen P then 0 else IP_MF) /\ (8 | p_off p).

Lemma tiled_same l l' : Forall2 (fun p r => p_off r = p_off p /\ p_len r = p_len p) l l' -> forall o e, tiled o l e -> tiled o l' e.
Proof. induction 1 as [|p r l l' [Ho Hl] _ IH]; intros o e; cbn; [done|]. rewrite Ho, Hl. intros (-> & ? & ?). auto. Qed.

(** The pieces as they arrive in the buffers [ts]. *)
Lemma arrival m l ws ts : Forall2 (fun p w => wire hlen (p_frame p) = Some w) l ws ->
  Forall2 (rcv_skb (H := H) hlen (hlen + hl) m) ts ws ->
  exists R, ts = p_skb <$> R /\ Forall2 (fun p r => (p_off r = p_off p /\ p_len r = p_len p) /\
    wire hlen (p_frame p) = Some (p_frame r) /\ rcv_skb hlen (hlen + hl) m (p_skb r) (p_frame r)) l R.
Proof.
  intros Hw. revert ts. induction Hw as [|p w l ws Hp _ IH]; intros ts Ht.
  - apply Forall2_nil_inv_r in Ht as ->. by exists [].
  - apply Forall2_cons_inv_r in Ht as (t & ts' & Htw & Hts & ->). destruct (IH ts' Hts) as (R & -> & HR).
    exists (Piece t w (p_off p) (p_len p) :: R). split; [done|]. by constructor.
Qed.

Lemma first_wire p0 l w0 ws : tiled 0 (p0 :: l) (zlen P - (hlen + hl)) -> Forall tile_ok (p0 :: l) ->
  Forall2 (fun p w => wire hlen (p_frame p) = Some w) (p0 :: l) (w0 :: ws) -> hlen + hl <= zlen w0.
Proof using ArchOk0 HP.
  clear Hopts Hsupp.
  intros Ht [[Hf _] _]%Forall_cons [Hw _]%Forall2_cons_1. pose proof Ht as (Ho & Hpl & _).
  pose proof (tiled_range _ _ _ p0 Ht ltac:(by left)).
  destruct (wire_ok hlen hl i P HP _ _ _ _ Hf) as (w & Ew & Hz & _); [lia..|case_match; tauto|].
  rewrite Hw in Ew. injection Ew as <-. lia.
Qed.

Lemma arrival_ok m p0 l ws w0 ts : tiled 0 (p0 :: l) (zlen P - (hlen + hl)) -> Forall tile_ok (p0 :: l) ->
  Forall2 (fun p w => wire hlen (p_frame p) = Some w) (p0 :: l) (w0 :: ws) ->
  Forall2 (rcv_skb (H := H) hlen (hlen + hl) m) ts (w0 :: ws) ->
  exists R, ts = p_skb <$> R /\ tiled 0 R (zlen P - (hlen + hl)) /\ Forall (piece_ok hlen hl i (reassembled hlen hl P w0) m) R.
Proof using ArchOk0 HP.
  clear Hopts Hsupp.
  intros Ht Hl Hw Hr. destruct (arrival _ _ _ _ Hw Hr) as (R & -> & HR). exists R. split; [done|].
  split; [eapply tiled_same; [|done]; eapply Forall2_impl; [exact HR|]; by intros ?? [? _]|].
  pose proof (first_wire _ _ _ _ Ht Hl Hw) as Hw0.
  apply Forall_forall. intros r [k Hk]%list_elem_of_lookup_1.
  destruct (Forall2_lookup_r _ _ _ _ _ HR Hk) as (p & Hp & ((Ho & Hpl) & Ew & Hrs)).
  assert (p ∈ p0 :: l) as Hin by (by eapply list_elem_of_lookup_2). pose proof (tiled_range _ _ _ p Ht Hin).
  rewrite Forall_forall in Hl. destruct (Hl p Hin) as [Hf H8]. split; [done|]. rewrite Ho, Hpl.
  eapply wire_is_frag; try done; try lia. intros Hz0. apply (tiled_head p0 l 0 (zlen P - (hlen + hl)) p Ht Hin) in Hz0 as ->.
  apply Forall2_cons_1 in Hw as [Hw _]. congruence.
Qed.

(** The pieces are put together in every order that ends with the last one. *)
Lemma reassemble_ok irq st p0 l w0 ws ts t ts' s m0 : tiled 0 (p0 :: l) (zlen P - (hlen + hl)) -> Forall tile_ok (p0 :: l) ->
  Forall2 (fun p w => wire hlen (p_frame p) = Some w) (p0 :: l) (w0 :: ws) ->
  Forall2 (rcv_skb (H := H) hlen (hlen + hl) (mem st)) (ts ++ [t]) (w0 :: ws) -> NoDup (ts ++ [t]) -> ts' ≡ₚ ts ->
  frag_ok np nd nb st -> waiting i st [] -> zlen (live (dgram_buf_list st)) < nb ->
  skb_alloc irq (zlen P) (mem st) = Some (s, m0) -> s <> 0 ->
  exists st', defrag_all irq (ts' ++ [t]) st = Some (replicate (length ts') 0 ++ [s], st') /\ frag_ok np nd nb st' /\
    rcv_skb hlen (hlen + hl) (mem st') s (reassembled hlen hl P w0) /\
    (forall u, u ∈ ts' ++ [t] -> skbs (mem st') !! u = None) /\
    (forall u, u <> s -> u ∉ ts' ++ [t] -> view (mem st') u = view (mem st) u) /\
    forall k, k <> i -> pending k (dgram_buf_list st') = pending k (dgram_buf_list st).
Proof using All.
  intros Ht Hl Hw Hr Hnd Hperm Hok Hwait Hroom Ea Hs0.
  destruct (arrival_ok _ _ _ _ _ _ Ht Hl Hw Hr) as (R & ER & HtR & HR).
  destruct (exists_last (l := R)) as (R0 & r & ->). { intros ->. by destruct ts. }
  rewrite fmap_app in ER. cbn in ER. apply app_inj_tail in ER as [-> ->].
  destruct (Permutation_map_inv _ _ Hperm) as (R1 & -> & Hp1). change (map p_skb R1) with (p_skb <$> R1) in *.
  assert (R1 ++ [r] ≡ₚ R0 ++ [r]) as HpR by (by rewrite Hp1).
  destruct (tiled_snoc _ _ _ _ HtR) as [Hend Hne].
  pose proof (first_wire _ _ _ _ Ht Hl Hw) as Hw0.
  pose proof (reassembled_datagram hlen hl i P HP w0 Hw0) as HT. pose proof (reassembled_len hlen hl P w0) as HTl.
  change [p_skb r] with (p_skb <$> [r]) in *. rewrite <- !fmap_app in *.
  destruct (defrag_run np nd nb Hopts Hsupp hlen hl i _ HT irq st R1 r s m0) as (st' & E & Hok' & _ & Hrs & Hgone & Hview & Hpend);
    rewrite ?HTl; try done.
  - by rewrite HpR.
  - by rewrite HpR.
  - rewrite <- Hp1. eapply Forall_impl; [exact Hne|]. intros q Hq. cbv beta in *. lia.
  - lia.
  - rewrite sum_len_app. pose proof (tiled_sum _ _ _ HtR) as Hsum. rewrite sum_len_app in Hsum.
    assert (sum_len R1 = sum_len R0) as ->; [|lia]. clear -Hp1. unfold sum_len. induction Hp1; cbn; lia.
  - intros j Hj. rewrite HTl in Hj. rewrite HpR. eapply tiled_covers; [done|lia].
  - exists st'. rewrite length_fmap. split_and!; try done.
Qed.

(** The frames of the pieces on the wire. *)
Lemma wires_ok l o : tiled o l (zlen P - (hlen + hl)) -> 0 <= o -> Forall tile_ok l ->
  exists ws, Forall2 (fun p w => wire hlen (p_frame p) = Some w) l ws /\
    Forall2 (fun p w => zlen w = hlen + hl + p_len p /\
      ip_rcv_header (zlen w) hlen (drop (Z.to_nat hlen) w) = Some (inr (drop (Z.to_nat hlen) w))) l ws.
Proof using ArchOk0 HP.
  clear Hopts Hsupp.
  intros Ht Ho Hl. revert o Ho Ht. induction Hl as [|p l [Hf _] _ IH]; intros o Ho Ht; [by exists []|].
  pose proof (tiled_range _ _ _ p Ht ltac:(by left)).
  destruct (wire_ok hlen hl i P HP _ _ _ _ Hf) as (w & Ew & Hz & _ & Ha); [lia..|case_match; tauto|].
  destruct Ht as (_ & ? & Ht). destruct (IH (o + p_len p)) as (ws & Hw1 & Hw2); [lia|done|].
  exists (w :: ws). by split; constructor.
Qed.

Lemma tiles_ok m l p : tiled 0 (l ++ [p]) (zlen P - (hlen + hl)) -> Forall (spiece (H := H) hlen hl P m IP_MF) l ->
  spiece hlen hl P m 0 p -> Forall (fun q => (8 | p_off q)) (l ++ [p]) -> Forall tile_ok (l ++ [p]).
Proof.
  clear Hopts Hsupp HP.
  intros Ht Hl [_ Hp] [H8 H8p]%Forall_app. destruct (tiled_snoc _ _ _ _ Ht) as [He Hne]. apply Forall_app. split.
  - rewrite !Forall_forall in *. intros q Hq. split; [|by apply H8]. specialize (Hne q Hq). cbv beta in Hne.
    destruct (Z.eqb_spec (hlen + hl + p_off q + p_len q) (zlen P)); [lia|]. by apply Hl.
  - apply Forall_singleton. apply Forall_cons in H8p as [H8p _]. split; [|done].
    destruct (Z.eqb_spec (hlen + hl + p_off p + p_len p) (zlen P)); [done|lia].
Qed.

End Receive.

(** C6: a datagram larger than the MTU survives fragmentation.  [ip_frag]
    terminates and either reports that memory has run out and leaves every buffer as
    it was, or queues frames no larger than the MTU.  With its checksum set, each
    of them passes the tests of [ip_rcv]; and any receiver with room for
    the datagram, given them in any order that ends with the last, waits until then
    and has the packet back, byte for byte but for the fragment and checksum fields,
    with all fragments freed and every other buffer as it was. *)
Theorem ip_frag_roundtrip `{A : arch} `{!ArchOk A} `{B : byteorder} `{O : skb_opts} `{I : ip_opts} {H} `{!SysHeap H} `{!SysHeapOk H}
  np nd hdr_len hlen hl i P irq fuel (m : skmem (H := H)) s mtu :
  8 <= MODOPS_DATA_SIZE < 2 ^ 30 /\ 0 <= IP_ALIGN_SIZE <= 2 -> IP_FRAGMENTED_SUPP = true -> packet hlen hl i P ->
  skmem_ok np nd [] m -> source hdr_len hlen P m s -> hlen + hl + 8 <= mtu < zlen P -> zlen P <= Z.of_nat fuel ->
  exists r q m', ip_frag hdr_len fuel irq s mtu m = Some (r, q, m') /\ queued np nd m m' q /\
    (r = - ENOMEM /\ q = [] \/
     r = 0 /\ exists fs ws T, Forall2 (sent hlen m') q fs /\ Forall2 (fun f w => wire hlen f = Some w) fs ws /\
       Forall (fun w => zlen w <= mtu /\
         ip_rcv_header (zlen w) hlen (drop (Z.to_nat hlen) w) = Some (inr (drop (Z.to_nat hlen) w))) ws /\
       zlen T = zlen P /\ (forall j, j ∉ [hlen + 6; hlen + 7; hlen + 10; hlen + 11] -> znth T j = znth P j) /\
       forall np' nd' nb irq' (st : frag_state (H := H)) ts t ts' s' m0,
         Forall2 (rcv_skb hlen (hlen + hl) (mem st)) (ts ++ [t]) ws -> NoDup (ts ++ [t]) -> ts' ≡ₚ ts ->
         frag_ok np' nd' nb st -> waiting i st [] -> zlen (live (dgram_buf_list st)) < nb ->
         skb_alloc irq' (zlen P) (mem st) = Some (s', m0) -> s' <> 0 ->
         exists st', defrag_all irq' (ts' ++ [t]) st = Some (replicate (length ts') 0 ++ [s'], st') /\ frag_ok np' nd' nb st' /\
           rcv_skb hlen (hlen + hl) (mem st') s' T /\ (forall u, u ∈ ts' ++ [t] -> skbs (mem st') !! u = None) /\
           (forall u, u <> s' -> u ∉ ts' ++ [t] -> view (mem st') u = view (mem st) u) /\
           forall k, k <> i -> pending k (dgram_buf_list st') = pending k (dgram_buf_list st)).
Proof.
  intros Hopts Hsupp HP Hok Hsrc Hmtu Hfuel. pose proof (packet_hl _ _ _ _ HP) as Hhl.
  pose proof HP as [Hhlen [_ Hsz _] _ Hlen _ _].
  destruct (ip_frag_ok np nd Hopts hdr_len hlen hl P Hhlen Hhl Hlen Hsz irq fuel m s mtu Hsupp Hok Hsrc Hmtu Hfuel)
    as (r & q & m' & E & Hr). exists r, q, m'. split; [done|].
  destruct Hr as [(-> & -> & Hq)|(-> & l & p & -> & Hq & Ht & Hl & Hp & Hc)]; (split; [done|]); [by left|right].
  split; [done|]. assert (Forall (tile_ok hlen hl P) (l ++ [p])) as Htl.
  { eapply tiles_ok; [done..|]. eapply Forall_impl; [exact Hc|]. by intros ? [_ ?]. }
  destruct (wires_ok hlen hl i P HP _ _ Ht ltac:(done) Htl) as (ws & Hw & Hacc).
  destruct (l ++ [p]) as [|p0 l'] eqn:El; [by destruct l|]. destruct ws as [|w0 ws]; [by apply Forall2_length in Hw|].
  exists (p_frame <$> (p0 :: l')), (w0 :: ws), (reassembled hlen hl P w0). split_and!.
  - apply Forall2_fmap. apply Forall_Forall2_diag. rewrite <- El. apply Forall_app. split; [|by apply Forall_singleton, Hp].
    eapply Forall_impl; [exact Hl|]. by intros ? [? _].
  - by apply Forall2_fmap_l.
  - apply Forall_forall. intros w [k Hk]%list_elem_of_lookup_1.
    destruct (Forall2_lookup_r _ _ _ _ _ Hacc Hk) as (x & Hx & Hz & Ha). split; [|done].
    rewrite Forall_lookup in Hc. destruct (Hc k x Hx) as [? _]. lia.
  - apply reassembled_len.
  - intros j Hj. apply not_elem_of_cons in Hj as [H6 Hj]. apply not_elem_of_cons in Hj as [H7 Hj].
    apply not_elem_of_cons in Hj as [H10 Hj]. apply not_elem_of_cons in Hj as [H11 _].
    pose proof (tiled_range _ _ _ p0 Ht ltac:(by left)). pose proof Ht as (Ho & _). apply Forall2_cons_1 in Hw as [Hw _].
    apply Forall_cons in Htl as [[Hf _] _]. rewrite Ho in Hf.
    eapply (reassembled_same hlen hl i P HP); try done; try lia. case_match; tauto.
  - intros. by eapply (reassemble_ok np' nd' nb Hopts Hsupp hlen hl i P HP).
Qed.

(** ** An example: the fragments of [IpFragTheorems.v] *)

Lemma omap_Forall2 {X Y} (f : X -> option Y) l k : Forall2 (fun a b => f a = Some b) l k -> omap f l = k.
Proof. induction 1 as [|a b l k Hab _ IH]; [done|]. cbn. by rewrite Hab, IH. Qed.

Definition frame_in {H} (m : skmem (H := H)) (s : Z) : option (list Z) :=
  x ← skbs m !! s; d ← datas m !! data x; Some (take (Z.to_nat (len x)) (bytes d)).

Lemma sent_frame_in `{O : skb_opts} {H} hlen (m : skmem (H := H)) s fr : sent hlen m s fr -> frame_in m s = Some fr.
Proof. intros (x & d & [Hs Hd _ _ _ _] & _ & _ & <-). unfold frame_in. rewrite Hs. cbn. by rewrite Hd. Qed.

(** The return value, the queue and its frames. *)
Definition outcome {H} (r : option (Z * list Z * skmem (H := H))) : option (Z * list Z * list (list Z)) :=
  match r with Some (e, q, m) => Some (e, q, omap (frame_in m) q) | None => None end.

#[local] Existing Instance lp64.
#[local] Existing Instance demo_skb_opts.
#[local] Existing Instance demo_ip_opts.
#[local] Instance demo_order : byteorder := ByteOrder true.

Definition demo_packet : list Z := demo_frame 70 0 0 50.
Definition demo_tx : skmem (H := Z) := default (skmem_init 8 8) (snd <$> frame_skb 5 14 34 demo_packet (skmem_init 8 8)).
Definition demo_wires : list (list Z) :=
  omap (wire 14) [demo_frame 44 0x2000 0 24; demo_frame 44 0x2003 24 24; demo_frame 22 6 48 2].

Lemma demo_tx_ok : skmem_ok 8 8 [] demo_tx /\ source (fun _ => 14) 14 demo_packet demo_tx 4096.
Proof.
  split.
  - unfold demo_tx. destruct (frame_skb 5 14 34 demo_packet (skmem_init 8 8)) as [[s m]|] eqn:E; cbn.
    + eapply (frame_skb_ok (O := demo_skb_opts) 8 8 ltac:(cbn; lia) 5 14 34 demo_packet); [|split; reflexivity|exact E]. apply skmem_init_ok; vm_compute; congruence.
    + apply skmem_init_ok; vm_compute; congruence.
  - assert (rcv_skb 14 34 demo_tx 4096 demo_packet) as [(x & d & Hwf & Hm & Hn & _ & Ht)]
      by (apply holds_frame_ok; vm_compute; reflexivity).
    exists x, d. split_and!; try done. assert (dev <$> skbs demo_tx !! 4096 = Some 5) as Hd by (vm_compute; reflexivity).
    rewrite (wf_skb _ _ _ _ Hwf) in Hd. cbn in Hd. intros E. rewrite E in Hd. done.
Qed.

Lemma demo_packet_ok : packet 14 20 demo_id demo_packet.
Proof.
  split; [lia|split|reflexivity|split; reflexivity|reflexivity|reflexivity].
  - apply (bool_decide_unpack _). vm_compute. exact I.
  - reflexivity.
  - split; vm_compute; congruence.
Qed.

Lemma ip_frag_roundtrip_witness :
  exists st' T, defrag_all false [4160; 4096; 4224] (demo_rx demo_wires) = Some ([0; 0; 4288], st') /\ frag_ok 8 8 4 st' /\
    rcv_skb 14 34 (mem st') 4288 T /\ zlen T = 84 /\
    forall j, j ∉ [20; 21; 24; 25] -> znth T j = znth demo_packet j.
Proof.
  destruct (ip_frag_roundtrip 8 8 (fun _ => 14) 14 20 demo_id demo_packet false 100 demo_tx 4096 60) as (r & q & m' & E & _ & Hr).
  - cbn. lia.
  - reflexivity.
  - exact demo_packet_ok.
  - apply demo_tx_ok.
  - apply demo_tx_ok.
  - split; [lia|reflexivity].
  - vm_compute. congruence.
  - assert (outcome (ip_frag (fun _ => 14) 100 false 4096 60 demo_tx) =
      Some (0, [4160; 4224; 4288], [demo_frame 44 0x2000 0 24; demo_frame 44 0x2003 24 24; demo_frame 22 6 48 2])) as Ec
      by (vm_compute; reflexivity).
    rewrite E in Ec. cbn [outcome] in Ec. injection Ec as -> -> Hfs.
    destruct Hr as [[? _]|(_ & fs & ws & T & Hs & Hw & _ & Hl & Hsame & Hrcv)]; [discriminate|].
    rewrite (omap_Forall2 (frame_in m') _ fs) in Hfs by (eapply Forall2_impl; [exact Hs|apply sent_frame_in]).
    subst fs. apply omap_Forall2 in Hw. change (demo_wires = ws) in Hw. subst ws.
    destruct (skb_alloc false (zlen demo_packet) (mem (demo_rx demo_wires))) as [[s' m0]|] eqn:Ea.
    + assert (fst <$> skb_alloc false (zlen demo_packet) (mem (demo_rx demo_wires)) = Some 4288) as Es by (vm_compute; reflexivity).
      rewrite Ea in Es. injection Es as ->.
      assert (frag_ok 8 8 4 (demo_rx demo_wires)) as Hok
        by (eapply demo_rx_ok; [vm_compute; reflexivity|apply (bool_decide_unpack _); vm_compute; exact I]).
      destruct (Hrcv 8 8 4 false (demo_rx demo_wires) [4096; 4160] 4224 [4160; 4096] 4288 m0) as (st' & Ed & Hok' & Ht & _).
      * repeat apply Forall2_cons_2; [..|constructor]; apply holds_frame_ok; vm_compute; reflexivity.
      * apply (bool_decide_unpack _). vm_compute. exact I.
      * apply perm_swap.
      * exact Hok.
      * reflexivity.
      * reflexivity.
      * exact Ea.
      * discriminate.
      * exists st', T. split_and!; [exact Ed|exact Hok'|exact Ht|exact Hl|exact Hsame].
    + exfalso. assert (is_Some (fst <$> skb_alloc false (zlen demo_packet) (mem (demo_rx demo_wires)))) as [? Hc]
        by (eexists; vm_compute; reflexivity).
      rewrite Ea in Hc. discriminate Hc.
Defined.
