(* ===== verification/Route.v ===== *)
(** The interfaces and the routing table.

    [net/inetdev.c] and [net/l3/route.c], with the address tests of
    [linux/in.h].  An [in_addr_t] is the value of its four bytes in network
    order: the code only compares addresses and combines them bit by bit, and
    applies [ntohl] before it counts bits.  A [struct net_device *] is its
    address, 0 for [NULL]; [dev_name] gives the names.  The table and the list of
    interfaces are lists of the pool objects on them, with their contents.
    [netdev_register] and [netdev_unregister] are represented by the value they
    return. *)
From S2P Require Import Prelude Bitmap Pool Skb Ip IpFrag.
From stdpp Require Import strings.

Local Open Scope Z_scope.
Local Open Scope embox_scope.

Definition EINVAL : Z := 22.
Definition ENOENT : Z := 2.
Definition ESRCH : Z := 3.
Definition ENODEV : Z := 19.
Definition ENETUNREACH : Z := 101.

Definition INADDR_ANY : Z := 0.
Definition INADDR_LOOPBACK : Z := 0x7f000001.
Definition INADDR_BROADCAST : Z := 0xffffffff.

Definition ipv4_is_loopback (addr : Z) : bool := Z.land addr 0xff000000 =? 0x7f000000.
Definition ipv4_is_multicast (addr : Z) : bool := Z.land addr 0xf0000000 =? 0xe0000000.
Definition ipv4_is_broadcast (addr : Z) : bool := addr =? INADDR_BROADCAST.

(** * Interfaces *)

Record in_device := InDevice {
  if_dev : Z;
  ifa_address : Z;
  ifa_mask : Z;
  ifa_broadcast : Z;
  ip_id_generator : Z
}.

Record inet_state := InetState { inetdev_list : list (Z * in_device); inetdev_pool : pool }.

(** The entry at [a], which has to be on the list. *)
Definition entry_at {X} (a : Z) (l : list (Z * X)) : option X :=
  match filter (fun p => p.1 = a) l with (_, x) :: _ => Some x | [] => None end.
Definition entry_set {X} (a : Z) (x : X) (l : list (Z * X)) : list (Z * X) :=
  (fun p => if p.1 =? a then (a, x) else p) <$> l.
Definition entry_del {X} (a : Z) (l : list (Z * X)) : list (Z * X) := filter (fun p => p.1 <> a) l.

(** The object after [a] on the list, 0 at its end. *)
Fixpoint entry_next {X} (a : Z) (l : list (Z * X)) : option Z :=
  match l with
  | [] => None
  | (b, _) :: l => if b =? a then Some (match l with (c, _) :: _ => c | [] => 0 end) else entry_next a l
  end.

Section Route.
Context `{A : arch}.
Context (dev_name : Z -> string).

Definition inetdev_register_dev (dev ret : Z) (st : inet_state) : option (Z * inet_state) :=
  if dev =? 0 then Some (- EINVAL, st)
  else
    '(o, pl) ← pool_alloc (inetdev_pool st);
    match o with
    | None => Some (- ENOMEM, InetState (inetdev_list st) pl)
    | Some a =>
      if negb (ret =? 0) then
        pl ← pool_free pl a;
        Some (ret, InetState (inetdev_list st) pl)
      else Some (0, InetState (inetdev_list st ++ [(a, InDevice dev 0 0 0 0)]) pl)
    end.

Fixpoint by_name_loop (name : string) (l : list (Z * in_device)) : option Z :=
  match l with
  | [] => Some 0
  | (a, d) :: l =>
    assert! negb (if_dev d =? 0) ;;
    if decide (dev_name (if_dev d) = name) then Some a else by_name_loop name l
  end.

Definition inetdev_get_by_name (name : option string) (st : inet_state) : option Z :=
  match name with None => Some 0 | Some name => by_name_loop name (inetdev_list st) end.

Definition inetdev_get_by_dev (dev : Z) (st : inet_state) : option Z :=
  if dev =? 0 then Some 0 else inetdev_get_by_name (Some (dev_name dev)) st.

Definition inetdev_unregister_dev (dev ret : Z) (st : inet_state) : option (Z * inet_state) :=
  if dev =? 0 then Some (- EINVAL, st)
  else
    a ← inetdev_get_by_dev dev st;
    if a =? 0 then Some (- ESRCH, st)
    else if negb (ret =? 0) then
      pl ← pool_free (inetdev_pool st) a;
      Some (ret, InetState (inetdev_list st) pl)
    else
      let l := entry_del a (inetdev_list st) in
      pl ← pool_free (inetdev_pool st) a;
      Some (0, InetState l pl).

Fixpoint by_addr_loop (addr : Z) (l : list (Z * in_device)) : Z :=
  match l with
  | [] => 0
  | (a, d) :: l => if ifa_address d =? addr then a else by_addr_loop addr l
  end.

Definition inetdev_get_by_addr (addr : Z) (st : inet_state) : Z := by_addr_loop addr (inetdev_list st).

Definition inetdev_get_loopback_dev (st : inet_state) : option Z := inetdev_get_by_name (Some "lo"%string) st.

(** An update of the [in_device] at [a]. *)
Definition upd_in_device (a : Z) (f : in_device -> in_device) (st : inet_state) : option (Z * inet_state) :=
  if a =? 0 then Some (- EINVAL, st)
  else
    d ← entry_at a (inetdev_list st);
    Some (0, InetState (entry_set a (f d) (inetdev_list st)) (inetdev_pool st)).

Definition inetdev_set_addr (a addr : Z) : inet_state -> option (Z * inet_state) :=
  upd_in_device a (fun d => InDevice (if_dev d) addr (ifa_mask d) (ifa_broadcast d) (ip_id_generator d)).
Definition inetdev_set_mask (a mask : Z) : inet_state -> option (Z * inet_state) :=
  upd_in_device a (fun d => InDevice (if_dev d) (ifa_address d) mask (Z.lor (ifa_address d) (wnot 32 mask)) (ip_id_generator d)).
Definition inetdev_set_bcast (a bcast : Z) : inet_state -> option (Z * inet_state) :=
  upd_in_device a (fun d => InDevice (if_dev d) (ifa_address d) (ifa_mask d) bcast (ip_id_generator d)).

Definition inetdev_get_addr (a : Z) (st : inet_state) : option Z :=
  if a =? 0 then Some 0 else ifa_address <$> entry_at a (inetdev_list st).

Definition inetdev_get_ip_id (a : Z) (st : inet_state) : option (Z * inet_state) :=
  assert! negb (a =? 0) ;;
  d ← entry_at a (inetdev_list st);
  let i := u32 (ip_id_generator d + 1) in
  Some (i, InetState (entry_set a (InDevice (if_dev d) (ifa_address d) (ifa_mask d) (ifa_broadcast d) i) (inetdev_list st))
    (inetdev_pool st)).

Definition inetdev_get_first (st : inet_state) : Z := match inetdev_list st with (a, _) :: _ => a | [] => 0 end.
Definition inetdev_get_next (a : Z) (st : inet_state) : option Z :=
  if a =? 0 then Some 0 else entry_next a (inetdev_list st).

Definition IP_LOCAL_BROADCAST : Z := 1.
Definition IP_LOCAL_MULTICAST : Z := 2.

Fixpoint is_local_loop (addr opts : Z) (l : list (Z * in_device)) : bool :=
  match l with
  | [] => false
  | (_, d) :: l =>
    if ifa_address d =? addr then true
    else if negb (Z.land opts IP_LOCAL_BROADCAST =? 0) && (ifa_broadcast d =? addr) then true
    else is_local_loop addr opts l
  end.

Definition ip_is_local (addr opts : Z) (st : inet_state) : bool :=
  if ipv4_is_loopback addr then true
  else if negb (Z.land opts IP_LOCAL_BROADCAST =? 0) && ipv4_is_broadcast addr then true
  else if negb (Z.land opts IP_LOCAL_MULTICAST =? 0) && ipv4_is_multicast addr then true
  else is_local_loop addr opts (inetdev_list st).

(** * The table *)

Record rt_entry := RtEntry { rt_dev : Z; rt_dst : Z; rt_flags : Z; rt_mask : Z; rt_gateway : Z }.

Record rt_state := RtState { rt_entry_info_list : list (Z * rt_entry); rt_entry_info_pool : pool }.

Definition RTF_UP : Z := 1.

(** The test of [rt_add_route] and [rt_del_route]. *)
Definition rt_same (dev dst mask gw : Z) (e : rt_entry) : bool :=
  (rt_dst e =? dst) && ((rt_mask e =? mask) || (INADDR_ANY =? mask)) && ((rt_gateway e =? gw) || (INADDR_ANY =? gw)) &&
  ((rt_dev e =? dev) || (dev =? 0)).

Definition rt_add_route (dev dst mask gw flags : Z) (st : rt_state) : option (Z * rt_state) :=
  if dev =? 0 then Some (- EINVAL, st)
  else if existsb (fun p => rt_same dev dst mask gw p.2) (rt_entry_info_list st) then Some (0, st)
  else
    '(o, pl) ← pool_alloc (rt_entry_info_pool st);
    match o with
    | None => Some (- ENOMEM, RtState (rt_entry_info_list st) pl)
    | Some a => Some (0, RtState (rt_entry_info_list st ++ [(a, RtEntry dev dst (Z.lor RTF_UP (u32 flags)) mask gw)]) pl)
    end.

(** [pre] is the part of the list that has been passed. *)
Fixpoint del_loop (dev dst mask gw : Z) (pre l : list (Z * rt_entry)) (pl : pool) : option (Z * rt_state) :=
  match l with
  | [] => Some (- ENOENT, RtState pre pl)
  | (a, e) :: l =>
    if rt_same dev dst mask gw e then
      pl ← pool_free pl a;
      Some (0, RtState (pre ++ l) pl)
    else del_loop dev dst mask gw (pre ++ [(a, e)]) l pl
  end.

Definition rt_del_route (dev dst mask gw : Z) (st : rt_state) : option (Z * rt_state) :=
  del_loop dev dst mask gw [] (rt_entry_info_list st) (rt_entry_info_pool st).

Fixpoint del_if_loop (dev ret : Z) (pre l : list (Z * rt_entry)) (pl : pool) : option (Z * rt_state) :=
  match l with
  | [] => Some (ret, RtState pre pl)
  | (a, e) :: l =>
    if rt_dev e =? dev then
      pl ← pool_free pl a;
      del_if_loop dev (s32 (ret + 1)) pre l pl
    else del_if_loop dev ret (pre ++ [(a, e)]) l pl
  end.

Definition rt_del_route_if (dev : Z) (st : rt_state) : option (Z * rt_state) :=
  '(ret, st) ← del_if_loop dev 0 [] (rt_entry_info_list st) (rt_entry_info_pool st);
  Some (if negb (ret =? 0) then 0 else - ENOENT, st).

Definition mask_len (e : rt_entry) : Z :=
  if negb (wnot 32 (rt_mask e) =? 0) then bit_clz (wnot 32 (rt_mask e)) + 1 else 32.

Fixpoint best_loop (dst out_dev : Z) (l : list (Z * rt_entry)) (best_rte : option (Z * rt_entry)) (best_mask_len : Z)
  : option (Z * rt_entry) :=
  match l with
  | [] => best_rte
  | (a, e) :: l =>
    if (Z.land dst (rt_mask e) =? rt_dst e) && ((out_dev =? 0) || (out_dev =? rt_dev e)) && (mask_len e >? best_mask_len)
    then best_loop dst out_dev l (Some (a, e)) (mask_len e)
    else best_loop dst out_dev l best_rte best_mask_len
  end.

Definition rt_fib_get_best (dst out_dev : Z) (st : rt_state) : option (Z * rt_entry) :=
  best_loop dst out_dev (rt_entry_info_list st) None (-1).

Definition rt_fib_get_first (st : rt_state) : Z := match rt_entry_info_list st with (a, _) :: _ => a | [] => 0 end.
Definition rt_fib_get_next (a : Z) (st : rt_state) : option Z :=
  assert! negb (a =? 0) ;;
  entry_next a (rt_entry_info_list st).

(** * Decisions *)

(** The return value, with what is written to the caller's variable. *)
Definition rt_fib_route_ip (dst_ip : Z) (rt : rt_state) : Z * option Z :=
  if dst_ip =? INADDR_BROADCAST then (0, Some dst_ip)
  else
    match rt_fib_get_best dst_ip 0 rt with
    | None => (- ENETUNREACH, None)
    | Some (_, rte) => (0, Some (if rt_gateway rte =? INADDR_ANY then dst_ip else rt_gateway rte))
    end.

Definition rt_fib_source_ip (dst_ip dev : Z) (rt : rt_state) (st : inet_state) : option (Z * option Z) :=
  let interface dev :=
    a ← inetdev_get_by_dev dev st;
    assert! negb (a =? 0) ;;
    d ← entry_at a (inetdev_list st);
    Some (0, Some (ifa_address d)) in
  if ipv4_is_loopback dst_ip then Some (0, Some INADDR_LOOPBACK)
  else if negb (dst_ip =? INADDR_BROADCAST) && ip_is_local dst_ip 0 st then Some (0, Some dst_ip)
  else if negb (dst_ip =? INADDR_BROADCAST) then
    match rt_fib_get_best dst_ip 0 rt with
    | None => Some (- ENETUNREACH, None)
    | Some (_, rte) =>
      assert! negb (rt_dev rte =? 0) ;;
      interface (rt_dev rte)
    end
  else if dev =? 0 then Some (- ENODEV, None)
  else interface dev.

(** [lo]. *)
Definition loopback (st : inet_state) : option Z :=
  a ← inetdev_get_loopback_dev st;
  assert! negb (a =? 0) ;;
  if_dev <$> entry_at a (inetdev_list st).

(** [wanna_dev] is [sk->opt.so_bindtodevice], or 0 without a socket. *)
Definition rt_fib_out_dev (dst wanna_dev : Z) (rt : rt_state) (st : inet_state) : option (Z * option Z) :=
  if dst =? INADDR_BROADCAST then
    if wanna_dev =? 0 then Some (- ENODEV, None) else Some (0, Some wanna_dev)
  else if ip_is_local dst 0 st then
    d ← loopback st;
    Some (0, Some d)
  else
    match rt_fib_get_best dst wanna_dev rt with
    | None => Some (- ENETUNREACH, None)
    | Some (_, rte) =>
      assert! negb (rt_dev rte =? 0) ;;
      assert! (wanna_dev =? 0) || (wanna_dev =? rt_dev rte) ;;
      Some (0, Some (rt_dev rte))
    end.

End Route.
