(* ===== verification/RouteTheorems.v ===== *)
(** The routing table of [Route.v]: its operations, and the choice of a
    route. *)
From S2P Require Import Prelude Bitmap Pool IpFrag IpFragList Route.

Local Open Scope Z_scope.
Local Open Scope embox_scope.

(** * The choice of a route *)

(** The mask of a network with [n] bits. *)
Definition net_mask (n : Z) : Z := 2 ^ 32 - 2 ^ (32 - n).

(** [dst] is in the network [net] of [n] bits. *)
Definition in_net (n net dst : Z) : Prop := dst - dst mod 2 ^ (32 - n) = net.

Lemma wnot_prefix n : 0 <= n <= 32 -> wnot 32 (net_mask n) = 2 ^ (32 - n) - 1.
Proof.
  intros Hn. unfold wnot, wrap, net_mask, Z.lnot. pose proof (Z.pow_pos_nonneg 2 (32 - n)).
  pose proof (Z.pow_le_mono_r 2 (32 - n) 32). symmetry. apply (Z.mod_unique _ _ (-1)); lia.
Qed.

Lemma land_prefix n dst : 0 <= n <= 32 -> 0 <= dst < 2 ^ 32 -> Z.land dst (net_mask n) = dst - dst mod 2 ^ (32 - n).
Proof.
  intros Hn Hd. assert (net_mask n = Z.shiftl (Z.ones n) (32 - n)) as ->.
  { unfold net_mask. rewrite Z.shiftl_mul_pow2, Z.ones_equiv by lia. unfold Z.pred.
    replace (2 ^ 32) with (2 ^ n * 2 ^ (32 - n)) by (rewrite <- Z.pow_add_r by lia; f_equal; lia). lia. }
  pose proof (Z.div_mod dst (2 ^ (32 - n)) ltac:(apply Z.pow_nonzero; lia)) as Hdm.
  replace (dst - dst mod 2 ^ (32 - n)) with (Z.shiftl (Z.shiftr dst (32 - n)) (32 - n))
    by (rewrite Z.shiftl_mul_pow2, Z.shiftr_div_pow2 by lia; lia).
  apply Z.bits_inj'. intros j Hj. rewrite Z.land_spec. rewrite !Z.shiftl_spec by lia.
  destruct (Z.ltb_spec j (32 - n)); [rewrite !(Z.testbit_neg_r _ (j - (32 - n))) by lia; by rewrite andb_false_r|].
  rewrite Z.shiftr_spec by lia. replace (j - (32 - n) + (32 - n)) with j by lia. destruct (Z.ltb_spec j 32).
  - rewrite Z.ones_spec_low, andb_true_r by lia. done.
  - by rewrite (bounded_high_bit 32 dst) by lia.
Qed.

Section Best.
Context `{A : arch} `{!ArchOk A}.

Lemma mask_len_prefix e n : 0 <= n <= 31 -> rt_mask e = net_mask n -> mask_len e = LONG_BIT - 31 + n.
Proof.
  intros Hn He. unfold mask_len, bit_clz, builtin_clz. rewrite He, wnot_prefix by lia.
  assert (2 <= 2 ^ (32 - n)) by (change 2 with (2 ^ 1) at 1; apply Z.pow_le_mono_r; lia).
  destruct (Z.eqb_spec (2 ^ (32 - n) - 1) 0); [lia|]. cbn [negb]. rewrite <- Z.pred_succ with (n := Z.log2 _).
  replace (2 ^ (32 - n) - 1) with (Z.pred (2 ^ (32 - n))) by lia. rewrite Z.log2_pred_pow2 by lia. lia.
Qed.

Lemma mask_len_host e : rt_mask e = net_mask 32 -> mask_len e = 32.
Proof. intros He. unfold mask_len. by rewrite He. Qed.

(** The test of [rt_fib_get_best]. *)
Definition rt_fits (dst out_dev : Z) (e : rt_entry) : bool :=
  (Z.land dst (rt_mask e) =? rt_dst e) && ((out_dev =? 0) || (out_dev =? rt_dev e)).

(** [x] is the first of the entries of [l] with the largest [mask_len]. *)
Definition first_best (dst out_dev : Z) (l : list (Z * rt_entry)) (x : Z * rt_entry) : Prop :=
  exists l1 l2, l = l1 ++ x :: l2 /\ rt_fits dst out_dev x.2 = true /\
    (forall y, y ∈ l1 -> rt_fits dst out_dev y.2 = true -> mask_len y.2 < mask_len x.2) /\
    (forall y, y ∈ l2 -> rt_fits dst out_dev y.2 = true -> mask_len y.2 <= mask_len x.2).

Lemma mask_len_range e : 0 <= mask_len e.
Proof.
  unfold mask_len, bit_clz, builtin_clz. destruct (Z.eqb_spec (wnot 32 (rt_mask e)) 0); cbn [negb]; [lia|].
  assert (0 <= wnot 32 (rt_mask e) < 2 ^ 32) as Hr by (unfold wnot; apply Z.mod_pos_bound; lia).
  assert (Z.log2 (wnot 32 (rt_mask e)) < 32) by (apply Z.log2_lt_pow2; lia). pose proof long_bit_ge_32. lia.
Qed.

Lemma best_loop_ok dst out_dev l2 : forall l1 best len,
  match best with
  | None => len = -1 /\ forall y, y ∈ l1 -> rt_fits dst out_dev y.2 = false
  | Some x => len = mask_len x.2 /\ first_best dst out_dev l1 x
  end ->
  match best_loop dst out_dev l2 best len with
  | None => forall y, y ∈ l1 ++ l2 -> rt_fits dst out_dev y.2 = false
  | Some x => first_best dst out_dev (l1 ++ l2) x
  end.
Proof.
  induction l2 as [|[a e] l2 IH]; intros l1 best len Hb; cbn [best_loop].
  { rewrite app_nil_r. destruct best; apply Hb. }
  rewrite cons_middle, app_assoc. rewrite Z.gtb_ltb. fold (rt_fits dst out_dev e).
  destruct (rt_fits dst out_dev e) eqn:Ef; cbn [andb].
  - destruct (Z.ltb_spec len (mask_len e)) as [Hlt|Hge]; apply IH.
    + split; [done|]. exists l1, []. split_and!; try done; [|by intros y ?%elem_of_nil]. intros y Hy Hfy. destruct best as [x|].
      * destruct Hb as (-> & k1 & k2 & -> & Hx & H1 & H2). cbn. apply elem_of_app in Hy as [Hy|[->|Hy]%elem_of_cons].
        -- specialize (H1 y Hy Hfy). lia.
        -- done.
        -- specialize (H2 y Hy Hfy). lia.
      * destruct Hb as [_ Hn]. rewrite Hn in Hfy; done.
    + destruct best as [x|]; [|destruct Hb as [-> _]; pose proof (mask_len_range e); lia].
      destruct Hb as (-> & k1 & k2 & -> & Hx & H1 & H2). split; [done|]. exists k1, (k2 ++ [(a, e)]). rewrite <- app_assoc.
      split_and!; try done. intros y [Hy| ->%list_elem_of_singleton]%elem_of_app Hfy; [by apply H2|done].
  - apply IH. destruct best as [x|].
    + destruct Hb as (-> & k1 & k2 & -> & Hx & H1 & H2). split; [done|]. exists k1, (k2 ++ [(a, e)]). rewrite <- app_assoc.
      split_and!; try done. intros y [Hy| ->%list_elem_of_singleton]%elem_of_app Hfy; [by apply H2|]. cbn in Hfy. congruence.
    + destruct Hb as [-> Hn]. split; [done|]. intros y [Hy| ->%list_elem_of_singleton]%elem_of_app; [by apply Hn|done].
Qed.

Lemma get_best_ok dst out_dev st :
  match rt_fib_get_best dst out_dev st with
  | None => forall y, y ∈ rt_entry_info_list st -> rt_fits dst out_dev y.2 = false
  | Some x => first_best dst out_dev (rt_entry_info_list st) x
  end.
Proof. apply (best_loop_ok dst out_dev (rt_entry_info_list st) [] None (-1)). split; [done|]. by intros y ?%elem_of_nil. Qed.

Lemma fits_in_net dst out_dev e n : 0 <= n <= 32 -> 0 <= dst < 2 ^ 32 -> rt_mask e = net_mask n ->
  rt_fits dst out_dev e = true <-> in_net n (rt_dst e) dst /\ (out_dev = 0 \/ out_dev = rt_dev e).
Proof.
  intros Hn Hd He. unfold rt_fits, in_net. rewrite He, land_prefix by done.
  rewrite andb_true_iff, orb_true_iff, !Z.eqb_eq. done.
Qed.

End Best.

(** C24: routes are chosen by the longest prefix.  In a table of networks of up to
    31 bits, [rt_fib_get_best] answers [NULL] only if the destination is in none of
    them (over the wanted device), and otherwise a network that it is in and
    that no other has more bits than; of several such, the first in the
    table. *)
Theorem route_longest_prefix `{A : arch} `{!ArchOk A} dst out_dev st plen :
  0 <= dst < 2 ^ 32 -> (forall y, y ∈ rt_entry_info_list st -> 0 <= plen y <= 31 /\ rt_mask y.2 = net_mask (plen y)) ->
  let fits y := in_net (plen y) (rt_dst y.2) dst /\ (out_dev = 0 \/ out_dev = rt_dev y.2) in
  match rt_fib_get_best dst out_dev st with
  | None => forall y, y ∈ rt_entry_info_list st -> ~ fits y
  | Some x => exists l1 l2, rt_entry_info_list st = l1 ++ x :: l2 /\ fits x /\
      (forall y, y ∈ l1 -> fits y -> plen y < plen x) /\ (forall y, y ∈ l2 -> fits y -> plen y <= plen x)
  end.
Proof.
  intros Hd Hm fits. assert (forall y, y ∈ rt_entry_info_list st ->
    (rt_fits dst out_dev y.2 = true <-> fits y) /\ mask_len y.2 = LONG_BIT - 31 + plen y) as Hy.
  { intros y Hy. destruct (Hm y Hy) as [Hn He]. split; [by apply fits_in_net; try lia|by apply mask_len_prefix]. }
  pose proof (get_best_ok dst out_dev st) as Hb. destruct (rt_fib_get_best dst out_dev st) as [x|].
  - destruct Hb as (l1 & l2 & El & Hx & H1 & H2). rewrite El in Hy. exists l1, l2.
    assert (x ∈ l1 ++ x :: l2) as Hin by (apply elem_of_app; right; by left). destruct (Hy x Hin) as [Hfx Ex].
    split_and!; [done|by apply Hfx|intros y Hyl Hfy..].
    + destruct (Hy y ltac:(apply elem_of_app; by left)) as [Hf Ey]. apply Hf, (H1 y Hyl) in Hfy. lia.
    + destruct (Hy y ltac:(apply elem_of_app; right; by right)) as [Hf Ey]. apply Hf, (H2 y Hyl) in Hfy. lia.
  - intros y Hyl Hf. apply (Hy y Hyl) in Hf. rewrite (Hb y Hyl) in Hf. done.
Qed.

(** C39: on a 64-bit machine a host route loses to every other route.  [bit_clz] counts
    the leading zeros of an [unsigned long], so that [mask_len] is 33 or more for a network,
    the default route included, and 32 for a host: whenever
    any network fits, no host route to the destination is taken. *)
Theorem host_route_loses `{A : arch} dst out_dev st b f n :
  LONG_BIT = 64 -> 0 <= dst < 2 ^ 32 ->
  (b, f) ∈ rt_entry_info_list st -> 0 <= n <= 31 -> rt_mask f = net_mask n -> in_net n (rt_dst f) dst ->
  out_dev = 0 \/ out_dev = rt_dev f ->
  exists c g, rt_fib_get_best dst out_dev st = Some (c, g) /\ rt_mask g <> net_mask 32.
Proof.
  intros HL Hd Hf Hn Hm Hnet Hdev. assert (ArchOk A) by (by right).
  assert (rt_fits dst out_dev f = true) as Hfit by (by apply (fits_in_net dst out_dev f n); try lia).
  pose proof (get_best_ok dst out_dev st) as Hb. destruct (rt_fib_get_best dst out_dev st) as [[c g]|].
  - exists c, g. split; [done|]. intros Hg%mask_len_host. pose proof (mask_len_prefix f n Hn Hm) as Ef. rewrite HL in Ef.
    destruct Hb as (l1 & l2 & El & _ & H1 & H2). rewrite El in Hf. cbn [snd] in *.
    apply elem_of_app in Hf as [Hf|[[= <- <-]|Hf]%elem_of_cons].
    + specialize (H1 _ Hf Hfit). cbn in H1. lia.
    + lia.
    + specialize (H2 _ Hf Hfit). cbn in H2. lia.
  - specialize (Hb _ Hf). cbn in Hb. congruence.
Qed.

(** 192.168.1.0/24 over device 5, the default route over 6, and the host 10.0.0.7
    over 7. *)
Definition demo_table : rt_state :=
  RtState [(512, RtEntry 5 0xc0a80100 1 (net_mask 24) 0); (544, RtEntry 6 0 1 (net_mask 0) 0xc0a80101)] (POOL_DEF 512 32 8).
Definition demo_host : rt_state :=
  RtState [(512, RtEntry 7 0x0a000007 1 (net_mask 32) 0); (544, RtEntry 6 0 1 (net_mask 0) 0xc0a80101)] (POOL_DEF 512 32 8).

Lemma route_longest_prefix_witness :
  exists l1 l2, rt_entry_info_list demo_table = l1 ++ (512, RtEntry 5 0xc0a80100 1 (net_mask 24) 0) :: l2 /\
    in_net 24 0xc0a80100 0xc0a80117.
Proof.
  pose proof (route_longest_prefix (A := lp64) 0xc0a80117 0 demo_table (fun y => if y.1 =? 512 then 24 else 0)
    ltac:(split; [discriminate|reflexivity])
    ltac:(intros y [->|[->|[]%elem_of_nil]%elem_of_cons]%elem_of_cons; split; (reflexivity || (split; discriminate)))) as Hb.
  change (rt_fib_get_best (A := lp64) 0xc0a80117 0 demo_table) with (Some (512, RtEntry 5 0xc0a80100 1 (net_mask 24) 0)) in Hb.
  destruct Hb as (l1 & l2 & El & [Hx _] & _). exists l1, l2. split; [exact El|exact Hx].
Defined.

Lemma host_route_loses_witness :
  exists c g, rt_fib_get_best (A := lp64) 0x0a000007 0 demo_host = Some (c, g) /\ rt_mask g <> net_mask 32.
Proof.
  apply (host_route_loses (A := lp64) 0x0a000007 0 demo_host
    544 (RtEntry 6 0 1 (net_mask 0) 0xc0a80101) 0); try reflexivity; try (split; (discriminate || reflexivity)); try (by left).
  right. by left.
Defined.

(** * The operations on the table *)

Section Table.
Context (n : Z).

Definition rt_wf (e : rt_entry) : Prop := rt_dev e <> 0.

Record rt_ok (st : rt_state) : Prop := {
  rk_pool : pool_ok (rt_entry_info_pool st) n (rt_entry_info_list st).*1;
  rk_wf : Forall (fun p => rt_wf p.2) (rt_entry_info_list st)
}.

Lemma del_loop_ok dev dst mask gw l : forall pre pl, pool_ok pl n (pre ++ l).*1 -> Forall (fun p => rt_wf p.2) (pre ++ l) ->
  (forall p, p ∈ pre -> rt_same dev dst mask gw p.2 = false) ->
  exists r st', del_loop dev dst mask gw pre l pl = Some (r, st') /\ rt_ok st' /\
    ((r = - ENOENT /\ rt_entry_info_list st' = pre ++ l /\ forall p, p ∈ pre ++ l -> rt_same dev dst mask gw p.2 = false) \/
     (r = 0 /\ exists l1 x l2, pre ++ l = l1 ++ x :: l2 /\ rt_entry_info_list st' = l1 ++ l2 /\ rt_same dev dst mask gw x.2 = true /\
        forall p, p ∈ l1 -> rt_same dev dst mask gw p.2 = false)).
Proof.
  induction l as [|[a e] l IH]; intros pre pl Hpl Hwf Hpre; cbn [del_loop].
  - eexists _, _. split; [done|]. rewrite app_nil_r in *. split; [by split|]. by left.
  - destruct (rt_same dev dst mask gw e) eqn:Es.
    + rewrite fmap_app in Hpl. destruct (pool_free_ok _ _ _ _ _ Hpl) as (pl' & E & Hok & _). cbn in E. rewrite E. cbn.
      eexists _, _. split; [done|]. split; [split; cbn; [by rewrite fmap_app|]|].
      * rewrite Forall_app, Forall_cons in *. naive_solver.
      * right. split; [done|]. by exists pre, (a, e), l.
    + replace (pre ++ (a, e) :: l) with ((pre ++ [(a, e)]) ++ l) in * by (by rewrite <- app_assoc). apply IH; [done..|]. intros p [Hp| ->%list_elem_of_singleton]%elem_of_app; [by apply Hpre|done].
Qed.

Lemma del_if_loop_ok dev l : forall ret pre pl, pool_ok pl n (pre ++ l).*1 -> Forall (fun p => rt_wf p.2) (pre ++ l) ->
  0 <= ret -> ret + zlen l < 2 ^ 31 ->
  exists ret' st', del_if_loop dev ret pre l pl = Some (ret', st') /\ rt_ok st' /\
    rt_entry_info_list st' = pre ++ filter (fun p => rt_dev p.2 <> dev) l /\
    ret <= ret' /\ (ret' = ret <-> filter (fun p => rt_dev p.2 <> dev) l = l).
Proof.
  induction l as [|[a e] l IH]; intros ret pre pl Hpl Hwf Hr Hrl; cbn [del_if_loop].
  - eexists _, _. split; [done|]. rewrite app_nil_r in *. split; [by split|]. by split_and!.
  - assert (zlen ((a, e) :: l) = 1 + zlen l) as Hz by (unfold zlen; cbn; lia). pose proof (zlen_nonneg l). rewrite filter_cons. cbn [snd].
    destruct (Z.eqb_spec (rt_dev e) dev) as [Hd|Hd].
    + rewrite fmap_app in Hpl. destruct (pool_free_ok _ _ _ _ _ Hpl) as (pl' & E & Hok & _). cbn in E. rewrite E. cbn [mbind option_bind].
      rewrite decide_False by naive_solver. rewrite s32_small by lia.
      destruct (IH (ret + 1) pre pl') as (ret' & st' & E' & Hok' & Hl & Hle & _); [by rewrite fmap_app| |lia|lia|].
      { rewrite Forall_app, Forall_cons in *. naive_solver. }
      exists ret', st'. split_and!; try done; try lia. split; [lia|]. intros Hf.
      pose proof (length_filter (fun p : Z * rt_entry => rt_dev p.2 <> dev) l) as Hlen. rewrite Hf in Hlen. cbn in Hlen. lia.
    + rewrite decide_True by done. replace (pre ++ (a, e) :: l) with ((pre ++ [(a, e)]) ++ l) in * by (by rewrite <- app_assoc).
      destruct (IH ret (pre ++ [(a, e)]) pl) as (ret' & st' & E' & Hok' & Hl & Hle & Hiff); [done|done|lia|lia|].
      exists ret', st'. rewrite Hl, <- app_assoc. split_and!; try done. rewrite Hiff. split; [by intros ->|by intros [=]].
Qed.

End Table.

(** The table keeps what it is told.  [rt_add_route] rejects a route without a
    device, leaves the table as it is if it has such a route or is full, and appends the
    route otherwise; [rt_del_route] removes the first such route;
    [rt_del_route_if] removes all routes over a device, so that none is
    chosen any more.  The pool always has exactly the routes of the
    table allocated. *)
Theorem rt_table_correct `{A : arch} `{!ArchOk A} n st : rt_ok n st -> n < 2 ^ 31 ->
  (forall dev dst mask gw flags, exists r st', rt_add_route dev dst mask gw flags st = Some (r, st') /\ rt_ok n st' /\
     if dev =? 0 then r = - EINVAL /\ st' = st
     else if existsb (fun p => rt_same dev dst mask gw p.2) (rt_entry_info_list st) then r = 0 /\ st' = st
     else if zlen (rt_entry_info_list st) =? n then r = - ENOMEM /\ st' = st
     else r = 0 /\ exists a, rt_entry_info_list st' = rt_entry_info_list st ++ [(a, RtEntry dev dst (Z.lor RTF_UP (u32 flags)) mask gw)]) /\
  (forall dev dst mask gw, exists r st', rt_del_route dev dst mask gw st = Some (r, st') /\ rt_ok n st' /\
     ((r = - ENOENT /\ rt_entry_info_list st' = rt_entry_info_list st /\
         forall p, p ∈ rt_entry_info_list st -> rt_same dev dst mask gw p.2 = false) \/
      (r = 0 /\ exists l1 x l2, rt_entry_info_list st = l1 ++ x :: l2 /\ rt_entry_info_list st' = l1 ++ l2 /\
         rt_same dev dst mask gw x.2 = true /\ forall p, p ∈ l1 -> rt_same dev dst mask gw p.2 = false))) /\
  (forall dev, exists r st', rt_del_route_if dev st = Some (r, st') /\ rt_ok n st' /\
     rt_entry_info_list st' = filter (fun p => rt_dev p.2 <> dev) (rt_entry_info_list st) /\
     (r = 0 /\ rt_entry_info_list st' <> rt_entry_info_list st \/ r = - ENOENT /\ rt_entry_info_list st' = rt_entry_info_list st) /\
     forall dst out_dev a e, rt_fib_get_best dst out_dev st' = Some (a, e) -> rt_dev e <> dev).
Proof.
  intros [Hpl Hwf] Hn. split_and!.
  - intros dev dst mask gw flags. unfold rt_add_route. destruct (Z.eqb_spec dev 0) as [Hd|Hd]; [by eexists _, _|].
    destruct (existsb _ _); [by eexists _, _|]. pose proof (pool_alloc_ok _ _ _ Hpl) as Ha. rewrite zlen_fmap in Ha.
    destruct (Z.eqb_spec (zlen (rt_entry_info_list st)) n).
    + rewrite Ha. cbn. eexists _, _. split; [done|]. split; [by split|]. by destruct st.
    + destruct Ha as (a & pl' & E & _ & _ & Hok). rewrite E. cbn. eexists _, _. split; [done|]. split; [|split; [done|by exists a]].
      split; cbn; [rewrite fmap_app; eapply pool_ok_perm; [|done]; cbn; apply Permutation_cons_append|].
      apply Forall_app. split; [done|by apply Forall_singleton].
  - intros dev dst mask gw. apply (del_loop_ok n dev dst mask gw (rt_entry_info_list st) []); [done..|].
    by intros p ?%elem_of_nil.
  - intros dev. assert (zlen (rt_entry_info_list st) <= n) as Hle.
    { pose proof (pool_count _ _ _ Hpl) as Hb. rewrite zlen_fmap in Hb. pose proof (zlen_nonneg (free_blocks (rt_entry_info_pool st))). lia. }
    destruct (del_if_loop_ok n dev (rt_entry_info_list st) 0 [] (rt_entry_info_pool st)) as (ret & st' & E & Hok & Hl & Hge & Hiff);
      [done|done|lia|lia|]. unfold rt_del_route_if. rewrite E. cbn [mbind option_bind]. eexists _, st'. split; [done|].
    cbn [app] in Hl. split_and!; try done.
    + rewrite Hl. destruct (Z.eqb_spec ret 0) as [Hz|Hz]; cbn [negb]; [right; split; [done|by apply Hiff]|left; split; [done|tauto]].
    + intros dst out_dev a e Eb. pose proof (get_best_ok dst out_dev st') as Hb. rewrite Eb in Hb.
      destruct Hb as (l1 & l2 & El & _). rewrite Hl in El.
      assert ((a, e) ∈ filter (fun p => rt_dev p.2 <> dev) (rt_entry_info_list st)) as Hin by (rewrite El; apply elem_of_app; right; by left).
      apply list_elem_of_filter in Hin as [? _]. done.
Qed.

Lemma rt_table_correct_witness :
  exists r st', rt_add_route 5 0x0a000000 (net_mask 8) 0 0 (RtState [] (POOL_DEF 512 32 8)) = Some (r, st') /\ rt_ok 8 st' /\
    r = 0 /\ exists a, rt_entry_info_list st' = [(a, RtEntry 5 0x0a000000 1 (net_mask 8) 0)].
Proof.
  destruct (rt_table_correct (A := lp64) 8 (RtState [] (POOL_DEF 512 32 8))) as (Ha & _ & _).
  - split; [by apply pool_def_ok|apply Forall_nil_2].
  - reflexivity.
  - apply (Ha 5 0x0a000000 (net_mask 8) 0 0).
Defined.
