(* ===== verification/IpOutput.v ===== *)
(** Sending packets: [net/l3/ipv4/ip_output.c], with [ip_route] of
    [net/l3/route.c].

    The layers below and beside are parameters: [net_tx] (the link layer, which is
    given the address of the next hop, or none for a local or a broadcast
    destination), [icmp_discard], [nf_test_skb] and [pkt_type], functions on the
    state [world]: packet memory, routing table, interfaces, the counter of
    packet identifiers, and [ext] for everything else.  [mtu] and [hdr_len] are fields of a
    device. *)
From S2P Require Import Prelude Bitmap Pool Skb Ip IpFrag Route.
From stdpp Require Import strings.

Local Open Scope Z_scope.
Local Open Scope embox_scope.

Definition PACKET_HOST : Z := 0.
Definition NF_CHAIN_OUTPUT : Z := 3.

(** The messages of [icmp_discard] that are used here, with their arguments. *)
Inductive discard :=
  | param_prob (ptr : Z)
  | time_exceed
  | net_unreach
  | host_unreach
  | frag_needed (mtu : Z)
  | net_redirect (gateway : Z)
  | host_redirect (addr : Z).

Section IpOutput.
Context `{A : arch} `{B : byteorder} `{O : skb_opts} `{I : ip_opts} {H : Type} `{!SysHeap H} {W : Type}.
Context (dev_name : Z -> string) (hdr_len mtu : Z -> Z).

Local Abbreviation skmem := (Skb.skmem (H := H)).

Record world := World {
  wmem : skmem;
  routes : rt_state;
  inet : inet_state;
  global_id : Z;
  ext : W
}.

Definition set_wmem (m : skmem) (w : world) : world := World m (routes w) (inet w) (global_id w) (ext w).

Context (net_tx : Z -> option Z -> world -> option (Z * world)).
Context (icmp_discard : Z -> discard -> world -> option (Z * world)).
Context (nf_test_skb : Z -> Z -> world -> option Z) (pkt_type : Z -> world -> option Z).

(** [skb->dev = dev]. *)
Definition set_dev (s dv : Z) (m : skmem) : option skmem :=
  x ← skbs m !! s;
  Some (put_skb s (Skb dv (len x) (h x) (nh x) (mac x) (data x) (p_data x) (p_data_end x)) m).

(** A change of the header in place. *)
Definition upd_iph (s : Z) (f : list Z -> option (list Z)) (m : skmem) : option skmem :=
  iph ← iph_of m s;
  iph ← f iph;
  write_iph m s 0 iph.

Definition ip_route (s wanna_dev : Z) (suggested_route : option rt_entry) (w : world) : option (Z * world) :=
  iph ← iph_of (wmem w) s;
  da ← daddr iph;
  if da =? INADDR_BROADCAST then
    if wanna_dev =? 0 then Some (- ENODEV, w)
    else m ← set_dev s wanna_dev (wmem w); Some (0, set_wmem m w)
  else if ip_is_local da 0 (inet w) then
    d ← loopback dev_name (inet w);
    m ← set_dev s d (wmem w);
    Some (0, set_wmem m w)
  else
    let rte := if wanna_dev =? 0 then
                 match suggested_route with None => snd <$> rt_fib_get_best da 0 (routes w) | Some r => Some r end
               else snd <$> rt_fib_get_best da wanna_dev (routes w) in
    match rte with
    | None => Some (- ENETUNREACH, w)
    | Some rte =>
      assert! negb (rt_dev rte =? 0) ;;
      assert! (wanna_dev =? 0) || (wanna_dev =? rt_dev rte) ;;
      m ← set_dev s (rt_dev rte) (wmem w);
      Some (0, set_wmem m w)
    end.

Definition ip_xmit (s : Z) (w : world) : option (Z * world) :=
  x ← skbs (wmem w) !! s;
  assert! negb (dev x =? 0) ;;
  iph ← iph_of (wmem w) s;
  da ← daddr iph;
  if ip_is_local da IP_LOCAL_BROADCAST (inet w) then net_tx s None w
  else
    match rt_fib_route_ip da (routes w) with
    | (ret, Some next) => if negb (ret =? 0) then m ← skb_free s (wmem w); Some (ret, set_wmem m w) else net_tx s (Some next) w
    | (ret, None) => m ← skb_free s (wmem w); Some (ret, set_wmem m w)
    end.

(** The loop over the fragments: the last return value, and the fragments that
    are left. *)
Fixpoint send_loop (dv ret : Z) (tx_buf : list Z) (w : world) : option (Z * list Z * world) :=
  match tx_buf with
  | [] => Some (ret, [], w)
  | s_tmp :: tx_buf =>
    m ← set_dev s_tmp dv (wmem w);
    m ← upd_iph s_tmp ip_set_check_field m;
    '(ret, w) ← ip_xmit s_tmp (set_wmem m w);
    if negb (ret =? 0) then Some (ret, tx_buf, w) else send_loop dv ret tx_buf w
  end.

Definition fragment_skb_and_send (fuel : nat) (irq : bool) (s dv : Z) (w : world) : option (Z * world) :=
  m ← set_dev s dv (wmem w);
  '(ret, tx_buf, m) ← ip_frag hdr_len fuel irq s (mtu dv) m;
  if negb (ret =? 0) then
    m ← skb_free s m;
    Some (ret, set_wmem m w)
  else
    m ← skb_free s m;
    '(ret, tx_buf, w) ← send_loop dv ret tx_buf (set_wmem m w);
    m ← skb_queue_purge tx_buf (wmem w);
    Some (ret, set_wmem m w).

(** An ICMP message instead of the packet. *)
Definition reject (s : Z) (msg : discard) (w : world) : option (Z * world) :=
  '(_, w) ← icmp_discard s msg w;
  Some (-1, w).

(** The redirect that is sent for a packet leaving by the device it came from. *)
Definition redirect (irq : bool) (s da : Z) (best_route : rt_entry) (w : world) : option world :=
  x ← skbs (wmem w) !! s;
  if dev x =? rt_dev best_route then
    '(s_new, m) ← skb_copy irq s (wmem w);
    let w := set_wmem m w in
    if s_new =? 0 then Some w
    else
      '(_, w) ← icmp_discard s_new
        (if rt_gateway best_route =? INADDR_ANY then host_redirect da else net_redirect (rt_gateway best_route)) w;
      Some w
  else Some w.

Definition ip_forward (fuel : nat) (irq : bool) (s : Z) (w : world) : option (Z * world) :=
  iph ← iph_of (wmem w) s;
  hl ← IP_HEADER_SIZE iph;
  da ← daddr iph;
  let best_route := rt_fib_get_best da 0 (routes w) in
  ty ← pkt_type s w;
  if negb (ty =? PACKET_HOST) || ipv4_is_multicast da then
    m ← skb_free s (wmem w);
    Some (0, set_wmem m w)
  else if negb (hl - IP_MIN_HEADER_SIZE =? 0) then reject s (param_prob IP_MIN_HEADER_SIZE) w
  else
    t ← ttl iph;
    if t <=? 1 then reject s time_exceed w
    else
      m ← upd_iph s (fun iph => put8 iph 8 (t - 1)) (wmem w);
      m ← upd_iph s ip_set_check_field m;
      let w := set_wmem m w in
      match best_route with
      | None => reject s net_unreach w
      | Some (_, best_route) =>
        w ← redirect irq s da best_route w;
        '(r, w) ← ip_route s 0 (Some best_route) w;
        if r <? 0 then reject s (if rt_gateway best_route =? INADDR_ANY then host_unreach else net_unreach) w
        else
          x ← skbs (wmem w) !! s;
          if len x >? mtu (rt_dev best_route) then
            iph ← iph_of (wmem w) s;
            f ← frag_off iph;
            if Z.land f IP_DF =? 0 then fragment_skb_and_send fuel irq s (rt_dev best_route) w
            else reject s (frag_needed (u16 (mtu (rt_dev best_route)))) w
          else ip_xmit s w
      end.

Definition ip_snd (fuel : nat) (irq : bool) (s : Z) (w : world) : option (Z * world) :=
  v ← nf_test_skb NF_CHAIN_OUTPUT s w;
  if negb (v =? 0) then
    m ← skb_free s (wmem w);
    Some (0, set_wmem m w)
  else
    m ← upd_iph s (fun iph => ip_set_id_field iph (global_id w)) (wmem w);
    let w := World m (routes w) (inet w) (u16 (global_id w + 1)) (ext w) in
    m ← upd_iph s ip_set_check_field (wmem w);
    let w := set_wmem m w in
    x ← skbs (wmem w) !! s;
    iph ← iph_of (wmem w) s;
    f ← frag_off iph;
    if (len x >? mtu (dev x)) && (Z.land f IP_DF =? 0) then fragment_skb_and_send fuel irq s (dev x) w
    else ip_xmit s w.

End IpOutput.
