(* ===== verification/IpOutputTheorems.v ===== *)
(** What becomes of a packet that is sent ([IpOutput.v]): it is handed to the
    link layer, in fragments if need be, or freed; nothing is lost. *)
From S2P Require Import Prelude Bitmap Pool Skb SkbTheorems Ip IpFrag IpFragFacts IpFragList IpFragTheorems IpFragSend IpFragRoundtrip Route IpOutput.
From stdpp Require Import strings.

Local Open Scope Z_scope.
Local Open Scope embox_scope.

(** * The checksum of a packet in memory *)

Section SetCheck.
Context `{A : arch} `{!ArchOk A} `{B : byteorder} `{O : skb_opts} `{I : ip_opts} {H : Type} `{!SysHeap H} `{!SysHeapOk H}.
Context (np nd : Z).
Implicit Types m : skmem (H := H).

Lemma zwrite_app_l (l r x : list Z) o : 0 <= o -> o + zlen x <= zlen l -> zwrite (l ++ r) o x = (fun l => l ++ r) <$> zwrite l o x.
Proof.
  intros Ho Hx. unfold zwrite. rewrite zlen_app. pose proof (zlen_nonneg r).
  destruct (Z.leb_spec 0 o), (Z.leb_spec (o + zlen x) (zlen l)), (Z.leb_spec (o + zlen x) (zlen l + zlen r)); try lia.
  cbn. f_equal. unfold zlen in *. rewrite take_app_le, drop_app_le by lia. by rewrite <- !app_assoc.
Qed.

(** What is behind the header does not matter. *)
Lemma set_check_app l r hl : IP_HEADER_SIZE l = Some hl -> IP_MIN_HEADER_SIZE <= hl <= zlen l ->
  ip_set_check_field (l ++ r) = (fun l => l ++ r) <$> ip_set_check_field l.
Proof.
  intros Hs Hl. unfold IP_MIN_HEADER_SIZE in Hl. unfold ip_set_check_field. rewrite zwrite_app_l by (unfold zlen in *; cbn; lia).
  destruct (zwrite_Some l 10 [0; 0]) as (l1 & E1 & Hz1 & Hn1); [lia|unfold zlen in *; cbn; lia|]. rewrite E1. cbn [fmap option_fmap option_map mbind option_bind].
  assert (IP_HEADER_SIZE l1 = Some hl) as Hs1 by (unfold IP_HEADER_SIZE, ihl, get8 in *; by rewrite Hn1 by lia).
  assert (IP_HEADER_SIZE (l1 ++ r) = Some hl) as Hs2 by (unfold IP_HEADER_SIZE, ihl in *; by rewrite get8_app by lia).
  rewrite Hs1, Hs2. cbn [mbind option_bind]. unfold zread. rewrite zlen_app. pose proof (zlen_nonneg r).
  destruct (Z.leb_spec 0 hl), (Z.leb_spec (0 + hl) (zlen l1)), (Z.leb_spec (0 + hl) (zlen l1 + zlen r)); try lia.
  cbn [Z.leb Z.compare andb mbind option_bind]. rewrite !drop_0, take_app_le by (unfold zlen in *; lia).
  apply zwrite_app_l; [lia|]. unfold zlen in *. unfold short_bytes. case_match; cbn; lia.
Qed.

Lemma iph_of_sent hlen m t fr : sent hlen m t fr -> 0 <= hlen <= zlen fr ->
  exists x d r, skb_wf m t x d /\ nh x = skb_get_data_pointner (data x) + hlen /\ mac x = skb_get_data_pointner (data x) /\
    bytes d = fr ++ r /\ zlen fr = len x /\ iph_of m t = Some (drop (Z.to_nat hlen) fr ++ r).
Proof.
  intros (x & d & Hwf & Hm & Hn & Hb) Hh. pose proof Hwf as [Hs Hd [Hl Hlen] _ _ _].
  destruct (rcv_skb_bytes (bytes d) (len x) fr ltac:(lia) Hb) as [Hz [r Hr]]. exists x, d, r. split_and!; try done; [lia|].
  unfold iph_of. rewrite Hs. cbn [mbind option_bind]. rewrite Hd. cbn [mbind option_bind].
  replace (nh x - skb_get_data_pointner (data x)) with hlen by lia. rewrite Hr. unfold zread. rewrite zlen_app.
  pose proof (zlen_nonneg r). destruct (Z.leb_spec 0 hlen), (Z.leb_spec 0 (zlen fr + zlen r - hlen)),
    (Z.leb_spec (hlen + (zlen fr + zlen r - hlen)) (zlen fr + zlen r)); try lia. cbn [andb].
  rewrite drop_app_le by (unfold zlen in *; lia). rewrite take_ge; [done|]. rewrite length_app, length_drop. unfold zlen in *. lia.
Qed.

(** A change of the header in place changes the frame, and no other buffer with
    other data. *)
Lemma upd_iph_ok hlen m t fr f l' : sent hlen m t fr -> 0 <= hlen <= zlen fr -> zlen l' = zlen fr - hlen ->
  (forall r, f (drop (Z.to_nat hlen) fr ++ r) = Some (l' ++ r)) ->
  exists d m', data <$> skbs m !! t = Some d /\ upd_iph t f m = Some m' /\ only_skb np nd t d m m' /\ skbs m' = skbs m /\
    sent hlen m' t (take (Z.to_nat hlen) fr ++ l').
Proof.
  intros Hst Hh Hl' Hf. destruct (iph_of_sent _ _ _ _ Hst Hh) as (x & d & r & Hwf & Hn & Hm & Hb & Hz & Ei).
  pose proof Hwf as [Hs Hd [Hl Hlen] H1 H2 H3]. unfold upd_iph. rewrite Ei. cbn [mbind option_bind]. rewrite Hf. cbn [mbind option_bind].
  unfold write_iph. rewrite Hs. cbn [mbind option_bind]. rewrite Hd. cbn [mbind option_bind].
  replace (nh x - skb_get_data_pointner (data x) + 0) with hlen by lia.
  assert (zwrite (bytes d) hlen (l' ++ r) = Some (take (Z.to_nat hlen) fr ++ l' ++ r)) as ->.
  { unfold zwrite. rewrite Hb, !zlen_app. pose proof (zlen_nonneg r).
    destruct (Z.leb_spec 0 hlen), (Z.leb_spec (hlen + (zlen l' + zlen r)) (zlen fr + zlen r)); try lia. cbn [andb]. f_equal.
    rewrite take_app_le by (unfold zlen in *; lia). rewrite (drop_ge (fr ++ r)), app_nil_r; [done|].
    rewrite !length_app. unfold zlen in *. lia. }
  cbn [mbind option_bind]. eexists (data x), _. split; [done|]. split; [done|]. split; [by apply only_skb_put_data|]. split; [done|].
  assert (zlen (take (Z.to_nat hlen) fr ++ l') = len x) as Hzt by (rewrite zlen_app; unfold zlen in *; rewrite length_take; lia).
  exists x, (SkbData (links d) (alloc_type d) (take (Z.to_nat hlen) fr ++ l' ++ r)). split; [split; cbn; try done; [apply lookup_insert_eq|cbn; rewrite app_assoc, zlen_app; pose proof (zlen_nonneg r); lia]|].
  split; [done|]. split; [lia|]. cbn. rewrite app_assoc. apply take_app_length'. unfold zlen in *. lia.
Qed.

Lemma set_dev_ok hlen m t fr dv : sent hlen m t fr -> exists d m', data <$> skbs m !! t = Some d /\ set_dev t dv m = Some m' /\
  only_skb np nd t d m m' /\ sent hlen m' t fr /\ dev <$> skbs m' !! t = Some dv.
Proof.
  intros (x & d & [Hs Hd Hl H1 H2 H3] & Hm & Hn & Hb). unfold set_dev. rewrite Hs. cbn [mbind option_bind].
  eexists (data x), _. split; [done|]. split; [done|]. split; [by eapply only_skb_put_skb|].
  cbn. rewrite lookup_insert_eq. split; [|done].
  exists (Skb dv (len x) (h x) (nh x) (mac x) (data x) (p_data x) (p_data_end x)), d.
  split; [split; cbn; try done; apply lookup_insert_eq|done].
Qed.

(** Only the buffer [t] differs. *)
Definition only_differs (t : Z) m m' : Prop :=
  (forall u, u <> t -> skbs m' !! u = skbs m !! u) /\ data <$> skbs m' !! t = data <$> skbs m !! t /\
  (forall u y, u <> t -> skbs m !! u = Some y -> bytes <$> datas m' !! data y = bytes <$> datas m !! data y).

Lemma only_skb_differs m m' t d : alone m t -> data <$> skbs m !! t = Some d -> only_skb np nd t d m m' -> only_differs t m m'.
Proof.
  intros Hal (x & Hx & ->)%fmap_Some (H1 & H2 & _ & H4 & _). split; [done|]. split; [done|]. intros u y Hu Hy. rewrite H2; [done|]. by eapply Hal.
Qed.

Lemma check_sent hlen hl m t fr : sent hlen m t fr -> 0 <= hlen <= zlen fr -> header (drop (Z.to_nat hlen) fr) hl ->
  exists d m' w, data <$> skbs m !! t = Some d /\ upd_iph t ip_set_check_field m = Some m' /\ wire hlen fr = Some w /\
    header (drop (Z.to_nat hlen) w) hl /\ only_skb np nd t d m m' /\ skbs m' = skbs m /\ sent hlen m' t w.
Proof.
  intros Hst Hh Hhd. destruct (header_bounds _ _ Hhd) as (Hr & Hl & _).
  set (l' := with_check (drop (Z.to_nat hlen) fr) (bytes16 (65535 - rep (hsum (with_check (drop (Z.to_nat hlen) fr) [0; 0]) hl)))).
  assert (zlen (drop (Z.to_nat hlen) fr) = zlen fr - hlen) as Hzd by (unfold zlen in *; rewrite length_drop; lia).
  destruct (upd_iph_ok hlen m t fr ip_set_check_field l' Hst Hh) as (d & m' & Hd & E & Ho & Hs & Hst').
  { unfold l'. rewrite with_check_len; [done|apply bytes16_ok|lia]. }
  { intros r. rewrite (set_check_app _ _ hl); [by rewrite (set_check_ok _ hl)|apply Hhd|apply Hhd]. }
  exists d, m', (take (Z.to_nat hlen) fr ++ l'). split_and!; try done.
  - unfold wire. rewrite (set_check_ok _ hl) by done. done.
  - rewrite drop_app_length' by (rewrite length_take; unfold zlen in *; lia). apply header_with_check; [done|apply bytes16_ok..].
Qed.

(** A fragment made ready to be sent. *)
Lemma set_check_sent hlen hl m t fr dv : alone m t -> sent hlen m t fr -> 0 <= hlen <= zlen fr ->
  header (drop (Z.to_nat hlen) fr) hl ->
  exists m1 m2 w, set_dev t dv m = Some m1 /\ upd_iph t ip_set_check_field m1 = Some m2 /\ wire hlen fr = Some w /\
    header (drop (Z.to_nat hlen) w) hl /\ (skmem_ok np nd [] m -> skmem_ok np nd [] m2) /\ sent hlen m2 t w /\
    dev <$> skbs m2 !! t = Some dv /\ only_differs t m m2.
Proof.
  intros Hal Hst Hh Hhd. destruct (set_dev_ok hlen m t fr dv Hst) as (d & m1 & Hd & E1 & Ho1 & Hs1 & Hdv).
  destruct (check_sent hlen hl m1 t fr Hs1 Hh Hhd) as (d' & m2 & w & Hd' & E2 & Ew & Hhw & Ho2 & Hs2 & Hst2).
  exists m1, m2, w. destruct Ho1 as (? & ? & ? & Hda & ?). rewrite Hda, Hd in Hd'. injection Hd' as <-.
  assert (only_skb np nd t d m m2) as Ho by (eapply only_skb_trans; [by split_and!|done]). split_and!; try done.
  - apply Ho.
  - by rewrite Hs2.
  - by eapply only_skb_differs.
Qed.

End SetCheck.

(** * Ownership *)

Section Ownership.
Context `{A : arch} `{!ArchOk A} `{B : byteorder} `{O : skb_opts} `{I : ip_opts} {H : Type} `{!SysHeap H} `{!SysHeapOk H} {W : Type}.
Context (np nd : Z).
(** The buffers that the layers below keep, as the packets that wait for an
    address to be resolved. *)
Context (lower : W -> gset Z).
Implicit Types w : world (H := H) (W := W).

Record world_ok w : Prop := {
  wk_mem : skmem_ok np nd [] (wmem w);
  wk_lower : lower (ext w) ⊆ dom (skbs (wmem w))
}.

Definition upper w : gset Z := dom (skbs (wmem w)) ∖ lower (ext w).

(** From [w] to [w'] the buffers [S] are freed or handed to the layers below, and
    no other has changed hands or contents. *)
Record gave (S : gset Z) w w' : Prop := {
  gv_ok : world_ok w';
  gv_upper : upper w' = upper w ∖ S;
  gv_skb : forall t, t ∈ upper w -> t ∉ S -> skbs (wmem w') !! t = skbs (wmem w) !! t;
  gv_bytes : forall t y, t ∈ upper w -> t ∉ S -> skbs (wmem w) !! t = Some y ->
    bytes <$> datas (wmem w') !! data y = bytes <$> datas (wmem w) !! data y;
  gv_alone : forall t, t ∈ upper w -> t ∉ S -> alone (wmem w) t -> alone (wmem w') t;
  gv_routes : routes w' = routes w /\ inet w' = inet w
}.

Lemma gave_refl w : world_ok w -> gave ∅ w w.
Proof. intros Hok. split; try done. set_solver. Qed.

Lemma gave_trans S1 S2 w1 w2 w3 : gave S1 w1 w2 -> gave S2 w2 w3 -> gave (S1 ∪ S2) w1 w3.
Proof.
  intros [Hk1 Hu1 Hs1 Hb1 Ha1 [Hr1 Hi1]] [Hk2 Hu2 Hs2 Hb2 Ha2 [Hr2 Hi2]].
  assert (forall t, t ∈ upper w1 -> t ∉ S1 ∪ S2 -> (t ∉ S1 /\ t ∉ S2) /\ t ∈ upper w2) as Ht by set_solver.
  split; [done|set_solver|..].
  - intros t Hin Hn. destruct (Ht t Hin Hn) as [[? ?] ?]. rewrite Hs2, Hs1; done.
  - intros t y Hin Hn Hy. destruct (Ht t Hin Hn) as [[? ?] ?]. rewrite (Hb2 t y); [by eapply Hb1|done|done|]. by rewrite Hs1.
  - intros t Hin Hn Ha. destruct (Ht t Hin Hn) as [[? ?] ?]. auto.
  - split; congruence.
Qed.

Lemma upper_elem w t : t ∈ upper w -> is_Some (skbs (wmem w) !! t).
Proof. unfold upper. rewrite elem_of_difference, elem_of_dom. tauto. Qed.

Lemma gave_gid S w g w' : gave S (World (wmem w) (routes w) (inet w) g (ext w)) w' -> gave S w w'.
Proof. by intros [H1 H2 H3 H4 H5 H6]; split. Qed.

Lemma gave_sent S hlen w w' t fr : gave S w w' -> t ∈ upper w -> t ∉ S -> sent hlen (wmem w) t fr -> sent hlen (wmem w') t fr.
Proof. intros [_ _ Hs Hb _ _] Ht Hn Hst. eapply sent_same; [done|by apply Hs|]. intros y Hy. by eapply Hb. Qed.

Lemma touched_upper w m t : only_differs t (wmem w) m -> t ∈ upper w -> dom (skbs m) = dom (skbs (wmem w)).
Proof.
  intros (H1 & H2 & _) Ht. destruct (upper_elem _ _ Ht) as [x Hx]. rewrite Hx in H2. apply fmap_Some in H2 as (x' & Hx' & _).
  apply set_eq. intros u. rewrite !elem_of_dom. destruct (decide (u = t)) as [->|]; [|by rewrite H1]. rewrite Hx, Hx'. split; eauto.
Qed.

Lemma touched_ok w m t : world_ok w -> t ∈ upper w -> only_differs t (wmem w) m -> skmem_ok np nd [] m ->
  world_ok (set_wmem m w) /\ upper (set_wmem m w) = upper w.
Proof.
  intros [_ Hlo] Ht Hod Hok. unfold upper. cbn. rewrite (touched_upper w m t Hod Ht). split; [|done]. split; cbn; [done|].
  by rewrite (touched_upper w m t Hod Ht).
Qed.

(** A change to a buffer that is then given away. *)
Lemma gave_touched S w m w' t : only_differs t (wmem w) m -> t ∈ upper w -> t ∈ S -> gave S (set_wmem m w) w' -> gave S w w'.
Proof.
  intros Hod Ht HtS [Hk Hu Hs Hb Ha Hr]. pose proof (touched_upper w m t Hod Ht) as Hdom. destruct Hod as (H1 & H2 & H3).
  destruct (upper_elem _ _ Ht) as [x Hx]. rewrite Hx in H2. cbn in H2. apply fmap_Some in H2 as (x' & Hx' & Hdx).
  assert (upper (set_wmem m w) = upper w) as Hup by (unfold upper; cbn; by rewrite Hdom). rewrite Hup in *. cbn [wmem set_wmem] in *.
  split; try done.
  - intros u Hu' Hn. rewrite Hs by done. apply H1. set_solver.
  - intros u y Hu' Hn Hy. assert (u <> t) by set_solver. rewrite (Hb u y); [by eapply H3|done|done|]. by rewrite H1.
  - intros u Hu' Hn Hal. assert (u <> t) by set_solver. apply Ha; try done. intros y v z Hy Hv Hz. rewrite H1 in Hy by done.
    destruct (decide (v = t)) as [->|]; [|rewrite H1 in Hz by done; by eapply Hal].
    rewrite Hx' in Hz. injection Hz as <-. rewrite <- Hdx. by eapply Hal.
Qed.

(** New buffers in between. *)
Lemma queued_upper w m q : world_ok w -> queued np nd (wmem w) m q ->
  world_ok (set_wmem m w) /\ upper (set_wmem m w) = upper w ∪ list_to_set q /\ forall t, t ∈ q -> t ∉ upper w.
Proof.
  intros [_ Hlo] [Hok [He1 He2] Hnd Hin Hon _ _].
  assert (dom (skbs m) = dom (skbs (wmem w)) ∪ list_to_set q) as Hdom.
  { apply set_eq. intros t. rewrite elem_of_union, elem_of_list_to_set, !elem_of_dom. split.
    - intros [y Hy]. destruct (decide (t ∈ q)) as [|Hn]; [by right|left]. destruct (skbs (wmem w) !! t) eqn:E; [eauto|].
      rewrite (Hon t E Hn) in Hy. done.
    - intros [Hy|Hy]; [by rewrite He1|by apply Hin]. }
  assert (forall t, t ∈ q -> t ∉ dom (skbs (wmem w))) as Hnew by (intros t Ht; apply not_elem_of_dom; by apply Hin).
  split_and!.
  - split; cbn; [done|]. rewrite Hdom. set_solver.
  - unfold upper. cbn. rewrite Hdom. set_solver.
  - intros t Ht. unfold upper. specialize (Hnew t Ht). set_solver.
Qed.

Lemma gave_new w m q S w' : world_ok w -> queued np nd (wmem w) m q -> gave (S ∪ list_to_set q) (set_wmem m w) w' -> gave S w w'.
Proof.
  intros Hok Hq [Hk Hu Hs Hb Ha Hr]. destruct (queued_upper w m q Hok Hq) as (Hok' & Hup & Hnew). rewrite Hup in *.
  destruct Hq as [Hkm [He1 He2] Hnd Hin Hon Hda _]. cbn [wmem set_wmem] in *.
  assert (forall t, t ∈ upper w -> t ∉ S -> t ∈ upper w ∪ list_to_set q /\ t ∉ S ∪ list_to_set q) as Ht.
  { intros t Ht Hn. split; [set_solver|]. intros [?|Htq%elem_of_list_to_set]%elem_of_union; [done|]. by apply (Hnew t Htq). }
  split; try done.
  - rewrite Hu. apply set_eq. intros t. specialize (Hnew t). set_solver.
  - intros t Hin' Hn. destruct (Ht t Hin' Hn) as [? ?]. rewrite Hs by done. apply He1, upper_elem. done.
  - intros t y Hin' Hn Hy. destruct (Ht t Hin' Hn) as [? ?]. rewrite (Hb t y); [|done|done|by rewrite He1].
    rewrite He2; [done|]. by eapply (sm_data _ _ _ _ (wk_mem _ Hok)).
  - intros t Hin' Hn Hal. destruct (Ht t Hin' Hn) as [? ?]. apply Ha; try done. intros y u z Hy Hu' Hz.
    assert (skbs m !! t = skbs (wmem w) !! t) as Et by (by apply He1, upper_elem). rewrite Et in Hy.
    destruct (skbs (wmem w) !! u) as [z'|] eqn:Eu.
    + rewrite He1, Eu in Hz by (by rewrite Eu). injection Hz as <-. by eapply Hal.
    + intros Heq. destruct (decide (u ∈ q)) as [Huq|Huq]; [|by rewrite (Hon u Eu Huq) in Hz].
      pose proof (Hda u z Huq Hz) as Hd. rewrite Heq in Hd. destruct (sm_data _ _ _ _ (wk_mem _ Hok) t y Hy) as [? Hd']. congruence.
Qed.

Context (Hopts : 8 <= MODOPS_DATA_SIZE < 2 ^ 30 /\ 0 <= IP_ALIGN_SIZE <= 2).

Lemma copy_queued irq (m : skmem (H := H)) s x d : skmem_ok np nd [] m -> skb_wf m s x d -> exists r m', skb_copy irq s m = Some (r, m') /\
  (r = 0 /\ queued np nd m m' [] \/ r <> 0 /\ queued np nd m m' [r]).
Proof.
  intros Hok Hwf. destruct (copy_ok np nd Hopts [] m irq s x d Hok Hwf) as (r & m' & E & Hok' & Hr). exists r, m'. split; [done|].
  destruct Hr as [(-> & Hs & Hd & _)|(Hr & Hn & d' & t & l & Hd' & Hdn & _ & _ & Hs & Hd)]; [left; split; [done|]|right; split; [lia|]].
  - split; rewrite ?Hs; try done; try (by intros ? ?%elem_of_nil); try (by intros ? ? ?%elem_of_nil); try apply NoDup_nil_2.
    split; by rewrite ?Hs, ?Hd.
  - split; try done.
    + split; intros u [y Hy]; rewrite ?Hs, ?Hd; apply lookup_insert_ne; congruence.
    + apply NoDup_singleton.
    + intros u ->%list_elem_of_singleton. rewrite Hs, lookup_insert_eq. by split; [eauto|].
    + intros u Hu Hur. rewrite Hs, lookup_insert_ne; [done|]. intros <-. apply Hur. by left.
    + intros u y ->%list_elem_of_singleton. rewrite Hs, lookup_insert_eq. by intros [= <-].
    + intros u ->%list_elem_of_singleton y v z. rewrite Hs, lookup_insert_eq. intros [= <-] Hv. rewrite lookup_insert_ne by done. intros Hz Heq.
      destruct (sm_data _ _ _ _ Hok v z Hz) as [? Hdz]. cbn in Heq. rewrite Heq, Hdn in Hdz. done.
Qed.

Lemma gave_free w s : world_ok w -> s ∈ upper w -> exists m', skb_free s (wmem w) = Some m' /\ gave {[s]} w (set_wmem m' w).
Proof.
  intros [Hok Hlo] Hs. destruct (upper_elem _ _ Hs) as [x Hx].
  destruct (skb_free_others np nd Hopts (wmem w) s x Hok Hx) as (m' & E & Hok' & Hs' & _ & Hb). exists m'. split; [done|].
  unfold upper in *. split; cbn.
  - split; cbn; [done|]. rewrite Hs', dom_delete_L. set_solver.
  - unfold upper. cbn. rewrite Hs', dom_delete_L. set_solver.
  - intros t _ Ht. rewrite Hs'. apply lookup_delete_ne. set_solver.
  - intros t y _ Ht Hy. eapply (Hb t); [set_solver|done].
  - intros t _ Ht Ha y u z Hy Hu Hz. rewrite Hs' in Hy, Hz. apply lookup_delete_Some in Hy as [_ Hy], Hz as [_ Hz]. by eapply Ha.
  - done.
Qed.

Lemma gave_purge q : forall w, world_ok w -> NoDup q -> (forall t, t ∈ q -> t ∈ upper w) ->
  exists m', skb_queue_purge q (wmem w) = Some m' /\ gave (list_to_set q) w (set_wmem m' w).
Proof.
  induction q as [|s q IH]; intros w Hok Hnd Hq.
  - exists (wmem w). split; [done|]. destruct w. by apply gave_refl.
  - apply NoDup_cons in Hnd as [Hs Hnd]. destruct (gave_free w s Hok) as (m1 & E1 & Hg1); [apply Hq; by left|].
    destruct (IH (set_wmem m1 w)) as (m2 & E2 & Hg2); [apply Hg1|done| |].
    + intros t Ht. rewrite (gv_upper _ _ _ Hg1). apply elem_of_difference. split; [apply Hq; by right|]. set_solver.
    + exists m2. cbn [skb_queue_purge]. rewrite E1. cbn [mbind option_bind]. split; [done|]. by apply (gave_trans {[s]} _ _ (set_wmem m1 w)).
Qed.

End Ownership.

(** What the link layer promises: it takes the packet, whatever it returns, and
    [log] has every frame that it has been given. *)
Class LinkLayer `{O : skb_opts} {H W : Type} `{!SysHeap H} `{!SysHeapOk H} (np nd : Z) (lower : W -> gset Z) (log : W -> list (list Z))
    (net_tx : Z -> option Z -> world (H := H) (W := W) -> option (Z * world (H := H) (W := W))) : Prop :=
  net_tx_takes : forall s next w, world_ok np nd lower w -> s ∈ upper lower w ->
    exists r w' fr, net_tx s next w = Some (r, w') /\ gave np nd lower {[s]} w w' /\ frame_in (wmem w) s = Some fr /\
      log (ext w') = log (ext w) ++ [fr].

(** * Sending *)

Section Send.
Context `{A : arch} `{!ArchOk A} `{B : byteorder} `{O : skb_opts} `{I : ip_opts} {H : Type} `{!SysHeap H} `{!SysHeapOk H} {W : Type}.
Context (np nd : Z) (Hopts : 8 <= MODOPS_DATA_SIZE < 2 ^ 30 /\ 0 <= IP_ALIGN_SIZE <= 2).
Context (lower : W -> gset Z) (log : W -> list (list Z)).
Context (net_tx : Z -> option Z -> world (H := H) (W := W) -> option (Z * world (H := H) (W := W))).
Context `{!LinkLayer np nd lower log net_tx}.
Context (hdr_len mtu : Z -> Z) (hlen hl : Z).
Implicit Types w : world (H := H) (W := W).
Local Abbreviation world_ok := (world_ok np nd lower).
Local Abbreviation gave := (gave np nd lower).
Local Abbreviation upper := (upper lower).

Lemma ip_xmit_ok w s fr : world_ok w -> s ∈ upper w -> sent hlen (wmem w) s fr -> 0 <= hlen ->
  header (drop (Z.to_nat hlen) fr) hl -> (forall x, skbs (wmem w) !! s = Some x -> dev x <> 0) ->
  exists r w', ip_xmit net_tx s w = Some (r, w') /\ gave {[s]} w w' /\
    (log (ext w') = log (ext w) ++ [fr] \/ r <> 0 /\ log (ext w') = log (ext w)).
Proof.
  intros Hok Hs Hst Hh Hhd Hdev. destruct (header_bounds _ _ Hhd) as (Hr & Hl & _).
  assert (zlen (drop (Z.to_nat hlen) fr) <= zlen fr - hlen) as Hzd by (unfold zlen in *; rewrite length_drop in *; lia).
  destruct (iph_of_sent _ _ _ _ Hst ltac:(lia)) as (x & d & r & [Hx _ _ _ _ _] & _ & _ & _ & _ & Ei).
  unfold ip_xmit. rewrite Hx. cbn [mbind option_bind]. destruct (Z.eqb_spec (dev x) 0); [by destruct (Hdev x Hx)|]. cbn [negb].
  rewrite Ei. cbn [mbind option_bind].
  assert (exists da, daddr (drop (Z.to_nat hlen) fr ++ r) = Some da) as [da Hda].
  { unfold daddr. rewrite get32_app by lia. unfold get32, get16.
    destruct (znth_lt (drop (Z.to_nat hlen) fr) 16) as [? ->]; [lia|]. destruct (znth_lt (drop (Z.to_nat hlen) fr) (16 + 1)) as [? ->]; [lia|].
    destruct (znth_lt (drop (Z.to_nat hlen) fr) (16 + 2)) as [? ->]; [lia|].
    destruct (znth_lt (drop (Z.to_nat hlen) fr) (16 + 2 + 1)) as [? ->]; [lia|]. by eexists. }
  rewrite Hda. cbn [mbind option_bind].
  assert (forall next, exists r w', net_tx s next w = Some (r, w') /\ gave {[s]} w w' /\
    (log (ext w') = log (ext w) ++ [fr] \/ r <> 0 /\ log (ext w') = log (ext w))) as Htx.
  { intros next. destruct (net_tx_takes s next w Hok Hs) as (r' & w' & fr' & E & Hg & Hf & Hlog). exists r', w'. split_and!; try done. left.
    rewrite (sent_frame_in _ _ _ _ Hst) in Hf. by injection Hf as <-. }
  destruct (ip_is_local da IP_LOCAL_BROADCAST (inet w)); [by apply Htx|].
  unfold rt_fib_route_ip. destruct (da =? INADDR_BROADCAST); [by apply Htx|].
  destruct (rt_fib_get_best da 0 (routes w)) as [[a e]|]; [by apply Htx|].
  destruct (gave_free np nd lower Hopts w s Hok Hs) as (m' & E & Hg). rewrite E. cbn [mbind option_bind].
  eexists _, _. split; [done|]. split; [done|]. by right.
Qed.

Lemma send_loop_ok dv q : dv <> 0 -> 0 <= hlen -> forall fs w, world_ok w -> NoDup q -> (forall t, t ∈ q -> t ∈ upper w /\ alone (wmem w) t) ->
  Forall2 (sent hlen (wmem w)) q fs -> Forall (fun f => header (drop (Z.to_nat hlen) f) hl) fs ->
  exists ret k w' ws j, send_loop net_tx dv 0 q w = Some (ret, drop k q, w') /\ gave (list_to_set (take k q)) w w' /\
    Forall2 (fun f f' => wire hlen f = Some f') fs ws /\ log (ext w') = log (ext w) ++ take j ws /\ (ret = 0 -> j = length ws).
Proof.
  intros Hdv Hh. induction q as [|t q IH]; intros fs w Hok Hnd Hq Hst Hfs.
  - apply Forall2_nil_inv_l in Hst as ->. exists 0, 0%nat, w, [], 0%nat. split; [done|]. split; [by apply gave_refl|].
    split; [done|]. rewrite app_nil_r. done.
  - apply Forall2_cons_inv_l in Hst as (f & fs' & Hf & Hst & ->). apply Forall_cons in Hfs as [Hhd Hfs].
    apply NoDup_cons in Hnd as [Ht Hnd]. destruct (Hq t ltac:(by left)) as [Htu Hta]. cbn [send_loop].
    destruct (header_bounds _ _ Hhd) as (Hr & Hl & _).
    assert (hlen <= zlen f) by (unfold zlen in *; rewrite length_drop in *; lia).
    destruct (set_check_sent np nd hlen hl (wmem w) t f dv Hta Hf ltac:(lia) Hhd)
      as (m1 & m2 & f' & E1 & E2 & Ew & Hhd' & Hok2 & Hf' & Hdv2 & Hod).
    rewrite E1. cbn [mbind option_bind]. rewrite E2. cbn [mbind option_bind].
    destruct (touched_ok np nd lower w m2 t Hok Htu Hod (Hok2 (wk_mem _ _ _ _ Hok))) as [Hokw Hup].
    destruct (ip_xmit_ok (set_wmem m2 w) t f') as (r & w1 & E3 & Hg1 & Hlog); try done; [by rewrite Hup| |].
    { intros x Hx. cbn in Hx. rewrite Hx in Hdv2. cbn in Hdv2. congruence. }
    apply (gave_touched _ _ _ _ w m2 w1 t) in Hg1; [|done|done|set_solver]. cbn [ext set_wmem] in Hlog.
    assert (forall u, u ∈ q -> u ∈ upper w /\ u ∉ ({[t]} : gset Z) /\ alone (wmem w) u) as Hrest.
    { intros u Hu. destruct (Hq u ltac:(by right)). split_and!; [done|set_solver|done]. }
    destruct (IH fs' w1) as (r' & k & w' & ws & j & E4 & Hg2 & Hws & Hlog2 & Hj); try done.
    { apply Hg1. }
    { intros u Hu. destruct (Hrest u Hu) as (H1 & H2 & H3). split; [rewrite (gv_upper _ _ _ _ _ _ Hg1); set_solver|]. by apply Hg1. }
    { clear -Hst Hrest Hg1. induction Hst as [|u f q fs Hu Hst IH]; [done|]. constructor; [|apply IH; intros; apply Hrest; by right].
      destruct (Hrest u ltac:(by left)) as (? & ? & _). by eapply gave_sent. }
    rewrite E3. cbn [mbind option_bind]. destruct (Z.eqb_spec r 0) as [->|Hr0]; cbn [negb].
    + destruct Hlog as [Hlog|[? _]]; [|done]. rewrite E4. exists r', (S k), w', (f' :: ws), (S j). split; [done|].
      split; [by eapply (gave_trans _ _ _ {[t]})|]. split; [by constructor|]. rewrite Hlog2, Hlog, <- app_assoc. cbn.
      split; [done|]. intros Hr'. by rewrite (Hj Hr').
    + exists r, 1%nat, w1, (f' :: ws), (if decide (log (ext w1) = log (ext w)) then 0%nat else 1%nat).
      split; [cbn; by rewrite drop_0|]. replace (list_to_set (take 1 (t :: q)) : gset Z) with ({[t]} : gset Z) by (cbn; rewrite take_0; set_solver).
      split; [done|]. split; [by constructor|]. split; [|done]. case_decide as Hd.
      * by rewrite Hd, app_nil_r.
      * destruct Hlog as [Hlog|[_ Hlog]]; [by rewrite Hlog|done].
Qed.

Lemma set_dev_differs w s dv m : set_dev s dv (wmem w) = Some m -> only_differs s (wmem w) m.
Proof.
  unfold set_dev. destruct (skbs (wmem w) !! s) as [x|] eqn:Hx; [|done]. cbn. intros [= <-]. split_and!; cbn.
  - intros u Hu. by apply lookup_insert_ne.
  - by rewrite lookup_insert_eq, Hx.
  - done.
Qed.

(** The frames [ws] of the datagram [P]. *)
Definition frames_of (P : list Z) (lim : Z) (ws : list (list Z)) : Prop :=
  exists l, tiled 0 l (zlen P - (hlen + hl)) /\ Forall (tile_ok hlen hl P) l /\
    Forall2 (fun p f => wire hlen (p_frame p) = Some f /\ hlen + hl + p_len p <= lim) l ws.

Lemma send_queue_ok w P i dv lim l : dv <> 0 -> packet hlen hl i P -> world_ok w -> NoDup (p_skb <$> l) ->
  (forall t, t ∈ p_skb <$> l -> t ∈ upper w /\ alone (wmem w) t) -> Forall (fun p => sent hlen (wmem w) (p_skb p) (p_frame p)) l ->
  tiled 0 l (zlen P - (hlen + hl)) -> Forall (tile_ok hlen hl P) l -> Forall (fun p => p_len p <= lim - (hlen + hl)) l ->
  exists r q' w1 m, send_loop net_tx dv 0 (p_skb <$> l) w = Some (r, q', w1) /\ skb_queue_purge q' (wmem w1) = Some m /\
    gave (list_to_set (p_skb <$> l)) w (set_wmem m w1) /\
    exists ws j, frames_of P lim ws /\ log (ext w1) = log (ext w) ++ take j ws /\ (r = 0 -> j = length ws).
Proof.
  intros Hdv HP Hok Hnd Hup Hst Ht Htl Hlim. pose proof HP as [Hhlen _ _ _ _ _].
  destruct (send_loop_ok dv (p_skb <$> l) Hdv (proj1 Hhlen) (p_frame <$> l) w) as (r & k & w1 & ws & j & E & Hg & Hws & Hlog & Hj); try done.
  { apply Forall2_fmap. by apply Forall_Forall2_diag. }
  { apply Forall_fmap. apply Forall_forall. intros p Hp. rewrite Forall_forall in Htl. destruct (Htl p Hp) as [Hf _].
    pose proof (tiled_range _ _ _ p Ht Hp). eapply (frame_header hlen hl i P HP); [done|lia..|]. case_match; tauto. }
  destruct (gave_purge np nd lower Hopts (drop k (p_skb <$> l)) w1) as (m & E2 & Hg2).
  { apply Hg. }
  { rewrite <- (take_drop k (p_skb <$> l)) in Hnd. by apply NoDup_app in Hnd as (_ & _ & ?). }
  { intros t Htd. rewrite (gv_upper _ _ _ _ _ _ Hg). apply elem_of_difference. rewrite <- (take_drop k (p_skb <$> l)) in Hnd, Hup.
    apply NoDup_app in Hnd as (_ & Hdis & _). split; [apply Hup, elem_of_app; by right|]. rewrite elem_of_list_to_set. intros Htk.
    by apply (Hdis t Htk). }
  exists r, (drop k (p_skb <$> l)), w1, m. split_and!; try done.
  - replace (list_to_set (p_skb <$> l) : gset Z) with (list_to_set (take k (p_skb <$> l)) ∪ list_to_set (drop k (p_skb <$> l)) : gset Z)
      by (by rewrite <- list_to_set_app_L, take_drop). by eapply gave_trans.
  - exists ws, j. split_and!; try done. exists l. split_and!; try done. apply Forall2_fmap_l in Hws. apply Forall2_same_length_lookup.
    rewrite Forall2_same_length_lookup in Hws. destruct Hws as [Hlen Hws]. split; [done|]. intros a p f Hp Hf.
    split; [by eapply Hws|]. rewrite Forall_lookup in Hlim. specialize (Hlim a p Hp). lia.
Qed.

Lemma fragment_ok irq fuel w s P i dv : IP_FRAGMENTED_SUPP = true -> packet hlen hl i P -> world_ok w -> s ∈ upper w ->
  sent hlen (wmem w) s P -> dv <> 0 -> hdr_len dv = hlen -> hlen + hl + 8 <= mtu dv < zlen P -> zlen P <= Z.of_nat fuel ->
  exists r w', fragment_skb_and_send hdr_len mtu net_tx fuel irq s dv w = Some (r, w') /\ gave {[s]} w w' /\
    (r <> 0 /\ log (ext w') = log (ext w) \/
     exists ws j, frames_of P (mtu dv) ws /\ log (ext w') = log (ext w) ++ take j ws /\ (r = 0 -> j = length ws)).
Proof.
  intros Hsupp HP Hok Hs Hst Hdv Hhdr Hmtu Hfuel. pose proof (packet_hl _ _ _ _ HP) as Hhl. pose proof HP as [Hhlen [_ Hsz _] _ Hlen _ _].
  destruct (set_dev_ok np nd hlen (wmem w) s P dv Hst) as (d & m1 & Hd & E1 & Ho1 & Hst1 & Hdv1).
  assert (skmem_ok np nd [] m1) as Hok1 by (apply Ho1, Hok). pose proof (set_dev_differs w s dv m1 E1) as Hod.
  destruct (touched_ok np nd lower w m1 s Hok Hs Hod Hok1) as [Hokw1 Hup1].
  assert (source hdr_len hlen P m1 s) as Hsrc.
  { destruct Hst1 as (x & dd & Hwf & Hm & Hn & Hb). exists x, dd. pose proof Hwf as [Hx _ _ _ _ _]. rewrite Hx in Hdv1. cbn in Hdv1.
    injection Hdv1 as Hdx. rewrite Hdx. by split_and!. }
  unfold fragment_skb_and_send. rewrite E1. cbn [mbind option_bind].
  destruct (ip_frag_ok np nd Hopts hdr_len hlen hl P Hhlen Hhl Hlen Hsz irq fuel m1 s (mtu dv) Hsupp Hok1 Hsrc Hmtu Hfuel)
    as (r & q & m2 & E2 & Hr). rewrite E2. cbn [mbind option_bind].
  assert (queued np nd (wmem (set_wmem m1 w)) m2 q) as Hq by (destruct Hr as [(_ & -> & Hq)|(_ & l & p & -> & Hq & _)]; done).
  destruct (queued_upper np nd lower (set_wmem m1 w) m2 q Hokw1 Hq) as (Hokw2 & Hup2 & Hnew).
  change (set_wmem m2 (set_wmem m1 w)) with (set_wmem m2 w) in *. rewrite Hup1 in *.
  destruct (gave_free np nd lower Hopts (set_wmem m2 w) s) as (m3 & E3 & Hg3); [done|rewrite Hup2; set_solver|].
  cbn [wmem set_wmem] in E3. rewrite E3. change (set_wmem m3 (set_wmem m2 w)) with (set_wmem m3 w) in Hg3.
  assert (forall w', gave ({[s]} ∪ list_to_set q) (set_wmem m2 w) w' -> gave {[s]} w w') as Hfin.
  { intros w' Hg. apply (gave_touched np nd lower {[s]} w m1 w' s); [done|done|set_solver|].
    by apply (gave_new np nd lower (set_wmem m1 w) m2 q). }
  destruct Hr as [(-> & -> & _)|(-> & l & p & -> & _ & Ht & Hl & Hp & Hc)].
  { eexists _, _. split; [done|]. split; [apply Hfin; cbn [list_to_set]; by rewrite union_empty_r_L|]. by left. }
  assert (Forall (tile_ok hlen hl P) (l ++ [p])) as Htl.
  { eapply tiles_ok; [done..|]. eapply Forall_impl; [exact Hc|]. by intros ? [_ ?]. }
  assert (forall t, t ∈ p_skb <$> (l ++ [p]) -> t ∉ ({[s]} : gset Z)) as Hns by (intros t Htq; specialize (Hnew t Htq); set_solver).
  destruct (send_queue_ok (set_wmem m3 w) P i dv (mtu dv) (l ++ [p])) as (r & q' & w4 & m5 & E4 & E5 & Hg & ws & j & Hfr & Hlog & Hj); try done.
  - apply Hg3.
  - apply Hq.
  - intros t Htq. rewrite (gv_upper _ _ _ _ _ _ Hg3), Hup2. split; [set_solver|]. apply Hg3; [rewrite Hup2; set_solver|by apply Hns|]. by apply Hq.
  - apply Forall_forall. intros x Hx. assert (p_skb x ∈ p_skb <$> (l ++ [p])) as Hxq by (by apply list_elem_of_fmap_2).
    eapply (gave_sent np nd lower {[s]}); [exact Hg3|rewrite Hup2; set_solver|by apply Hns|]. cbn [wmem set_wmem].
    apply elem_of_app in Hx as [Hx| ->%list_elem_of_singleton]; [|apply Hp]. rewrite Forall_forall in Hl. by apply Hl.
  - eapply Forall_impl; [exact Hc|]. cbv beta. intros x [? _]. lia.
  - cbn [Z.eqb negb mbind option_bind]. rewrite E4. cbn [mbind option_bind]. rewrite E5. cbn [mbind option_bind].
    eexists _, _. split; [done|]. split; [apply Hfin; by eapply gave_trans|]. right. by exists ws, j.
Qed.

End Send.
