(* ===== verification/IpSendTheorems.v ===== *)
(** [ip_snd] and [ip_forward] from end to end ([IpOutput.v]). *)
From S2P Require Import Prelude Bitmap Pool Skb SkbTheorems Ip IpFrag IpFragFacts IpFragList IpFragTheorems IpFragSend IpFragRoundtrip.
From S2P Require Import Route RouteTheorems IpOutput IpOutputTheorems.
From stdpp Require Import strings.

Local Open Scope Z_scope.
Local Open Scope embox_scope.

Section Stamp.
Context `{A : arch} `{!ArchOk A} `{B : byteorder} `{O : skb_opts} `{I : ip_opts} {H : Type} `{!SysHeap H} `{!SysHeapOk H}.
Context (np nd hlen hl : Z).
Implicit Types m : skmem (H := H).

Lemma get16_total l o : 0 <= o -> o + 2 <= zlen l -> exists x, get16 l o = Some x.
Proof.
  intros Ho Hl. unfold get16. destruct (znth_lt l o) as [? ->]; [lia|]. destruct (znth_lt l (o + 1)) as [? ->]; [lia|]. by eexists.
Qed.

Lemma id_of_iph_total l : 20 <= zlen l -> exists i, id_of_iph l = Some i.
Proof.
  intros Hl. unfold id_of_iph, daddr, saddr, proto, ip_id, get32, get8. destruct (get16_total l 16) as [? ->]; [lia..|].
  destruct (get16_total l (16 + 2)) as [? ->]; [lia..|]. destruct (get16_total l 12) as [? ->]; [lia..|].
  destruct (get16_total l (12 + 2)) as [? ->]; [lia..|]. destruct (znth_lt l 9) as [? ->]; [lia|].
  destruct (get16_total l 4) as [? ->]; [lia..|]. by eexists.
Qed.

Lemma bytes16_get x : 0 <= x < 65536 ->
  (a ← znth (bytes16 x) 0; b ← znth (bytes16 x) 1; Some (256 * a + b)) = Some x.
Proof.
  intros Hx. change (znth (bytes16 x) 0) with (Some (x / 256 mod 256)). change (znth (bytes16 x) 1) with (Some (x mod 256)). cbn [mbind option_bind].
  f_equal. destruct (word_bytes x Hx) as [? _]. unfold is_byte in *. pose proof (Z.div_mod x 256). rewrite (Z.mod_small (x / 256)); lia.
Qed.

(** A packet with the first four bytes of another one. *)
Lemma packet_ext i P P' : packet hlen hl i P -> header (drop (Z.to_nat hlen) P') hl -> zlen P' = zlen P ->
  (forall k, 0 <= k < 4 -> znth P' (hlen + k) = znth P (hlen + k)) -> exists i', packet hlen hl i' P'.
Proof.
  intros HP Hh Hz Hk. pose proof (packet_hl _ _ _ _ HP) as Hhl. destruct HP as [Hhlen _ Hv Hl Ht _].
  destruct (id_of_iph_total (drop (Z.to_nat hlen) P')) as [i' Hi']; [pose proof (header_bounds _ _ Hh); lia|].
  exists i'. split; try done; rewrite ?Hz; try done.
  - unfold version, get8 in *. rewrite znth_drop in * by lia. by rewrite Hk by lia.
  - unfold tot_len, get16 in *. rewrite !znth_drop in Ht by lia. rewrite !znth_drop by lia. by rewrite !Hk by lia.
Qed.

Lemma packet_accepted i P : packet hlen hl i P -> ip_set_check_field (drop (Z.to_nat hlen) P) = Some (drop (Z.to_nat hlen) P) ->
  ip_rcv_header (zlen P) hlen (drop (Z.to_nat hlen) P) = Some (inr (drop (Z.to_nat hlen) P)).
Proof.
  intros HP Hfix. pose proof (packet_hl _ _ _ _ HP). destruct HP as [Hhlen Hh Hv Hl Ht _].
  apply (ip_rcv_accepts _ hl _ _ (zlen P - hlen)); try done; lia.
Qed.

Lemma header_zwrite l l' o bs : header l hl -> 1 <= o -> Forall is_byte bs -> zwrite l o bs = Some l' -> header l' hl.
Proof.
  intros [Hb Hs Hl] Ho Hbs El. pose proof El as (_ & Hlen & Hl')%zwrite_split.
  destruct (zwrite_Some l o bs) as (l2 & E2 & Hz & Hn); [lia|lia|]. rewrite El in E2. injection E2 as <-. split.
  - rewrite Hl', !Forall_app. split; [by apply Forall_take|]. split; [done|by apply Forall_drop].
  - unfold IP_HEADER_SIZE, ihl, get8 in *. rewrite Hn by lia. destruct (Z.leb_spec o 0); [lia|]. done.
  - by rewrite Hz.
Qed.

(** A field of the header is changed. *)
Lemma put_sent i m t P o bs : alone m t -> packet hlen hl i P -> sent hlen m t P -> 4 <= o -> o + zlen bs <= hl -> Forall is_byte bs ->
  exists d m' P', data <$> skbs m !! t = Some d /\ upd_iph t (fun iph => zwrite iph o bs) m = Some m' /\ only_skb np nd t d m m' /\
    skbs m' = skbs m /\ sent hlen m' t P' /\ (exists i', packet hlen hl i' P') /\ zlen P' = zlen P /\
    (forall j, j < hlen + o \/ hlen + o + zlen bs <= j -> znth P' j = znth P j) /\
    forall k, 0 <= k < zlen bs -> znth P' (hlen + o + k) = znth bs k.
Proof.
  intros Hal HP Hst Ho Hol Hbs. pose proof (packet_hl _ _ _ _ HP) as Hhl. pose proof HP as [Hhlen Hh _ Hlen _ _].
  set (l := drop (Z.to_nat hlen) P) in *. assert (zlen l = zlen P - hlen) as Hzl by (unfold l, zlen in *; rewrite length_drop; lia).
  destruct (zwrite_Some l o bs) as (l' & El & Hzl' & Hn); [lia|lia|]. pose proof (zlen_nonneg bs).
  destruct (upd_iph_ok np nd hlen m t P (fun iph => zwrite iph o bs) l' Hst) as (d & m' & Hd & E & Hon & Hs & Hst'); [lia|lia| |].
  { intros r. fold l. rewrite zwrite_app_l by lia. by rewrite El. }
  set (P' := take (Z.to_nat hlen) P ++ l') in *.
  assert (length (take (Z.to_nat hlen) P) = Z.to_nat hlen) as Htk by (rewrite length_take; unfold zlen in *; lia).
  assert (drop (Z.to_nat hlen) P' = l') as Hdr by (by apply drop_app_length').
  assert (zlen P' = zlen P) as HzP by (unfold P'; rewrite zlen_app; unfold zlen in *; lia).
  assert (forall k, 0 <= k -> znth P' (hlen + k) = znth l' k) as Hk by (intros k Hk; rewrite <- Hdr, znth_drop by lia; done).
  assert (forall j, j < hlen + o \/ hlen + o + zlen bs <= j -> znth P' j = znth P j) as Hsame.
  { intros j Hj. destruct (Z.ltb_spec j hlen) as [Hlt|Hge].
    - destruct (Z.leb_spec 0 j); [|unfold znth; zbool; [lia|done]]. unfold P'. rewrite znth_app by done.
      replace (zlen (take (Z.to_nat hlen) P)) with hlen by (unfold zlen; lia). destruct (Z.ltb_spec j hlen); [|lia].
      rewrite !znth_lookup by done. apply lookup_take_lt. lia.
    - replace j with (hlen + (j - hlen)) by lia. rewrite Hk, Hn by lia.
      destruct (Z.leb_spec o (j - hlen)), (Z.ltb_spec (j - hlen) (o + zlen bs)); cbn [andb]; try lia; unfold l; by rewrite znth_drop by lia. }
  exists d, m', P'. split_and!; try done.
  - eapply packet_ext; [exact HP| |done|intros; apply Hsame; lia]. rewrite Hdr. eapply header_zwrite; [done| |done|exact El]. lia.
  - intros k Hkb. rewrite <- Z.add_assoc, Hk, Hn by lia. zbool; try lia. cbn [andb]. f_equal. lia.
Qed.

(** The checksum is set. *)
Lemma check_packet i m t P : packet hlen hl i P -> sent hlen m t P ->
  exists d m' P', data <$> skbs m !! t = Some d /\ upd_iph t ip_set_check_field m = Some m' /\ only_skb np nd t d m m' /\ skbs m' = skbs m /\
    sent hlen m' t P' /\ (exists i', packet hlen hl i' P') /\ zlen P' = zlen P /\
    (forall j, j <> hlen + 10 -> j <> hlen + 11 -> znth P' j = znth P j) /\
    ip_rcv_header (zlen P') hlen (drop (Z.to_nat hlen) P') = Some (inr (drop (Z.to_nat hlen) P')).
Proof.
  intros HP Hst. pose proof (packet_hl _ _ _ _ HP) as Hhl. pose proof HP as [Hhlen Hh _ Hlen _ _].
  destruct (check_sent np nd hlen hl m t P Hst ltac:(lia) Hh) as (d & m' & P' & Hd & E & Ew & Hhw & Ho & Hs & Hst').
  destruct (wire_spec hlen hl P ltac:(lia) Hh) as (w & Ew' & Hz & Hsame & _ & Hfix). rewrite Ew in Ew'. injection Ew' as <-.
  destruct (packet_ext i P P' HP Hhw Hz) as [i' HP']; [intros; apply Hsame; lia|].
  exists d, m', P'. split_and!; try done; [eauto|]. by eapply packet_accepted.
Qed.

End Stamp.

Section Emit.
Context `{A : arch} `{!ArchOk A} `{B : byteorder} `{O : skb_opts} `{I : ip_opts} {H W : Type} `{!SysHeap H} `{!SysHeapOk H}.
Context (np nd : Z) (lower : W -> gset Z) (log : W -> list (list Z)).
Context (net_tx : Z -> option Z -> world (H := H) (W := W) -> option (Z * world (H := H) (W := W))).
Context `{!LinkLayer np nd lower log net_tx}.
Context (hdr_len mtu : Z -> Z) (hlen hl : Z).
Context (Hopts : 8 <= MODOPS_DATA_SIZE < 2 ^ 30 /\ 0 <= IP_ALIGN_SIZE <= 2) (Hsupp : IP_FRAGMENTED_SUPP = true).
Implicit Types w : world (H := H) (W := W).

(** The frame is accepted by [ip_rcv]. *)
Definition accepted (f : list Z) : Prop :=
  ip_rcv_header (zlen f) hlen (drop (Z.to_nat hlen) f) = Some (inr (drop (Z.to_nat hlen) f)).

(** The packet [P] is too large, and may be fragmented. *)
Definition to_fragment (P : list Z) (dv : Z) : bool :=
  (zlen P >? mtu dv) && bool_decide (df_flag (drop (Z.to_nat hlen) P) = Some 0).

Lemma frames_accepted i P lim fs : packet hlen hl i P -> frames_of hlen hl P lim fs -> Forall accepted fs.
Proof.
  intros HP (l & Ht & Hl & Hw). apply Forall_forall. intros f [k Hk]%list_elem_of_lookup_1.
  destruct (Forall2_lookup_r _ _ _ _ _ Hw Hk) as (p & Hp & Ew & _).
  assert (p ∈ l) as Hin by (by eapply list_elem_of_lookup_2). pose proof (tiled_range _ _ _ p Ht Hin).
  rewrite Forall_forall in Hl. destruct (Hl p Hin) as [Hf _].
  destruct (wire_ok hlen hl i P HP _ _ _ _ Hf) as (w & Ew' & _ & _ & Ha); [lia..|case_match; tauto|].
  rewrite Ew in Ew'. by injection Ew' as <-.
Qed.

(** The frames that the packet [P] is sent in. *)
Definition sent_as (P : list Z) (dv r : Z) w w' : Prop :=
  r <> 0 /\ log (ext w') = log (ext w) \/
  exists fs j, (if to_fragment P dv then frames_of hlen hl P (mtu dv) fs else fs = [P]) /\ Forall accepted fs /\
    log (ext w') = log (ext w) ++ take j fs /\ (r = 0 -> j = length fs).

Lemma emit_ok irq fuel w s i P x : world_ok np nd lower w -> s ∈ upper lower w -> packet hlen hl i P -> accepted P ->
  sent hlen (wmem w) s P -> skbs (wmem w) !! s = Some x -> dev x <> 0 -> hdr_len (dev x) = hlen -> hlen + hl + 8 <= mtu (dev x) ->
  zlen P <= Z.of_nat fuel ->
  exists iph f r w', iph_of (wmem w) s = Some iph /\ frag_off iph = Some f /\
    (len x >? mtu (dev x)) && (Z.land f IP_DF =? 0) = to_fragment P (dev x) /\
    (if to_fragment P (dev x) then fragment_skb_and_send hdr_len mtu net_tx fuel irq s (dev x) w else ip_xmit net_tx s w) = Some (r, w') /\
    gave np nd lower {[s]} w w' /\ sent_as P (dev x) r w w'.
Proof.
  intros Hok Hs HP Hacc Hst Hx Hdev Hhdr Hmtu Hfuel. pose proof (packet_hl _ _ _ _ HP) as Hhl. pose proof HP as [Hhlen Hh _ Hlen _ _].
  destruct (iph_of_sent _ _ _ _ Hst ltac:(lia)) as (x' & d & r & [Hx' _ _ _ _ _] & _ & _ & _ & Hz & Ei). rewrite Hx in Hx'. injection Hx' as <-.
  assert (zlen (drop (Z.to_nat (hlen)) P) = zlen P - hlen) as Hzd by (unfold zlen in *; rewrite length_drop; lia).
  destruct (get16_total (drop (Z.to_nat (hlen)) P) 6) as [f Hf]; [lia..|].
  assert (frag_off (drop (Z.to_nat (hlen)) P ++ r) = Some f) as Hfr by (unfold frag_off; rewrite get16_app by lia; done).
  exists (drop (Z.to_nat (hlen)) P ++ r), f.
  assert ((len x >? mtu (dev x)) && (Z.land f IP_DF =? 0) = to_fragment P (dev x)) as Hb.
  { unfold to_fragment, df_flag, frag_off. rewrite Hf, Hz. cbn [mbind option_bind]. f_equal. apply eq_true_iff_eq.
    rewrite Z.eqb_eq, bool_decide_eq_true. split; [by intros ->|by intros [=]]. }
  unfold sent_as. destruct (to_fragment P (dev x)) eqn:Eb.
  - destruct (fragment_ok np nd Hopts lower log net_tx hdr_len mtu hlen hl irq fuel w s P i (dev x) Hsupp HP Hok Hs Hst Hdev Hhdr)
      as (r' & w' & E & Hg & Hr); [|done|].
    { unfold to_fragment in Eb. apply andb_true_iff in Eb as [Eb _]. rewrite Z.gtb_ltb in Eb. apply Z.ltb_lt in Eb. lia. }
    exists r', w'. split_and!; try done. destruct Hr as [Hr|(ws & j & Hfs & Hlog & Hj)]; [by left|right]. exists ws, j.
    split_and!; try done. by eapply frames_accepted.
  - destruct (ip_xmit_ok np nd Hopts lower log net_tx hlen hl w s P Hok Hs Hst) as (r' & w' & E & Hg & Hr); [lia|done|by intros; simplify_eq|].
    exists r', w'. split_and!; try done. destruct Hr as [Hlog|Hr]; [right|by left]. exists [P], 1%nat.
    split_and!; try done. by apply Forall_singleton.
Qed.

End Emit.


(** * Forwarding *)

(** What [icmp_discard] promises: it takes the packet, and may send others. *)
Class IcmpLayer `{O : skb_opts} {H W : Type} `{!SysHeap H} `{!SysHeapOk H} (np nd : Z) (lower : W -> gset Z) (log : W -> list (list Z))
    (icmp_discard : Z -> discard -> world (H := H) (W := W) -> option (Z * world (H := H) (W := W))) : Prop :=
  icmp_takes : forall s msg w, world_ok np nd lower w -> s ∈ upper lower w ->
    exists r w', icmp_discard s msg w = Some (r, w') /\ gave np nd lower {[s]} w w' /\ exists l, log (ext w') = log (ext w) ++ l.

Section Forward.
Context `{A : arch} `{!ArchOk A} `{B : byteorder} `{O : skb_opts} `{I : ip_opts} {H W : Type} `{!SysHeap H} `{!SysHeapOk H}.
Context (np nd : Z) (lower : W -> gset Z) (log : W -> list (list Z)) (dev_name : Z -> string).
Context (icmp_discard : Z -> discard -> world (H := H) (W := W) -> option (Z * world (H := H) (W := W))).
Context `{!IcmpLayer np nd lower log icmp_discard}.
Context (Hopts : 8 <= MODOPS_DATA_SIZE < 2 ^ 30 /\ 0 <= IP_ALIGN_SIZE <= 2).
Implicit Types w : world (H := H) (W := W).

Lemma reject_ok s msg w : world_ok np nd lower w -> s ∈ upper lower w ->
  exists w', reject icmp_discard s msg w = Some (-1, w') /\ gave np nd lower {[s]} w w'.
Proof.
  intros Hok Hs. destruct (icmp_takes s msg w Hok Hs) as (r & w' & E & Hg & _). unfold reject. rewrite E. by eexists.
Qed.

Lemma redirect_ok irq s da rte w hlen fr : world_ok np nd lower w -> s ∈ upper lower w -> sent hlen (wmem w) s fr ->
  exists w', redirect icmp_discard irq s da rte w = Some w' /\ gave np nd lower ∅ w w' /\ exists l, log (ext w') = log (ext w) ++ l.
Proof.
  intros Hok Hs (x & d & Hwf & _). pose proof Hwf as [Hx _ _ _ _ _]. unfold redirect. rewrite Hx. cbn [mbind option_bind].
  destruct (dev x =? rt_dev rte); [|exists w; split_and!; [done|by apply gave_refl|exists []; by rewrite app_nil_r]].
  destruct (copy_queued np nd Hopts irq (wmem w) s x d (wk_mem _ _ _ _ Hok) Hwf) as (r & m & E & Hr). rewrite E. cbn [mbind option_bind].
  destruct Hr as [[-> Hq]|[Hr Hq]]; destruct (queued_upper np nd lower w m _ Hok Hq) as (Hok' & Hup & _).
  - eexists. split; [done|]. split; [|exists []; by rewrite app_nil_r]. apply (gave_new np nd lower w m []); [done|done|].
    replace (∅ ∪ list_to_set [] : gset Z) with (∅ : gset Z) by set_solver. by apply gave_refl.
  - destruct (Z.eqb_spec r 0); [done|].
    destruct (icmp_takes r (if rt_gateway rte =? INADDR_ANY then host_redirect da else net_redirect (rt_gateway rte)) (set_wmem m w) Hok')
      as (r' & w' & E' & Hg & Hlog); [rewrite Hup; set_solver|].
    rewrite E'. eexists. split; [done|]. split; [|done]. apply (gave_new np nd lower w m [r]); [done|done|].
    replace (∅ ∪ list_to_set [r] : gset Z) with ({[r]} : gset Z) by set_solver. done.
Qed.

Lemma ip_route_ok s rte w iph da : iph_of (wmem w) s = Some iph -> daddr iph = Some da -> da <> INADDR_BROADCAST ->
  ip_is_local da 0 (inet w) = false -> rt_dev rte <> 0 -> is_Some (skbs (wmem w) !! s) ->
  exists m, set_dev s (rt_dev rte) (wmem w) = Some m /\ ip_route dev_name s 0 (Some rte) w = Some (0, set_wmem m w).
Proof.
  intros Ei Ed Hb Hl Hd [x Hx]. unfold ip_route. rewrite Ei. cbn [mbind option_bind]. rewrite Ed. cbn [mbind option_bind].
  destruct (Z.eqb_spec da INADDR_BROADCAST); [done|]. rewrite Hl. cbn [Z.eqb orb].
  destruct (Z.eqb_spec (rt_dev rte) 0); [done|]. cbn [negb]. unfold set_dev. rewrite Hx. cbn. by eexists.
Qed.

(** The last steps of [ip_forward], for a packet ready to be sent. *)
Context (net_tx : Z -> option Z -> world (H := H) (W := W) -> option (Z * world (H := H) (W := W))).
Context `{!LinkLayer np nd lower log net_tx}.
Context (hdr_len mtu : Z -> Z) (hlen hl : Z) (Hsupp : IP_FRAGMENTED_SUPP = true).

Lemma forward_ok irq fuel w s i P da rte : world_ok np nd lower w -> s ∈ upper lower w -> packet hlen hl i P -> accepted hlen P ->
  sent hlen (wmem w) s P -> daddr (drop (Z.to_nat hlen) P) = Some da -> da <> INADDR_BROADCAST -> ip_is_local da 0 (inet w) = false ->
  rt_dev rte <> 0 -> hdr_len (rt_dev rte) = hlen -> hlen + hl + 8 <= mtu (rt_dev rte) -> zlen P <= Z.of_nat fuel ->
  exists r w0 w', (w ← redirect icmp_discard irq s da rte w;
    '(r, w) ← ip_route dev_name s 0 (Some rte) w;
    if r <? 0 then reject icmp_discard s (if rt_gateway rte =? INADDR_ANY then host_unreach else net_unreach) w
    else
      x ← skbs (wmem w) !! s;
      if len x >? mtu (rt_dev rte) then
        iph ← iph_of (wmem w) s;
        f ← frag_off iph;
        if Z.land f IP_DF =? 0 then fragment_skb_and_send hdr_len mtu net_tx fuel irq s (rt_dev rte) w
        else reject icmp_discard s (frag_needed (u16 (mtu (rt_dev rte)))) w
      else ip_xmit net_tx s w) = Some (r, w') /\ gave np nd lower {[s]} w w' /\
    (zlen P <= mtu (rt_dev rte) \/ df_flag (drop (Z.to_nat hlen) P) = Some 0 ->
     sent_as log mtu hlen hl P (rt_dev rte) r w0 w' /\ exists l, log (ext w0) = log (ext w) ++ l).
Proof.
  intros Hok Hs HP Hacc Hst Hda Hbc Hloc Hd Hhdr Hmtu Hfuel. pose proof (packet_hl _ _ _ _ HP) as Hhl. pose proof HP as [Hhlen _ _ Hlen _ _].
  destruct (redirect_ok irq s da rte w hlen P Hok Hs Hst) as (w2 & E2 & Hg2 & Hlog2). rewrite E2. cbn [mbind option_bind].
  assert (s ∈ upper lower w2) as Hs2 by (rewrite (gv_upper _ _ _ _ _ _ Hg2); set_solver).
  assert (sent hlen (wmem w2) s P) as Hst2 by (eapply (gave_sent np nd lower ∅); [done|done|set_solver|done]).
  destruct (iph_of_sent _ _ _ _ Hst2 ltac:(lia)) as (y & dd & tl & [Hy _ _ _ _ _] & _ & _ & _ & _ & Ei2).
  destruct (ip_route_ok s rte w2 _ da Ei2) as (m3 & E3 & Er); [|done| |done|by rewrite Hy|].
  { unfold daddr. rewrite get32_app; [done|lia|]. unfold zlen in *. rewrite length_drop. lia. }
  { destruct (gv_routes _ _ _ _ _ _ Hg2) as [_ ->]. done. }
  rewrite Er. cbn [mbind option_bind Z.ltb Z.compare]. pose proof (set_dev_differs w2 s _ _ E3) as Hod.
  destruct (set_dev_ok np nd hlen (wmem w2) s P (rt_dev rte) Hst2) as (d & m3' & _ & E3' & Ho3 & Hst3 & Hdv). rewrite E3 in E3'.
  injection E3' as <-. destruct (touched_ok np nd lower w2 m3 s (gv_ok _ _ _ _ _ _ Hg2) Hs2 Hod) as [Hok3 Hup3]; [apply Ho3, Hg2|].
  rewrite <- Hup3 in Hs2. cbn [wmem set_wmem].
  destruct (skbs m3 !! s) as [x|] eqn:Hx; [|done]. cbn in Hdv. injection Hdv as Hdv. cbn [mbind option_bind]. rewrite <- Hdv in *.
  assert (forall w', gave np nd lower {[s]} (set_wmem m3 w2) w' -> gave np nd lower {[s]} w w') as Hfin.
  { intros w' Hg. rewrite <- (union_empty_l_L {[s]}). eapply gave_trans; [done|]. rewrite Hup3 in Hs2.
    apply (gave_touched np nd lower _ w2 m3 w' s); [done|done|set_solver|done]. }
  destruct (emit_ok np nd lower log net_tx hdr_len mtu hlen hl Hopts Hsupp irq fuel (set_wmem m3 w2) s i P x)
    as (iph & f & r & w' & Ei & Ef & Eb & E & Hgv & Hsent); try done.
  cbn [wmem set_wmem] in Ei. rewrite Ei. cbn [mbind option_bind]. rewrite Ef. cbn [mbind option_bind].
  destruct (len x >? mtu (dev x)) eqn:El; [destruct (Z.land f IP_DF =? 0) eqn:Ed|]; cbn [andb] in Eb; rewrite <- Eb in E.
  - exists r, (set_wmem m3 w2), w'. split_and!; [done|by apply Hfin|done].
  - destruct (reject_ok s (frag_needed (u16 (mtu (dev x)))) (set_wmem m3 w2) Hok3 Hs2) as (w4 & E4 & Hg4).
    exists (-1), w, w4. split_and!; [done|by apply Hfin|]. intros Hno. exfalso. unfold to_fragment in Eb.
    destruct Hst3 as (x3 & d3 & [Hx3 _ [? ?] _ _ _] & _ & _ & Hb3). rewrite Hx in Hx3. injection Hx3 as <-.
    destruct (rcv_skb_bytes (bytes d3) (len x) P ltac:(lia) Hb3) as [Hz3 _]. rewrite Hz3, El in Eb. rewrite Z.gtb_ltb in El. apply Z.ltb_lt in El.
    destruct Hno as [Hno|Hno]; [lia|]. by rewrite bool_decide_eq_true_2 in Eb.
  - exists r, (set_wmem m3 w2), w'. split_and!; [done|by apply Hfin|done].
Qed.

End Forward.

(** A destination that is not local, as [ip_rcv] tests it. *)
Lemma not_local da st : ip_is_local da IP_LOCAL_BROADCAST st = false -> da <> INADDR_BROADCAST /\ ip_is_local da 0 st = false.
Proof.
  unfold ip_is_local, ipv4_is_broadcast. change (Z.land IP_LOCAL_BROADCAST IP_LOCAL_BROADCAST) with 1.
  change (Z.land IP_LOCAL_BROADCAST IP_LOCAL_MULTICAST) with 0. cbn [Z.eqb negb andb Z.land]. destruct (ipv4_is_loopback da); [done|].
  destruct (Z.eqb_spec da INADDR_BROADCAST); [done|]. intros Hl. split; [done|].
  induction (inetdev_list st) as [|[a d] l IH]; [done|]. cbn [is_local_loop] in *. destruct (ifa_address d =? da); [done|].
  change (negb (Z.land IP_LOCAL_BROADCAST IP_LOCAL_BROADCAST =? 0)) with true in Hl. cbn [andb] in Hl.
  destruct (ifa_broadcast d =? da); [done|]. cbn. by apply IH.
Qed.

Lemma best_dev `{A : arch} `{!ArchOk A} nr st da a rte : rt_ok nr st -> rt_fib_get_best da 0 st = Some (a, rte) -> rt_dev rte <> 0.
Proof.
  intros [_ Hwf] E. pose proof (get_best_ok da 0 st) as Hb. rewrite E in Hb. destruct Hb as (l1 & l2 & El & _). rewrite El in Hwf.
  apply Forall_app in Hwf as [_ [Hx _]%Forall_cons]. done.
Qed.

(** The time to live is decreased and the checksum set. *)
Lemma ttl_step `{A : arch} `{!ArchOk A} `{B : byteorder} `{O : skb_opts} `{I : ip_opts} {H} `{!SysHeap H} `{!SysHeapOk H} np nd hlen hl i
  (m : skmem (H := H)) s P t :
  alone m s -> packet hlen hl i P -> sent hlen m s P -> ttl (drop (Z.to_nat hlen) P) = Some t -> 1 < t ->
  exists m1 m2 P', upd_iph s (fun iph => put8 iph 8 (t - 1)) m = Some m1 /\ upd_iph s ip_set_check_field m1 = Some m2 /\
    (skmem_ok np nd [] m -> skmem_ok np nd [] m2) /\ only_differs s m m2 /\ sent hlen m2 s P' /\ (exists i', packet hlen hl i' P') /\
    zlen P' = zlen P /\ ttl (drop (Z.to_nat hlen) P') = Some (t - 1) /\
    (forall j, j ∉ [hlen + 8; hlen + 10; hlen + 11] -> znth P' j = znth P j) /\
    daddr (drop (Z.to_nat hlen) P) = daddr (drop (Z.to_nat hlen) P') /\
    df_flag (drop (Z.to_nat hlen) P') = df_flag (drop (Z.to_nat hlen) P) /\ accepted hlen P'.
Proof.
  intros Hal HP Hst Ht Ht1. pose proof (packet_hl _ _ _ _ HP) as Hhl. pose proof HP as [Hhlen _ _ Hlen _ _].
  assert (is_byte t) as Hb.
  { unfold ttl, get8 in Ht. rewrite znth_drop in Ht by lia. eapply packet_byte; [done|done|lia]. }
  unfold is_byte in Hb. assert ((t - 1) mod 256 = t - 1) as Hmod by (apply Z.mod_small; lia).
  destruct (put_sent np nd hlen hl i m s P 8 [(t - 1) mod 256] Hal HP Hst) as (d & m1 & P1 & Hd & E1 & Ho1 & Hs1 & Hst1 & [i1 HP1] & Hz1 & Hsame1 & Hw);
    [lia|change (zlen [(t - 1) mod 256]) with 1; lia|apply Forall_singleton; unfold is_byte; lia|].
  change (zlen [(t - 1) mod 256]) with 1 in *.
  destruct (check_packet np nd hlen hl i1 m1 s P1 HP1 Hst1) as (d' & m2 & P' & Hd' & E2 & Ho2 & Hs2 & Hst2 & HP' & Hz2 & Hsame2 & Hacc).
  rewrite Hs1, Hd in Hd'. injection Hd' as <-. assert (only_skb np nd s d m m2) as Ho by (by eapply only_skb_trans).
  assert (forall j, j ∉ [hlen + 8; hlen + 10; hlen + 11] -> znth P' j = znth P j) as Hsame.
  { intros j Hj. rewrite !not_elem_of_cons in Hj. destruct Hj as (? & ? & ? & _). rewrite Hsame2, Hsame1 by lia. done. }
  assert (forall k, 0 <= k -> k <> 8 -> k <> 10 -> k <> 11 -> znth (drop (Z.to_nat hlen) P') k = znth (drop (Z.to_nat hlen) P) k) as Hk.
  { intros k H0 H8 H10 H11. rewrite !znth_drop by lia. apply Hsame. rewrite !not_elem_of_cons. split_and!; [lia..|by apply not_elem_of_nil]. }
  exists m1, m2, P'. split_and!; try done; [apply Ho|by eapply only_skb_differs|lia|..].
  - unfold ttl, get8. rewrite znth_drop, Hsame2 by lia. pose proof (Hw 0 ltac:(lia)) as Hw0. rewrite Z.add_0_r in Hw0. rewrite Hw0. cbn. by rewrite Hmod.
  - unfold daddr, get32, get16. by rewrite !Hk by lia.
  - unfold df_flag, frag_off, get16. by rewrite !Hk by lia.
Qed.


(** ** A link layer that sends at once *)

Definition demo_net_tx `{O : skb_opts} {H} `{!SysHeap H} (s : Z) (next : option Z) (w : world (H := H) (W := list (list Z)))
  : option (Z * world (H := H) (W := list (list Z))) :=
  match frame_in (wmem w) s, skb_free s (wmem w) with
  | Some fr, Some m => Some (0, World m (routes w) (inet w) (global_id w) (ext w ++ [fr]))
  | _, _ => None
  end.

#[export] Instance demo_link `{A : arch} `{!ArchOk A} `{O : skb_opts} {H} `{!SysHeap H} `{!SysHeapOk H} np nd
  (Hopts : 8 <= MODOPS_DATA_SIZE < 2 ^ 30 /\ 0 <= IP_ALIGN_SIZE <= 2) : LinkLayer (H := H) np nd (fun _ => ∅) id demo_net_tx.
Proof.
  intros s next w Hok Hs. destruct (gave_free np nd _ Hopts w s Hok Hs) as (m' & E & Hg).
  assert (exists fr, frame_in (wmem w) s = Some fr) as [fr Hfr].
  { destruct (upper_elem _ w s Hs) as [x Hx]. destruct (sm_data _ _ _ _ (wk_mem _ _ _ _ Hok) s x Hx) as [d Hd].
    unfold frame_in. rewrite Hx. cbn. rewrite Hd. by eexists. }
  exists 0, (World m' (routes w) (inet w) (global_id w) (ext w ++ [fr])), fr. unfold demo_net_tx. rewrite Hfr, E. split; [done|].
  split; [|done]. destruct Hg as [[H1 H2] H3 H4 H5 H6 H7]. by split.
Qed.

#[local] Existing Instance lp64.
#[local] Existing Instance demo_skb_opts.
#[local] Existing Instance demo_ip_opts.
#[local] Existing Instance demo_order.

Definition demo_world : world (H := Z) (W := list (list Z)) := World demo_tx demo_table (InetState [] (POOL_DEF 1024 32 4)) 1230 [].


Definition demo_icmp (s : Z) (msg : discard) (w : world (H := Z) (W := list (list Z))) : option (Z * world (H := Z) (W := list (list Z))) :=
  match skb_free s (wmem w) with Some m => Some (0, set_wmem m w) | None => None end.

#[local] Instance demo_icmp_layer : IcmpLayer 8 8 (fun _ => ∅) id demo_icmp.
Proof.
  assert (8 <= MODOPS_DATA_SIZE < 2 ^ 30 /\ 0 <= IP_ALIGN_SIZE <= 2) as Hopts by (cbn; lia).
  intros s msg w Hok Hs. destruct (gave_free 8 8 _ Hopts w s Hok Hs) as (m & E & Hg). unfold demo_icmp. rewrite E.
  eexists _, _. split_and!; [done|done|]. exists []. by rewrite app_nil_r.
Qed.

Definition demo_routes : rt_state := RtState [(512, RtEntry 6 0 1 (net_mask 0) 0xc0a80101)] (Pool 512 [] 32 256 544).
Definition demo_router : world (H := Z) (W := list (list Z)) := World demo_tx demo_routes (InetState [] (POOL_DEF 1024 32 4)) 1230 [].

Lemma demo_routes_ok : rt_ok 8 demo_routes.
Proof.
  split; cbn.
  - split; cbn; [lia|lia|]. exists 1. split_and!; [lia|lia|done|done].
  - by apply Forall_singleton.
Qed.

