(* ===== verification/Signal.v ===== *)
(** Pending signals: the sets of [src/compat/posix/signal/sigset.c], the queue
    of [src/kernel/thread/signal/siginfoq.c] and the state of a thread in
    [sigstate.c].

    A queued signal is an element of the pool [siginfoq_link_pool], shared by
    all threads, and is known by its address.  The singly linked queue is the
    list of its elements; a pointer to a link is the address of the element,
    or [SENTINEL].  The calls run with interrupts locked, one at a time. *)
From S2P Require Import Prelude Bitmap Pool.

Local Open Scope Z_scope.
Local Open Scope embox_scope.

Definition ENOENT : Z := 2.
Definition ENOMEM : Z := 12.
Definition EINVAL : Z := 22.

(** [si_rest]: the fields after [si_signo]. *)
Record siginfo := Siginfo { si_signo : Z; si_rest : list Z }.

Abbreviation siginfoq_link := (Z * siginfo)%type.
Definition SENTINEL : Z := 0.

Record siginfoq := Siginfoq { queue : list siginfoq_link; last : Z }.

Definition check_range (val lo hi : Z) : bool := (val >=? lo) && (val <? hi).

(** * Links *)

(** [link->next] *)
Fixpoint next_of (q : list siginfoq_link) (link : Z) : option Z :=
  match q with
  | [] => None
  | el :: q => if el.1 =? link then Some (match q with [] => SENTINEL | el :: _ => el.1 end) else next_of q link
  end.
Definition link_next (q : list siginfoq_link) (link : Z) : option Z :=
  if link =? SENTINEL then Some (match q with [] => SENTINEL | el :: _ => el.1 end) else next_of q link.

Fixpoint insert_after (el : siginfoq_link) (q : list siginfoq_link) (link : Z) : option (list siginfoq_link) :=
  match q with
  | [] => None
  | e :: q => if e.1 =? link then Some (e :: el :: q) else q ← insert_after el q link; Some (e :: q)
  end.
Definition slist_insert_after_link (el : siginfoq_link) (q : list siginfoq_link) (link : Z) : option (list siginfoq_link) :=
  if link =? SENTINEL then Some (el :: q) else insert_after el q link.

(** [link->next = link->next->next] for the element [a]. *)
Definition unlink (a : Z) (q : list siginfoq_link) : list siginfoq_link := filter (fun e => e.1 <> a) q.

(** * [siginfoq.c] *)

Definition siginfoq_init : siginfoq := Siginfoq [] SENTINEL.

Definition siginfoq_enqueue (infoq : siginfoq) (sig : Z) (info : siginfo) (pl : pool) : option (Z * siginfoq * pool) :=
  '(a, pl) ← pool_alloc pl;
  match a with
  | None => Some (- ENOMEM, infoq, pl)
  | Some a =>
    let infoq_el := (a, Siginfo sig (si_rest info)) in
    q ← slist_insert_after_link infoq_el (queue infoq) (last infoq);
    Some (0, Siginfoq q a, pl)
  end.

(** The [slist_foreach] loop: [last_link], [first_el], [still_pending]. *)
Fixpoint dequeue_scan (sig : Z) (q : list siginfoq_link) (last_link : Z) (first_el : option siginfoq_link)
  : Z * option siginfoq_link * bool :=
  match q with
  | [] => (last_link, first_el, false)
  | each_el :: q =>
    if si_signo each_el.2 =? sig then
      match first_el with
      | Some _ => (last_link, first_el, true)
      | None => dequeue_scan sig q last_link (Some each_el)
      end
    else
      match first_el with
      | None => dequeue_scan sig q each_el.1 None
      | Some _ => dequeue_scan sig q last_link first_el
      end
  end.

Definition siginfoq_dequeue (infoq : siginfoq) (sig : Z) (info : siginfo) (pl : pool)
  : option (Z * siginfo * siginfoq * pool) :=
  let '(last_link, first_el, still_pending) := dequeue_scan sig (queue infoq) SENTINEL None in
  match first_el with
  | None => Some (- ENOENT, info, infoq, pl)
  | Some first_el =>
    nx ← link_next (queue infoq) last_link;
    assert! nx =? first_el.1 ;;
    let q := unlink first_el.1 (queue infoq) in
    let la := if last infoq =? first_el.1 then last_link else last infoq in
    nx ← link_next q la;
    assert! nx =? SENTINEL ;;
    pl ← pool_free pl first_el.1;
    Some (b2z still_pending, first_el.2, Siginfoq q la, pl)
  end.

Record sigstate := Sigstate { pending : list Z; infoq : siginfoq }.

Section Signals.
Context `{A : arch}.
Context (SIG_TOTAL : Z).

(** * [sigset.c] *)

Definition sigemptyset (set : list Z) : option (list Z) := bitmap_clear_all set SIG_TOTAL.
Definition sigfillset (set : list Z) : option (list Z) := bitmap_set_all set SIG_TOTAL.

Definition sigismember (set : list Z) (signo : Z) : option Z :=
  if negb (check_range signo 1 SIG_TOTAL) then Some (- EINVAL) else bitmap_test_bit set signo.
Definition sigaddset (set : list Z) (signo : Z) : option (Z * list Z) :=
  if negb (check_range signo 1 SIG_TOTAL) then Some (- EINVAL, set)
  else set ← bitmap_set_bit set signo; Some (0, set).
Definition sigdelset (set : list Z) (signo : Z) : option (Z * list Z) :=
  if negb (check_range signo 1 SIG_TOTAL) then Some (- EINVAL, set)
  else set ← bitmap_clear_bit set signo; Some (0, set).

(** * [sigstate.c] *)

(** [set] is what the memory holds before. *)
Definition sigstate_init (set : list Z) : option sigstate :=
  set ← sigemptyset set; Some (Sigstate set siginfoq_init).

Definition sigstate_send (s : sigstate) (sig : Z) (info : option siginfo) (pl : pool) : option (Z * sigstate * pool) :=
  if sig =? 0 then Some (0, s, pl)
  else if negb (check_range sig 1 SIG_TOTAL) then Some (- EINVAL, s, pl)
  else
    '(err, q, pl) ← match info with
                    | Some info => siginfoq_enqueue (infoq s) sig info pl
                    | None => Some (0, infoq s, pl)
                    end;
    set ← (if err =? 0 then '(_, set) ← sigaddset (pending s) sig; Some set else Some (pending s));
    Some (err, Sigstate set q, pl).

Definition sigset_first (set : list Z) : option Z :=
  sig ← bitmap_find_first_bit set SIG_TOTAL;
  let sig := if sig =? SIG_TOTAL then 0 else sig in
  assert! check_range sig 0 SIG_TOTAL ;;
  Some sig.

Definition sigstate_receive (s : sigstate) (info : siginfo) (pl : pool) : option (Z * siginfo * sigstate * pool) :=
  sig ← sigset_first (pending s);
  if negb (sig =? 0) then
    '(nr_left, info, q, pl) ← siginfoq_dequeue (infoq s) sig info pl;
    set ← (if nr_left <=? 0 then '(_, set) ← sigdelset (pending s) sig; Some set else Some (pending s));
    let info := if nr_left <? 0 then Siginfo sig (si_rest info) else info in
    Some (sig, info, Sigstate set q, pl)
  else Some (sig, info, s, pl).

End Signals.
