(* ===== verification/SignalTheorems.v ===== *)
(** Signals are delivered lowest number first and in the order sent.

    The specification ([asig]) of a thread's state is the set of the pending
    signals and the list of the queued ones; all threads share the room of the
    pool. *)
From S2P Require Import Prelude Bitmap Pool Signal.

Local Open Scope Z_scope.
Local Open Scope embox_scope.

Record asig := Asig { apend : gset Z; aq : list siginfo }.

(** The first queued signal with the number, and the others. *)
Fixpoint take_first (sig : Z) (q : list siginfo) : option (siginfo * list siginfo) :=
  match q with
  | [] => None
  | i :: q => if si_signo i =? sig then Some (i, q) else '(j, q) ← take_first sig q; Some (j, i :: q)
  end.

Definition queued (all : list asig) : Z := zlen (all ≫= aq).

Inductive sig_op := Send (t : nat) (sig : Z) (info : option siginfo) | Receive (t : nat) (info : siginfo).

Section Spec.
Context (SIG_TOTAL n : Z).

Definition a_first (P : gset Z) : Z := default 0 (head (filter (fun i => i ∈ P) (seqZ 1 (SIG_TOTAL - 1)))).

Definition a_send (t : nat) (sig : Z) (info : option siginfo) (all : list asig) : option (Z * list asig) :=
  s ← all !! t;
  if sig =? 0 then Some (0, all)
  else if negb (check_range sig 1 SIG_TOTAL) then Some (- EINVAL, all)
  else match info with
  | None => Some (0, <[t := Asig ({[sig]} ∪ apend s) (aq s)]> all)
  | Some info =>
    Some (if queued all =? n then (- ENOMEM, all)
          else (0, <[t := Asig ({[sig]} ∪ apend s) (aq s ++ [Siginfo sig (si_rest info)])]> all))
  end.

Definition a_receive (t : nat) (info : siginfo) (all : list asig) : option (Z * siginfo * list asig) :=
  s ← all !! t;
  let sig := a_first (apend s) in
  Some (if sig =? 0 then (0, info, all)
        else match take_first sig (aq s) with
        | None => (sig, Siginfo sig (si_rest info), <[t := Asig (apend s ∖ {[sig]}) (aq s)]> all)
        | Some (i, q) =>
          (sig, i, <[t := Asig (if existsb (fun j => si_signo j =? sig) q then apend s else apend s ∖ {[sig]}) q]> all)
        end).

(** What a call gives back: the value, and for a receive the information. *)
Definition a_op (o : sig_op) (all : list asig) : option (Z * option siginfo * list asig) :=
  match o with
  | Send t sig info => '(r, all) ← a_send t sig info all; Some (r, None, all)
  | Receive t info => '(r, i, all) ← a_receive t info all; Some (r, Some i, all)
  end.

Definition do_op `{A : arch} (o : sig_op) (st : list sigstate * pool) : option (Z * option siginfo * (list sigstate * pool)) :=
  let '(all, pl) := st in
  match o with
  | Send t sig info =>
    s ← all !! t; '(r, s, pl) ← sigstate_send SIG_TOTAL s sig info pl; Some (r, None, (<[t := s]> all, pl))
  | Receive t info =>
    s ← all !! t; '(r, i, s, pl) ← sigstate_receive SIG_TOTAL s info pl; Some (r, Some i, (<[t := s]> all, pl))
  end.

Fixpoint sig_runs {S} (f : sig_op -> S -> option (Z * option siginfo * S)) (l : list sig_op) (s : S)
  : option (list (Z * option siginfo) * S) :=
  match l with
  | [] => Some ([], s)
  | o :: l => '(r, s) ← f o s; '(rs, s) ← sig_runs f l s; Some (r :: rs, s)
  end.

End Spec.

(** * The queue *)

Definition addrs (q : list siginfoq_link) : list Z := q.*1.

(** The address of the last element, or [d]. *)
Fixpoint lastq (q : list siginfoq_link) (d : Z) : Z := match q with [] => d | el :: q => lastq q el.1 end.

Lemma lastq_app q q' d : lastq (q ++ q') d = lastq q' (lastq q d).
Proof. revert d. induction q as [|el q IH]; intros d; cbn; [done|apply IH]. Qed.

Lemma lastq_in q d : lastq q d = d /\ q = [] \/ lastq q d ∈ addrs q.
Proof.
  revert d. induction q as [|el q IH]; intros d; cbn; [by left|]. right. unfold addrs in *. cbn.
  destruct (IH el.1) as [[-> _]|H]; [by left|by right].
Qed.

Lemma insert_after_last el q : forall d, q <> [] -> NoDup (addrs q) -> insert_after el q (lastq q d) = Some (q ++ [el]).
Proof.
  induction q as [|e q IH]; intros d Hne Hnd; [done|]. cbn [insert_after lastq]. unfold addrs in Hnd. cbn in Hnd.
  apply NoDup_cons in Hnd as [He Hnd]. destruct q as [|e' q]; [cbn; by rewrite Z.eqb_refl|].
  destruct (lastq_in (e' :: q) e.1) as [[_ ?]|Hin]; [done|]. zbool; [by rewrite e0 in He|]. by rewrite IH.
Qed.

Lemma next_of_mid q1 el q2 : NoDup (addrs (q1 ++ el :: q2)) ->
  next_of (q1 ++ el :: q2) el.1 = Some (match q2 with [] => SENTINEL | e :: _ => e.1 end).
Proof.
  unfold addrs. induction q1 as [|e q1 IH]; intros Hnd; cbn in *; [by rewrite Z.eqb_refl|].
  apply NoDup_cons in Hnd as [He Hnd]. zbool; [|by apply IH]. destruct He. rewrite e0, fmap_app. set_solver.
Qed.

Lemma link_next_last q : NoDup (addrs q) -> SENTINEL ∉ addrs q -> link_next q (lastq q SENTINEL) = Some SENTINEL.
Proof.
  intros Hnd Hs. destruct q as [|el q _] using rev_ind; [done|]. rewrite lastq_app. cbn. unfold link_next.
  zbool; [destruct Hs; unfold addrs; rewrite fmap_app; set_solver|]. by rewrite next_of_mid.
Qed.

Lemma link_next_to q1 el q2 : NoDup (addrs (q1 ++ el :: q2)) -> SENTINEL ∉ addrs (q1 ++ el :: q2) ->
  link_next (q1 ++ el :: q2) (lastq q1 SENTINEL) = Some el.1.
Proof.
  intros Hnd Hs. destruct q1 as [|e q1 _] using rev_ind; [done|]. rewrite lastq_app. cbn. unfold link_next.
  zbool; [destruct Hs; unfold addrs; rewrite !fmap_app; set_solver|].
  rewrite <- (app_assoc q1 [e]) in *. cbn in *. by rewrite next_of_mid.
Qed.

Lemma unlink_mid q1 el q2 : NoDup (addrs (q1 ++ el :: q2)) -> unlink el.1 (q1 ++ el :: q2) = q1 ++ q2.
Proof.
  intros Hnd. unfold unlink, addrs in *. rewrite fmap_app, fmap_cons, NoDup_app in Hnd.
  destruct Hnd as (_ & Hd & [He _]%NoDup_cons). rewrite filter_app, filter_cons, decide_False by tauto.
  rewrite !filter_all; [done| |].
  - intros x Hx E. destruct He. rewrite <- E. by apply list_elem_of_fmap_2.
  - intros x Hx E. apply (Hd el.1); [rewrite <- E; by apply list_elem_of_fmap_2|by left].
Qed.

Definition has_sig (sig : Z) (q : list siginfoq_link) : bool := existsb (fun e => si_signo e.2 =? sig) q.

Lemma scan_found sig el q : forall ll, exists l',
  dequeue_scan sig q ll (Some el) = (l', Some el, has_sig sig q) /\ l' = ll.
Proof.
  induction q as [|e q IH]; intros ll; cbn; [by exists ll|]. destruct (si_signo e.2 =? sig); [by exists ll|apply IH].
Qed.

Lemma scan_split sig q : forall ll,
  (has_sig sig q = false /\ exists l', dequeue_scan sig q ll None = (l', None, false)) \/
  exists q1 el q2, q = q1 ++ el :: q2 /\ has_sig sig q1 = false /\ si_signo el.2 = sig /\
    dequeue_scan sig q ll None = (lastq q1 ll, Some el, has_sig sig q2).
Proof.
  induction q as [|e q IH]; intros ll; cbn; [left; eauto|]. destruct (Z.eqb_spec (si_signo e.2) sig) as [Es|Es].
  - right. exists [], e, q. cbn. split_and!; try done. destruct (scan_found sig e q ll) as (l' & -> & ->). done.
  - destruct (IH e.1) as [(H1 & l' & ->)|(q1 & el & q2 & -> & H1 & H2 & ->)]; [left; eauto|right].
    exists (e :: q1), el, q2. cbn. split_and!; try done. apply Z.eqb_neq in Es. by rewrite Es.
Qed.

Lemma take_first_none sig q : has_sig sig q = false -> take_first sig (q.*2) = None.
Proof.
  induction q as [|e q IH]; cbn; [done|]. destruct (si_signo e.2 =? sig); [done|]. cbn. intros H. by rewrite IH.
Qed.

Lemma take_first_mid sig q1 el q2 : has_sig sig q1 = false -> si_signo el.2 = sig ->
  take_first sig ((q1 ++ el :: q2).*2) = Some (el.2, (q1 ++ q2).*2).
Proof.
  intros H1 <-. induction q1 as [|e q1 IH]; cbn in *; [by rewrite Z.eqb_refl|].
  destruct (si_signo e.2 =? si_signo el.2); [done|]. cbn in H1. by rewrite IH.
Qed.

Lemma has_sig_rest sig q1 q2 : has_sig sig q1 = false ->
  existsb (fun j => si_signo j =? sig) ((q1 ++ q2).*2) = has_sig sig q2.
Proof.
  intros H1. rewrite fmap_app, existsb_app. unfold has_sig in *.
  assert (forall q : list siginfoq_link, existsb (fun j => si_signo j =? sig) (q.*2) = existsb (fun e => si_signo e.2 =? sig) q) as E
    by (intros q; induction q as [|e q IH]; [done|]; cbn; by rewrite IH).
  by rewrite !E, H1.
Qed.

(** * The states of the threads *)

Section Rel.
Context `{A : arch} `{!ArchOk A}.
Context (SIG_TOTAL n : Z) (total_ok : 1 <= SIG_TOTAL <= 2 ^ 32).

Record set_rel (set : list Z) (P : gset Z) : Prop := {
  sr_ok : bm_ok set;
  sr_len : SIG_TOTAL <= LONG_BIT * zlen set;
  sr_bits : forall i, 0 <= i < SIG_TOTAL -> bm_bit set i = bool_decide (i ∈ P);
  sr_range : forall i, i ∈ P -> 1 <= i < SIG_TOTAL
}.

(** Every queued signal is pending. *)
Record state_rel (s : sigstate) (a : asig) : Prop := {
  st_set : set_rel (pending s) (apend a);
  st_queue : (queue (infoq s)).*2 = aq a;
  st_last : last (infoq s) = lastq (queue (infoq s)) SENTINEL;
  st_pending : forall i, i ∈ aq a -> si_signo i ∈ apend a
}.

Definition all_addrs (all : list sigstate) : list Z := all ≫= (fun s => addrs (queue (infoq s))).

Record sig_rel (st : list sigstate * pool) (all : list asig) : Prop := {
  g_states : Forall2 state_rel st.1 all;
  g_pool : pool_ok st.2 n (all_addrs st.1);
  g_mem : 0 < memory st.2
}.

Lemma range_dec sig : check_range sig 1 SIG_TOTAL = bool_decide (1 <= sig < SIG_TOTAL).
Proof. unfold check_range. case_bool_decide; zbool; try done; lia. Qed.

Lemma add_set set P sig : set_rel set P -> 1 <= sig < SIG_TOTAL ->
  exists set', sigaddset SIG_TOTAL set sig = Some (0, set') /\ set_rel set' ({[sig]} ∪ P).
Proof.
  intros [H1 H2 H3 H4] Hs. unfold sigaddset. rewrite range_dec, bool_decide_true by done. cbn [negb].
  destruct (bitmap_set_bit_spec set sig H1) as (set' & -> & H1' & Hl & Hb); [lia|]. exists set'. split; [done|].
  split; [done|by rewrite Hl| |set_solver by lia].
  intros i Hi. rewrite Hb, H3 by lia. case_bool_decide as E1; case_bool_decide as E2; zbool; set_solver.
Qed.

Lemma del_set set P sig : set_rel set P -> 1 <= sig < SIG_TOTAL ->
  exists set', sigdelset SIG_TOTAL set sig = Some (0, set') /\ set_rel set' (P ∖ {[sig]}).
Proof.
  intros [H1 H2 H3 H4] Hs. unfold sigdelset. rewrite range_dec, bool_decide_true by done. cbn [negb].
  destruct (bitmap_clear_bit_spec set sig H1) as (set' & -> & H1' & Hl & Hb); [lia|]. exists set'. split; [done|].
  split; [done|by rewrite Hl| |set_solver].
  intros i Hi. rewrite Hb, H3 by lia. case_bool_decide as E1; case_bool_decide as E2; zbool; set_solver.
Qed.

Lemma a_first_spec P : (forall i, i ∈ P -> 1 <= i < SIG_TOTAL) ->
  (a_first SIG_TOTAL P = 0 /\ P = ∅) \/ (a_first SIG_TOTAL P ∈ P /\ forall j, j ∈ P -> a_first SIG_TOTAL P <= j).
Proof.
  intros HP. unfold a_first.
  pose proof (head_filter_seqZ (fun i => i ∈ P) 1 (Z.to_nat (SIG_TOTAL - 1))) as H. rewrite Z2Nat.id in H by lia.
  destruct (head _) as [i|]; cbn.
  - destruct H as (Hi & HiP & Hmin). right. split; [done|]. intros j Hj. apply Hmin; [|done]. specialize (HP j Hj). lia.
  - left. split; [done|]. apply set_eq. intros j. split; [|set_solver]. intros Hj. destruct (H j); [|done].
    specialize (HP j Hj). lia.
Qed.

Lemma first_ok set P : set_rel set P -> sigset_first SIG_TOTAL set = Some (a_first SIG_TOTAL P).
Proof.
  intros [H1 H2 H3 H4]. unfold sigset_first, bitmap_find_first_bit, bitmap_find_bit.
  destruct (bitmap_find_first set SIG_TOTAL 0 false H1) as (r & -> & Hr & Hlow); [lia..|]. cbn [mbind option_bind negb] in *.
  assert ((if r =? SIG_TOTAL then 0 else r) = a_first SIG_TOTAL P) as ->.
  { destruct (a_first_spec P H4) as [[-> ->]|[Hf Hmin]].
    - destruct (Z.eqb_spec r SIG_TOTAL); [done|]. destruct Hr as [?|[Hr Hb]]; [done|].
      rewrite H3 in Hb by lia. by apply bool_decide_eq_true in Hb.
    - pose proof (H4 _ Hf) as Hfr. set (f := a_first SIG_TOTAL P) in *.
      assert (bm_bit set f = true) as Hbf by (rewrite H3 by lia; by apply bool_decide_eq_true).
      assert (~ f < r) as Hnot by (intros Hlt; rewrite Hlow in Hbf by lia; done).
      destruct Hr as [->|[Hr Hb]]; [lia|]. destruct (Z.eqb_spec r SIG_TOTAL); [lia|].
      rewrite H3 in Hb by lia. apply bool_decide_eq_true in Hb. specialize (Hmin r Hb). lia. }
  unfold check_range. destruct (a_first_spec P H4) as [[-> ->]|[Hf _]]; [zbool; try lia; done|].
  specialize (H4 _ Hf). zbool; try lia. done.
Qed.

(** * The two operations *)

Lemma addrs_at all t s : all !! t = Some s -> exists l1 l2, all_addrs all = l1 ++ addrs (queue (infoq s)) ++ l2 /\
  forall s', all_addrs (<[t := s']> all) = l1 ++ addrs (queue (infoq s')) ++ l2.
Proof.
  intros Ht. exists (all_addrs (take t all)), (all_addrs (drop (S t) all)). unfold all_addrs. split.
  - rewrite <- (take_drop_middle all t s Ht) at 1. by rewrite bind_app, bind_cons.
  - intros s'. rewrite insert_take_drop by (by eapply lookup_lt_Some). by rewrite bind_app, bind_cons.
Qed.

Lemma queued_ok st all : sig_rel st all -> queued all = zlen (all_addrs st.1).
Proof.
  intros [HF _ _]. unfold queued, all_addrs, zlen. f_equal. induction HF as [|s a ss al Hs _ IH]; [done|].
  rewrite !bind_cons, !length_app, IH. f_equal. rewrite <- (st_queue _ _ Hs). unfold addrs. by rewrite !length_fmap.
Qed.

Lemma pool_addrs pl l : pool_ok pl n l -> 0 < memory pl -> NoDup l /\ SENTINEL ∉ l.
Proof.
  intros Hok Hm. split.
  - pose proof (pool_nodup _ _ _ Hok) as Hnd. by apply NoDup_app in Hnd as (_ & _ & ?).
  - intros (i & Hi & E)%(live_block _ _ _ _ Hok). unfold block, SENTINEL in E. pose proof (po_size _ _ _ Hok). nia.
Qed.

Lemma queue_addrs all pl t s : pool_ok pl n (all_addrs all) -> 0 < memory pl -> all !! t = Some s ->
  NoDup (addrs (queue (infoq s))) /\ SENTINEL ∉ addrs (queue (infoq s)).
Proof.
  intros Hok Hm Ht. destruct (pool_addrs _ _ Hok Hm) as [Hnd Hs]. destruct (addrs_at _ _ _ Ht) as (l1 & l2 & E & _).
  rewrite E in *. apply NoDup_app in Hnd as (_ & _ & Hnd). apply NoDup_app in Hnd as (Hnd & _ & _). set_solver.
Qed.

Lemma rel_insert all pl al t s a : Forall2 state_rel all al -> state_rel s a -> pool_ok pl n (all_addrs (<[t := s]> all)) ->
  0 < memory pl -> sig_rel (<[t := s]> all, pl) (<[t := a]> al).
Proof. intros H1 H2 H3 H4. split; cbn; try done. by apply Forall2_insert. Qed.

Lemma sig_enqueue_ok all pl t s sig info : pool_ok pl n (all_addrs all) -> 0 < memory pl -> all !! t = Some s ->
  last (infoq s) = lastq (queue (infoq s)) SENTINEL ->
  if zlen (all_addrs all) =? n then siginfoq_enqueue (infoq s) sig info pl = Some (- ENOMEM, infoq s, pl)
  else exists a pl', siginfoq_enqueue (infoq s) sig info pl =
      Some (0, Siginfoq (queue (infoq s) ++ [(a, Siginfo sig (si_rest info))]) a, pl') /\
    pool_ok pl' n (a :: all_addrs all) /\ memory pl' = memory pl.
Proof.
  intros Hok Hm Ht Hl. destruct (queue_addrs _ _ _ _ Hok Hm Ht) as [Hnd Hs].
  pose proof (pool_alloc_ok _ _ _ Hok) as Ha. unfold siginfoq_enqueue. destruct (zlen (all_addrs all) =? n).
  - by rewrite Ha.
  - destruct Ha as (x & pl' & E & Hx & _ & Hok'). rewrite E. cbn [mbind option_bind].
    exists x, pl'. split; [|split; [done|by apply (pool_alloc_memory _ _ _ E)]].
    unfold slist_insert_after_link. rewrite Hl. destruct (queue (infoq s)) as [|e q] eqn:Eq; [done|].
    destruct (lastq_in (e :: q) SENTINEL) as [[_ ?]|Hin]; [done|].
    destruct (Z.eqb_spec (lastq (e :: q) SENTINEL) SENTINEL) as [E0|_]; [by rewrite E0 in Hin|].
    by rewrite insert_after_last.
Qed.

Lemma send_ok all pl al t sig info s a : sig_rel (all, pl) al -> all !! t = Some s -> al !! t = Some a ->
  exists r al' all' pl' s', a_send SIG_TOTAL n t sig info al = Some (r, al') /\
    sigstate_send SIG_TOTAL s sig info pl = Some (r, s', pl') /\ all' = <[t := s']> all /\ sig_rel (all', pl') al'.
Proof.
  intros Hrel Hs Ha. pose proof Hrel as [HF Hok Hm]. cbn in *. pose proof (Forall2_lookup_lr _ _ _ _ _ _ HF Hs Ha) as [H1 H2 H3 H4].
  unfold a_send, sigstate_send. rewrite Ha. cbn [mbind option_bind].
  assert (sig_rel (<[t := s]> all, pl) al) as Hsame by (by rewrite list_insert_id).
  destruct (sig =? 0); [by eauto 10|]. rewrite range_dec. case_bool_decide as Hr; cbn [negb]; [|by eauto 10].
  destruct (add_set _ _ sig H1 Hr) as (set' & Es & Hset). destruct info as [info|].
  - pose proof (sig_enqueue_ok all pl t s sig info Hok Hm Hs H3) as He. rewrite (queued_ok _ _ Hrel). cbn [fst].
    destruct (zlen (all_addrs all) =? n).
    + rewrite He. cbn. destruct s; eauto 10.
    + destruct He as (x & pl' & -> & Hok' & Hm'). cbn [mbind option_bind Z.eqb]. rewrite Es. cbn [mbind option_bind].
      eexists _, _, _, _, _. split; [done|]. split; [done|]. split; [done|].
      destruct (addrs_at _ _ _ Hs) as (l1 & l2 & E1 & E2). apply rel_insert; [done| |rewrite E2|by rewrite Hm'].
      * split; cbn; [done|by rewrite fmap_app, H2| |].
        -- by rewrite lastq_app.
        -- intros i. rewrite elem_of_app, list_elem_of_singleton. intros [Hi| ->]; set_solver.
      * eapply pool_ok_perm; [|exact Hok']. rewrite E1. cbn. unfold addrs. rewrite fmap_app. cbn. solve_Permutation.
  - cbn [mbind option_bind Z.eqb]. rewrite Es. cbn [mbind option_bind]. eexists _, _, _, _, _. split; [done|]. split; [done|].
    split; [done|]. destruct (addrs_at _ _ _ Hs) as (l1 & l2 & E1 & E2). apply rel_insert; [done| |rewrite E2; cbn; by rewrite <- E1|done].
    split; cbn; [done..|]. intros i Hi. set_solver.
Qed.

Lemma sig_dequeue_ok all pl t s q1 el q2 info : pool_ok pl n (all_addrs all) -> 0 < memory pl -> all !! t = Some s ->
  last (infoq s) = lastq (queue (infoq s)) SENTINEL -> queue (infoq s) = q1 ++ el :: q2 ->
  has_sig (si_signo el.2) q1 = false ->
  exists pl', siginfoq_dequeue (infoq s) (si_signo el.2) info pl =
      Some (b2z (has_sig (si_signo el.2) q2), el.2, Siginfoq (q1 ++ q2) (lastq (q1 ++ q2) SENTINEL), pl') /\
    (forall s', queue (infoq s') = q1 ++ q2 -> pool_ok pl' n (all_addrs (<[t := s']> all))) /\ memory pl' = memory pl.
Proof.
  intros Hok Hm Ht Hl Eq H1. destruct (queue_addrs _ _ _ _ Hok Hm Ht) as [Hnd Hs]. rewrite Eq in Hnd, Hs.
  destruct (addrs_at _ _ _ Ht) as (l1 & l2 & E1 & E2). rewrite Eq in E1.
  assert (dequeue_scan (si_signo el.2) (q1 ++ el :: q2) SENTINEL None = (lastq q1 SENTINEL, Some el, has_sig (si_signo el.2) q2)) as Es.
  { clear -H1. generalize SENTINEL. induction q1 as [|e q1 IH]; intros d; cbn in *.
    - rewrite Z.eqb_refl. destruct (scan_found (si_signo el.2) el q2 d) as (l' & -> & ->). done.
    - destruct (si_signo e.2 =? si_signo el.2); [done|]. by apply IH. }
  unfold siginfoq_dequeue. rewrite Eq, Es. rewrite link_next_to by done. cbn [mbind option_bind]. rewrite Z.eqb_refl.
  rewrite unlink_mid by done.
  assert ((if last (infoq s) =? el.1 then lastq q1 SENTINEL else last (infoq s)) = lastq (q1 ++ q2) SENTINEL) as ->.
  { rewrite Hl, Eq, !lastq_app. cbn. unfold addrs in Hnd. rewrite fmap_app, fmap_cons, NoDup_app in Hnd.
    destruct Hnd as (_ & _ & [He _]%NoDup_cons). destruct q2 as [|e q2]; [cbn; by rewrite Z.eqb_refl|].
    destruct (lastq_in (e :: q2) el.1) as [[_ ?]|Hin]; [done|]. unfold addrs in Hin. zbool; [by rewrite e0 in Hin|done]. }
  assert (NoDup (addrs (q1 ++ q2)) /\ SENTINEL ∉ addrs (q1 ++ q2)) as [Hnd' Hs'].
  { unfold addrs in *. rewrite !fmap_app, !fmap_cons in *. split; [|set_solver].
    rewrite <- Permutation_middle in Hnd. by apply NoDup_cons in Hnd as [_ ?]. }
  rewrite link_next_last by done. cbn [mbind option_bind Z.eqb].
  destruct (pool_free_ok pl n (l1 ++ addrs q1) el.1 (addrs q2 ++ l2)) as (pl' & -> & Hok' & _ & Hm').
  { eapply pool_ok_perm; [|exact Hok]. rewrite E1. unfold addrs. rewrite fmap_app, fmap_cons, <- !app_assoc. done. }
  cbn [mbind option_bind]. exists pl'. split_and!; [done| |done]. intros s' Es'. rewrite E2, Es'.
  eapply pool_ok_perm; [|exact Hok']. unfold addrs. by rewrite fmap_app, <- !app_assoc.
Qed.

Lemma existsb_sig sig q j : existsb (fun j => si_signo j =? sig) q = false -> j ∈ q -> si_signo j <> sig.
Proof.
  intros E Hj Es. assert (existsb (fun j => si_signo j =? sig) q = true) as E'; [|congruence].
  apply existsb_exists. exists j. split; [by apply list_elem_of_In|by apply Z.eqb_eq].
Qed.

Lemma receive_ok all pl al t info s a : sig_rel (all, pl) al -> all !! t = Some s -> al !! t = Some a ->
  exists r i al' pl' s', a_receive SIG_TOTAL t info al = Some (r, i, al') /\
    sigstate_receive SIG_TOTAL s info pl = Some (r, i, s', pl') /\ sig_rel (<[t := s']> all, pl') al'.
Proof.
  intros Hrel Hs Ha. pose proof Hrel as [HF Hok Hm]. cbn in *. pose proof (Forall2_lookup_lr _ _ _ _ _ _ HF Hs Ha) as [H1 H2 H3 H4].
  unfold a_receive, sigstate_receive. rewrite Ha. cbn [mbind option_bind]. rewrite (first_ok _ _ H1). cbn [mbind option_bind].
  destruct (a_first_spec _ (sr_range _ _ H1)) as [[E0 _]|[Hf _]].
  { rewrite E0. cbn. eexists _, _, _, _, _. split; [done|]. split; [done|]. by rewrite list_insert_id. }
  pose proof (sr_range _ _ H1 _ Hf) as Hr. set (sig := a_first SIG_TOTAL (apend a)) in *.
  destruct (Z.eqb_spec sig 0) as [?|_]; [lia|]. cbn [negb]. destruct (del_set _ _ sig H1 Hr) as (set' & Es & Hset).
  rewrite <- H2. destruct (scan_split sig (queue (infoq s)) SENTINEL) as [(Hn & l' & E)|(q1 & el & q2 & Eq & Hq1 & <- & _)].
  - rewrite (take_first_none _ _ Hn). unfold siginfoq_dequeue. rewrite E. cbn [mbind option_bind].
    change (- ENOENT <=? 0) with true. change (- ENOENT <? 0) with true. cbn iota. rewrite Es. cbn [mbind option_bind].
    eexists _, _, _, _, _. split; [done|]. split; [done|]. destruct (addrs_at _ _ _ Hs) as (l1 & l2 & E1 & E2).
    apply rel_insert; [done| |rewrite E2; cbn; by rewrite <- E1|done]. split; cbn; [done..|].
    intros i Hi. apply elem_of_difference. rewrite H2 in Hi. split; [by apply H4|]. rewrite not_elem_of_singleton.
    apply (existsb_sig sig (aq a)); [|done]. rewrite <- H2. rewrite <- (app_nil_l (queue (infoq s))).
    by rewrite has_sig_rest.
  - destruct (sig_dequeue_ok all pl t s q1 el q2 info Hok Hm Hs H3 Eq Hq1) as (pl' & -> & Hp & Hm'). cbn [mbind option_bind].
    rewrite Eq, (take_first_mid _ _ _ _ Hq1 eq_refl), has_sig_rest by done.
    assert (forall i, i ∈ (q1 ++ q2).*2 -> i ∈ aq a) as Hsub.
    { rewrite <- H2, Eq. intros i. rewrite !list_elem_of_fmap. intros (e & -> & He). exists e. set_solver. }
    assert (b2z (has_sig (si_signo el.2) q2) <? 0 = false) as -> by (by destruct (has_sig _ q2)).
    destruct (has_sig (si_signo el.2) q2) eqn:Eh; cbn [b2z Z.leb Z.compare]; [|rewrite Es]; cbn [mbind option_bind].
    all: eexists _, _, _, _, _; split; [done|]; split; [done|].
    all: apply rel_insert; [done| |by apply Hp|by rewrite Hm']; split; cbn; [done..|].
    + intros i Hi. by apply H4, Hsub.
    + intros i Hi. apply elem_of_difference. split; [by apply H4, Hsub|]. rewrite not_elem_of_singleton.
      apply (existsb_sig _ ((q1 ++ q2).*2)); [by rewrite has_sig_rest|done].
Qed.

Lemma op_ok st al o r i al' : sig_rel st al -> a_op SIG_TOTAL n o al = Some (r, i, al') ->
  exists st', do_op SIG_TOTAL o st = Some (r, i, st') /\ sig_rel st' al'.
Proof.
  destruct st as [all pl]. intros Hrel. destruct o as [t sig info|t info]; cbn [a_op do_op].
  - destruct (al !! t) as [a|] eqn:Ha; [|unfold a_send; by rewrite Ha].
    destruct (Forall2_lookup_r _ _ _ _ _ (g_states _ _ Hrel) Ha) as (s & Hs & _). cbn in Hs.
    destruct (send_ok all pl al t sig info s a Hrel Hs Ha) as (r' & al2 & all' & pl' & s' & E1 & E2 & -> & Hrel').
    rewrite E1, Hs. cbn [mbind option_bind]. rewrite E2. cbn [mbind option_bind]. intros [= <- <- <-]. eauto.
  - destruct (al !! t) as [a|] eqn:Ha; [|unfold a_receive; by rewrite Ha].
    destruct (Forall2_lookup_r _ _ _ _ _ (g_states _ _ Hrel) Ha) as (s & Hs & _). cbn in Hs.
    destruct (receive_ok all pl al t info s a Hrel Hs Ha) as (r' & i' & al2 & pl' & s' & E1 & E2 & Hrel').
    rewrite E1, Hs. cbn [mbind option_bind]. rewrite E2. cbn [mbind option_bind]. intros [= <- <- <-]. eauto.
Qed.

Lemma sig_runs_ok l : forall st al rs al', sig_rel st al -> sig_runs (a_op SIG_TOTAL n) l al = Some (rs, al') ->
  exists st', sig_runs (do_op SIG_TOTAL) l st = Some (rs, st') /\ sig_rel st' al'.
Proof.
  induction l as [|o l IH]; intros st al rs al' Hrel; cbn [sig_runs]; [intros [= <- <-]; eauto|].
  destruct (a_op SIG_TOTAL n o al) as [[[r i] al1]|] eqn:E1; [|done]. cbn [mbind option_bind].
  destruct (sig_runs (a_op SIG_TOTAL n) l al1) as [[rs1 al2]|] eqn:E2; [|done]. cbn [mbind option_bind]. intros [= <- <-].
  destruct (op_ok _ _ _ _ _ _ Hrel E1) as (st1 & -> & Hrel1). cbn [mbind option_bind].
  destruct (IH _ _ _ _ Hrel1 E2) as (st2 & -> & Hrel2). eauto.
Qed.

Lemma init_state set : bm_ok set -> BITMAP_SIZE SIG_TOTAL <= zlen set ->
  exists s, sigstate_init SIG_TOTAL set = Some s /\ state_rel s (Asig ∅ []) /\ queue (infoq s) = [].
Proof.
  intros Hok Hl. pose proof long_bit_pos as HL. unfold sigstate_init, sigemptyset, bitmap_clear_all, bitmap_fill.
  destruct (Z.leb_spec (BITMAP_SIZE SIG_TOTAL) (zlen set)); [|lia]. cbn [mbind option_bind]. eexists. split; [done|].
  split; [|done]. split; [|done..|set_solver].
  assert (0 <= BITMAP_SIZE SIG_TOTAL /\ SIG_TOTAL <= LONG_BIT * BITMAP_SIZE SIG_TOTAL) as [Hb0 Hb].
  { unfold BITMAP_SIZE. split; [apply Z.div_pos; lia|]. pose proof (Z.div_mod (SIG_TOTAL + LONG_BIT - 1) LONG_BIT).
    pose proof (Z.mod_pos_bound (SIG_TOTAL + LONG_BIT - 1) LONG_BIT). lia. }
  split; cbn.
  - apply Forall_app. split; [apply Forall_replicate; split; [done|apply Z.pow_pos_nonneg; lia]|by apply Forall_drop].
  - unfold zlen in *. rewrite length_app, length_replicate, length_drop. nia.
  - intros i Hi. rewrite bool_decide_false by set_solver. unfold bm_bit.
    assert (0 <= i / LONG_BIT < BITMAP_SIZE SIG_TOTAL) by (split; [apply Z.div_pos; lia|apply Z.div_lt_upper_bound; lia]).
    rewrite znth_lookup by lia. rewrite lookup_app_l by (rewrite length_replicate; lia).
    rewrite lookup_replicate_2 by lia. apply Z.bits_0.
  - set_solver.
Qed.

Lemma init_states mem osize sets : 0 < mem -> 0 < osize -> 0 <= n ->
  Forall (fun set => bm_ok set /\ BITMAP_SIZE SIG_TOTAL <= zlen set) sets ->
  exists sts, mapM (sigstate_init SIG_TOTAL) sets = Some sts /\
    sig_rel (sts, POOL_DEF mem osize n) (replicate (length sets) (Asig ∅ [])).
Proof.
  intros Hm Ho Hn HF. assert (exists sts, mapM (sigstate_init SIG_TOTAL) sets = Some sts /\
    Forall2 state_rel sts (replicate (length sets) (Asig ∅ [])) /\ all_addrs sts = []) as (sts & E & Hst & Ha).
  { induction HF as [|set sets [H1 H2] _ IH]; [by exists []|]. destruct IH as (sts & E & Hst & Ha).
    destruct (init_state set H1 H2) as (s & Es & Hs & Hq). exists (s :: sts). cbn. rewrite Es. cbn. rewrite E. cbn.
    split; [done|]. split; [by constructor|]. change (addrs (queue (infoq s)) ++ all_addrs sts = []). by rewrite Hq, Ha. }
  exists sts. split; [done|]. split; cbn [fst snd]; [done| |done]. rewrite Ha. by apply pool_def_ok.
Qed.

End Rel.

(** C14: signals are delivered lowest number first, those of one number in the
    order they were sent, and none that was accepted is lost.  For any sequence
    of sends and receives of any threads from initialised states, the calls
    return what the specification returns: a send with information fails only
    for a bad number or when the pool that all threads share is used up; a
    receive takes the least pending number with the oldest information queued
    for it, and leaves the number pending exactly if more is queued.  Every
    queued signal stays pending, and the pool holds exactly the queued ones. *)
Theorem signals_refine `{A : arch} `{!ArchOk A} SIG_TOTAL n mem osize sets :
  1 <= SIG_TOTAL <= 2 ^ 32 -> 0 < mem -> 0 < osize -> 0 <= n ->
  Forall (fun set => bm_ok set /\ BITMAP_SIZE SIG_TOTAL <= zlen set) sets ->
  exists sts, mapM (sigstate_init SIG_TOTAL) sets = Some sts /\
    forall ops rs al, sig_runs (a_op SIG_TOTAL n) ops (replicate (length sets) (Asig ∅ [])) = Some (rs, al) ->
      exists sts' pl, sig_runs (do_op SIG_TOTAL) ops (sts, POOL_DEF mem osize n) = Some (rs, (sts', pl)) /\
        pool_ok pl n (all_addrs sts') /\
        (fun s => (queue (infoq s)).*2) <$> sts' = aq <$> al /\
        forall a i, a ∈ al -> i ∈ aq a -> si_signo i ∈ apend a.
Proof.
  intros HT Hm Ho Hn HF. destruct (init_states SIG_TOTAL n HT mem osize sets Hm Ho Hn HF) as (sts & E & Hrel).
  exists sts. split; [done|]. intros ops rs al Hrun.
  destruct (sig_runs_ok SIG_TOTAL n HT ops _ _ rs al Hrel Hrun) as ([sts' pl] & E' & [HF' Hok' _]).
  exists sts', pl. cbn [fst snd] in *. split_and!; [done|done| |].
  - clear -HF'. induction HF' as [|s a ss al' Hs _ IH]; [done|]. rewrite !fmap_cons, IH. f_equal. apply (st_queue _ _ _ Hs).
  - intros a i [t Ht]%list_elem_of_lookup Hi. destruct (Forall2_lookup_r _ _ _ _ _ HF' Ht) as (s & _ & Hs).
    by apply (st_pending _ _ _ Hs).
Qed.

(** Two threads and room for three queued signals. *)
Definition demo_ops : list sig_op :=
  [Send 0 9 (Some (Siginfo 0 [1])); Send 0 9 (Some (Siginfo 0 [2])); Send 0 5 None; Send 1 7 (Some (Siginfo 0 [3]));
   Send 1 7 (Some (Siginfo 0 [4])); Receive 0 (Siginfo 0 [0]); Receive 0 (Siginfo 0 [0]); Receive 0 (Siginfo 0 [0]);
   Receive 0 (Siginfo 0 [0]); Send 1 40 None].

Lemma signals_refine_witness :
  exists sts st', mapM (sigstate_init (A := ilp32) 32) [[255]; [7]] = Some sts /\
    sig_runs (do_op (A := ilp32) 32) demo_ops (sts, POOL_DEF 4096 24 3) =
      Some ([(0, None); (0, None); (0, None); (0, None); (- ENOMEM, None); (5, Some (Siginfo 5 [0]));
             (9, Some (Siginfo 9 [1])); (9, Some (Siginfo 9 [2])); (0, Some (Siginfo 0 [0])); (- EINVAL, None)], st').
Proof.
  destruct (signals_refine (A := ilp32) 32 3 4096 24 [[255]; [7]]) as (sts & E & H).
  - done.
  - done.
  - done.
  - done.
  - repeat constructor; done.
  - assert (exists al, sig_runs (a_op 32 3) demo_ops [Asig ∅ []; Asig ∅ []] =
      Some ([(0, None); (0, None); (0, None); (0, None); (- ENOMEM, None); (5, Some (Siginfo 5 [0]));
             (9, Some (Siginfo 9 [1])); (9, Some (Siginfo 9 [2])); (0, Some (Siginfo 0 [0])); (- EINVAL, None)], al)) as (al & Er).
    { eexists. vm_compute. reflexivity. }
    destruct (H _ _ _ Er) as (sts' & pl & Ed & _). exists sts, (sts', pl). split; [exact E|exact Ed].
Defined.
