(* ===== verification/Idesc.v ===== *)
(** File descriptors: the tables of [src/kernel/task/idesc/idesc_table.c] and
    [index_descriptor.c], and the calls [close], [dup], [dup2] and [fcntl] of
    [src/compat/posix/idx] over them.

    A descriptor ([struct idesc]) is known by its address; a slot of a table
    holds the address, with bit 0 set when the slot is to be closed on exec.
    [tables] has one table for each task.  What a descriptor's own [close] does
    is outside: the calls are recorded in [closed], in order.  A table
    operation runs under [idesc_tables_lock] and is one step; the callers'
    [task_self()] is an argument. *)
From S2P Require Import Prelude Indexator.

Local Open Scope Z_scope.
Local Open Scope embox_scope.

Definition ENOENT : Z := 2.
Definition EBADF : Z := 9.
Definition EMFILE : Z := 24.
Definition O_ACCESS_MASK : Z := 3.
Definition O_APPEND : Z := 0x0008.
Definition O_DIRECT : Z := 0x0800.
Definition O_NONBLOCK : Z := 0x1000.
Definition O_NDELAY : Z := 0x01000.
Definition FD_CLOEXEC : Z := 0x0010.

(** [has_close]: [idesc_ops] and its [close] are there. *)
Record idesc := IdescObj {
  idesc_flags : Z;
  idesc_usage_count : Z;
  has_close : bool
}.

Record idesc_table := IdescTable {
  slots : list Z;
  indexator_of : indexator
}.

Record ids := Ids {
  descs : gmap Z idesc;
  tables : list idesc_table;
  closed : list Z
}.

Definition idesc_cloexec_set (desc : Z) : Z := Z.lor desc 1.
Definition idesc_cloexec_clear (desc : Z) : Z := Z.land desc (Z.lnot 1).
Definition idesc_is_cloexeced (desc : Z) : bool := negb (Z.land desc 1 =? 0).

Definition set_count (c : Z) (d : idesc) : idesc := IdescObj (idesc_flags d) c (has_close d).
Definition set_flags (f : Z) (d : idesc) : idesc := IdescObj f (idesc_usage_count d) (has_close d).
Definition set_tables (ts : list idesc_table) (st : ids) : ids := Ids (descs st) ts (closed st).

Definition idesc_init (amode : Z) (ops_have_close : bool) : idesc := IdescObj amode 0 ops_have_close.

Section Idesc.
Context `{A : arch}.
Context (MODOPS_IDESC_TABLE_SIZE : Z).

Definition idesc_index_valid (idx : Z) : bool := (idx >=? 0) && (idx <? MODOPS_IDESC_TABLE_SIZE).

(** [idesc_table_get_locked]: the local copy is cleared, not the slot. *)
Definition idesc_table_get_locked (t : idesc_table) (idx : Z) : option Z :=
  x ← znth (slots t) idx; Some (idesc_cloexec_clear x).

(** What [idesc_table_add], [idesc_table_lock] and [idesc_table_idx_copy] do
    once they have the index. *)
Definition idesc_put (t : nat) (desc idx : Z) (cloexec : bool) (ind : indexator) (st : ids) : option ids :=
  tb ← tables st !! t;
  d ← descs st !! desc;
  let d := set_count (s32 (idesc_usage_count d + 1)) d in
  let x := if cloexec then idesc_cloexec_set desc else desc in
  sl ← zset (slots tb) idx x;
  Some (Ids (<[desc := d]> (descs st)) (<[t := IdescTable sl ind]> (tables st)) (closed st)).

Definition idesc_table_add (t : nat) (desc : Z) (cloexec : bool) (st : ids) : option (Z * ids) :=
  assert! negb (desc =? 0) ;;
  tb ← tables st !! t;
  '(r, ind) ← index_alloc [] (indexator_of tb) INDEX_MIN;
  let idx := s32 r in
  if ul idx =? INDEX_NONE
  then Some (- EMFILE, set_tables (<[t := IdescTable (slots tb) ind]> (tables st)) st)
  else st ← idesc_put t desc idx cloexec ind st; Some (idx, st).

Definition idesc_table_lock (t : nat) (desc idx : Z) (cloexec : bool) (st : ids) : option (Z * ids) :=
  assert! negb (desc =? 0) ;;
  assert! idesc_index_valid idx ;;
  tb ← tables st !! t;
  locked ← index_locked (indexator_of tb) idx;
  assert! locked =? 0 ;;
  ind ← index_lock (indexator_of tb) idx;
  st ← idesc_put t desc idx cloexec ind st;
  Some (idx, st).

Definition idesc_table_locked (t : nat) (idx : Z) (st : ids) : option Z :=
  assert! idesc_index_valid idx ;;
  tb ← tables st !! t;
  index_locked (indexator_of tb) idx.

Definition idesc_table_del (t : nat) (idx : Z) (st : ids) : option ids :=
  assert! idesc_index_valid idx ;;
  tb ← tables st !! t;
  desc ← idesc_table_get_locked tb idx;
  assert! negb (desc =? 0) ;;
  d ← descs st !! desc;
  assert! has_close d ;;
  let n := s32 (idesc_usage_count d - 1) in
  ind ← index_free (indexator_of tb) idx;
  sl ← zset (slots tb) idx 0;
  Some (Ids (<[desc := set_count n d]> (descs st)) (<[t := IdescTable sl ind]> (tables st))
    (if n =? 0 then closed st ++ [desc] else closed st)).

Definition idesc_table_get (t : nat) (idx : Z) (st : ids) : option Z :=
  assert! idesc_index_valid idx ;;
  tb ← tables st !! t;
  desc ← idesc_table_get_locked tb idx;
  assert! desc mod (LONG_BIT / 8) =? 0 ;;
  Some desc.

(** [buffer] is what the memory of the mask holds before. *)
Definition idesc_table_init (buffer : list Z) : option idesc_table :=
  ind ← index_init 0 MODOPS_IDESC_TABLE_SIZE buffer;
  Some (IdescTable (replicate (Z.to_nat MODOPS_IDESC_TABLE_SIZE) 0) ind).

Fixpoint finit_loop (t : nat) (l : list Z) (st : ids) : option ids :=
  match l with
  | [] => Some st
  | i :: l =>
    tb ← tables st !! t;
    x ← znth (slots tb) i;
    if negb (x =? 0) then
      desc ← idesc_table_get t i st;
      assert! negb (desc =? 0) ;;
      st ← idesc_table_del t i st;
      finit_loop t l st
    else finit_loop t l st
  end.

Definition idesc_table_finit (t : nat) (st : ids) : option ids :=
  finit_loop t (seqZ 0 MODOPS_IDESC_TABLE_SIZE) st.

Definition idesc_table_idx_copy (t : nat) (idx desc : Z) (cloexec : bool) (st : ids) : option (Z * ids) :=
  assert! negb (desc =? 0) ;;
  tb ← tables st !! t;
  '(r, ind) ← index_try_lock (indexator_of tb) idx;
  if negb (r =? 1) then Some (-1, set_tables (<[t := IdescTable (slots tb) ind]> (tables st)) st)
  else st ← idesc_put t desc idx cloexec ind st; Some (idx, st).

Fixpoint fork_loop (t parent : nat) (l : list Z) (st : ids) : option (Z * ids) :=
  match l with
  | [] => Some (0, st)
  | i :: l =>
    ptb ← tables st !! parent;
    x ← znth (slots ptb) i;
    if negb (x =? 0) then
      desc ← idesc_table_get parent i st;
      assert! negb (desc =? 0) ;;
      if negb (idesc_is_cloexeced x) then
        '(ret, st) ← idesc_table_idx_copy t i desc false st;
        if ret <? 0 then Some (ret, st) else fork_loop t parent l st
      else fork_loop t parent l st
    else fork_loop t parent l st
  end.

Definition idesc_table_fork (t parent : nat) (st : ids) : option (Z * ids) :=
  fork_loop t parent (seqZ 0 MODOPS_IDESC_TABLE_SIZE) st.

(** * [index_descriptor.c], for the task [self] *)

Definition index_descriptor_add (self : nat) (desc : Z) (st : ids) : option (Z * ids) :=
  idesc_table_add self desc false st.
Definition index_descriptor_get (self : nat) (idx : Z) (st : ids) : option Z := idesc_table_get self idx st.

Definition index_descriptor_cloexec_get (self : nat) (fd : Z) (st : ids) : option Z :=
  tb ← tables st !! self;
  x ← znth (slots tb) fd;
  Some (if idesc_is_cloexeced x then FD_CLOEXEC else 0).

Definition index_descriptor_cloexec_set (self : nat) (fd cloexec : Z) (st : ids) : option ids :=
  tb ← tables st !! self;
  x ← znth (slots tb) fd;
  sl ← zset (slots tb) fd
    (if negb (Z.land cloexec FD_CLOEXEC =? 0) then idesc_cloexec_set x else idesc_cloexec_clear x);
  Some (set_tables (<[self := IdescTable sl (indexator_of tb)]> (tables st)) st).

Definition index_descriptor_flags_get (self : nat) (fd : Z) (st : ids) : option Z :=
  desc ← index_descriptor_get self fd st;
  if desc =? 0 then Some (- ENOENT)
  else d ← descs st !! desc; Some (Z.land (idesc_flags d) (Z.lnot O_ACCESS_MASK)).

Definition SETFL_MASK : Z := Z.lor (Z.lor (Z.lor O_APPEND O_NONBLOCK) O_NDELAY) O_DIRECT.

Definition index_descriptor_flags_set (self : nat) (fd flags : Z) (st : ids) : option (Z * ids) :=
  desc ← index_descriptor_get self fd st;
  if desc =? 0 then Some (- ENOENT, st)
  else
    d ← descs st !! desc;
    let f := Z.lor (Z.land flags SETFL_MASK) (Z.land (idesc_flags d) (Z.lnot SETFL_MASK)) in
    Some (0, Ids (<[desc := set_flags f d]> (descs st)) (tables st) (closed st)).

Definition index_descriptor_dupfd (self : nat) (fd newfd : Z) (st : ids) : option (Z * ids) :=
  desc ← index_descriptor_get self fd st;
  if desc =? 0 then Some (- ENOENT, st)
  else
    locked ← idesc_table_locked self newfd st;
    if negb (locked =? 0) then
      assert! newfd =? 0 ;; idesc_table_add self desc false st
    else idesc_table_lock self desc newfd false st.

(** * The calls: [inl e] is [-1] with [errno = e] *)

Definition close (self : nat) (fd : Z) (st : ids) : option ((Z + Z) * ids) :=
  if negb (idesc_index_valid fd) then Some (inl EBADF, st)
  else
    desc ← index_descriptor_get self fd st;
    if desc =? 0 then Some (inl EBADF, st)
    else st ← idesc_table_del self fd st; Some (inr 0, st).

(** The commands the descriptor layer handles itself. *)
Inductive fcntl_cmd :=
  | F_DUPFD (i : Z)
  | F_DUPFD_CLOEXEC (i : Z)
  | F_GETFL
  | F_SETFL (flags : Z)
  | F_GETFD
  | F_SETFD (flags : Z).

Definition fcntl_dup (self : nat) (fd i cloexec : Z) (st : ids) : option ((Z + Z) * ids) :=
  '(ret, st) ← (if idesc_index_valid i then index_descriptor_dupfd self fd i st else Some (- EBADF, st));
  if ret >=? 0 then st ← index_descriptor_cloexec_set self ret cloexec st; Some (inr ret, st)
  else Some (inl (- ret), st).

Definition fcntl (self : nat) (fd : Z) (cmd : fcntl_cmd) (st : ids) : option ((Z + Z) * ids) :=
  if negb (idesc_index_valid fd) then Some (inl EBADF, st)
  else
    desc ← index_descriptor_get self fd st;
    if desc =? 0 then Some (inl EBADF, st)
    else match cmd with
    | F_DUPFD i => fcntl_dup self fd i 0 st
    | F_DUPFD_CLOEXEC i => fcntl_dup self fd i FD_CLOEXEC st
    | F_GETFL => r ← index_descriptor_flags_get self fd st; Some (inr r, st)
    | F_SETFL flags => '(_, st) ← index_descriptor_flags_set self fd flags st; Some (inr 0, st)
    | F_GETFD => r ← index_descriptor_cloexec_get self fd st; Some (inr r, st)
    | F_SETFD flags => st ← index_descriptor_cloexec_set self fd flags st; Some (inr 0, st)
    end.

Definition dup (self : nat) (flides : Z) (st : ids) : option ((Z + Z) * ids) := fcntl self flides (F_DUPFD 0) st.

Definition dup2 (self : nat) (flides flides2 : Z) (st : ids) : option ((Z + Z) * ids) :=
  if flides =? flides2 then Some (inl EBADF, st)
  else
    '(_, st) ← close self flides2 st;
    fcntl self flides (F_DUPFD flides2) st.

End Idesc.
