(* ===== verification/IdescSpec.v ===== *)
(** What the descriptor tables promise ([Idesc.v]).

    The specification ([afs]) has a map from the open file descriptors of each
    task to the descriptor each one refers to and its close-on-exec mark.  A
    descriptor is closed when nothing refers to it any more.  [rel] ties the
    tables to it: a slot encodes an entry, the index allocator has the open
    file descriptors locked, and the usage count of a descriptor is the number
    of entries that refer to it ([refs]).  [None] is a call that trips an
    assertion of the code. *)
From S2P Require Import Prelude Indexator Idesc.

Local Open Scope Z_scope.
Local Open Scope embox_scope.

Abbreviation fdmap := (gmap Z (Z * bool)).

Record afs := Afs {
  fds : list fdmap;
  aflags : gmap Z Z;
  aclosed : list Z
}.

Definition referenced (a : Z) (fs : list fdmap) : Prop :=
  Exists (map_Exists (fun _ v => v.1 = a)) fs.

Section Spec.
Context (N : Z).

Definition a_valid (fd : Z) : bool := (fd >=? 0) && (fd <? N).

Definition a_lowest (m : fdmap) : option Z := head (filter (fun i => m !! i = None) (seqZ 0 N)).

Definition a_set (t : nat) (m : fdmap) (s : afs) : afs := Afs (<[t := m]> (fds s)) (aflags s) (aclosed s).

Definition a_del (t : nat) (fd : Z) (s : afs) : option afs :=
  m ← fds s !! t; '(a, _) ← m !! fd;
  let fs := <[t := delete fd m]> (fds s) in
  Some (Afs fs (aflags s) (if decide (referenced a fs) then aclosed s else aclosed s ++ [a])).

Definition a_open (t : nat) (a : Z) (s : afs) : option ((Z + Z) * afs) :=
  m ← fds s !! t; _ ← aflags s !! a;
  Some (match a_lowest m with
        | None => (inl EMFILE, s)
        | Some i => (inr i, a_set t (<[i := (a, false)]> m) s)
        end).

Definition a_close (t : nat) (fd : Z) (s : afs) : option ((Z + Z) * afs) :=
  m ← fds s !! t;
  match m !! fd with
  | None => Some (inl EBADF, s)
  | Some _ => s ← a_del t fd s; Some (inr 0, s)
  end.

(** An index that is taken can be asked for only if it is 0. *)
Definition a_dup (t : nat) (a i : Z) (ce : bool) (s : afs) : option ((Z + Z) * afs) :=
  m ← fds s !! t;
  if negb (a_valid i) then Some (inl EBADF, s)
  else match m !! i with
  | None => Some (inr i, a_set t (<[i := (a, ce)]> m) s)
  | Some _ =>
    assert! i =? 0 ;;
    Some (match a_lowest m with
          | None => (inl EMFILE, s)
          | Some i => (inr i, a_set t (<[i := (a, ce)]> m) s)
          end)
  end.

Definition a_fcntl (t : nat) (fd : Z) (cmd : fcntl_cmd) (s : afs) : option ((Z + Z) * afs) :=
  m ← fds s !! t;
  match m !! fd with
  | None => Some (inl EBADF, s)
  | Some (a, ce) =>
    f ← aflags s !! a;
    match cmd with
    | F_DUPFD i => a_dup t a i false s
    | F_DUPFD_CLOEXEC i => a_dup t a i true s
    | F_GETFL => Some (inr (Z.ldiff f O_ACCESS_MASK), s)
    | F_SETFL flags =>
      Some (inr 0, Afs (fds s) (<[a := Z.lor (Z.land flags SETFL_MASK) (Z.ldiff f SETFL_MASK)]> (aflags s)) (aclosed s))
    | F_GETFD => Some (inr (if (ce : bool) then FD_CLOEXEC else 0), s)
    | F_SETFD flags => Some (inr 0, a_set t (<[fd := (a, negb (Z.land flags FD_CLOEXEC =? 0))]> m) s)
    end
  end.

Definition a_dup2 (t : nat) (fd fd2 : Z) (s : afs) : option ((Z + Z) * afs) :=
  if fd =? fd2 then Some (inl EBADF, s)
  else r ← a_close t fd2 s; a_fcntl t fd (F_DUPFD fd2) r.2.

(** A child starts without descriptors. *)
Definition a_fork (t child : nat) (s : afs) : option ((Z + Z) * afs) :=
  m ← fds s !! t; c ← fds s !! child;
  assert! bool_decide ((c : fdmap) = ∅) && negb (bool_decide (t = child)) ;;
  Some (inr 0, a_set child (filter (fun kv : Z * (Z * bool) => kv.2.2 = false) m) s).

Fixpoint a_exit_loop (t : nat) (l : list Z) (s : afs) : option afs :=
  match l with
  | [] => Some s
  | i :: l =>
    m ← fds s !! t;
    match m !! i with None => a_exit_loop t l s | Some _ => s ← a_del t i s; a_exit_loop t l s end
  end.
Definition a_exit (t : nat) (s : afs) : option ((Z + Z) * afs) :=
  s ← a_exit_loop t (seqZ 0 N) s; Some (inr 0, s).

Inductive call :=
  | COpen (a : Z)
  | CClose (fd : Z)
  | CDup (fd : Z)
  | CDup2 (fd fd2 : Z)
  | CFcntl (fd : Z) (cmd : fcntl_cmd)
  | CFork (child : nat)
  | CExit.

Definition a_call (t : nat) (c : call) (s : afs) : option ((Z + Z) * afs) :=
  match c with
  | COpen a => a_open t a s
  | CClose fd => a_close t fd s
  | CDup fd => a_fcntl t fd (F_DUPFD 0) s
  | CDup2 fd fd2 => a_dup2 t fd fd2 s
  | CFcntl fd cmd => a_fcntl t fd cmd s
  | CFork child => a_fork t child s
  | CExit => a_exit t s
  end.

(** [-EMFILE] of [index_descriptor_add] as its callers report it. *)
Definition ret (r : Z) : Z + Z := if r <? 0 then inl (- r) else inr r.

Definition do_call `{A : arch} (t : nat) (c : call) (st : ids) : option ((Z + Z) * ids) :=
  match c with
  | COpen a => '(r, st) ← index_descriptor_add t a st; Some (ret r, st)
  | CClose fd => close N t fd st
  | CDup fd => dup N t fd st
  | CDup2 fd fd2 => dup2 N t fd fd2 st
  | CFcntl fd cmd => fcntl N t fd cmd st
  | CFork child => '(r, st) ← idesc_table_fork N child t st; Some (ret r, st)
  | CExit => st ← idesc_table_finit N t st; Some (inr 0, st)
  end.

Fixpoint runs {S} (f : nat -> call -> S -> option ((Z + Z) * S)) (l : list (nat * call)) (s : S)
  : option (list (Z + Z) * S) :=
  match l with
  | [] => Some ([], s)
  | (t, c) :: l => '(r, s) ← f t c s; '(rs, s) ← runs f l s; Some (r :: rs, s)
  end.

End Spec.

(** * The number of references *)

Definition sumZ {X} (f : X -> Z) (l : list X) : Z := foldr (fun x s => f x + s) 0 l.

Definition cnt (a : Z) (m : fdmap) : Z := Z.of_nat (size (filter (fun kv : Z * (Z * bool) => kv.2.1 = a) m)).
Definition refs (a : Z) (fs : list fdmap) : Z := sumZ (cnt a) fs.

Lemma sumZ_insert {X} (f : X -> Z) l t x y :
  l !! t = Some x -> sumZ f (<[t := y]> l) = sumZ f l - f x + f y.
Proof.
  revert t. induction l as [|z l IH]; intros [|t] Ht; try done; cbn [lookup list_lookup] in Ht.
  - injection Ht as ->. cbn. lia.
  - specialize (IH t Ht). change (f z + sumZ f (<[t := y]> l) = f z + sumZ f l - f x + f y). lia.
Qed.

Lemma sumZ_le {X} (f : X -> Z) l b : (forall x, x ∈ l -> 0 <= f x <= b) -> 0 <= sumZ f l <= zlen l * b.
Proof.
  induction l as [|z l IH]; intros H; cbn [sumZ foldr]; [unfold zlen; cbn; lia|].
  destruct (H z) as [H1 H2]; [by left|]. destruct IH as [H3 H4]; [intros x Hx; apply H; by right|].
  unfold zlen, sumZ in *. cbn [length]. lia.
Qed.

Lemma cnt_insert a m i v : m !! i = None -> cnt a (<[i := v]> m) = cnt a m + (if decide (v.1 = a) then 1 else 0).
Proof.
  intros Hm. unfold cnt. rewrite map_filter_insert. cbn [fst snd]. case_decide.
  - rewrite map_size_insert_None; [lia|]. by rewrite map_lookup_filter, Hm.
  - rewrite delete_id by done. lia.
Qed.

Lemma cnt_delete a m i v : m !! i = Some v -> cnt a (delete i m) = cnt a m - (if decide (v.1 = a) then 1 else 0).
Proof.
  intros Hm. rewrite <- (insert_delete_id m i v Hm) at 2. rewrite cnt_insert by apply lookup_delete_eq. lia.
Qed.

(** A slot that is written again, for the same descriptor. *)
Lemma cnt_same a m i b c c' : m !! i = Some (b, c) -> cnt a (<[i := (b, c')]> m) = cnt a m.
Proof.
  intros Hm. rewrite <- insert_delete_eq, cnt_insert by apply lookup_delete_eq. rewrite (cnt_delete _ _ _ _ Hm). cbn. lia.
Qed.

Lemma cnt_nonneg a m : 0 <= cnt a m.
Proof. unfold cnt. lia. Qed.

Lemma cnt_pos a m : 0 < cnt a m <-> map_Exists (fun _ v => v.1 = a) m.
Proof.
  unfold cnt. split.
  - intros H. destruct (decide (filter (fun kv : Z * (Z * bool) => kv.2.1 = a) m = ∅)) as [E|(i & v & Hi)%map_choose].
    + rewrite E, map_size_empty in H. lia.
    + apply map_lookup_filter_Some in Hi as [Hi Hv]. by exists i, v.
  - intros (i & v & Hi & Hv). destruct (size _) eqn:E; [|lia]. apply map_size_empty_inv in E.
    assert (filter (fun kv : Z * (Z * bool) => kv.2.1 = a) m !! i = Some v) as Hf by (by apply map_lookup_filter_Some).
    by rewrite E, lookup_empty in Hf.
Qed.

Lemma refs_cons a m fs : refs a (m :: fs) = cnt a m + refs a fs.
Proof. reflexivity. Qed.

Lemma refs_nonneg a fs : 0 <= refs a fs.
Proof. induction fs as [|m fs IH]; [done|]. rewrite refs_cons. pose proof (cnt_nonneg a m). lia. Qed.

Lemma refs_pos a fs : 0 < refs a fs <-> referenced a fs.
Proof.
  unfold referenced. induction fs as [|m fs IH]; [split; [done|inversion 1]|].
  rewrite refs_cons, Exists_cons, <- cnt_pos, <- IH. pose proof (cnt_nonneg a m). pose proof (refs_nonneg a fs). lia.
Qed.
