(* ===== verification/IdescFacts.v ===== *)
(** The descriptor tables of [Idesc.v] do what [IdescSpec.v] says, operation by
    operation. *)
From S2P Require Import Prelude Indexator Idesc IdescSpec.

Local Open Scope Z_scope.
Local Open Scope embox_scope.

(** What a slot holds. *)
Definition enc (v : option (Z * bool)) : Z :=
  match v with None => 0 | Some (a, ce) => if ce then idesc_cloexec_set a else a end.
Definition target (v : option (Z * bool)) : Z := match v with None => 0 | Some (a, _) => a end.

Section Facts.
Context `{A : arch} `{!ArchOk A}.
Context (N : Z) (N_ok : 0 < N < 2 ^ 31).

Definition addr_ok (a : Z) : Prop := 0 < a /\ a mod (LONG_BIT / 8) = 0.

Definition geo (ind : indexator) : Prop :=
  start ind = 0 /\ end_ ind = N - 1 /\ clamp_min ind = 0 /\ clamp_max ind = N - 1.

Record table_rel (tb : idesc_table) (m : fdmap) : Prop := {
  tr_len : zlen (slots tb) = N;
  tr_slot : forall i, 0 <= i < N -> znth (slots tb) i = Some (enc (m !! i));
  tr_dom : forall i v, m !! i = Some v -> 0 <= i < N;
  tr_ind : ind_ok (indexator_of tb) (dom m);
  tr_geo : geo (indexator_of tb)
}.

Record rel (st : ids) (s : afs) : Prop := {
  r_tables : Forall2 table_rel (tables st) (fds s);
  r_count : forall a d, descs st !! a = Some d -> idesc_usage_count d = refs a (fds s);
  r_flags : forall a, idesc_flags <$> descs st !! a = aflags s !! a;
  r_known : forall a, referenced a (fds s) -> is_Some (descs st !! a);
  r_desc : forall a d, descs st !! a = Some d -> addr_ok a /\ has_close d = true;
  r_closed : closed st = aclosed s;
  r_small : zlen (fds s) * N < 2 ^ 31
}.

(** * The mark in bit 0 *)

Lemma addr_even a : addr_ok a -> Z.testbit a 0 = false.
Proof.
  intros [_ Hm]. rewrite Z.bit0_odd, <- Z.negb_even. apply negb_false_iff, Z.even_spec.
  assert (a = LONG_BIT / 8 * (a / (LONG_BIT / 8))) as ->.
  { apply Z.div_exact; [|done]. destruct long_bit_ok as [-> | ->]; done. }
  apply Z.even_spec. rewrite Z.even_mul. apply orb_true_iff. left. by destruct long_bit_ok as [-> | ->].
Qed.

Lemma clear_enc a ce : addr_ok a -> idesc_cloexec_clear (enc (Some (a, ce))) = a.
Proof.
  intros Ha%addr_even. unfold idesc_cloexec_clear, enc, idesc_cloexec_set. apply Z.bits_inj'. intros n Hn.
  rewrite Z.land_spec, Z.lnot_spec by done.
  assert (Z.testbit 1 n = bool_decide (n = 0)) as E1.
  { case_bool_decide as E; [by subst|]. apply (bounded_high_bit 1); lia. }
  destruct ce; [rewrite Z.lor_spec|]; rewrite ?E1; case_bool_decide as E; subst; rewrite ?Ha;
    by rewrite ?orb_false_r, ?andb_true_r.
Qed.

Lemma marked_enc a ce : addr_ok a -> idesc_is_cloexeced (enc (Some (a, ce))) = ce.
Proof.
  intros Ha%addr_even. unfold idesc_is_cloexeced, enc, idesc_cloexec_set.
  change 1 with (Z.ones 1) at 2. change 1 with (Z.ones 1) at 1. rewrite Z.land_ones by done. change (2 ^ 1) with 2.
  rewrite Z.bit0_odd in Ha. destruct ce; rewrite <- Z.bit0_mod.
  - by rewrite Z.lor_spec, (Z.bit0_odd (Z.ones 1)), orb_true_r.
  - by rewrite Z.bit0_odd, Ha.
Qed.

Lemma enc_nonzero a ce : addr_ok a -> enc (Some (a, ce)) <> 0.
Proof. intros Ha E. pose proof (clear_enc a ce Ha) as H. rewrite E in H. change (0 = a) in H. destruct Ha. lia. Qed.

Lemma enc_unmarked a : enc (Some (a, false)) = a.
Proof. done. Qed.

Lemma set_enc a ce : addr_ok a -> idesc_cloexec_set (enc (Some (a, ce))) = enc (Some (a, true)).
Proof.
  intros Ha. cbn. destruct ce; [|done]. unfold idesc_cloexec_set. by rewrite <- Z.lor_assoc, Z.lor_diag.
Qed.

(** * Tables *)

Lemma table_change tb m i v ind :
  table_rel tb m -> 0 <= i < N ->
  ind_ok ind (dom (partial_alter (fun _ => v) i m)) -> frame (indexator_of tb) ind ->
  exists sl, zset (slots tb) i (enc v) = Some sl /\ table_rel (IdescTable sl ind) (partial_alter (fun _ => v) i m).
Proof.
  intros [Hl Hs Hd Hi (G1 & G2 & G3 & G4)] Hr Hok (F1 & F2 & F3 & F4).
  set (l := <[Z.to_nat i := enc v]> (slots tb)). assert (zset (slots tb) i (enc v) = Some l) as E by (apply zset_lt; lia).
  exists l. split; [done|].
  split; cbn [slots indexator_of]; try done.
  - by rewrite (zset_len _ _ _ _ E).
  - intros j Hj. destruct (decide (i = j)) as [<-|Hne].
    + rewrite lookup_partial_alter_eq. by apply (znth_zset_eq _ _ _ _ E).
    + rewrite lookup_partial_alter_ne by done. rewrite (znth_zset_ne _ _ _ _ _ E Hne). by apply Hs.
  - intros j w. destruct (decide (i = j)) as [<-|Hne]; [done|]. rewrite lookup_partial_alter_ne by done. apply Hd.
  - unfold geo. rewrite F1, F2, F3, F4. done.
Qed.

Lemma cnt_le a m : (forall i v, m !! i = Some v -> 0 <= i < N) -> cnt a m <= N.
Proof.
  intros Hd. unfold cnt.
  pose proof (map_size_filter (fun kv : Z * (Z * bool) => kv.2.1 = a) m) as H1.
  assert (size m <= Z.to_nat N)%nat as H2; [|lia].
  rewrite <- size_dom. assert (dom m ⊆@{gset Z} list_to_set (seqZ 0 N)) as Hsub.
  { intros i [v Hv]%elem_of_dom. apply elem_of_list_to_set, elem_of_seqZ. specialize (Hd i v Hv). lia. }
  apply subseteq_size in Hsub. rewrite size_list_to_set, length_seqZ in Hsub by apply NoDup_seqZ. done.
Qed.

Lemma refs_insert a fs t m m' : fs !! t = Some m -> refs a (<[t := m']> fs) = refs a fs - cnt a m + cnt a m'.
Proof. apply sumZ_insert. Qed.

Lemma rel_lookup st s t m : rel st s -> fds s !! t = Some m -> exists tb, tables st !! t = Some tb /\ table_rel tb m.
Proof. intros Hr Hm. eapply Forall2_lookup_r in Hm as (tb & ? & ?); [by exists tb|apply (r_tables _ _ Hr)]. Qed.

Lemma rel_entry st s t m i a ce : rel st s -> fds s !! t = Some m -> m !! i = Some (a, ce) ->
  referenced a (fds s) /\ addr_ok a /\ exists d, descs st !! a = Some d /\ has_close d = true.
Proof.
  intros Hr Hm Hi. assert (referenced a (fds s)) as Href.
  { apply Exists_exists. exists m. split; [by eapply list_elem_of_lookup_2|]. by exists i, (a, ce). }
  split; [done|]. destruct (r_known _ _ Hr a Href) as [d Hd]. destruct (r_desc _ _ Hr a d Hd). split; [done|].
  by exists d.
Qed.

Lemma get_locked_ok st s t m tb i : rel st s -> fds s !! t = Some m -> table_rel tb m -> 0 <= i < N ->
  idesc_table_get_locked tb i = Some (target (m !! i)).
Proof.
  intros Hr Hm Ht Hi. unfold idesc_table_get_locked. rewrite (tr_slot _ _ Ht i Hi). cbn [mbind option_bind].
  destruct (m !! i) as [[a ce]|] eqn:E; [|done]. destruct (rel_entry _ _ _ _ _ _ _ Hr Hm E) as (_ & Ha & _).
  by rewrite clear_enc.
Qed.

Lemma target_zero st s t m i : rel st s -> fds s !! t = Some m -> target (m !! i) =? 0 = bool_decide (m !! i = None).
Proof.
  intros Hr Hm. destruct (m !! i) as [[a ce]|] eqn:E; [|done].
  destruct (rel_entry _ _ _ _ _ _ _ Hr Hm E) as (_ & [Ha _] & _). cbn. zbool; [lia|done].
Qed.

Lemma get_ok st s t m i : rel st s -> fds s !! t = Some m -> 0 <= i < N ->
  idesc_table_get N t i st = Some (target (m !! i)).
Proof.
  intros Hr Hm Hi. destruct (rel_lookup _ _ _ _ Hr Hm) as (tb & Etb & Ht).
  unfold idesc_table_get, idesc_index_valid. zbool; try lia. cbn [andb]. rewrite Etb. cbn [mbind option_bind].
  rewrite (get_locked_ok st s t m tb i) by done. cbn [mbind option_bind].
  destruct (m !! i) as [[a ce]|] eqn:E; cbn [target].
  - destruct (rel_entry _ _ _ _ _ _ _ Hr Hm E) as (_ & [_ ->] & _). done.
  - by rewrite Z.mod_0_l by (destruct long_bit_ok as [-> | ->]; done).
Qed.

(** * One entry more, one less, one changed *)

Lemma rel_bound st s a : rel st s -> refs a (fds s) < 2 ^ 31.
Proof.
  intros Hr. apply Z.le_lt_trans with (zlen (fds s) * N); [|apply Hr].
  apply sumZ_le. intros m [t Ht]%list_elem_of_lookup. destruct (rel_lookup _ _ _ _ Hr Ht) as (tb & _ & Htr).
  split; [apply cnt_nonneg|]. apply cnt_le, Htr.
Qed.

Lemma insert_bound st s t m m' tb : rel st s -> fds s !! t = Some m -> table_rel tb m' ->
  forall a, refs a (<[t := m']> (fds s)) < 2 ^ 31.
Proof.
  intros Hr Hm Ht a. apply Z.le_lt_trans with (zlen (fds s) * N); [|apply Hr].
  replace (zlen (fds s)) with (zlen (<[t := m']> (fds s))) by (unfold zlen; by rewrite length_insert).
  apply sumZ_le. intros x [u Hu]%list_elem_of_lookup. split; [apply cnt_nonneg|]. apply cnt_le.
  destruct (decide (t = u)) as [<-|Hne].
  - rewrite list_lookup_insert_eq in Hu by (by eapply lookup_lt_Some). injection Hu as <-. apply Ht.
  - rewrite list_lookup_insert_ne in Hu by done. destruct (rel_lookup _ _ _ _ Hr Hu) as (? & _ & Htr). apply Htr.
Qed.

(** The descriptor [a] has a new count, and one table has changed. *)
Lemma rel_change st s t m m' tb' a d n cl :
  rel st s -> fds s !! t = Some m -> table_rel tb' m' -> descs st !! a = Some d ->
  (forall b, b <> a -> cnt b m' = cnt b m) -> n = refs a (<[t := m']> (fds s)) ->
  rel (Ids (<[a := set_count n d]> (descs st)) (<[t := tb']> (tables st)) cl)
      (Afs (<[t := m']> (fds s)) (aflags s) cl).
Proof.
  intros Hr Hm Ht Hd Hoth Hn. pose proof Hr as [HT HC HF HK HD _ HS]. split; cbn [descs tables closed fds aflags aclosed].
  - by apply Forall2_insert.
  - intros b e. destruct (decide (a = b)) as [<-|Hne].
    + rewrite lookup_insert_eq. intros [= <-]. exact Hn.
    + rewrite lookup_insert_ne by done. intros He. rewrite (refs_insert b _ _ _ _ Hm), Hoth by done.
      rewrite (HC b e He). lia.
  - intros b. rewrite <- HF. destruct (decide (a = b)) as [<-|Hne]; [by rewrite lookup_insert_eq, Hd|].
    by rewrite lookup_insert_ne.
  - intros b Hb. destruct (decide (a = b)) as [<-|Hne]; [by rewrite lookup_insert_eq|].
    rewrite lookup_insert_ne by done. apply HK, refs_pos. apply refs_pos in Hb.
    rewrite (refs_insert b _ _ _ _ Hm), Hoth in Hb by done. lia.
  - intros b e. destruct (decide (a = b)) as [<-|Hne].
    + rewrite lookup_insert_eq. intros [= <-]. exact (HD a d Hd).
    + rewrite lookup_insert_ne by done. apply HD.
  - done.
  - unfold zlen in *. by rewrite length_insert.
Qed.

Lemma put_ok st s t m tb a f i ce ind :
  rel st s -> fds s !! t = Some m -> tables st !! t = Some tb -> table_rel tb m -> aflags s !! a = Some f ->
  m !! i = None -> 0 <= i < N -> ind_ok ind ({[i]} ∪ dom m) -> frame (indexator_of tb) ind ->
  exists st', idesc_put t a i ce ind st = Some st' /\ rel st' (a_set t (<[i := (a, ce)]> m) s).
Proof.
  intros Hr Hm Etb Ht Hf Hi Hir Hind Hfr. unfold idesc_put. rewrite Etb. cbn [mbind option_bind].
  assert (exists d, descs st !! a = Some d) as [d Hd].
  { pose proof (r_flags _ _ Hr a) as E. rewrite Hf in E. destruct (descs st !! a) as [d|]; [by exists d|done]. }
  rewrite Hd. cbn [mbind option_bind].
  destruct (table_change tb m i (Some (a, ce)) ind Ht Hir) as (l & El & Ht'); [|done|].
  { change (partial_alter _ i m) with (<[i := (a, ce)]> m). by rewrite dom_insert_L. }
  change (partial_alter _ i m) with (<[i := (a, ce)]> m) in Ht'. cbn [enc] in El. rewrite El. cbn [mbind option_bind].
  eexists. split; [done|]. pose proof (insert_bound _ _ _ _ _ _ Hr Hm Ht' a) as Hb. unfold a_set.
  rewrite <- (r_closed _ _ Hr). eapply rel_change; try done.
  - intros b Hb'. rewrite cnt_insert by done. rewrite decide_False; [lia|]. cbn. congruence.
  - rewrite (r_count _ _ Hr a d Hd). rewrite (refs_insert a _ _ _ _ Hm), cnt_insert in * by done.
    rewrite decide_True in * by done. pose proof (refs_nonneg a (fds s)). rewrite s32_small; lia.
Qed.

Lemma if_decide {X} (P : Prop) `{!Decision P} (x y : X) :
  (if decide P then x else y) = if negb (bool_decide P) then y else x.
Proof. case_bool_decide; [by rewrite decide_True|by rewrite decide_False]. Qed.

Lemma del_ok st s t m i a ce : rel st s -> fds s !! t = Some m -> m !! i = Some (a, ce) ->
  exists st' s', idesc_table_del N t i st = Some st' /\ a_del t i s = Some s' /\ rel st' s'.
Proof.
  intros Hr Hm Hi. destruct (rel_lookup _ _ _ _ Hr Hm) as (tb & Etb & Ht). pose proof (tr_dom _ _ Ht i _ Hi) as Hir.
  destruct (rel_entry _ _ _ _ _ _ _ Hr Hm Hi) as (Href & [Ha _] & d & Hd & Hcl).
  unfold idesc_table_del, idesc_index_valid, a_del. zbool; try lia. cbn [andb]. rewrite Etb, Hm. cbn [mbind option_bind].
  rewrite (get_locked_ok st s t m tb i), Hi by done. cbn [mbind option_bind target]. zbool; [lia|]. cbn [negb].
  rewrite Hd. cbn [mbind option_bind]. rewrite Hcl.
  destruct (unlock_ok (indexator_of tb) (dom m) i (tr_ind _ _ Ht)) as (ind & Eu & Hok & Hfr & _); [by eapply elem_of_dom_2|].
  unfold index_free. rewrite Eu. cbn [mbind option_bind].
  destruct (table_change tb m i None ind Ht Hir) as (l & El & Ht'); [|done|].
  { change (partial_alter _ i m) with (delete i m). by rewrite dom_delete_L. }
  change (partial_alter _ i m) with (delete i m) in Ht'. cbn [enc] in El. rewrite El. cbn [mbind option_bind].
  eexists _, _. split; [done|]. split; [done|]. apply refs_pos in Href. pose proof (rel_bound _ _ a Hr) as Hb.
  assert (refs a (<[t := delete i m]> (fds s)) = refs a (fds s) - 1) as Er.
  { rewrite (refs_insert a _ _ _ _ Hm), (cnt_delete a m i (a, ce)), decide_True by done. lia. }
  rewrite (r_count _ _ Hr a d Hd), s32_small by lia. rewrite <- Er. rewrite (r_closed _ _ Hr).
  replace (refs a (<[t := delete i m]> (fds s)) =? 0)
    with (negb (bool_decide (referenced a (<[t := delete i m]> (fds s))))).
  2: { pose proof (refs_nonneg a (<[t := delete i m]> (fds s))). case_bool_decide as E; rewrite <- refs_pos in E; cbn; zbool; try done; lia. }
  rewrite if_decide.
  eapply rel_change; try done.
  intros b Hb'. rewrite (cnt_delete b m i (a, ce)), decide_False; [lia|cbn; congruence|done].
Qed.

Lemma mark_ok st s t m i a ce c : rel st s -> fds s !! t = Some m -> m !! i = Some (a, ce) ->
  exists st', index_descriptor_cloexec_set t i c st = Some st' /\
    rel st' (a_set t (<[i := (a, negb (Z.land c FD_CLOEXEC =? 0))]> m) s).
Proof.
  intros Hr Hm Hi. destruct (rel_lookup _ _ _ _ Hr Hm) as (tb & Etb & Ht). pose proof (tr_dom _ _ Ht i _ Hi) as Hir.
  destruct (rel_entry _ _ _ _ _ _ _ Hr Hm Hi) as (Href & Ha & d & Hd & _).
  unfold index_descriptor_cloexec_set. rewrite Etb. cbn [mbind option_bind]. rewrite (tr_slot _ _ Ht i Hir), Hi.
  cbn [mbind option_bind]. set (b := negb (Z.land c FD_CLOEXEC =? 0)).
  replace (if b then _ else _) with (enc (Some (a, b)))
    by (destruct b; [by rewrite set_enc|by rewrite clear_enc]).
  destruct (table_change tb m i (Some (a, b)) (indexator_of tb) Ht Hir) as (l & El & Ht').
  { change (partial_alter _ i m) with (<[i := (a, b)]> m). rewrite dom_insert_lookup_L by (by eexists). apply Ht. }
  { by unfold frame. }
  rewrite El. cbn [mbind option_bind]. eexists. split; [done|].
  change (partial_alter _ i m) with (<[i := (a, b)]> m) in Ht'.
  pose proof (rel_change st s t m (<[i := (a, b)]> m) _ a d (refs a (fds s)) (closed st) Hr Hm Ht' Hd) as Hc.
  unfold set_tables, a_set. rewrite <- (r_closed _ _ Hr). rewrite <- (insert_id (descs st) a d Hd).
  replace d with (set_count (refs a (fds s)) d) by (rewrite <- (r_count _ _ Hr a d Hd); by destruct d).
  apply Hc; [intros; by apply (cnt_same _ _ _ _ ce)|].
  rewrite (refs_insert a _ _ _ _ Hm), (cnt_same _ _ _ _ ce) by done. lia.
Qed.

(** * The lowest free index *)

Lemma lowest_spec m : match a_lowest N m with
  | Some i => 0 <= i < N /\ m !! i = None /\ forall j, 0 <= j < N -> m !! j = None -> i <= j
  | None => forall j, 0 <= j < N -> m !! j <> None
  end.
Proof.
  unfold a_lowest. pose proof (head_filter_seqZ (fun i => m !! i = None) 0 (Z.to_nat N)) as H.
  rewrite Z2Nat.id in H by lia. destruct (head _); exact H.
Qed.

Lemma alloc_ok tb m : table_rel tb m ->
  match a_lowest N m with
  | None => index_alloc [] (indexator_of tb) INDEX_MIN = Some (INDEX_NONE, indexator_of tb)
  | Some i => exists ind, index_alloc [] (indexator_of tb) INDEX_MIN = Some (i, ind) /\ m !! i = None /\ 0 <= i < N /\
      ind_ok ind ({[i]} ∪ dom m) /\ frame (indexator_of tb) ind
  end.
Proof.
  intros Ht. pose proof (lowest_spec m) as Hl. destruct (tr_geo _ _ Ht) as (G1 & G2 & G3 & G4).
  pose proof (tr_ind _ _ Ht) as Hok. pose proof (o_min _ _ Hok) as Hmin. pose proof (g_end _ (o_geom _ _ Hok)) as Hge.
  assert (forall y, avail (indexator_of tb) (dom m) y <-> 0 <= y < N /\ m !! y = None) as Hav.
  { intros y. unfold avail. rewrite G3, G4, not_elem_of_dom. split; intros [? ?]; split; try done; lia. }
  unfold index_alloc, index_find. cbn [mbind option_bind]. destruct (a_lowest N m) as [i|].
  - destruct Hl as (Hi & Hn & Hlow). assert (min (indexator_of tb) = i) as ->.
    { destruct Hmin as [[Hm Hleast]|[_ Hno]]; [|by destruct (Hno i); apply Hav].
      apply Hav in Hm as [H1 H2]. specialize (Hlow _ H1 H2). specialize (Hleast i). rewrite Hav in Hleast.
      specialize (Hleast (conj Hi Hn)). lia. }
    destruct (Z.eqb_spec i INDEX_NONE); [lia|]. cbn [negb].
    destruct (lock_ok (indexator_of tb) (dom m) i Hok) as (ind & El & Hok' & Hfr & _);
      [lia|by apply not_elem_of_dom|]. rewrite El. by exists ind.
  - destruct Hmin as [[[Hm Hn]%Hav _]|[-> _]]; [by destruct (Hl _ Hm)|]. by rewrite Z.eqb_refl.
Qed.

Lemma rel_same st s t tb : rel st s -> tables st !! t = Some tb ->
  set_tables (<[t := IdescTable (slots tb) (indexator_of tb)]> (tables st)) st = st.
Proof. intros _ E. destruct tb, st. unfold set_tables. cbn in *. by rewrite list_insert_id. Qed.

Lemma add_ok st s t m a f ce : rel st s -> fds s !! t = Some m -> aflags s !! a = Some f ->
  exists st', idesc_table_add t a ce st = Some (default (- EMFILE) (a_lowest N m), st') /\
    rel st' (match a_lowest N m with None => s | Some i => a_set t (<[i := (a, ce)]> m) s end).
Proof.
  intros Hr Hm Hf. destruct (rel_lookup _ _ _ _ Hr Hm) as (tb & Etb & Ht). pose proof (alloc_ok tb m Ht) as Hal.
  assert (0 < a) as Ha.
  { pose proof (r_flags _ _ Hr a) as E. rewrite Hf in E. destruct (descs st !! a) as [d|] eqn:Hd; [|done].
    apply (r_desc _ _ Hr a d Hd). }
  pose proof none_val as HN. pose proof long_bit_ge_32 as HL.
  assert (2 ^ 32 <= 2 ^ LONG_BIT) as HP by (apply Z.pow_le_mono_r; lia).
  unfold idesc_table_add. zbool; [lia|]. cbn [negb]. rewrite Etb. cbn [mbind option_bind].
  destruct (a_lowest N m) as [i|]; cbn [default].
  - destruct Hal as (ind & -> & Hn & Hi & Hok & Hfr). cbn [mbind option_bind]. rewrite s32_small, ul_32 by lia.
    destruct (Z.eqb_spec i INDEX_NONE); [lia|].
    destruct (put_ok st s t m tb a f i ce ind) as (st' & E & Hr'); try done. rewrite E. cbn [mbind option_bind]. eauto.
  - rewrite Hal. cbn [mbind option_bind].
    assert (ul (s32 INDEX_NONE) = INDEX_NONE) as E.
    { unfold INDEX_NONE, ul, wrap. destruct long_bit_ok as [-> | ->]; reflexivity. }
    rewrite E, Z.eqb_refl. rewrite (rel_same st s t tb) by done. eauto.
Qed.

End Facts.
