(* ===== verification/IdescTheorems.v ===== *)
(** The calls on file descriptors refine the specification of [IdescSpec.v]. *)
From S2P Require Import Prelude Indexator Idesc IdescSpec IdescFacts.

Local Open Scope Z_scope.
Local Open Scope embox_scope.

Section Calls.
Context `{A : arch} `{!ArchOk A}.
Context (N : Z) (N_ok : 0 < N < 2 ^ 31).

Abbreviation rel := (rel N).

(** A call does what the specification does. *)
Definition sim (r : option ((Z + Z) * ids)) (r' : option ((Z + Z) * afs)) : Prop :=
  forall v s', r' = Some (v, s') -> exists st', r = Some (v, st') /\ rel st' s'.

Lemma sim_ret st s v : rel st s -> sim (Some (v, st)) (Some (v, s)).
Proof. intros Hr w s' [= <- <-]. by exists st. Qed.

Lemma entry_flags st s t m i a ce : rel st s -> fds s !! t = Some m -> m !! i = Some (a, ce) ->
  exists f, aflags s !! a = Some f.
Proof.
  intros Hr Hm Hi. destruct (rel_entry N _ _ _ _ _ _ _ Hr Hm Hi) as (_ & _ & d & Hd & _).
  exists (idesc_flags d). by rewrite <- (r_flags N _ _ Hr), Hd.
Qed.

Lemma lowest_range m i : a_lowest N m = Some i -> 0 <= i < N.
Proof. intros E. pose proof (lowest_spec N N_ok m) as H. rewrite E in H. apply H. Qed.

Lemma open_sim st s t a : rel st s -> sim (do_call N t (COpen a) st) (a_open N t a s).
Proof.
  intros Hr v s' E. unfold a_open in E. destruct (fds s !! t) as [m|] eqn:Hm; [|done]. cbn [mbind option_bind] in E.
  destruct (aflags s !! a) as [f|] eqn:Hf; [|done]. cbn [mbind option_bind] in E.
  destruct (add_ok N N_ok st s t m a f false Hr Hm Hf) as (st' & Ea & Hr'). cbn [do_call].
  unfold index_descriptor_add. rewrite Ea. cbn [mbind option_bind]. unfold ret.
  destruct (a_lowest N m) as [i|] eqn:El; cbn [default from_option id]; injection E as <- <-; [|by exists st'].
  pose proof (lowest_range _ _ El). zbool; [lia|]. by exists st'.
Qed.

Lemma valid_dec fd : idesc_index_valid N fd = bool_decide (0 <= fd < N).
Proof. unfold idesc_index_valid. case_bool_decide; zbool; try done; lia. Qed.

(** The test all the calls open with. *)
Lemma checked st s t m fd (k : Z -> option ((Z + Z) * ids)) r' :
  rel st s -> fds s !! t = Some m ->
  (forall a ce, 0 <= fd < N -> m !! fd = Some (a, ce) -> sim (k a) (r' a ce)) ->
  sim (if negb (idesc_index_valid N fd) then Some (inl EBADF, st)
       else desc ← index_descriptor_get N t fd st; if desc =? 0 then Some (inl EBADF, st) else k desc)
      (match m !! fd with None => Some (inl EBADF, s) | Some (a, ce) => r' a ce end).
Proof.
  intros Hr Hm Hk. destruct (rel_lookup N _ _ _ _ Hr Hm) as (tb & _ & Ht). rewrite valid_dec. unfold index_descriptor_get.
  case_bool_decide as Hfd; cbn [negb].
  - rewrite (get_ok N st s t m fd Hr Hm Hfd). cbn [mbind option_bind].
    destruct (m !! fd) as [[a ce]|] eqn:E; cbn [target]; [|by apply sim_ret].
    destruct (rel_entry N _ _ _ _ _ _ _ Hr Hm E) as (_ & [? _] & _). destruct (Z.eqb_spec a 0); [lia|]. by apply Hk.
  - destruct (m !! fd) as [v|] eqn:E; [by destruct Hfd; apply (tr_dom N _ _ Ht fd v)|]. by apply sim_ret.
Qed.

Lemma close_sim st s t fd : rel st s -> sim (close N t fd st) (a_close t fd s).
Proof.
  intros Hr. unfold a_close. destruct (fds s !! t) as [m|] eqn:Hm; [|by intros ? ?]. cbn [mbind option_bind].
  intros v s'. unfold close. replace (match m !! fd with None => Some (inl EBADF, s) | Some _ => _ end) with
    (match m !! fd with None => Some (inl EBADF, s) | Some (_, _) => s ← a_del t fd s; Some (inr 0, s) end)
    by (by destruct (m !! fd) as [[]|]).
  apply checked; [done..|]. intros a ce _ Hi.
  destruct (del_ok N N_ok st s t m fd a ce Hr Hm Hi) as (st' & s1 & E1 & E2 & Hr'). rewrite E1, E2. by apply sim_ret.
Qed.

Lemma locked_ok tb m i : table_rel N tb m -> 0 <= i < N ->
  index_locked (indexator_of tb) i = Some (b2z (bool_decide (m !! i <> None))).
Proof.
  intros Ht Hi. destruct (tr_geo N _ _ Ht) as (G1 & G2 & _). pose proof (tr_ind N _ _ Ht) as Hok.
  unfold index_locked. rewrite check_ok by (exact (o_geom _ _ Hok) || lia). cbn [negb Z.eqb].
  rewrite (get_bit_ok (indexator_of tb) (dom m)) by (exact (o_geom _ _ Hok) || exact (o_mask _ _ Hok) || lia). cbn [mbind option_bind].
  do 2 f_equal. apply bool_decide_ext. rewrite elem_of_dom. by rewrite <- not_eq_None_Some.
Qed.

Lemma lock_sim st s t m a f i : rel st s -> fds s !! t = Some m -> aflags s !! a = Some f ->
  0 <= i < N -> m !! i = None -> 0 < a ->
  exists st', idesc_table_lock N t a i false st = Some (i, st') /\ rel st' (a_set t (<[i := (a, false)]> m) s).
Proof.
  intros Hr Hm Hf Hi Hn Ha. destruct (rel_lookup N _ _ _ _ Hr Hm) as (tb & Etb & Ht).
  unfold idesc_table_lock. zbool; [lia|]. rewrite valid_dec, bool_decide_true by done. cbn [negb]. rewrite Etb.
  cbn [mbind option_bind]. rewrite (locked_ok tb m i Ht Hi), bool_decide_false by (rewrite Hn; tauto).
  cbn [mbind option_bind b2z Z.eqb]. destruct (tr_geo N _ _ Ht) as (G1 & G2 & _).
  destruct (lock_ok (indexator_of tb) (dom m) i (tr_ind N _ _ Ht)) as (ind & -> & Hok & Hfr & _);
    [lia|by apply not_elem_of_dom|]. cbn [mbind option_bind].
  destruct (put_ok N N_ok st s t m tb a f i false ind) as (st' & -> & Hr'); try done. by exists st'.
Qed.

(** The mark is set after the slot. *)
Lemma mark_sim st s t m i a b c : rel st (a_set t (<[i := (a, b)]> m) s) -> fds s !! t = Some m -> 0 <= i ->
  sim (if i >=? 0 then st ← index_descriptor_cloexec_set t i c st; Some (inr i, st) else Some (inl (- i), st))
      (Some (inr i, a_set t (<[i := (a, negb (Z.land c FD_CLOEXEC =? 0))]> m) s)).
Proof.
  intros Hr Hm Hi. assert (fds (a_set t (<[i := (a, b)]> m) s) !! t = Some (<[i := (a, b)]> m)) as Hm'.
  { cbn. apply list_lookup_insert_eq. by eapply lookup_lt_Some. }
  destruct (mark_ok N st _ t _ i a b c Hr Hm') as (st' & E & Hr'); [apply lookup_insert_eq|].
  rewrite Z.geb_leb. destruct (Z.leb_spec 0 i); [|lia]. rewrite E. cbn [mbind option_bind].
  unfold a_set in Hr'. cbn [fds aflags aclosed] in Hr'. rewrite insert_insert_eq, list_insert_insert_eq in Hr'.
  by apply sim_ret.
Qed.

Lemma dup_sim st s t m fd a ce i c : rel st s -> fds s !! t = Some m -> 0 <= fd < N -> m !! fd = Some (a, ce) ->
  sim (fcntl_dup N t fd i c st) (a_dup N t a i (negb (Z.land c FD_CLOEXEC =? 0)) s).
Proof.
  intros Hr Hm Hfd He. destruct (entry_flags _ _ _ _ _ _ _ Hr Hm He) as [f Hf].
  destruct (rel_entry N _ _ _ _ _ _ _ Hr Hm He) as (_ & [Ha _] & _).
  destruct (rel_lookup N _ _ _ _ Hr Hm) as (tb & Etb & Ht).
  unfold fcntl_dup, a_dup. rewrite Hm. cbn [mbind option_bind]. change (a_valid N i) with (idesc_index_valid N i).
  rewrite valid_dec. case_bool_decide as Hi; cbn [negb].
  2: { cbn [mbind option_bind]. by apply sim_ret. }
  unfold index_descriptor_dupfd, index_descriptor_get. rewrite (get_ok N st s t m fd Hr Hm Hfd), He.
  cbn [mbind option_bind target]. destruct (Z.eqb_spec a 0); [lia|].
  unfold idesc_table_locked. rewrite valid_dec, bool_decide_true by done. rewrite Etb. cbn [mbind option_bind].
  rewrite (locked_ok tb m i Ht Hi). cbn [mbind option_bind].
  destruct (m !! i) as [v|] eqn:Ei.
  - rewrite bool_decide_true by done. cbn [b2z Z.eqb negb]. destruct (Z.eqb_spec i 0) as [->|]; [|by intros ? ?].
    destruct (add_ok N N_ok st s t m a f false Hr Hm Hf) as (st' & -> & Hr'). cbn [mbind option_bind].
    destruct (a_lowest N m) as [j|] eqn:El; cbn [default from_option id]; [|by apply sim_ret].
    eapply mark_sim; [done..|]. apply (lowest_range _ _ El).
  - rewrite bool_decide_false by tauto. cbn [b2z Z.eqb negb].
    destruct (lock_sim st s t m a f i Hr Hm Hf Hi Ei Ha) as (st' & -> & Hr'). cbn [mbind option_bind].
    eapply mark_sim; [done..|]. lia.
Qed.

Lemma flags_rel st s a d f : rel st s -> descs st !! a = Some d ->
  rel (Ids (<[a := set_flags f d]> (descs st)) (tables st) (closed st)) (Afs (fds s) (<[a := f]> (aflags s)) (aclosed s)).
Proof.
  intros [HT HC HF HK HD HL HS] Hd. split; try done; cbn.
  - intros b e. rewrite lookup_insert_Some. intros [[<- <-]|[_ He]]; [exact (HC a d Hd)|by apply HC].
  - intros b. destruct (decide (a = b)) as [<-|Hne]; [by rewrite !lookup_insert_eq|].
    rewrite !lookup_insert_ne by done. apply HF.
  - intros b Hb. apply lookup_insert_is_Some'. right. by apply HK.
  - intros b e. rewrite lookup_insert_Some. intros [[<- <-]|[_ He]]; [exact (HD a d Hd)|by apply HD].
Qed.

Lemma fcntl_sim st s t fd cmd : rel st s -> sim (fcntl N t fd cmd st) (a_fcntl N t fd cmd s).
Proof.
  intros Hr. unfold a_fcntl. destruct (fds s !! t) as [m|] eqn:Hm; [|by intros ? ?]. cbn [mbind option_bind].
  unfold fcntl. apply checked; [done..|]. intros a ce Hfd He.
  destruct (rel_entry N _ _ _ _ _ _ _ Hr Hm He) as (_ & [Ha _] & d & Hd & Hcl).
  destruct (rel_lookup N _ _ _ _ Hr Hm) as (tb & Etb & Ht).
  pose proof (r_flags N _ _ Hr a) as Hf. rewrite Hd in Hf. cbn in Hf. rewrite <- Hf. cbn [mbind option_bind].
  pose proof (get_ok N st s t m fd Hr Hm Hfd) as Eg. rewrite He in Eg. cbn [target] in Eg.
  unfold index_descriptor_flags_get, index_descriptor_flags_set, index_descriptor_get, index_descriptor_cloexec_get.
  destruct cmd as [i|i| |fl| |fl].
  - by apply (dup_sim _ _ _ _ _ _ _ _ 0 Hr Hm Hfd He).
  - by apply (dup_sim _ _ _ _ _ _ _ _ FD_CLOEXEC Hr Hm Hfd He).
  - rewrite Eg. cbn [mbind option_bind]. destruct (Z.eqb_spec a 0); [lia|]. rewrite Hd. cbn [mbind option_bind].
    rewrite <- Z.ldiff_land. by apply sim_ret.
  - rewrite Eg. cbn [mbind option_bind]. destruct (Z.eqb_spec a 0); [lia|]. rewrite Hd. cbn [mbind option_bind].
    rewrite <- Z.ldiff_land. by apply sim_ret, flags_rel.
  - rewrite Etb. cbn [mbind option_bind]. rewrite (tr_slot N _ _ Ht fd Hfd), He. cbn [mbind option_bind].
    rewrite marked_enc by (by apply (r_desc N _ _ Hr a d)). by apply sim_ret.
  - destruct (mark_ok N st s t m fd a ce fl Hr Hm He) as (st' & -> & Hr'). cbn [mbind option_bind]. by apply sim_ret.
Qed.

Lemma dup2_sim st s t fd fd2 : rel st s -> sim (dup2 N t fd fd2 st) (a_dup2 N t fd fd2 s).
Proof.
  intros Hr. unfold dup2, a_dup2. destruct (fd =? fd2); [by apply sim_ret|].
  destruct (a_close t fd2 s) as [[v s1]|] eqn:E; [|by intros ? ?]. cbn [mbind option_bind].
  destruct (close_sim st s t fd2 Hr v s1 E) as (st1 & -> & Hr1). cbn [mbind option_bind]. by apply fcntl_sim.
Qed.

(** * Fork and exit *)

Lemma copy_sim st s t m a f i : rel st s -> fds s !! t = Some m -> aflags s !! a = Some f ->
  0 <= i < N -> m !! i = None -> 0 < a ->
  exists st', idesc_table_idx_copy t i a false st = Some (i, st') /\ rel st' (a_set t (<[i := (a, false)]> m) s).
Proof.
  intros Hr Hm Hf Hi Hn Ha. destruct (rel_lookup N _ _ _ _ Hr Hm) as (tb & Etb & Ht).
  unfold idesc_table_idx_copy. zbool; [lia|]. cbn [negb]. rewrite Etb. cbn [mbind option_bind].
  destruct (tr_geo N _ _ Ht) as (G1 & G2 & _). pose proof (tr_ind N _ _ Ht) as Hok. unfold index_try_lock.
  rewrite check_ok by (exact (o_geom _ _ Hok) || lia). cbn [negb Z.eqb].
  rewrite (get_bit_ok (indexator_of tb) (dom m)) by (exact (o_geom _ _ Hok) || exact (o_mask _ _ Hok) || lia).
  cbn [mbind option_bind]. rewrite bool_decide_false by (by apply not_elem_of_dom).
  destruct (lock_ok (indexator_of tb) (dom m) i Hok) as (ind & -> & Hok' & Hfr & _);
    [lia|by apply not_elem_of_dom|]. cbn [mbind option_bind negb Z.eqb Pos.eqb].
  destruct (put_ok N N_ok st s t m tb a f i false ind) as (st' & -> & Hr'); try done. by exists st'.
Qed.

Definition inherited (l : list Z) (m : fdmap) : fdmap :=
  filter (fun kv : Z * (Z * bool) => kv.2.2 = false /\ kv.1 ∈ l) m.

Lemma inherited_cons i l m c : i ∉ l -> c !! i = None ->
  c ∪ inherited (i :: l) m =
    (match m !! i with Some (a, false) => <[i := (a, false)]> c | _ => c end) ∪ inherited l m.
Proof.
  intros Hi Hc. assert (inherited l m !! i = None) as Hn.
  { apply map_lookup_filter_None. right. intros v _ [_ Hv]. done. }
  apply map_eq. intros j. destruct (decide (i = j)) as [<-|Hne].
  - rewrite lookup_union_r by done. unfold inherited at 1. rewrite map_lookup_filter.
    destruct (m !! i) as [[a []]|] eqn:E; cbn.
    + by rewrite lookup_union_r, Hn, option_guard_False by (done || naive_solver).
    + rewrite option_guard_True by (split; [done|by left]). cbn. symmetry.
      apply lookup_union_Some_l, lookup_insert_eq.
    + by rewrite lookup_union_r, Hn.
  - assert (inherited (i :: l) m !! j = inherited l m !! j) as E.
    { unfold inherited. rewrite !map_lookup_filter. destruct (m !! j) as [v|]; [|done]. cbn.
      apply option_guard_iff. rewrite elem_of_cons. naive_solver. }
    rewrite !lookup_union, E. destruct (m !! i) as [[a []]|]; [done| |done]. by rewrite lookup_insert_ne.
Qed.

Lemma fork_loop_sim child parent m l : child <> parent -> NoDup l -> (forall i, i ∈ l -> 0 <= i < N) ->
  forall st s c, rel st s -> fds s !! parent = Some m -> fds s !! child = Some c -> (forall i, i ∈ l -> c !! i = None) ->
  exists st', fork_loop N child parent l st = Some (0, st') /\ rel st' (a_set child (c ∪ inherited l m) s).
Proof.
  intros Hne. induction l as [|i l IH]; intros Hnd Hl st s c Hr Hm Hc Hfree.
  { exists st. split; [done|]. replace (c ∪ inherited [] m) with c.
    - unfold a_set. rewrite list_insert_id by done. by destruct s.
    - assert (inherited [] m = ∅) as -> by (apply map_empty; intros j; apply map_lookup_filter_None; right; intros v _ [_ Hv]; by apply elem_of_nil in Hv).
      by rewrite map_union_empty. }
  apply NoDup_cons in Hnd as [Hi Hnd]. pose proof (Hl i ltac:(by left)) as Hir. pose proof (Hfree i ltac:(by left)) as Hci.
  destruct (rel_lookup N _ _ _ _ Hr Hm) as (tb & Etb & Ht). cbn [fork_loop]. rewrite Etb. cbn [mbind option_bind].
  rewrite (tr_slot N _ _ Ht i Hir). cbn [mbind option_bind]. rewrite inherited_cons by done.
  assert (forall j, j ∈ l -> 0 <= j < N) as Hl' by (intros j Hj; apply Hl; by right).
  assert (forall j, j ∈ l -> c !! j = None) as Hfree' by (intros j Hj; apply Hfree; by right).
  destruct (m !! i) as [[a ce]|] eqn:E; [|by apply IH].
  destruct (rel_entry N _ _ _ _ _ _ _ Hr Hm E) as (_ & Ha & _). destruct (entry_flags _ _ _ _ _ _ _ Hr Hm E) as [f Hf].
  destruct (Z.eqb_spec (enc (Some (a, ce))) 0) as [E0|_]; [by apply enc_nonzero in E0|]. cbn [negb].
  rewrite (get_ok N st s parent m i Hr Hm Hir), E. cbn [target mbind option_bind].
  destruct (Z.eqb_spec a 0) as [->|_]; [by destruct Ha|]. cbn [negb]. rewrite marked_enc by done.
  destruct ce; cbn [negb]; [by apply IH|].
  destruct (copy_sim st s child c a f i Hr Hc Hf Hir Hci) as (st1 & -> & Hr1); [apply Ha|]. cbn [mbind option_bind].
  destruct (Z.ltb_spec i 0); [lia|].
  destruct (IH Hnd Hl' st1 (a_set child (<[i := (a, false)]> c) s) (<[i := (a, false)]> c) Hr1) as (st' & -> & Hr').
  - cbn. by rewrite list_lookup_insert_ne.
  - cbn. apply list_lookup_insert_eq. by eapply lookup_lt_Some.
  - intros j Hj. rewrite lookup_insert_ne by (intros ->; done). by apply Hfree'.
  - exists st'. split; [done|]. unfold a_set in Hr'. cbn in Hr'. by rewrite list_insert_insert_eq in Hr'.
Qed.

Lemma fork_sim st s t child : rel st s -> sim (do_call N t (CFork child) st) (a_fork t child s).
Proof.
  intros Hr v s'. unfold a_fork. destruct (fds s !! t) as [m|] eqn:Hm; [|done]. cbn [mbind option_bind].
  destruct (fds s !! child) as [c|] eqn:Hc; [|done]. cbn [mbind option_bind].
  case_bool_decide as Ec; [|done]. case_bool_decide as Et; [done|]. cbn [andb negb]. intros [= <- <-]. subst c.
  destruct (fork_loop_sim child t m (seqZ 0 N)) with (st := st) (s := s) (c := ∅ : fdmap) as (st' & E & Hr'); try done.
  { apply NoDup_seqZ. } { intros i ?%elem_of_seqZ. lia. }
  cbn [do_call]. unfold idesc_table_fork. rewrite E. exists st'. split; [done|].
  replace (filter _ m) with (∅ ∪ inherited (seqZ 0 N) m); [done|]. rewrite (left_id_L ∅ (∪)).
  destruct (rel_lookup N _ _ _ _ Hr Hm) as (tb & _ & Ht). apply map_filter_ext. intros i [a ce] Hi. cbn.
  pose proof (tr_dom N _ _ Ht i _ Hi). rewrite elem_of_seqZ. split; [tauto|]. intros. split; [done|lia].
Qed.

Lemma exit_loop_sim t l : forall st s s', (forall i, i ∈ l -> 0 <= i < N) -> rel st s -> a_exit_loop t l s = Some s' ->
  exists st', finit_loop N t l st = Some st' /\ rel st' s'.
Proof.
  induction l as [|i l IH]; intros st s s' Hl Hr; cbn [a_exit_loop finit_loop]; [intros [= <-]; by exists st|].
  destruct (fds s !! t) as [m|] eqn:Hm; [|done]. cbn [mbind option_bind].
  pose proof (Hl i ltac:(by left)) as Hir. assert (forall j, j ∈ l -> 0 <= j < N) as Hl' by (intros j Hj; apply Hl; by right).
  destruct (rel_lookup N _ _ _ _ Hr Hm) as (tb & Etb & Ht). rewrite Etb. cbn [mbind option_bind].
  rewrite (tr_slot N _ _ Ht i Hir). cbn [mbind option_bind]. destruct (m !! i) as [[a ce]|] eqn:E; [|by apply IH].
  destruct (rel_entry N _ _ _ _ _ _ _ Hr Hm E) as (_ & Ha & _).
  destruct (Z.eqb_spec (enc (Some (a, ce))) 0) as [E0|_]; [by apply enc_nonzero in E0|]. cbn [negb].
  rewrite (get_ok N st s t m i Hr Hm Hir), E. cbn [target mbind option_bind].
  destruct (Z.eqb_spec a 0) as [->|_]; [by destruct Ha|]. cbn [negb].
  destruct (del_ok N N_ok st s t m i a ce Hr Hm E) as (st1 & s1 & -> & -> & Hr1). cbn [mbind option_bind]. by apply IH.
Qed.

Lemma call_sim st s t c : rel st s -> sim (do_call N t c st) (a_call N t c s).
Proof.
  intros Hr. destruct c; cbn [a_call do_call].
  - by apply (open_sim st s t a).
  - by apply close_sim.
  - by apply fcntl_sim.
  - by apply dup2_sim.
  - by apply fcntl_sim.
  - by apply (fork_sim st s t child).
  - unfold a_exit. destruct (a_exit_loop t (seqZ 0 N) s) as [s1|] eqn:E; [|by intros ? ?].
    destruct (exit_loop_sim t (seqZ 0 N) st s s1) as (st1 & E1 & Hr1); [intros i ?%elem_of_seqZ; lia|done..|].
    unfold idesc_table_finit. rewrite E1. cbn [mbind option_bind]. by apply sim_ret.
Qed.

Lemma runs_sim l : forall st s rs s', rel st s -> runs (a_call N) l s = Some (rs, s') ->
  exists st', runs (do_call N) l st = Some (rs, st') /\ rel st' s'.
Proof.
  induction l as [|[t c] l IH]; intros st s rs s' Hr; cbn [runs]; [intros [= <- <-]; by exists st|].
  destruct (a_call N t c s) as [[r s1]|] eqn:E; [|done]. cbn [mbind option_bind].
  destruct (runs (a_call N) l s1) as [[rs1 s2]|] eqn:E2; [|done]. cbn [mbind option_bind]. intros [= <- <-].
  destruct (call_sim st s t c Hr r s1 E) as (st1 & -> & Hr1). cbn [mbind option_bind].
  destruct (IH st1 s1 rs1 s2 Hr1 E2) as (st2 & -> & Hr2). by exists st2.
Qed.

(** * The start *)

Definition buffer_ok (b : list Z) : Prop :=
  INDEX_DATA_LEN N <= zlen b /\ Forall (fun w => 0 <= w < 2 ^ LONG_BIT) b.

Lemma init_rel b : bits_fit N -> buffer_ok b -> exists tb, idesc_table_init N b = Some tb /\ table_rel N tb ∅.
Proof.
  intros Hb [H1 H2]. pose proof none_val as HN. pose proof long_bit_ge_32 as HL.
  assert (2 ^ 32 <= 2 ^ LONG_BIT) as HP by (apply Z.pow_le_mono_r; lia).
  destruct (index_init_ok 0 N b) as (ind & E & Hok & Hg); try done; try lia.
  unfold idesc_table_init. rewrite E. cbn [mbind option_bind]. eexists. split; [done|]. split; cbn.
  - unfold zlen. rewrite length_replicate. lia.
  - intros i Hi. rewrite lookup_empty. cbn [enc]. rewrite znth_lookup by lia. apply lookup_replicate_2. lia.
  - intros i v Hv. by rewrite lookup_empty in Hv.
  - by rewrite dom_empty_L.
  - unfold geo. lia.
Qed.

Lemma start_rel ds bs : bits_fit N -> Forall buffer_ok bs -> zlen bs * N < 2 ^ 31 ->
  (forall a d, ds !! a = Some d -> addr_ok a /\ has_close d = true /\ idesc_usage_count d = 0) ->
  exists tbs, mapM (idesc_table_init N) bs = Some tbs /\
    rel (Ids ds tbs []) (Afs (replicate (length bs) ∅) (idesc_flags <$> ds) []).
Proof.
  intros Hb Hbs Hs Hd. assert (forall a, refs a (replicate (length bs) ∅) = 0) as H0.
  { intros a. induction (length bs) as [|n IH]; [done|]. cbn [replicate]. rewrite refs_cons, IH. done. }
  assert (exists tbs, mapM (idesc_table_init N) bs = Some tbs /\ Forall2 (table_rel N) tbs (replicate (length bs) ∅))
    as (tbs & E & HT).
  { clear Hs H0. induction Hbs as [|b bs Hb1 _ IH]; [by exists []|]. destruct IH as (tbs & E & HT).
    destruct (init_rel b Hb Hb1) as (tb & E1 & Ht). exists (tb :: tbs). cbn. rewrite E1. cbn. rewrite E. cbn.
    split; [done|]. by constructor. }
  exists tbs. split; [done|]. split; cbn [descs tables closed fds aflags aclosed]; try done.
  - intros a d Ha. rewrite H0. by apply (Hd a d Ha).
  - intros a. by rewrite lookup_fmap.
  - intros a Ha%refs_pos. rewrite H0 in Ha. lia.
  - intros a d Ha. split; apply (Hd a d Ha).
  - unfold zlen in *. by rewrite length_replicate.
Qed.

End Calls.

(** * The theorems *)


(** Two tasks; one opens two files, duplicates the first, forks and exits. *)
Definition demo_descs : gmap Z idesc := {[4096 := idesc_init 2 true; 8192 := idesc_init 0 true]}.
Definition demo_calls : list (nat * call) :=
  [(0%nat, COpen 4096); (0%nat, COpen 8192); (0%nat, CDup 0); (0%nat, CFcntl 1 (F_SETFD FD_CLOEXEC)); (0%nat, CFork 1%nat);
   (0%nat, CClose 1); (1%nat, CClose 1); (0%nat, CExit); (1%nat, CDup2 2 5); (1%nat, CClose 0); (1%nat, CExit)].
Definition demo_fds : afs := Afs [∅; ∅] (idesc_flags <$> demo_descs) [].


(** [dup2] from a descriptor that is not open fails with [EBADF] and has
    closed its target by then. *)
Lemma dup2_closes_first `{A : arch} `{!ArchOk A} N st s t m fd fd2 a ce :
  0 < N < 2 ^ 31 -> rel N st s -> fds s !! t = Some m -> m !! fd = None -> m !! fd2 = Some (a, ce) ->
  exists st' s', dup2 N t fd fd2 st = Some (inl EBADF, st') /\ a_del t fd2 s = Some s' /\ rel N st' s'.
Proof.
  intros HN Hr Hm Hfd Hfd2. destruct (del_ok N HN st s t m fd2 a ce Hr Hm Hfd2) as (_ & s1 & _ & Ed & _).
  destruct (dup2_sim N HN st s t fd fd2 Hr (inl EBADF) s1) as (st' & E & Hr'); [|by exists st', s1].
  unfold a_dup2. destruct (Z.eqb_spec fd fd2) as [->|Hne]; [by rewrite Hfd in Hfd2|].
  unfold a_close. rewrite Hm. cbn [mbind option_bind]. rewrite Hfd2, Ed. cbn [mbind option_bind snd].
  unfold a_del in Ed. rewrite Hm in Ed. cbn [mbind option_bind] in Ed. rewrite Hfd2 in Ed. cbn [mbind option_bind] in Ed.
  injection Ed as <-. unfold a_fcntl. cbn [fds]. rewrite list_lookup_insert_eq by (by eapply lookup_lt_Some).
  cbn [mbind option_bind]. by rewrite lookup_delete_ne, Hfd by done.
Qed.

(** [fcntl(F_DUPFD)] with an index above 0 that is open trips the assertion
    of [index_descriptor_dupfd], where POSIX asks for the next free index. *)
Lemma dupfd_taken_asserts `{A : arch} `{!ArchOk A} N st s t m fd i a ce v :
  rel N st s -> fds s !! t = Some m -> m !! fd = Some (a, ce) -> m !! i = Some v -> i <> 0 ->
  fcntl N t fd (F_DUPFD i) st = None.
Proof.
  intros Hr Hm He Hi Hn. destruct (rel_lookup N _ _ _ _ Hr Hm) as (tb & Etb & Ht).
  pose proof (tr_dom N _ _ Ht _ _ He) as Hfd. pose proof (tr_dom N _ _ Ht _ _ Hi) as Hir.
  destruct (rel_entry N _ _ _ _ _ _ _ Hr Hm He) as (_ & [Ha _] & _).
  unfold fcntl, fcntl_dup, index_descriptor_dupfd, index_descriptor_get, idesc_table_locked.
  rewrite !valid_dec, !bool_decide_true by done. rewrite (get_ok N st s t m fd Hr Hm Hfd), He.
  cbn [negb mbind option_bind target]. destruct (Z.eqb_spec a 0); [lia|].
  rewrite Etb. cbn [mbind option_bind]. rewrite (locked_ok N tb m i Ht Hir), Hi, bool_decide_true by done.
  cbn [mbind option_bind b2z Z.eqb negb]. by destruct (Z.eqb_spec i 0).
Qed.
