(* ===== verification/Crc.v ===== *)
(** Cyclic redundancy checks: [src/lib/crypt/crc32/crc32.c] and
    [src/lib/crypt/crc16/crc16.c].

    [count_crc32] builds its table, [crc32_accumulate] and [crc16] have theirs
    as constants.  The reference is the shift register that takes the message
    bit by bit ([crc_bits]); the tables are shown to compute it, and it is shown
    to detect every error burst that is no longer than the register.

    [unsigned long] has the width of the target; the values stay below [2^32].
    A byte is a [Z]; a read beyond a table would be [None]. *)
From S2P Require Import Prelude.

Local Open Scope Z_scope.
Local Open Scope embox_scope.

(** * The register, and the table that moves it by a byte *)

Definition crc_bit (poly crc : Z) : Z :=
  if negb (Z.land crc 1 =? 0) then Z.lxor (Z.shiftr crc 1) poly else Z.shiftr crc 1.

Fixpoint crc_bits (n : nat) (poly crc : Z) : Z :=
  match n with O => crc | S n => crc_bits n poly (crc_bit poly crc) end.

(** The [while] loop of a table-driven update. *)
Fixpoint crc_table_loop (tab : list Z) (crc : Z) (s : list Z) : option Z :=
  match s with
  | [] => Some crc
  | b :: s =>
    t ← znth tab (Z.land (Z.lxor crc b) 0xff);
    crc_table_loop tab (Z.lxor t (Z.shiftr crc 8)) s
  end.

Definition crc32_poly : Z := 0xEDB88320.
Definition crc16_poly : Z := 0xA001.

(** The [for] loop that fills [crc_table]. *)
Definition crc_table : list Z := (fun i => crc_bits 8 crc32_poly i) <$> seqZ 0 256.

Definition count_crc32 (s : list Z) : option Z :=
  crc ← crc_table_loop crc_table 0xFFFFFFFF s;
  Some (Z.lxor crc 0xFFFFFFFF).

Definition crc32_tab : list Z := [
  0x00000000; 0x77073096; 0xee0e612c; 0x990951ba; 0x076dc419; 0x706af48f; 0xe963a535; 0x9e6495a3;
  0x0edb8832; 0x79dcb8a4; 0xe0d5e91e; 0x97d2d988; 0x09b64c2b; 0x7eb17cbd; 0xe7b82d07; 0x90bf1d91;
  0x1db71064; 0x6ab020f2; 0xf3b97148; 0x84be41de; 0x1adad47d; 0x6ddde4eb; 0xf4d4b551; 0x83d385c7;
  0x136c9856; 0x646ba8c0; 0xfd62f97a; 0x8a65c9ec; 0x14015c4f; 0x63066cd9; 0xfa0f3d63; 0x8d080df5;
  0x3b6e20c8; 0x4c69105e; 0xd56041e4; 0xa2677172; 0x3c03e4d1; 0x4b04d447; 0xd20d85fd; 0xa50ab56b;
  0x35b5a8fa; 0x42b2986c; 0xdbbbc9d6; 0xacbcf940; 0x32d86ce3; 0x45df5c75; 0xdcd60dcf; 0xabd13d59;
  0x26d930ac; 0x51de003a; 0xc8d75180; 0xbfd06116; 0x21b4f4b5; 0x56b3c423; 0xcfba9599; 0xb8bda50f;
  0x2802b89e; 0x5f058808; 0xc60cd9b2; 0xb10be924; 0x2f6f7c87; 0x58684c11; 0xc1611dab; 0xb6662d3d;
  0x76dc4190; 0x01db7106; 0x98d220bc; 0xefd5102a; 0x71b18589; 0x06b6b51f; 0x9fbfe4a5; 0xe8b8d433;
  0x7807c9a2; 0x0f00f934; 0x9609a88e; 0xe10e9818; 0x7f6a0dbb; 0x086d3d2d; 0x91646c97; 0xe6635c01;
  0x6b6b51f4; 0x1c6c6162; 0x856530d8; 0xf262004e; 0x6c0695ed; 0x1b01a57b; 0x8208f4c1; 0xf50fc457;
  0x65b0d9c6; 0x12b7e950; 0x8bbeb8ea; 0xfcb9887c; 0x62dd1ddf; 0x15da2d49; 0x8cd37cf3; 0xfbd44c65;
  0x4db26158; 0x3ab551ce; 0xa3bc0074; 0xd4bb30e2; 0x4adfa541; 0x3dd895d7; 0xa4d1c46d; 0xd3d6f4fb;
  0x4369e96a; 0x346ed9fc; 0xad678846; 0xda60b8d0; 0x44042d73; 0x33031de5; 0xaa0a4c5f; 0xdd0d7cc9;
  0x5005713c; 0x270241aa; 0xbe0b1010; 0xc90c2086; 0x5768b525; 0x206f85b3; 0xb966d409; 0xce61e49f;
  0x5edef90e; 0x29d9c998; 0xb0d09822; 0xc7d7a8b4; 0x59b33d17; 0x2eb40d81; 0xb7bd5c3b; 0xc0ba6cad;
  0xedb88320; 0x9abfb3b6; 0x03b6e20c; 0x74b1d29a; 0xead54739; 0x9dd277af; 0x04db2615; 0x73dc1683;
  0xe3630b12; 0x94643b84; 0x0d6d6a3e; 0x7a6a5aa8; 0xe40ecf0b; 0x9309ff9d; 0x0a00ae27; 0x7d079eb1;
  0xf00f9344; 0x8708a3d2; 0x1e01f268; 0x6906c2fe; 0xf762575d; 0x806567cb; 0x196c3671; 0x6e6b06e7;
  0xfed41b76; 0x89d32be0; 0x10da7a5a; 0x67dd4acc; 0xf9b9df6f; 0x8ebeeff9; 0x17b7be43; 0x60b08ed5;
  0xd6d6a3e8; 0xa1d1937e; 0x38d8c2c4; 0x4fdff252; 0xd1bb67f1; 0xa6bc5767; 0x3fb506dd; 0x48b2364b;
  0xd80d2bda; 0xaf0a1b4c; 0x36034af6; 0x41047a60; 0xdf60efc3; 0xa867df55; 0x316e8eef; 0x4669be79;
  0xcb61b38c; 0xbc66831a; 0x256fd2a0; 0x5268e236; 0xcc0c7795; 0xbb0b4703; 0x220216b9; 0x5505262f;
  0xc5ba3bbe; 0xb2bd0b28; 0x2bb45a92; 0x5cb36a04; 0xc2d7ffa7; 0xb5d0cf31; 0x2cd99e8b; 0x5bdeae1d;
  0x9b64c2b0; 0xec63f226; 0x756aa39c; 0x026d930a; 0x9c0906a9; 0xeb0e363f; 0x72076785; 0x05005713;
  0x95bf4a82; 0xe2b87a14; 0x7bb12bae; 0x0cb61b38; 0x92d28e9b; 0xe5d5be0d; 0x7cdcefb7; 0x0bdbdf21;
  0x86d3d2d4; 0xf1d4e242; 0x68ddb3f8; 0x1fda836e; 0x81be16cd; 0xf6b9265b; 0x6fb077e1; 0x18b74777;
  0x88085ae6; 0xff0f6a70; 0x66063bca; 0x11010b5c; 0x8f659eff; 0xf862ae69; 0x616bffd3; 0x166ccf45;
  0xa00ae278; 0xd70dd2ee; 0x4e048354; 0x3903b3c2; 0xa7672661; 0xd06016f7; 0x4969474d; 0x3e6e77db;
  0xaed16a4a; 0xd9d65adc; 0x40df0b66; 0x37d83bf0; 0xa9bcae53; 0xdebb9ec5; 0x47b2cf7f; 0x30b5ffe9;
  0xbdbdf21c; 0xcabac28a; 0x53b39330; 0x24b4a3a6; 0xbad03605; 0xcdd70693; 0x54de5729; 0x23d967bf;
  0xb3667a2e; 0xc4614ab8; 0x5d681b02; 0x2a6f2b94; 0xb40bbe37; 0xc30c8ea1; 0x5a05df1b; 0x2d02ef8d].

Definition crc32_accumulate (crc32val : Z) (s : list Z) : option Z :=
  crc_table_loop crc32_tab crc32val s.

Definition crc16_table : list Z := [
  0x0000; 0xc0c1; 0xc181; 0x0140; 0xc301; 0x03c0; 0x0280; 0xc241;
  0xc601; 0x06c0; 0x0780; 0xc741; 0x0500; 0xc5c1; 0xc481; 0x0440;
  0xcc01; 0x0cc0; 0x0d80; 0xcd41; 0x0f00; 0xcfc1; 0xce81; 0x0e40;
  0x0a00; 0xcac1; 0xcb81; 0x0b40; 0xc901; 0x09c0; 0x0880; 0xc841;
  0xd801; 0x18c0; 0x1980; 0xd941; 0x1b00; 0xdbc1; 0xda81; 0x1a40;
  0x1e00; 0xdec1; 0xdf81; 0x1f40; 0xdd01; 0x1dc0; 0x1c80; 0xdc41;
  0x1400; 0xd4c1; 0xd581; 0x1540; 0xd701; 0x17c0; 0x1680; 0xd641;
  0xd201; 0x12c0; 0x1380; 0xd341; 0x1100; 0xd1c1; 0xd081; 0x1040;
  0xf001; 0x30c0; 0x3180; 0xf141; 0x3300; 0xf3c1; 0xf281; 0x3240;
  0x3600; 0xf6c1; 0xf781; 0x3740; 0xf501; 0x35c0; 0x3480; 0xf441;
  0x3c00; 0xfcc1; 0xfd81; 0x3d40; 0xff01; 0x3fc0; 0x3e80; 0xfe41;
  0xfa01; 0x3ac0; 0x3b80; 0xfb41; 0x3900; 0xf9c1; 0xf881; 0x3840;
  0x2800; 0xe8c1; 0xe981; 0x2940; 0xeb01; 0x2bc0; 0x2a80; 0xea41;
  0xee01; 0x2ec0; 0x2f80; 0xef41; 0x2d00; 0xedc1; 0xec81; 0x2c40;
  0xe401; 0x24c0; 0x2580; 0xe541; 0x2700; 0xe7c1; 0xe681; 0x2640;
  0x2200; 0xe2c1; 0xe381; 0x2340; 0xe101; 0x21c0; 0x2080; 0xe041;
  0xa001; 0x60c0; 0x6180; 0xa141; 0x6300; 0xa3c1; 0xa281; 0x6240;
  0x6600; 0xa6c1; 0xa781; 0x6740; 0xa501; 0x65c0; 0x6480; 0xa441;
  0x6c00; 0xacc1; 0xad81; 0x6d40; 0xaf01; 0x6fc0; 0x6e80; 0xae41;
  0xaa01; 0x6ac0; 0x6b80; 0xab41; 0x6900; 0xa9c1; 0xa881; 0x6840;
  0x7800; 0xb8c1; 0xb981; 0x7940; 0xbb01; 0x7bc0; 0x7a80; 0xba41;
  0xbe01; 0x7ec0; 0x7f80; 0xbf41; 0x7d00; 0xbdc1; 0xbc81; 0x7c40;
  0xb401; 0x74c0; 0x7580; 0xb541; 0x7700; 0xb7c1; 0xb681; 0x7640;
  0x7200; 0xb2c1; 0xb381; 0x7340; 0xb101; 0x71c0; 0x7080; 0xb041;
  0x5000; 0x90c1; 0x9181; 0x5140; 0x9301; 0x53c0; 0x5280; 0x9241;
  0x9601; 0x56c0; 0x5780; 0x9741; 0x5500; 0x95c1; 0x9481; 0x5440;
  0x9c01; 0x5cc0; 0x5d80; 0x9d41; 0x5f00; 0x9fc1; 0x9e81; 0x5e40;
  0x5a00; 0x9ac1; 0x9b81; 0x5b40; 0x9901; 0x59c0; 0x5880; 0x9841;
  0x8801; 0x48c0; 0x4980; 0x8941; 0x4b00; 0x8bc1; 0x8a81; 0x4a40;
  0x4e00; 0x8ec1; 0x8f81; 0x4f40; 0x8d01; 0x4dc0; 0x4c80; 0x8c41;
  0x4400; 0x84c1; 0x8581; 0x4540; 0x8701; 0x47c0; 0x4680; 0x8641;
  0x8201; 0x42c0; 0x4380; 0x8341; 0x4100; 0x81c1; 0x8081; 0x4040].

Definition crc16_byte (crc data : Z) : option Z :=
  t ← znth crc16_table (Z.land (Z.lxor crc data) 0xff);
  Some (Z.lxor (Z.shiftr crc 8) t).

Fixpoint crc16 (crc : Z) (buffer : list Z) : option Z :=
  match buffer with
  | [] => Some crc
  | b :: buffer => crc ← crc16_byte crc b; crc16 crc buffer
  end.

(** * The reference: one bit of the message at a time, lowest first *)

Definition byte_ok (b : Z) : Prop := 0 <= b < 256.
Definition crc_byte (poly crc b : Z) : Z := crc_bits 8 poly (Z.lxor crc b).
Definition crc_ref (poly : Z) (crc : Z) (s : list Z) : Z := foldl (crc_byte poly) crc s.

(** * The register is linear *)

Lemma crc_bit_alt p x : crc_bit p x = Z.lxor (Z.shiftr x 1) (if Z.testbit x 0 then p else 0).
Proof.
  unfold crc_bit. replace (Z.land x 1) with (Z.b2z (Z.testbit x 0)).
  - destruct (Z.testbit x 0); cbn; [done|]. by rewrite Z.lxor_0_r.
  - change 1 with (Z.ones 1). rewrite Z.land_ones by lia. apply Z.bit0_mod.
Qed.

Lemma lxor_swap a b c d : Z.lxor (Z.lxor a b) (Z.lxor c d) = Z.lxor (Z.lxor a c) (Z.lxor b d).
Proof. apply Z.bits_inj'. intros i _. rewrite !Z.lxor_spec. by destruct (Z.testbit a i), (Z.testbit b i), (Z.testbit c i), (Z.testbit d i). Qed.

Lemma crc_bit_lxor p a b : crc_bit p (Z.lxor a b) = Z.lxor (crc_bit p a) (crc_bit p b).
Proof.
  rewrite !crc_bit_alt, Z.lxor_spec, Z.shiftr_lxor, lxor_swap. f_equal.
  destruct (Z.testbit a 0), (Z.testbit b 0); cbn; by rewrite ?Z.lxor_nilpotent, ?Z.lxor_0_l, ?Z.lxor_0_r.
Qed.

Lemma crc_bits_lxor n p a b : crc_bits n p (Z.lxor a b) = Z.lxor (crc_bits n p a) (crc_bits n p b).
Proof. revert a b. induction n as [|n IH]; intros a b; [done|]. cbn. by rewrite crc_bit_lxor, IH. Qed.

Lemma crc_bits_shiftl n p y : crc_bits n p (Z.shiftl y (Z.of_nat n)) = y.
Proof.
  revert y. induction n as [|n IH]; intros y; [apply Z.shiftl_0_r|]. cbn [crc_bits].
  replace (crc_bit p (Z.shiftl y (Z.of_nat (S n)))) with (Z.shiftl y (Z.of_nat n)); [apply IH|].
  rewrite crc_bit_alt, Z.shiftl_spec_low, Z.lxor_0_r, Z.shiftr_shiftl_l by lia. f_equal. lia.
Qed.

Lemma crc_bits_add n m p x : crc_bits (n + m) p x = crc_bits m p (crc_bits n p x).
Proof. revert x. induction n as [|n IH]; intros x; [done|]. cbn. apply IH. Qed.

Lemma byte_split x : x = Z.lxor (Z.land x 0xff) (Z.shiftl (Z.shiftr x 8) 8).
Proof.
  apply Z.bits_inj'. intros i Hi. change 0xff with (Z.ones 8).
  rewrite Z.lxor_spec, Z.land_spec, Z.testbit_ones_nonneg, Z.shiftl_spec by lia.
  destruct (Z.ltb_spec i 8).
  - by rewrite (Z.testbit_neg_r _ (i - 8)), andb_true_r, xorb_false_r by lia.
  - rewrite Z.shiftr_spec, andb_false_r by lia. rewrite xorb_false_l. f_equal. lia.
Qed.

(** The table step. *)
Lemma crc_bits_byte p x : crc_bits 8 p x = Z.lxor (crc_bits 8 p (Z.land x 0xff)) (Z.shiftr x 8).
Proof.
  rewrite (byte_split x) at 1. rewrite crc_bits_lxor. f_equal. exact (crc_bits_shiftl 8 p (Z.shiftr x 8)).
Qed.

Lemma byte_shiftr b : byte_ok b -> Z.shiftr b 8 = 0.
Proof. intros Hb. rewrite Z.shiftr_div_pow2 by lia. apply Z.div_small, Hb. Qed.

Definition table_of (poly : Z) (tab : list Z) : Prop :=
  tab = (fun i => crc_bits 8 poly i) <$> seqZ 0 256.

Lemma table_lookup poly tab x :
  table_of poly tab -> znth tab (Z.land x 0xff) = Some (crc_bits 8 poly (Z.land x 0xff)).
Proof.
  intros ->. change 0xff with (Z.ones 8). rewrite Z.land_ones by lia.
  pose proof (Z.mod_pos_bound x (2 ^ 8) ltac:(lia)) as Hb.
  rewrite znth_lookup, list_lookup_fmap, lookup_seqZ_lt by lia.
  by rewrite Z2Nat.id, Z.add_0_l by lia.
Qed.

Lemma table_byte poly tab c b :
  table_of poly tab -> byte_ok b ->
  exists t, znth tab (Z.land (Z.lxor c b) 0xff) = Some t /\ Z.lxor t (Z.shiftr c 8) = crc_byte poly c b.
Proof.
  intros Ht Hb. eexists. split; [by apply table_lookup|]. unfold crc_byte.
  by rewrite (crc_bits_byte poly (Z.lxor c b)), Z.shiftr_lxor, (byte_shiftr b), Z.lxor_0_r.
Qed.

Lemma table_loop_ok poly tab c s :
  table_of poly tab -> Forall byte_ok s -> crc_table_loop tab c s = Some (crc_ref poly c s).
Proof.
  intros Ht Hs. revert c. induction Hs as [|b s Hb _ IH]; intros c; [done|]. cbn.
  destruct (table_byte poly tab c b Ht Hb) as (t & -> & Hx). cbn. rewrite Hx. apply IH.
Qed.

Lemma crc16_loop_ok c s : table_of crc16_poly crc16_table -> Forall byte_ok s ->
  crc16 c s = Some (crc_ref crc16_poly c s).
Proof.
  intros Ht Hs. revert c. induction Hs as [|b s Hb _ IH]; intros c; [done|]. cbn. unfold crc16_byte.
  destruct (table_byte _ _ c b Ht Hb) as (t & -> & Hx). cbn. rewrite Z.lxor_comm, Hx. apply IH.
Qed.

Lemma crc32_table_ok : table_of crc32_poly crc32_tab.
Proof. vm_compute. reflexivity. Qed.
Lemma crc16_table_ok : table_of crc16_poly crc16_table.
Proof. vm_compute. reflexivity. Qed.

(** * The register loses nothing *)

(** The message as a number, first byte lowest. *)
Fixpoint le_num (s : list Z) : Z :=
  match s with [] => 0 | b :: s => Z.lxor b (Z.shiftl (le_num s) 8) end.

(** The whole message goes through the register at once. *)
Lemma crc_ref_num poly c s : crc_ref poly c s = crc_bits (8 * length s) poly (Z.lxor c (le_num s)).
Proof.
  revert c. induction s as [|b s IH]; intros c; [cbn; by rewrite Z.lxor_0_r|].
  change (crc_ref poly c (b :: s)) with (crc_ref poly (crc_byte poly c b) s). rewrite IH.
  replace (8 * length (b :: s))%nat with (8 + 8 * length s)%nat by (cbn [length]; lia).
  rewrite crc_bits_add. f_equal. cbn [le_num]. rewrite <- Z.lxor_assoc, crc_bits_lxor.
  unfold crc_byte. f_equal. symmetry. exact (crc_bits_shiftl 8 poly (le_num s)).
Qed.

Section Register.
Context (w poly : Z) (Hw : 0 < w) (Hp : 0 <= poly < 2 ^ w) (Htop : Z.testbit poly (w - 1) = true).

Lemma lxor_range a b : 0 <= a < 2 ^ w -> 0 <= b < 2 ^ w -> 0 <= Z.lxor a b < 2 ^ w.
Proof.
  intros Ha Hb. apply bounded_testbit; [lia|]. split; [apply Z.lxor_nonneg; lia|]. intros i Hi.
  by rewrite Z.lxor_spec, (bounded_high_bit w a i), (bounded_high_bit w b i) by lia.
Qed.

Lemma crc_bit_range x : 0 <= x < 2 ^ w -> 0 <= crc_bit poly x < 2 ^ w.
Proof.
  intros Hx. rewrite crc_bit_alt. apply lxor_range; [|destruct (Z.testbit x 0); [done|lia]].
  rewrite Z.shiftr_div_pow2 by lia. pose proof (Z.div_mod x (2 ^ 1)). pose proof (Z.mod_pos_bound x (2 ^ 1)). lia.
Qed.

Lemma crc_bit_inj x y :
  0 <= x < 2 ^ w -> 0 <= y < 2 ^ w -> crc_bit poly x = crc_bit poly y -> x = y.
Proof.
  intros Hx Hy Heq. rewrite !crc_bit_alt in Heq.
  assert (forall z, 0 <= z < 2 ^ w ->
    Z.testbit (Z.lxor (Z.shiftr z 1) (if Z.testbit z 0 then poly else 0)) (w - 1) = Z.testbit z 0) as Hbit.
  { intros z Hz. rewrite Z.lxor_spec, Z.shiftr_spec, (bounded_high_bit w z) by lia.
    destruct (Z.testbit z 0); [by rewrite Htop|by rewrite Z.bits_0]. }
  assert (Z.testbit x 0 = Z.testbit y 0) as H0 by (by rewrite <- (Hbit x Hx), <- (Hbit y Hy), Heq).
  rewrite H0 in Heq. apply (f_equal (fun z => Z.lxor z (if Z.testbit y 0 then poly else 0))) in Heq.
  rewrite !Z.lxor_assoc, !Z.lxor_nilpotent, !Z.lxor_0_r in Heq.
  apply Z.bits_inj'. intros i Hi. destruct (Z.eq_dec i 0) as [->|]; [done|].
  apply (f_equal (fun z => Z.testbit z (i - 1))) in Heq. rewrite !Z.shiftr_spec in Heq by lia.
  by replace (i - 1 + 1) with i in Heq by lia.
Qed.

Lemma crc_bits_inj n x y :
  0 <= x < 2 ^ w -> 0 <= y < 2 ^ w -> crc_bits n poly x = crc_bits n poly y -> x = y.
Proof.
  revert x y. induction n as [|n IH]; intros x y Hx Hy Heq; [done|]. cbn in Heq.
  apply crc_bit_inj; [done..|]. apply IH; [by apply crc_bit_range..|done].
Qed.

Lemma crc_bits_range n x : 0 <= x < 2 ^ w -> 0 <= crc_bits n poly x < 2 ^ w.
Proof. revert x. induction n as [|n IH]; intros x Hx; [done|]. cbn. apply IH. by apply crc_bit_range. Qed.

Context (H8 : 8 <= w).

Lemma byte_range b : byte_ok b -> 0 <= b < 2 ^ w.
Proof. unfold byte_ok. intros Hb. assert (2 ^ 8 <= 2 ^ w) by (apply Z.pow_le_mono_r; lia). lia. Qed.

Lemma crc_ref_range c s : 0 <= c < 2 ^ w -> Forall byte_ok s -> 0 <= crc_ref poly c s < 2 ^ w.
Proof.
  intros Hc Hs. revert c Hc. induction Hs as [|b s Hb _ IH]; intros c Hc; [done|].
  apply IH, crc_bits_range, lxor_range; [done|by apply byte_range].
Qed.

(** Different registers stay different. *)
Lemma crc_ref_inj c c' s : 0 <= c < 2 ^ w -> 0 <= c' < 2 ^ w -> Forall byte_ok s ->
  crc_ref poly c s = crc_ref poly c' s -> c = c'.
Proof.
  intros Hc Hc' Hs. revert c c' Hc Hc'. induction Hs as [|b s Hb _ IH]; intros c c' Hc Hc' Heq; [done|].
  apply byte_range in Hb.
  apply IH, crc_bits_inj in Heq; try (by apply lxor_range); try (by apply crc_bits_range, lxor_range).
  apply (f_equal (fun z => Z.lxor z b)) in Heq.
  by rewrite !Z.lxor_assoc, !Z.lxor_nilpotent, !Z.lxor_0_r in Heq.
Qed.

Lemma le_num_range s : Forall byte_ok s -> 8 * zlen s <= w -> 0 <= le_num s < 2 ^ w.
Proof.
  intros Hs Hl. apply bounded_testbit; [lia|].
  assert (0 <= le_num s /\ forall i, 8 * zlen s <= i -> Z.testbit (le_num s) i = false) as [H0 Hi].
  { clear Hl. induction Hs as [|b s Hb _ [IH0 IH]]; [split; [done|intros; apply Z.bits_0]|].
    unfold zlen in *. cbn [le_num length]. split.
    - apply Z.lxor_nonneg. rewrite Z.shiftl_nonneg. unfold byte_ok in Hb. lia.
    - intros i Hi. rewrite Z.lxor_spec, Z.shiftl_spec by lia.
      rewrite (bounded_high_bit 8 b), IH by (unfold byte_ok in Hb; lia). done. }
  split; [done|]. intros i Hiw. apply Hi. lia.
Qed.

Lemma le_num_inj x y : length x = length y -> Forall byte_ok x -> Forall byte_ok y ->
  le_num x = le_num y -> x = y.
Proof.
  revert y. induction x as [|a x IH]; intros [|b y] Hl Hx Hy Heq; try done. cbn [le_num] in Heq.
  apply Forall_cons in Hx as [Ha Hx]. apply Forall_cons in Hy as [Hb Hy].
  assert (forall a n, byte_ok a -> Z.land (Z.lxor a (Z.shiftl n 8)) 0xff = a /\
    Z.shiftr (Z.lxor a (Z.shiftl n 8)) 8 = n) as Hsp.
  { intros a' n Ha'. split.
    - change 0xff with (Z.ones 8). apply Z.bits_inj'. intros i Hi.
      rewrite Z.land_spec, Z.lxor_spec, Z.testbit_ones_nonneg, Z.shiftl_spec by lia. destruct (Z.ltb_spec i 8).
      + by rewrite (Z.testbit_neg_r n), xorb_false_r, andb_true_r by lia.
      + rewrite andb_false_r. symmetry. apply (bounded_high_bit 8); [lia|exact Ha'|done].
    - rewrite Z.shiftr_lxor, byte_shiftr, Z.lxor_0_l by done. rewrite Z.shiftr_shiftl_l by lia. apply Z.shiftl_0_r. }
  destruct (Hsp a (le_num x) Ha) as [Ha1 Ha2]. destruct (Hsp b (le_num y) Hb) as [Hb1 Hb2].
  f_equal; [congruence|]. apply IH; [by injection Hl|done..|congruence].
Qed.

(** An error burst no longer than the register changes it. *)
Lemma crc_ref_burst c pre x y post :
  0 <= c < 2 ^ w -> Forall byte_ok pre -> Forall byte_ok x -> Forall byte_ok y -> Forall byte_ok post ->
  length x = length y -> 8 * zlen x <= w -> x <> y ->
  crc_ref poly c (pre ++ x ++ post) <> crc_ref poly c (pre ++ y ++ post).
Proof.
  intros Hc Hpre Hx Hy Hpost Hl Hw8 Hne Heq. unfold crc_ref in Heq. rewrite !foldl_app in Heq.
  fold (crc_ref poly c pre) in Heq. set (c0 := crc_ref poly c pre) in Heq.
  assert (0 <= c0 < 2 ^ w) as Hc0 by by apply crc_ref_range.
  apply (crc_ref_inj (crc_ref poly c0 x) (crc_ref poly c0 y)) in Heq; [|by apply crc_ref_range..|done].
  rewrite !crc_ref_num, Hl in Heq.
  apply crc_bits_inj in Heq; try (apply lxor_range; [done|by apply le_num_range; unfold zlen in *; rewrite <- ?Hl]).
  apply (f_equal (Z.lxor c0)) in Heq. rewrite <- !Z.lxor_assoc, !Z.lxor_nilpotent, !Z.lxor_0_l in Heq.
  by apply Hne, le_num_inj.
Qed.

End Register.

(** * Theorems *)

(** C25: the tables compute the shift register.  For every message
    [count_crc32], whose table is built on each call, [crc32_accumulate] and
    [crc16], whose tables are constants of the source, give what the bitwise
    register gives; so the two CRC-32 functions agree. *)
Theorem crc_tables_equivalent s :
  Forall byte_ok s ->
  count_crc32 s = Some (Z.lxor (crc_ref crc32_poly 0xFFFFFFFF s) 0xFFFFFFFF) /\
  (forall c, crc32_accumulate c s = Some (crc_ref crc32_poly c s)) /\
  (forall c, crc16 c s = Some (crc_ref crc16_poly c s)).
Proof.
  intros Hs. unfold count_crc32, crc32_accumulate. split_and!.
  - by rewrite (table_loop_ok crc32_poly).
  - intros c. apply table_loop_ok; [apply crc32_table_ok|done].
  - intros c. apply crc16_loop_ok; [apply crc16_table_ok|done].
Qed.

Lemma crc_tables_equivalent_witness :
  count_crc32 [49; 50; 51] = Some (Z.lxor (crc_ref crc32_poly 0xFFFFFFFF [49; 50; 51]) 0xFFFFFFFF).
Proof.
  assert (Forall byte_ok [49; 50; 51]) as Hs by (repeat constructor; unfold byte_ok; lia).
  exact (proj1 (crc_tables_equivalent [49; 50; 51] Hs)).
Defined.

(** C27: the checks detect error bursts.  Two messages that differ, but only
    within four consecutive bytes, have different CRC-32s; only within two
    consecutive bytes, different CRC-16s. *)
Theorem crc_detects_bursts pre x y post c16 :
  Forall byte_ok pre -> Forall byte_ok x -> Forall byte_ok y -> Forall byte_ok post ->
  length x = length y -> x <> y -> 0 <= c16 < 2 ^ 16 ->
  (zlen x <= 4 -> count_crc32 (pre ++ x ++ post) <> count_crc32 (pre ++ y ++ post)) /\
  (zlen x <= 2 -> crc16 c16 (pre ++ x ++ post) <> crc16 c16 (pre ++ y ++ post)).
Proof.
  intros Hpre Hx Hy Hpost Hl Hne Hc.
  assert (Forall byte_ok (pre ++ x ++ post) /\ Forall byte_ok (pre ++ y ++ post)) as [Hfx Hfy]
    by (by rewrite !Forall_app).
  split; intros Hz.
  - unfold count_crc32. rewrite !(table_loop_ok crc32_poly) by done. cbn [mbind option_bind]. intros Heq.
    injection Heq as Heq. apply (f_equal (fun z => Z.lxor z 0xFFFFFFFF)) in Heq.
    rewrite !Z.lxor_assoc, !Z.lxor_nilpotent, !Z.lxor_0_r in Heq. revert Heq.
    by apply (crc_ref_burst 32 crc32_poly); try lia.
  - rewrite !crc16_loop_ok by (done || apply crc16_table_ok). intros Heq. injection Heq as Heq. revert Heq.
    by apply (crc_ref_burst 16 crc16_poly); try lia.
Qed.

Lemma crc_detects_bursts_witness :
  count_crc32 ([1] ++ [2; 3] ++ [4]) <> count_crc32 ([1] ++ [9; 3] ++ [4]).
Proof.
  apply (crc_detects_bursts [1] [2; 3] [9; 3] [4] 0).
  all: first [repeat constructor; unfold byte_ok; lia|done|lia|unfold zlen; cbn; lia].
Defined.
