(* ===== verification/B64.v ===== *)
(** Base 64: [src/lib/crypt/b64/b64.c].

    A [char] is a byte, a [Z] below 256.  A call gives the value it returns
    and what it has written to [buff], also when it fails half way; when it
    returns 0 the length of that list is what it stores to [out_coded_sz] or
    [out_plain_sz].  A pointer that may be [NULL] is an [option], [buff] one to
    its size and the pointer to the size a [bool].  The loops run over the
    input by groups of three (or four) characters; [i] is two (or seven) more
    than what they have consumed.  [None] is a read outside the input or a
    table. *)
From S2P Require Import Prelude.

Local Open Scope Z_scope.
Local Open Scope embox_scope.

Definition EINVAL : Z := 22.
Definition ENOMEM : Z := 12.
Definition EQUALS : Z := 61.

Definition b2char : list Z := [
  65; 66; 67; 68; 69; 70; 71; 72;
  73; 74; 75; 76; 77; 78; 79; 80;
  81; 82; 83; 84; 85; 86; 87; 88;
  89; 90; 97; 98; 99; 100; 101; 102;
  103; 104; 105; 106; 107; 108; 109; 110;
  111; 112; 113; 114; 115; 116; 117; 118;
  119; 120; 121; 122; 48; 49; 50; 51;
  52; 53; 54; 55; 56; 57; 43; 47].

(** [-1] as the table has it. *)
Definition char2b : list Z := [
  -1; -1; -1; -1; -1; -1; -1; -1; -1; -1; -1; -1; -1; -1; -1; -1;
  -1; -1; -1; -1; -1; -1; -1; -1; -1; -1; -1; -1; -1; -1; -1; -1;
  -1; -1; -1; -1; -1; -1; -1; -1; -1; -1; 62; -1; -1; -1; -1; 63;
  52; 53; 54; 55; 56; 57; 58; 59; 60; 61; -1; -1; -1; -1; -1; -1;
  -1;  0;  1;  2;  3;  4;  5;  6;  7;  8;  9; 10; 11; 12; 13; 14;
  15; 16; 17; 18; 19; 20; 21; 22; 23; 24; 25; -1; -1; -1; -1; -1;
  -1; 26; 27; 28; 29; 30; 31; 32; 33; 34; 35; 36; 37; 38; 39; 40;
  41; 42; 43; 44; 45; 46; 47; 48; 49; 50; 51; -1; -1; -1; -1; -1]
  ++ replicate 128 (-1).

Definition B_TO_CHAR (b : Z) : option Z := znth b2char b.

(** [inl] is [return -EINVAL] from the function around the macro. *)
Definition CHAR_TO_B (ch : Z) : option (Z + Z) :=
  b ← znth char2b ch;
  Some (if b =? -1 then inl (- EINVAL) else inr b).

Definition MAKE_B1 (c1 : Z) : Z := Z.shiftr c1 2.
Definition MAKE_B2 (c1 c2 : Z) : Z := Z.lor (Z.shiftl (Z.land c1 0x03) 4) (Z.shiftr c2 4).
Definition MAKE_B3 (c2 c3 : Z) : Z := Z.lor (Z.shiftl (Z.land c2 0x0F) 2) (Z.shiftr c3 6).
Definition MAKE_B4 (c3 : Z) : Z := Z.land c3 0x3F.

Definition MAKE_CHAR1 (b1 b2 : Z) : Z := u8 (Z.lor (Z.shiftl b1 2) (Z.shiftr b2 4)).
Definition MAKE_CHAR2 (b2 b3 : Z) : Z := u8 (Z.lor (Z.shiftl (Z.land b2 0x0F) 4) (Z.shiftr b3 2)).
Definition MAKE_CHAR3 (b3 b4 : Z) : Z := u8 (Z.lor (Z.shiftl (Z.land b3 0x03) 6) b4).

Section B64.
Context `{A : arch}.

Definition b64_coded_len (plain_sz : Z) : Z := ul (ul (plain_sz + 2) / 3 * 4).

Definition b64_plain_len (coded : list Z) (coded_sz : Z) : option Z :=
  let size := ul (coded_sz / 4 * 3) in
  x ← znth coded (coded_sz - 1);
  let size := if x =? EQUALS then ul (size - 1) else size in
  y ← znth coded (coded_sz - 2);
  Some (if y =? EQUALS then ul (size - 1) else size).

(** The loop and what follows it: what is written from here on. *)
Fixpoint encode_loop (plain : list Z) : option (list Z) :=
  match plain with
  | c1 :: c2 :: c3 :: plain =>
    o1 ← B_TO_CHAR (MAKE_B1 c1);
    o2 ← B_TO_CHAR (MAKE_B2 c1 c2);
    o3 ← B_TO_CHAR (MAKE_B3 c2 c3);
    o4 ← B_TO_CHAR (MAKE_B4 c3);
    out ← encode_loop plain;
    Some (o1 :: o2 :: o3 :: o4 :: out)
  | [c1; c2] =>
    o1 ← B_TO_CHAR (MAKE_B1 c1);
    o2 ← B_TO_CHAR (MAKE_B2 c1 c2);
    o3 ← B_TO_CHAR (MAKE_B3 c2 0);
    Some [o1; o2; o3; EQUALS]
  | [c1] =>
    o1 ← B_TO_CHAR (MAKE_B1 c1);
    o2 ← B_TO_CHAR (MAKE_B2 c1 0);
    Some [o1; o2; EQUALS; EQUALS]
  | [] => Some []
  end.

Definition b64_encode (plain : option (list Z)) (buff : option Z) (out_coded_sz : bool) : option (Z * list Z) :=
  match plain, buff, out_coded_sz with
  | Some plain, Some buff_sz, true =>
    if b64_coded_len (zlen plain) >? buff_sz then Some (- ENOMEM, [])
    else out ← encode_loop plain; Some (0, out)
  | _, _, _ => Some (- EINVAL, [])
  end.

(** [CHAR_TO_B] and what follows it, with the characters written so far. *)
Definition with_b {B} (ch : Z) (k : Z -> option (Z * list B)) : option (Z * list B) :=
  r ← CHAR_TO_B ch; match r with inl e => Some (e, []) | inr b => k b end.

Definition put {B} (c : list B) (r : option (Z * list B)) : option (Z * list B) :=
  '(e, out) ← r; Some (e, c ++ out).

(** The last group. *)
Definition decode_last (c1 c2 c3 c4 : Z) : option (Z * list Z) :=
  with_b c1 (fun b1 => with_b c2 (fun b2 =>
  put [MAKE_CHAR1 b1 b2] (
  if negb (c3 =? EQUALS) then
    with_b c3 (fun b3 =>
    put [MAKE_CHAR2 b2 b3] (
    if negb (c4 =? EQUALS) then
      with_b c4 (fun b4 => put [MAKE_CHAR3 b3 b4] (Some (0, [])))
    else Some (0, [])))
  else Some (0, [])))).

(** The loop runs while more than one group is left. *)
Fixpoint decode_loop (coded : list Z) : option (Z * list Z) :=
  match coded with
  | c1 :: c2 :: c3 :: c4 :: rest =>
    match rest with
    | [] => decode_last c1 c2 c3 c4
    | _ =>
      with_b c1 (fun b1 => with_b c2 (fun b2 => with_b c3 (fun b3 => with_b c4 (fun b4 =>
      put [MAKE_CHAR1 b1 b2; MAKE_CHAR2 b2 b3; MAKE_CHAR3 b3 b4] (decode_loop rest)))))
    end
  | _ => None
  end.

Definition b64_decode (coded : option (list Z)) (buff : option Z) (out_plain_sz : bool) : option (Z * list Z) :=
  match coded, buff with
  | Some coded, Some buff_sz =>
    if negb (zlen coded mod 4 =? 0) || negb out_plain_sz then Some (- EINVAL, [])
    else if zlen coded =? 0 then Some (0, [])
    else
      n ← b64_plain_len coded (zlen coded);
      if n >? buff_sz then Some (- ENOMEM, []) else decode_loop coded
  | _, _ => Some (- EINVAL, [])
  end.

End B64.

(** * Groups of bits as numbers *)

Definition char_ok (c : Z) : Prop := 0 <= c < 256.
Definition sextet (b : Z) : Prop := 0 <= b < 64.
Definition PLUS : Z := 43.

Lemma lor_shiftl_add a b n : 0 <= n -> 0 <= b < 2 ^ n -> Z.lor (Z.shiftl a n) b = a * 2 ^ n + b.
Proof.
  intros Hn Hb. rewrite <- Z.shiftl_mul_pow2 by done.
  assert (forall i, 0 <= i -> Z.testbit (Z.shiftl a n) i = false \/ Z.testbit b i = false) as Hd.
  { intros i Hi. destruct (Z.lt_ge_cases i n); [left; apply Z.shiftl_spec_low; lia|].
    right. apply (bounded_high_bit n); lia. }
  rewrite Z.add_nocarry_lxor; apply Z.bits_inj'; intros i Hi; rewrite ?Z.lor_spec, ?Z.lxor_spec, ?Z.land_spec, ?Z.bits_0.
  - by destruct (Hd i Hi) as [-> | ->]; rewrite ?orb_false_r, ?xorb_false_r, ?xorb_false_l.
  - by destruct (Hd i Hi) as [-> | ->]; rewrite ?andb_false_r.
Qed.

Lemma land_ones_mod a k m : 0 <= k -> m = 2 ^ k - 1 -> Z.land a m = a mod 2 ^ k.
Proof. intros Hk ->. rewrite <- Z.land_ones by done. by rewrite Z.ones_equiv. Qed.

Lemma make_b_val c1 c2 c3 : char_ok c1 -> char_ok c2 -> char_ok c3 ->
  MAKE_B1 c1 = c1 / 4 /\ MAKE_B2 c1 c2 = c1 mod 4 * 16 + c2 / 16 /\
  MAKE_B3 c2 c3 = c2 mod 16 * 4 + c3 / 64 /\ MAKE_B4 c3 = c3 mod 64.
Proof.
  unfold char_ok, MAKE_B1, MAKE_B2, MAKE_B3, MAKE_B4. intros H1 H2 H3.
  rewrite (land_ones_mod _ 2 0x03), (land_ones_mod _ 4 0x0F), (land_ones_mod _ 6 0x3F) by done.
  rewrite !Z.shiftr_div_pow2 by done. split_and!; try done.
  - rewrite lor_shiftl_add; [done|done|]. change (2 ^ 4) with 16. Z.div_mod_to_equations. lia.
  - rewrite lor_shiftl_add; [done|done|]. change (2 ^ 2) with 4. change (2 ^ 6) with 64. Z.div_mod_to_equations. lia.
Qed.

Lemma make_char_val b1 b2 b3 b4 : sextet b1 -> sextet b2 -> sextet b3 -> sextet b4 ->
  MAKE_CHAR1 b1 b2 = b1 * 4 + b2 / 16 /\ MAKE_CHAR2 b2 b3 = b2 mod 16 * 16 + b3 / 4 /\
  MAKE_CHAR3 b3 b4 = b3 mod 4 * 64 + b4.
Proof.
  unfold sextet, MAKE_CHAR1, MAKE_CHAR2, MAKE_CHAR3. intros H1 H2 H3 H4.
  rewrite (land_ones_mod _ 2 0x03), (land_ones_mod _ 4 0x0F) by done. rewrite !Z.shiftr_div_pow2 by done.
  rewrite !lor_shiftl_add; try done; change (2 ^ 2) with 4; change (2 ^ 4) with 16; change (2 ^ 6) with 64;
    try (Z.div_mod_to_equations; lia).
  rewrite !wrap_small by (change (2 ^ 8) with 256; Z.div_mod_to_equations; lia). done.
Qed.

Lemma make_b_range c1 c2 c3 : char_ok c1 -> char_ok c2 -> char_ok c3 ->
  sextet (MAKE_B1 c1) /\ sextet (MAKE_B2 c1 c2) /\ sextet (MAKE_B3 c2 c3) /\ sextet (MAKE_B4 c3).
Proof.
  intros H1 H2 H3. destruct (make_b_val c1 c2 c3 H1 H2 H3) as (-> & -> & -> & ->).
  unfold sextet, char_ok in *. Z.div_mod_to_equations. lia.
Qed.

Lemma make_char_inverse c1 c2 c3 : char_ok c1 -> char_ok c2 -> char_ok c3 ->
  MAKE_CHAR1 (MAKE_B1 c1) (MAKE_B2 c1 c2) = c1 /\
  MAKE_CHAR2 (MAKE_B2 c1 c2) (MAKE_B3 c2 c3) = c2 /\
  MAKE_CHAR3 (MAKE_B3 c2 c3) (MAKE_B4 c3) = c3.
Proof.
  intros H1 H2 H3. destruct (make_b_range c1 c2 c3 H1 H2 H3) as (R1 & R2 & R3 & R4).
  destruct (make_char_val _ _ _ _ R1 R2 R3 R4) as (-> & -> & ->).
  destruct (make_b_val c1 c2 c3 H1 H2 H3) as (-> & -> & -> & ->).
  unfold char_ok in *. split_and!; Z.div_mod_to_equations; lia.
Qed.

(** * The tables *)

(** The decoder knows every character of the encoder but one. *)
Lemma tables_inverse b : sextet b ->
  exists c, B_TO_CHAR b = Some c /\ char_ok c /\ c <> EQUALS /\
    CHAR_TO_B c = Some (if c =? PLUS then inl (- EINVAL) else inr b).
Proof.
  intros Hb. set (good b := match B_TO_CHAR b with
    | Some c => (0 <=? c) && (c <? 256) && negb (c =? EQUALS) &&
        match CHAR_TO_B c with
        | Some (inl e) => (c =? PLUS) && (e =? - EINVAL)
        | Some (inr b') => negb (c =? PLUS) && (b' =? b)
        | None => false
        end
    | None => false end).
  assert (forallb good (seqZ 0 64) = true) as Hall by (vm_compute; reflexivity).
  rewrite forallb_forall in Hall. specialize (Hall b).
  assert (good b = true) as Hg.
  { apply Hall, list_elem_of_In, elem_of_seqZ. unfold sextet in Hb. lia. }
  unfold good in Hg. destruct (B_TO_CHAR b) as [c|]; [|done]. exists c. split; [done|].
  unfold char_ok. rewrite !andb_true_iff, negb_true_iff, Z.leb_le, Z.ltb_lt, Z.eqb_neq in Hg.
  destruct Hg as (((Hlo & Hhi) & Hne) & Hm). split_and!; try lia.
  destruct (CHAR_TO_B c) as [[e|b']|]; [..|done]; apply andb_true_iff in Hm as [H1 H2%Z.eqb_eq].
  - by rewrite H1, H2.
  - apply negb_true_iff in H1. by rewrite H1, H2.
Qed.

(** * Decoding what was encoded *)

Lemma list_ind3 {A} (P : list A -> Prop) :
  P [] -> (forall a, P [a]) -> (forall a b, P [a; b]) ->
  (forall a b c l, P l -> P (a :: b :: c :: l)) -> forall l, P l.
Proof. intros H0 H1 H2 H3. fix IH 1. intros [|a [|b [|c l]]]; [done|done|done|apply H3, IH]. Qed.

(** The decoder gives the text back, unless it meets the character it does not
    know: then it stops there. *)
Definition decodes (r : option (Z * list Z)) (coded plain : list Z) : Prop :=
  if decide (PLUS ∈ coded)
  then exists w, r = Some (- EINVAL, w) /\ w `prefix_of` plain
  else r = Some (0, plain).

Lemma decodes_with_b c b k coded plain :
  CHAR_TO_B c = Some (if c =? PLUS then inl (- EINVAL) else inr b) ->
  decodes (k b) coded plain -> decodes (with_b c k) (c :: coded) plain.
Proof.
  unfold decodes, with_b. intros -> Hk. destruct (Z.eqb_spec c PLUS) as [->|Hc]; cbn [mbind option_bind].
  - rewrite decide_True by set_solver. exists []. split; [done|apply prefix_nil].
  - destruct (decide (PLUS ∈ coded)); [rewrite decide_True by set_solver|rewrite decide_False by set_solver]; done.
Qed.

Lemma decodes_put w r coded plain : decodes r coded plain -> decodes (put w r) coded (w ++ plain).
Proof.
  unfold decodes, put. case_decide; [intros (w' & -> & Hp)|intros ->]; cbn [mbind option_bind]; [|done].
  exists (w ++ w'). split; [done|by apply prefix_app].
Qed.

Lemma decodes_done coded : PLUS ∉ coded -> decodes (Some (0, [])) coded [].
Proof. intros Hn. unfold decodes. by rewrite decide_False. Qed.

(** What the last two characters tell of the length. *)
Definition pad (c : Z) : Z := if c =? EQUALS then 1 else 0.

Definition tail_ok (coded : list Z) (n : Z) : Prop :=
  exists pre x y, coded = pre ++ [x; y] /\ n = zlen coded / 4 * 3 - pad x - pad y.

Record encoded (plain coded : list Z) : Prop := {
  enc_len : zlen coded = (zlen plain + 2) / 3 * 4;
  enc_tail : plain <> [] -> tail_ok coded (zlen plain);
  enc_decodes : plain <> [] -> decodes (decode_loop coded) coded plain;
}.

Lemma not_equals c : c <> EQUALS -> pad c = 0 /\ negb (c =? EQUALS) = true.
Proof. unfold pad. intros ?%Z.eqb_neq. by rewrite H. Qed.

Lemma encode_one c1 : char_ok c1 -> exists coded, encode_loop [c1] = Some coded /\ encoded [c1] coded.
Proof.
  intros H1. assert (char_ok 0) as H0 by done.
  destruct (make_b_range c1 0 0 H1 H0 H0) as (R1 & R2 & _ & _).
  destruct (make_char_inverse c1 0 0 H1 H0 H0) as (I1 & _ & _).
  destruct (tables_inverse _ R1) as (o1 & E1 & _ & N1 & D1), (tables_inverse _ R2) as (o2 & E2 & _ & N2 & D2).
  exists [o1; o2; EQUALS; EQUALS]. cbn [encode_loop]. rewrite E1. cbn [mbind option_bind]. rewrite E2.
  split; [done|]. split; [done| |]; intros _.
  - by exists [o1; o2], EQUALS, EQUALS.
  - cbn [decode_loop]. unfold decode_last. eapply decodes_with_b; [done|]. eapply decodes_with_b; [done|].
    rewrite I1. change [c1] with ([c1] ++ []). apply decodes_put, decodes_done. set_solver.
Qed.

Lemma encode_two c1 c2 : char_ok c1 -> char_ok c2 ->
  exists coded, encode_loop [c1; c2] = Some coded /\ encoded [c1; c2] coded.
Proof.
  intros H1 H2. assert (char_ok 0) as H0 by done.
  destruct (make_b_range c1 c2 0 H1 H2 H0) as (R1 & R2 & R3 & _).
  destruct (make_char_inverse c1 c2 0 H1 H2 H0) as (I1 & I2 & _).
  destruct (tables_inverse _ R1) as (o1 & E1 & _ & N1 & D1), (tables_inverse _ R2) as (o2 & E2 & _ & N2 & D2),
    (tables_inverse _ R3) as (o3 & E3 & _ & [P3 N3]%not_equals & D3).
  exists [o1; o2; o3; EQUALS]. cbn [encode_loop]. rewrite E1. cbn [mbind option_bind]. rewrite E2.
  cbn [mbind option_bind]. rewrite E3. split; [done|]. split; [done| |]; intros _.
  - exists [o1; o2], o3, EQUALS. by rewrite P3.
  - cbn [decode_loop]. unfold decode_last. eapply decodes_with_b; [done|]. eapply decodes_with_b; [done|].
    rewrite I1, N3. change [c1; c2] with ([c1] ++ [c2] ++ []). apply decodes_put.
    eapply decodes_with_b; [done|]. rewrite I2. apply decodes_put, decodes_done. set_solver.
Qed.

Lemma tail_ok_app coded n o1 o2 o3 o4 :
  tail_ok coded n -> tail_ok (o1 :: o2 :: o3 :: o4 :: coded) (n + 3).
Proof.
  intros (pre & x & y & -> & ->). exists (o1 :: o2 :: o3 :: o4 :: pre), x, y. split; [done|].
  change (o1 :: o2 :: o3 :: o4 :: pre ++ [x; y]) with ([o1; o2; o3; o4] ++ pre ++ [x; y]).
  rewrite (zlen_app [o1; o2; o3; o4]). change (zlen [o1; o2; o3; o4]) with (1 * 4).
  rewrite (Z.add_comm (1 * 4)), Z.div_add by done. lia.
Qed.

(** A whole group, last or not. *)
Lemma decode_group o1 o2 o3 o4 b1 b2 b3 b4 c1 c2 c3 coded plain :
  let knows o b := o <> EQUALS /\ CHAR_TO_B o = Some (if o =? PLUS then inl (- EINVAL) else inr b) in
  knows o1 b1 -> knows o2 b2 -> knows o3 b3 -> knows o4 b4 ->
  MAKE_CHAR1 b1 b2 = c1 -> MAKE_CHAR2 b2 b3 = c2 -> MAKE_CHAR3 b3 b4 = c3 ->
  (coded = [] -> plain = []) ->
  (coded <> [] -> decodes (decode_loop coded) coded plain) ->
  decodes (decode_loop (o1 :: o2 :: o3 :: o4 :: coded)) (o1 :: o2 :: o3 :: o4 :: coded) (c1 :: c2 :: c3 :: plain).
Proof.
  intros knows [_ D1] [_ D2] [[_ N3]%not_equals D3] [[_ N4]%not_equals D4] I1 I2 I3 He Hd. cbn [decode_loop].
  destruct coded as [|d coded].
  - rewrite He by done. unfold decode_last. change [c1; c2; c3] with ([c1] ++ [c2] ++ [c3] ++ []). rewrite N3, N4.
    do 2 (eapply decodes_with_b; [done|]). rewrite I1. apply decodes_put.
    eapply decodes_with_b; [done|]. rewrite I2. apply decodes_put.
    eapply decodes_with_b; [done|]. rewrite I3. apply decodes_put, decodes_done. set_solver.
  - do 4 (eapply decodes_with_b; [done|]). rewrite I1, I2, I3.
    change (c1 :: c2 :: c3 :: plain) with ([c1; c2; c3] ++ plain). by apply decodes_put, Hd.
Qed.

Lemma encode_three c1 c2 c3 plain coded : char_ok c1 -> char_ok c2 -> char_ok c3 ->
  encode_loop plain = Some coded -> encoded plain coded ->
  exists coded, encode_loop (c1 :: c2 :: c3 :: plain) = Some coded /\ encoded (c1 :: c2 :: c3 :: plain) coded.
Proof.
  intros H1 H2 H3 E [Hl Ht Hd].
  destruct (make_b_range c1 c2 c3 H1 H2 H3) as (R1 & R2 & R3 & R4).
  destruct (make_char_inverse c1 c2 c3 H1 H2 H3) as (I1 & I2 & I3).
  destruct (tables_inverse _ R1) as (o1 & E1 & _ & N1 & D1), (tables_inverse _ R2) as (o2 & E2 & _ & N2 & D2),
    (tables_inverse _ R3) as (o3 & E3 & _ & N3 & D3), (tables_inverse _ R4) as (o4 & E4 & _ & N4 & D4).
  exists (o1 :: o2 :: o3 :: o4 :: coded). cbn [encode_loop]. rewrite E1. cbn [mbind option_bind]. rewrite E2.
  cbn [mbind option_bind]. rewrite E3. cbn [mbind option_bind]. rewrite E4. cbn [mbind option_bind].
  rewrite E. split; [done|].
  assert (zlen (c1 :: c2 :: c3 :: plain) = zlen plain + 3) as En by (unfold zlen; cbn [length]; lia).
  assert (plain = [] <-> coded = []) as He.
  { split; intros ->; [by injection E|]. unfold zlen in Hl. cbn in Hl.
    destruct plain; [done|]. cbn [length] in Hl. Z.div_mod_to_equations. lia. }
  split.
  - rewrite En. replace (zlen plain + 3 + 2) with (zlen plain + 2 + 1 * 3) by lia.
    rewrite Z.div_add by done. unfold zlen in *. cbn [length]. lia.
  - intros _. rewrite En. destruct plain as [|p plain]; [|by apply tail_ok_app, Ht].
    destruct He as [-> _]; [|done]. exists [o1; o2], o3, o4. split; [done|].
    destruct (not_equals o3 N3) as [-> _], (not_equals o4 N4) as [-> _]. done.
  - intros _. eapply decode_group; try done; [tauto|]. intros. apply Hd. tauto.
Qed.

Lemma encode_ok plain : Forall char_ok plain -> exists coded, encode_loop plain = Some coded /\ encoded plain coded.
Proof.
  induction plain as [|c|c d|c1 c2 c3 plain IH] using list_ind3; intros H; inv H.
  - by exists [].
  - by apply encode_one.
  - apply encode_two; [done|]. by inv H3.
  - inv H3. inv H4. destruct IH as (coded & E & He); [done|]. by eapply encode_three.
Qed.

(** * Decoding anything *)

Lemma char_to_b_total c : char_ok c -> exists r, CHAR_TO_B c = Some r /\ forall e, r = inl e -> e = - EINVAL.
Proof.
  intros Hc. unfold CHAR_TO_B. destruct (znth_lt char2b c) as [b ->]; [by vm_compute zlen|].
  cbn [mbind option_bind]. eexists. split; [done|]. case_match; congruence.
Qed.

(** The call returns, and writes no more than [n] characters. *)
Definition safe (r : option (Z * list Z)) (n : Z) : Prop :=
  exists e out, r = Some (e, out) /\ (e = 0 \/ e = - EINVAL) /\ zlen out <= n.

Lemma safe_with_b c k n : char_ok c -> 0 <= n -> (forall b, safe (k b) n) -> safe (with_b c k) n.
Proof.
  intros Hc Hn Hk. unfold with_b. destruct (char_to_b_total c Hc) as (r & -> & He). cbn [mbind option_bind].
  destruct r as [e|b]; [|apply Hk]. exists e, []. split_and!; [done| |done]. right. by apply He.
Qed.

Lemma safe_put w r n : safe r n -> safe (put w r) (zlen w + n).
Proof.
  intros (e & out & -> & He & Hl). unfold put. cbn [mbind option_bind]. exists e, (w ++ out).
  rewrite zlen_app. split_and!; [done|done|lia].
Qed.

Lemma safe_done n : 0 <= n -> safe (Some (0, [])) n.
Proof. intros. exists 0, []. split_and!; [done|by left|done]. Qed.

Lemma decode_last_safe c1 c2 c3 c4 : Forall char_ok [c1; c2; c3; c4] ->
  safe (decode_last c1 c2 c3 c4) (3 - pad c3 - pad c4).
Proof.
  rewrite !Forall_cons. intros (H1 & H2 & H3 & H4 & _). unfold decode_last, pad.
  repeat (apply safe_with_b; [done| |intros ?]); try (repeat case_match; lia).
  replace (3 - _ - _) with (zlen [MAKE_CHAR1 b b0] + (2 - (if c3 =? EQUALS then 1 else 0) - (if c4 =? EQUALS then 1 else 0)))
    by (unfold zlen; cbn; lia).
  apply safe_put. destruct (c3 =? EQUALS); cbn [negb]; [apply safe_done; case_match; lia|].
  apply safe_with_b; [done|case_match; lia|intros b3].
  replace (2 - _ - _) with (zlen [MAKE_CHAR2 b0 b3] + (1 - (if c4 =? EQUALS then 1 else 0)))
    by (unfold zlen; cbn; lia).
  apply safe_put. destruct (c4 =? EQUALS); cbn [negb]; [by apply safe_done|].
  apply safe_with_b; [done..|intros b4]. change (1 - 0) with (zlen [MAKE_CHAR3 b3 b4] + 0). by apply safe_put, safe_done.
Qed.

Lemma decode_loop_safe k : forall coded, Forall char_ok coded -> zlen coded = 4 * Z.of_nat (S k) ->
  exists n, tail_ok coded n /\ 0 < n <= zlen coded / 4 * 3 /\ safe (decode_loop coded) n.
Proof.
  induction k as [|k IH]; intros [|c1 [|c2 [|c3 [|c4 coded]]]] Hc Hl; unfold zlen in Hl; cbn [length] in Hl; try lia.
  - destruct coded; cbn [length] in Hl; [|lia]. exists (3 - pad c3 - pad c4). cbn [decode_loop].
    split_and!; [by exists [c1; c2], c3, c4|unfold pad; repeat case_match; lia..| |by apply decode_last_safe].
    change (zlen [c1; c2; c3; c4] / 4 * 3) with 3. unfold pad; repeat case_match; lia.
  - rewrite !Forall_cons in Hc. destruct Hc as (H1 & H2 & H3 & H4 & Hc).
    destruct (IH coded Hc) as (n & Ht & Hn & Hs); [unfold zlen; lia|]. exists (n + 3).
    split_and!; [by apply tail_ok_app|lia| |].
    + replace (zlen _) with (zlen coded + 1 * 4) by (unfold zlen; cbn [length]; lia). rewrite Z.div_add; lia.
    + cbn [decode_loop]. destruct coded as [|d coded]; [cbn [length] in Hl; lia|].
      repeat (apply safe_with_b; [done|lia|intros ?]). rewrite Z.add_comm. by apply (safe_put [_; _; _]).
Qed.

Section Theorems.
Context `{A : arch} `{!ArchOk A}.

Lemma plain_len_ok coded n : zlen coded < 2 ^ LONG_BIT -> tail_ok coded n -> 0 <= n ->
  b64_plain_len coded (zlen coded) = Some n.
Proof.
  intros Hl (pre & x & y & -> & ->) Hn. unfold b64_plain_len.
  pose proof (zlen_nonneg pre) as Hp. rewrite zlen_app in *. change (zlen [x; y]) with 2 in *.
  set (s := (zlen pre + 2) / 4 * 3) in *.
  assert (0 <= s < 2 ^ LONG_BIT) as Hs by (unfold s; Z.div_mod_to_equations; lia).
  rewrite !znth_app by lia.
  replace (zlen pre + 2 - 1 - zlen pre) with 1 by lia. replace (zlen pre + 2 - 2 - zlen pre) with 0 by lia.
  assert (znth [x; y] 1 = Some y /\ znth [x; y] 0 = Some x) as [Ey Ex] by done.
  zbool; try lia. rewrite Ey, Ex. cbn [mbind option_bind].
  rewrite (ul_small s) by done. unfold pad in *. f_equal.
  repeat case_match; rewrite ?(ul_small (s - 1)) by lia; rewrite ?ul_small by lia; lia.
Qed.

(** C26: encoding a text of bytes into a buffer that is large enough succeeds
    and writes exactly [b64_coded_len] characters.  Decoding them gives the text
    back, with no more room than the text needs, exactly when the code has no
    [+]: the decoder's table has the value of [+] one place too early, and on a
    [+] it returns [-EINVAL] after a part of the text.  A buffer smaller than
    the text is refused before anything is written. *)
Theorem b64_roundtrip plain sz :
  Forall char_ok plain -> (zlen plain + 2) / 3 * 4 <= sz < 2 ^ LONG_BIT ->
  exists coded, b64_encode (Some plain) (Some sz) true = Some (0, coded) /\
    zlen coded = b64_coded_len (zlen plain) /\
    (forall sz', 0 <= sz' < zlen plain -> b64_decode (Some coded) (Some sz') true = Some (- ENOMEM, [])) /\
    forall sz', zlen plain <= sz' ->
      (PLUS ∉ coded -> b64_decode (Some coded) (Some sz') true = Some (0, plain)) /\
      (PLUS ∈ coded -> exists w, b64_decode (Some coded) (Some sz') true = Some (- EINVAL, w) /\ w `prefix_of` plain).
Proof.
  intros Hc Hsz. pose proof (zlen_nonneg plain) as Hn.
  destruct (encode_ok plain Hc) as (coded & E & [Hl Ht Hd]). exists coded.
  assert (b64_coded_len (zlen plain) = (zlen plain + 2) / 3 * 4) as Ec.
  { assert (2 ^ 32 <= 2 ^ LONG_BIT) by (pose proof long_bit_ge_32; apply Z.pow_le_mono_r; lia).
    assert (0 <= zlen plain + 2 < 2 ^ LONG_BIT) by (Z.div_mod_to_equations; lia).
    unfold b64_coded_len. rewrite (ul_small (zlen plain + 2)) by done.
    apply ul_small. Z.div_mod_to_equations. lia. }
  split; [|split; [congruence|]].
  { unfold b64_encode. rewrite Ec, E. zbool; [lia|done]. }
  assert (plain = [] \/ plain <> []) as [->|Hp] by (destruct plain; auto).
  { injection E as <-. split; [intros; change (zlen []) with 0 in *; lia|]. intros sz' _. split; [done|].
    by intros ?%elem_of_nil. }
  assert (forall sz', b64_decode (Some coded) (Some sz') true =
    if zlen plain >? sz' then Some (- ENOMEM, []) else decode_loop coded) as ED.
  { intros sz'. unfold b64_decode. rewrite plain_len_ok with (n := zlen plain); [|lia|by apply Ht|done].
    rewrite Hl at 1. rewrite Z.mod_mul by done. cbn [negb orb Z.eqb mbind option_bind].
    destruct (Z.eqb_spec (zlen coded) 0) as [E0|]; [|done]. destruct plain; [done|].
    unfold zlen in Hl, E0. cbn [length] in Hl. Z.div_mod_to_equations. lia. }
  specialize (Hd Hp). unfold decodes in Hd. split; intros sz' Hs; rewrite ED; zbool; try lia; [done|].
  destruct (decide (PLUS ∈ coded)); split; intros; try done.
Qed.

(** C30: decoding any bytes into any buffer returns 0, [-EINVAL] or [-ENOMEM],
    never reads outside its input or its table, and never writes more than the
    buffer holds, whatever the padding at the end says. *)
Theorem b64_decode_safe coded sz out_sz :
  Forall char_ok coded -> zlen coded < 2 ^ LONG_BIT -> 0 <= sz ->
  exists e out, b64_decode (Some coded) (Some sz) out_sz = Some (e, out) /\
    (e = 0 \/ e = - EINVAL \/ e = - ENOMEM) /\ zlen out <= sz /\
    (e <> - ENOMEM -> zlen out <= zlen coded / 4 * 3).
Proof.
  intros Hc Hl Hsz. pose proof (zlen_nonneg coded) as Hn. unfold b64_decode.
  assert (0 <= zlen coded / 4 * 3) as Hd by (Z.div_mod_to_equations; lia).
  destruct (Z.eqb_spec (zlen coded mod 4) 0) as [Hm|]; cbn [negb orb]; [|exists (- EINVAL), []; auto 6].
  destruct out_sz; cbn [negb]; [|exists (- EINVAL), []; auto 6].
  destruct (Z.eqb_spec (zlen coded) 0) as [|Hz]; [exists 0, []; auto 6|].
  destruct (decode_loop_safe (Z.to_nat (zlen coded / 4 - 1)) coded Hc) as (n & Ht & Hr & e & out & E & He & Ho).
  { Z.div_mod_to_equations. lia. }
  rewrite (plain_len_ok coded n Hl Ht) by lia. cbn [mbind option_bind]. zbool; [exists (- ENOMEM), []; auto 6|].
  exists e, out. split_and!; [done|tauto|lia|lia].
Qed.

End Theorems.

(** * Examples *)

#[local] Existing Instance lp64.

Lemma b64_roundtrip_witness :
  let plain := [77; 97; 110; 32] in
  exists coded, b64_encode (Some plain) (Some 8) true = Some (0, coded) /\
    b64_decode (Some coded) (Some 4) true = Some (0, plain).
Proof.
  cbn zeta. assert (Forall char_ok [77; 97; 110; 32]) as Hc by (repeat constructor; done).
  destruct (b64_roundtrip [77; 97; 110; 32] 8 Hc) as (coded & E & _ & _ & H); [done|].
  exists coded. split; [exact E|]. apply (H 4); [done|].
  vm_compute in E. injection E as <-. vm_compute. set_solver.
Defined.

Lemma b64_decode_safe_witness :
  exists e out, b64_decode (Some [77; 61; 61; 61; 42; 42; 61; 65]) (Some 4) true = Some (e, out) /\ zlen out <= 4.
Proof.
  destruct (b64_decode_safe [77; 61; 61; 61; 42; 42; 61; 65] 4 true) as (e & out & E & _ & H & _);
    [repeat constructor; done|done|done|]. by exists e, out.
Defined.
